(* ===== verification/_CoqProject ===== *)
-Q . S2P
Prelude.v
GoLib.v
GoFmt.v
Words.v
Md5Sum.v
Util.v
BlowfishTables.v
Blowfish.v
Encrypt.v
Fcgi.v
Regex.v
Base64.v
Json.v
Schema.v
Storage.v
Callbacks.v
Protocol.v
Stats.v
Requests.v
UpdateLock.v
ProjConfig.v
SrvLock.v
DebugConfig.v
Compile.v
NewValue.v
Update.v
Recheck.v
Marshal.v
Watcher.v
Registry.v
WatchStream.v
SharedMap.v
Handler.v
PostUpdate.v
System.v
Wire.v
Config.v
HostFiles.v
Server.v
Main.v
Handover.v
LocalWatch.v
Debounce.v
Notify.v
Propagate.v
Monitor.v
Logger.v
