(* ===== verification/Prelude.v ===== *)
(** * The dove client: a development of its core in Rocq

    The program (Go, src/) is a daemon that keeps the configuration of the
    applications on a machine up to date.  It watches configuration names on an
    etcd server, keeps decrypted copies in memory and encrypted ones in a local
    database, compiles schema files (PHP and TOML templates) whenever a value
    changes, runs callbacks and scripts afterwards, and answers requests for
    configurations over a local socket.

    ** Files and the code they model

    Foundations.
    - [Prelude]: byte strings, outcomes (a Go call returns or panics), tactics,
      lists, counting of goroutines, [steps] of a relation.
    - [GoLib], [GoFmt], [Regex], [Base64], [Json], [Marshal], [Words]: what the
      client uses of Go's strings, strconv, fmt, regexp, encoding/base64,
      encoding/json and fixed-width integers; [Md5Sum]: crypto/md5.
    - [Util]: util/utils.go.

    Encryption.
    - [BlowfishTables], [Blowfish]: the vendored cipher; [Encrypt]:
      encrypt/encrypt.go.

    Storage and sources of values.
    - [Storage]: storage/mem.go ([Mem]), storage/leveldb ([LevelDB], over the class
      [GoLevelDB]), storage/zk ([Zk], over the class [EtcdKV]).
    - [ProjConfig], [SrvLock], [DebugConfig]: projconfig/projconfig.go and
      debugconfig.go, over the class [LocalDisk] that the leveldb connection
      implements.
    - [NewValue]: GetNewValueOfConfig of configwatcher/zk_watcher.go.

    Schema files.
    - [Schema]: configschema/configschema.go; [Compile]: compile,
      compileSchemaFile and compileTomlFile of configwatcher/zk_watcher.go.

    Updates.
    - [UpdateLock]: getUpdateLock and releaseUpdateLock; [Update]:
      updateProjectConfigByRootNode; [PostUpdate]: updateProjectConfigBySchemafile,
      invokeCallbacks, invokeCallbackScripts and the goroutines behind an update;
      [Debounce]: getLockOfExecCallback, getLockOfExecResultReporting; [Recheck]:
      configwatcher/zk_recheck.go; [Watcher], [Registry]: the watch list, gcWatcher
      (gc_watcher.go) and the registered configurations; [LocalWatch]:
      configwatcher/local_watcher.go; [Monitor]: registerMonitor and
      saveUpdateResults.
    - [WatchStream]: watchItem between etcd's streams and its updates, and the order
      of configwatcher.Start; [SharedMap]: the Go maps that goroutines share.
    - [Callbacks]: callbacks/callback.go; [Fcgi]: callbacks/fcgiclient.

    Serving.
    - [Protocol]: requests and responses of connection/conn_handler.go and
      handler/base.go; [Server]: its accept loop, counters and stop; [Stats]:
      connection/statistics.go; [Requests]: the two goroutines of a request and the
      way of its messages to the statistics; [Handler]: handler/project_config.go.

    The parts together.
    - [System]: requests, updates, publications and restarts interleaved in one
      process; [Wire]: a connection of [Protocol] on that process.
    - [Notify]: the record of updates that updates write and the goroutines of the
      scripts read and empty, a statement per step; [Propagate]: one update of
      [System] to the scripts it runs.

    The process.
    - [Config]: config/setup_config.go, config/utils.go; [HostFiles]: Rchmod, Rchown
      and GetLocalIp of config/utils.go; [Main]: main.go, doveclient.go,
      proc/proc_control.go; [Handover]: the listening sockets and the restart by
      SIGUSR2; [Logger]: logger/logger.go.

    ** How the parts interact

    A request ([Protocol]) reaches [Handler], which registers the name ([Watcher],
    [Registry]) and takes the value from [ProjConfig] or [NewValue].  An event of a
    watch or of the file system ([LocalWatch]) starts [Update] or [PostUpdate]
    under [UpdateLock]; both fetch through [NewValue], fill templates with
    [Compile], and record the names that changed in [Callbacks]; two seconds later a
    goroutine runs the callbacks and scripts, which [Debounce] limits to the last
    request (for a schema file; after a root update the refusal is only logged).  What failed goes to [Recheck], the result to
    [Monitor].  Where a component is used through an interface its laws are a class
    or the hypotheses of a section: [LocalDisk], [GoLevelDB] and [EtcdKV] with
    instances by maps, the sources and [compile] as arguments of [Update] and
    [PostUpdate] ([compile_records] discharges the law [PostUpdate] asks for).
    [System] puts these functions, not simplified copies of them, in one process:
    it splits the reads of a request or of a root update from its writes, proves that
    the two together are the function of the other file ([GetConfig_split],
    [Process_answer], [update_stored]) and interleaves them; the database is any
    [LocalDisk] that satisfies [HonestDisk] (a read invents no value).  What is one
    step there: the reads of a request, with the registration of its name and the
    saving of the registered names; each write of a request or of the goroutine it
    starts; a request that waits for another one's fetch, and its second look into
    memory; the reads of a root update, with what its compilations store through
    GetConfig and with the files they write; each write of the update after that to
    the database and to memory; the whole update of a schema file, with what it saves.
    An update is alone with the update lock, but within such a step nothing else
    happens, so that a request between two fetches of one update is not covered.

    ** The state and the steps

    Sequential code is a function on the state it changes; fallible code returns
    [result], code that may panic an [outcome].  Concurrent code is a step relation
    on a record with the channels, locks and goroutines of the package, one
    constructor or number per place a goroutine can stop: [UpdateLock], [SrvLock],
    [Recheck], [Watcher], [Debounce], [Requests], [Server], [Handover], [System],
    [WatchStream], [SharedMap], [Notify].  A section under a mutex in which
    nothing can block is one step.  Variables that are read and written without a lock
    are read and written in steps of their own where that matters: the statement list
    of [SharedMap], the two reads of currentSegIndex with the objects they share in
    [Requests] and [Stats], the reads and assignments of [Notify].  Their invariants are proved by induction on
    [steps]; runs are lists of moves that evaluate.

    ** What the theorems show

    - The client: every answer is a published value or an error, whatever the
      interleaving of requests, updates, publications and restarts ([system_refines],
      a refinement of the specification [spec_step]), down to the bytes of the socket
      ([wire_answers_published]); from a memory that agrees with the database, after
      an update that runs alone the answer is the server's value
      ([update_then_answer]), but an overlapping request can leave an old one
      ([stale_after_race]); a request that waits for another one's fetch takes what it
      left ([waiting_request]).
    - Values: what is published or saved is what is read ([GetConfig_restart],
      [GetFromServer_published], [Decrypt_Encrypt], [registry_restart],
      [reports_kept]); a saved update is not reported again ([update_settles]).
    - Updates: what is fetched, compiled and queued ([update_covers],
      [update_compiles_changed], [update_only_below], [schema_update_nodes],
      [schema_update_recheck]); which commands run ([scripts_run],
      [last_request_wins], [event_handled]); a changed value reaches its scripts
      ([change_reaches_scripts]).  Without interference the record of updates loses
      nothing ([notes_reach_scripts], [alone_is_callback_scripts]); with it a node or
      a file can be lost ([node_lost], [file_lost]), their pair ([file_without_node]),
      or a node for the main scripts only ([main_scripts_miss]).
    - Templates: [compileSchemaFile_template], [placeholders_scan].
    - Locks: one update at a time, none lost, no deadlock ([update_lock_safe],
      [update_not_lost], [update_lock_live]); one fetch per name among the callers of
      getLockOfSrv ([srv_lock_exclusive]); rechecks stay pending ([recheck_kept]), but the queue
      can deadlock ([recheck_deadlock]).
    - Watches: registered roots are watched until they are signalled
      ([registered_roots_watched]), unused ones are signalled ([gc_round_spec]) and
      never watched again ([unwatched_for_good]), which stops the collector
      ([gc_blocks]).  Every publication is updated, can still be delivered, or was
      lost with a stream ([watch_accounts], [healthy_watch_covers];
      [lost_between_streams], [lost_in_replaced_stream]).  The accessors with a lock
      behave as one map ([locked_linearizable]); the ranges without it can end the
      process ([range_crashes], [gc_range_crashes]).
    - Serving: [HandleConn_serves], [HandleConn_fatal_request],
      [connections_counted], [user_counter_exact], [stop_signals_suffice], and
      [stop_deadlock]; the statistics settle and the segments count what was handed
      over ([stats_drain], [requests_counted]), but the end of a minute can count it
      twice ([minute_counted_twice]) and a request that timed out leaves a goroutine
      ([timed_out_leaks]); the console answers ([console_serves]).
    - The process: where settings come from ([ParseExtraConfig_lines],
      [Setup_precedence], [Setup_env_wins], [Setup_checks_keys]); one instance of a
      user ([single_instance], [foreign_instance]), the daemon's arguments
      ([daemon_args_same], [daemon_chain], [words_lost]), [daemon_start_seen],
      [log_lines]; the local address stays served during a restart whose child is in
      time ([hand_over_serves], [slow_child], [hand_over_failed],
      [hand_over_dead_child]); [walk_calls],
      [main_rest_quits], [startTransiIntance_spec].

    Where the code does not do what it means to, an example or a theorem shows it
    on a concrete run, and the doc comments say so.

    ** Integers, bounds and fuel

    Go's [int] and [int64] values that cannot reach their bounds are [Z]; the
    counter of users is modulo 2^64, the words of the cipher modulo 2^32, record
    lengths modulo 2^16.  float64 is a mantissa and an exponent ([json_float]).
    Recursions that are not structural have fuel: [TraverseTomlAsJson] the depth of
    the tree ([TomlToJson_total]), [parse_value] and [unquote] the length of
    the text plus one, [Itoa] the binary logarithm; theorems about them prove that
    this fuel gives a result.

    ** Not modelled

    The transport of etcd, gzip, the text of a time, leases, and the making of files
    and processes are results the model receives; the loop that accepts the console's
    connections is left out.  In [System] DEV mode is off.  What a shell makes of
    words with special characters and what sudo does are parameters of [Main].
    Left out are the text of the help, the methods of doveclient.go that only call
    another package, Windows paths, settings.pack.toml.go (data), scripts/
    (development tools) and storage/etcd (which does not compile).  Third-party
    packages (go-toml's parser, goleveldb, the etcd client, fsnotify) are arguments or
    classes. *)

From Stdlib Require Export Ascii ZArith Lia.
From stdpp Require Export base gmap strings numbers.
From stdpp Require Export list.

(** ** Byte strings

    Go's [string] and [[]byte] are both sequences of 8-bit bytes; the
    conversions [string(b)] and [[]byte(s)] keep every byte.  Both are modelled
    by lists of [ascii].  Where the code distinguishes a nil slice from an
    empty one the model uses [option]. *)

Abbreviation str := (list ascii).

Declare Scope dove_scope.
Delimit Scope dove_scope with dove.

Notation "$ s" := (String.list_ascii_of_string s%string)
  (at level 1, format "$ s") : dove_scope.
#[global] Open Scope dove_scope.

Definition Z_of_byte (a : ascii) : Z := Z.of_N (N_of_ascii a).
Definition byte_of_Z (z : Z) : ascii := ascii_of_N (Z.to_N (z mod 256)).

(** The zero byte of [make([]byte, n)]. *)
Definition byte0 : ascii := Ascii.zero.
Definition make_bytes (n : nat) : str := replicate n byte0.

(** ** Outcomes: a Go call returns or panics *)

Inductive outcome (A : Type) : Type :=
| Done (a : A)
| Panic (why : str).
Arguments Done {A} a.
Arguments Panic {A} why.

#[export] Instance outcome_ret : MRet outcome := fun A a => Done a.
#[export] Instance outcome_bind : MBind outcome := fun A B f o =>
  match o with Done a => f a | Panic w => Panic w end.
#[export] Instance outcome_fmap : FMap outcome := fun A B f o =>
  match o with Done a => Done (f a) | Panic w => Panic w end.

(** [value, error] results: [inl err] when [error != nil]. *)
Abbreviation error := (list ascii) (only parsing).
Abbreviation result A := (sum error A).

(** A pair [(v, err)] as Go returns it, where both parts may be meaningful. *)
Abbreviation errval := (option error) (only parsing).

(** ** Automation *)

Create HintDb dove.
Create Rewrite HintDb dove_rw.

(** Split a conditional or a match of the goal or of a hypothesis and keep the
    equation. *)
Ltac split_match :=
  match goal with
  | |- context [match ?x with _ => _ end] =>
      lazymatch x with
      | context [match _ with _ => _ end] => fail
      | _ => let E := fresh "E" in destruct x eqn:E
      end
  end.

Ltac split_match_in H :=
  match type of H with
  | context [match ?x with _ => _ end] =>
      lazymatch x with
      | context [match _ with _ => _ end] => fail
      | _ => let E := fresh "E" in destruct x eqn:E
      end
  end.

(** Decide by case analysis on every test of the goal. *)
Ltac crush_match := repeat (split_match; simplify_eq/=); try done.

(** Reflect boolean tests of the context to propositions. *)
Ltac bool_to_prop :=
  repeat match goal with
  | H : andb _ _ = true |- _ => apply andb_true_iff in H; destruct H
  | H : orb _ _ = false |- _ => apply orb_false_iff in H; destruct H
  | H : negb _ = true |- _ => apply negb_true_iff in H
  | H : negb _ = false |- _ => apply negb_false_iff in H
  | H : bool_decide _ = true |- _ => apply bool_decide_eq_true in H
  | H : bool_decide _ = false |- _ => apply bool_decide_eq_false in H
  | H : Z.leb _ _ = true |- _ => apply Z.leb_le in H
  | H : Z.leb _ _ = false |- _ => apply Z.leb_gt in H
  | H : Z.ltb _ _ = true |- _ => apply Z.ltb_lt in H
  | H : Z.ltb _ _ = false |- _ => apply Z.ltb_ge in H
  | H : Z.eqb _ _ = true |- _ => apply Z.eqb_eq in H
  | H : Z.eqb _ _ = false |- _ => apply Z.eqb_neq in H
  | H : Nat.eqb _ _ = true |- _ => apply Nat.eqb_eq in H
  | H : Nat.eqb _ _ = false |- _ => apply Nat.eqb_neq in H
  | H : Nat.leb _ _ = true |- _ => apply Nat.leb_le in H
  | H : Nat.leb _ _ = false |- _ => apply Nat.leb_gt in H
  | H : Nat.ltb _ _ = true |- _ => apply Nat.ltb_lt in H
  | H : Nat.ltb _ _ = false |- _ => apply Nat.ltb_ge in H
  end.

(** ** Bytes and integers *)

Lemma Z_of_byte_range a : (0 <= Z_of_byte a < 256)%Z.
Proof. unfold Z_of_byte. pose proof (N_ascii_bounded a). lia. Qed.

Lemma byte_of_Z_of_byte a : byte_of_Z (Z_of_byte a) = a.
Proof.
  unfold byte_of_Z. rewrite Z.mod_small by apply Z_of_byte_range.
  unfold Z_of_byte. by rewrite N2Z.id, ascii_N_embedding.
Qed.

Lemma Z_of_byte_of_Z z : Z_of_byte (byte_of_Z z) = (z mod 256)%Z.
Proof.
  unfold byte_of_Z, Z_of_byte.
  pose proof (Z.mod_pos_bound z 256 ltac:(lia)).
  rewrite N_ascii_embedding by lia. lia.
Qed.

Lemma Z_of_byte_inj a b : Z_of_byte a = Z_of_byte b → a = b.
Proof. intros H. by rewrite <- (byte_of_Z_of_byte a), H, byte_of_Z_of_byte. Qed.

#[export] Instance Z_of_byte_Inj : Inj (=) (=) Z_of_byte := Z_of_byte_inj.

#[export] Hint Resolve Z_of_byte_range : dove.
#[export] Hint Rewrite byte_of_Z_of_byte Z_of_byte_of_Z : dove_rw.

(** ** Lists *)

(** [for i := ...; i++ { if p(l[i]) break }]: the longest prefix satisfying
    [p] and the rest. *)
Fixpoint take_while {A} (p : A → bool) (l : list A) : list A :=
  match l with
  | [] => []
  | x :: l' => if p x then x :: take_while p l' else []
  end.

Fixpoint drop_while {A} (p : A → bool) (l : list A) : list A :=
  match l with
  | [] => []
  | x :: l' => if p x then drop_while p l' else l
  end.

Section while_lemmas.
Context {A : Type} (p : A → bool).
Implicit Types l k : list A.

Lemma take_drop_while l : take_while p l ++ drop_while p l = l.
Proof. induction l as [|x l IH]; simpl; [done|]. destruct (p x); simpl; by rewrite ?IH. Qed.

Lemma drop_while_all l : Forall (fun x => p x = true) l → drop_while p l = [].
Proof. induction 1 as [|x l Hx _ IH]; simpl; [done|]. by rewrite Hx. Qed.

Lemma drop_while_app_all l k :
  Forall (fun x => p x = true) l → drop_while p (l ++ k) = drop_while p k.
Proof. induction 1 as [|x l Hx _ IH]; simpl; [done|]. by rewrite Hx. Qed.

Lemma drop_while_stop x l : p x = false → drop_while p (x :: l) = x :: l.
Proof. simpl. by intros ->. Qed.

Lemma take_while_app_stop l x k :
  Forall (fun y => p y = true) l → p x = false → take_while p (l ++ x :: k) = l.
Proof. induction 1 as [|y l Hy _ IH]; simpl; intros Hx; rewrite ?Hx, ?Hy; by rewrite ?IH. Qed.

Lemma take_while_all l : Forall (fun x => p x = true) l → take_while p l = l.
Proof. induction 1 as [|x l Hx _ IH]; simpl; [done|]. by rewrite Hx, IH. Qed.

Lemma take_while_Forall l : Forall (fun x => p x = true) (take_while p l).
Proof. induction l as [|x l IH]; simpl; [constructor|]. destruct (p x) eqn:E; by repeat constructor. Qed.

Lemma drop_while_head l x k : drop_while p l = x :: k → p x = false.
Proof.
  induction l as [|y l IH]; simpl; [done|].
  destruct (p y) eqn:E; [done|]. by intros [= <- <-].
Qed.
End while_lemmas.

Lemma replicate_app {A} (x : A) n m : replicate n x ++ replicate m x = replicate (n + m) x.
Proof. induction n as [|n IH]; simpl; [done|]. by rewrite IH. Qed.

Lemma Forall_replicate_p {A} (P : A → Prop) n x : P x → Forall P (replicate n x).
Proof. intros Hx. induction n; simpl; by constructor. Qed.

Lemma Forall_rev_iff {A} (P : A → Prop) l : Forall P (rev l) ↔ Forall P l.
Proof. rewrite !List.Forall_forall. by setoid_rewrite <- List.in_rev. Qed.

(** ** Counting in a list of tasks

    The goroutines of a concurrent component are a list; a step replaces one of
    them, and counts change by what the step adds and removes. *)

Definition b2n (b : bool) : nat := if b then 1 else 0.

Fixpoint count {A} (p : A → bool) (l : list A) : nat :=
  match l with
  | [] => 0
  | x :: l' => b2n (p x) + count p l'
  end.

Lemma count_insert {A} (p : A → bool) l i x y :
  l !! i = Some x → count p (<[i := y]> l) + b2n (p x) = count p l + b2n (p y).
Proof.
  revert i. induction l as [|z l IH]; intros [|i]; simpl; try done.
  - intros [= ->]. lia.
  - intros H%IH. lia.
Qed.

Lemma count_pos {A} (p : A → bool) l : 0 < count p l ↔ ∃ i x, l !! i = Some x ∧ p x = true.
Proof.
  induction l as [|z l IH]; simpl.
  - split; [lia|]. intros (i & x & H & _). by rewrite lookup_nil in H.
  - split.
    + destruct (p z) eqn:E; [intros _; by exists 0, z|]. simpl. intros (i & x & ? & ?)%IH. by exists (S i), x.
    + intros ([|i] & x & H & Hp); simplify_eq/=; [rewrite Hp; simpl; lia|].
      assert (0 < count p l) by (apply IH; eauto). lia.
Qed.

Lemma count_ge_two {A} (p : A → bool) l i j x y :
  i ≠ j → l !! i = Some x → l !! j = Some y → p x = true → p y = true → 2 ≤ count p l.
Proof.
  revert i j. induction l as [|z l IH]; intros [|i] [|j] Hij; simpl; try done.
  - intros [= ->] Hj Hx Hy. rewrite Hx.
    assert (0 < count p l) by (apply count_pos; eauto). simpl. lia.
  - intros Hi [= ->] Hx Hy. rewrite Hy.
    assert (0 < count p l) by (apply count_pos; eauto). simpl. lia.
  - intros Hi Hj Hx Hy. assert (2 ≤ count p l) by (apply (IH i j); [congruence|done..]). lia.
Qed.

Lemma count_or {A} (p q r : A → bool) l :
  (∀ x, b2n (r x) = b2n (p x) + b2n (q x)) → count r l = count p l + count q l.
Proof. intros H. induction l as [|x l IH]; simpl; [done|]. rewrite H, IH. lia. Qed.

Lemma count_imp {A} (p q : A → bool) l : Forall (fun x => p x = true → q x = true) l → count p l ≤ count q l.
Proof.
  induction 1 as [|x l Hx _ IH]; simpl; [done|]. destruct (p x); [rewrite Hx by done|]; simpl; lia.
Qed.

Lemma count_zero {A} (p : A → bool) l : Forall (fun x => p x = false) l → count p l = 0.
Proof. induction 1 as [|x l Hx _ IH]; simpl; [done|]. by rewrite Hx, IH. Qed.

Lemma count_app {A} (p : A → bool) l k : count p (l ++ k) = count p l + count p k.
Proof. induction l as [|x l IH]; simpl; [done|]. rewrite IH. lia. Qed.

Lemma count_snoc {A} (p : A → bool) l x : count p (l ++ [x]) = count p l + b2n (p x).
Proof. rewrite count_app. simpl. lia. Qed.

(** Zero or more steps of a relation that acts on a state. *)
Inductive steps {S} (R : S → S → Prop) : S → S → Prop :=
| steps_refl s : steps R s s
| steps_one s1 s2 s3 : R s1 s2 → steps R s2 s3 → steps R s1 s3.
#[export] Hint Constructors steps : dove.

Lemma steps_trans {S} (R : S → S → Prop) s1 s2 s3 : steps R s1 s2 → steps R s2 s3 → steps R s1 s3.
Proof. induction 1; eauto with dove. Qed.

Lemma steps_inv {S} (R : S → S → Prop) (P : S → Prop) s s' :
  (∀ a b, R a b → P a → P b) → steps R s s' → P s → P s'.
Proof. intros HR. induction 1; eauto. Qed.
