(* ===== verification/GoLib.v ===== *)
(** * The parts of Go's standard library the client uses

    [strings], [bytes] and [strconv] on byte strings.  Every function is
    executable and follows the documented behaviour of the Go function of the
    same name; the lemmas are the facts the component files share: splitting
    and joining, trimming, replacing, and the decimal round trip of
    [strconv.Itoa] and [strconv.Atoi]. *)

From S2P Require Import Prelude.

(** ** strings *)

Definition HasPrefix (s p : str) : bool := bool_decide (p `prefix_of` s).
Definition HasSuffix (s p : str) : bool := bool_decide (p `suffix_of` s).

(** [strings.Index]: position of the first occurrence, [-1] when there is
    none. *)
Fixpoint index_from (sub s : str) (i : Z) : Z :=
  if HasPrefix s sub then i
  else match s with
       | [] => -1
       | _ :: s' => index_from sub s' (i + 1)
       end.
Definition Index (s sub : str) : Z := index_from sub s 0.

(** [strings.LastIndex] for a one-byte separator. *)
Fixpoint last_index_from (c : ascii) (s : str) (i best : Z) : Z :=
  match s with
  | [] => best
  | x :: s' => last_index_from c s' (i + 1) (if bool_decide (x = c) then i else best)
  end.
Definition LastIndexByte (s : str) (c : ascii) : Z := last_index_from c s 0 (-1).

Definition cons_head (x : ascii) (l : list str) : list str :=
  match l with [] => [[x]] | h :: t => (x :: h) :: t end.

(** [strings.Split] for a non-empty separator: [skip] counts the bytes of a
    separator still to be passed over. *)
Fixpoint split_skip (sep : str) (skip : nat) (s : str) : list str :=
  match s with
  | [] => [[]]
  | x :: s' =>
      match skip with
      | S k => split_skip sep k s'
      | O => if HasPrefix s sep then [] :: split_skip sep (length sep - 1) s'
             else cons_head x (split_skip sep 0 s')
      end
  end.
Definition Split (s sep : str) : list str := split_skip sep 0 s.

(** [strings.SplitN(s, c, 2)] for a one-byte separator. *)
Fixpoint SplitN2 (s : str) (c : ascii) : list str :=
  match s with
  | [] => [[]]
  | x :: s' => if bool_decide (x = c) then [[]; s'] else cons_head x (SplitN2 s' c)
  end.

Fixpoint Join (l : list str) (sep : str) : str :=
  match l with
  | [] => []
  | [x] => x
  | x :: l' => x ++ sep ++ Join l' sep
  end.

(** [strings.Replace] for a non-empty [old]; a negative [n] means every
    occurrence. *)
Fixpoint replace_skip (old new : str) (n : Z) (skip : nat) (s : str) : str :=
  match s with
  | [] => []
  | x :: s' =>
      match skip with
      | S k => replace_skip old new n k s'
      | O => if negb (n =? 0)%Z && HasPrefix s old
             then new ++ replace_skip old new (n - 1) (length old - 1) s'
             else x :: replace_skip old new n 0 s'
      end
  end.
Definition Replace (s old new : str) (n : Z) : str := replace_skip old new n 0 s.

Definition in_cutset (cutset : str) (x : ascii) : bool := bool_decide (x ∈ cutset).

Definition TrimLeft (s cutset : str) : str := drop_while (in_cutset cutset) s.
Definition TrimRight (s cutset : str) : str :=
  reverse (drop_while (in_cutset cutset) (reverse s)).
Definition Trim (s cutset : str) : str := TrimRight (TrimLeft s cutset) cutset.

Definition TrimPrefix (s p : str) : str :=
  if HasPrefix s p then drop (length p) s else s.
Definition TrimSuffix (s p : str) : str :=
  if HasSuffix s p then take (length s - length p) s else s.

(** [unicode.IsSpace]: the UTF-8 encodings of the white space runes. *)
Definition space_runes : list str :=
  map (map (fun z => byte_of_Z z))
    [[9]; [10]; [11]; [12]; [13]; [32]; [194; 133]; [194; 160]; [225; 154; 128];
     [226; 128; 128]; [226; 128; 129]; [226; 128; 130]; [226; 128; 131];
     [226; 128; 132]; [226; 128; 133]; [226; 128; 134]; [226; 128; 135];
     [226; 128; 136]; [226; 128; 137]; [226; 128; 138]; [226; 128; 168];
     [226; 128; 169]; [226; 128; 175]; [226; 129; 159]; [227; 128; 128]]%Z.

(** The width of the white space rune at the front of [s], [0] if there is
    none; [space_last] looks at the end of a reversed string. *)
Fixpoint first_match (rs : list str) (s : str) : nat :=
  match rs with
  | [] => 0
  | r :: rs' => if HasPrefix s r then length r else first_match rs' s
  end.
Definition space_width (s : str) : nat := first_match space_runes s.
Definition space_width_rev (s : str) : nat := first_match (map reverse space_runes) s.

Fixpoint trim_space_left (width : str → nat) (skip : nat) (s : str) : str :=
  match s with
  | [] => []
  | x :: s' =>
      match skip with
      | S k => trim_space_left width k s'
      | O => match width s with
             | O => s
             | S k => trim_space_left width k s'
             end
      end
  end.
Definition TrimSpace (s : str) : str :=
  reverse (trim_space_left space_width_rev 0
             (reverse (trim_space_left space_width 0 s))).

(** [strings.Fields]: the runs of non-space bytes. *)
Fixpoint fields_skip (cur : str) (skip : nat) (s : str) : list str :=
  match s with
  | [] => if decide (cur = []) then [] else [reverse cur]
  | x :: s' =>
      match skip with
      | S k => fields_skip cur k s'
      | O => match space_width s with
             | O => fields_skip (x :: cur) 0 s'
             | S k => (if decide (cur = []) then [] else [reverse cur])
                        ++ fields_skip [] k s'
             end
      end
  end.
Definition Fields (s : str) : list str := fields_skip [] 0 s.

(** [strings.ToLower] on ASCII letters; other bytes are kept. *)
Definition lower_byte (a : ascii) : ascii :=
  let z := Z_of_byte a in
  if (65 <=? z)%Z && (z <=? 90)%Z then byte_of_Z (z + 32) else a.
Definition ToLower (s : str) : str := map lower_byte s.

(** ** strconv *)

Definition digit (d : Z) : ascii := byte_of_Z (48 + d).
Definition is_digit (a : ascii) : bool :=
  (48 <=? Z_of_byte a)%Z && (Z_of_byte a <=? 57)%Z.
Definition digit_val (a : ascii) : Z := Z_of_byte a - 48.

Fixpoint itoa_fuel (fuel : nat) (n : Z) : str :=
  match fuel with
  | O => []
  | S f => if (n <? 10)%Z then [digit n] else itoa_fuel f (n / 10) ++ [digit (n mod 10)]
  end.

(** [Z.log2 n + 1] binary digits are enough decimal digits. *)
Definition Itoa (n : Z) : str :=
  if (n <? 0)%Z then ("-"%char : ascii) :: itoa_fuel (S (Z.to_nat (Z.log2 (- n)))) (- n)
  else itoa_fuel (S (Z.to_nat (Z.log2 n))) n.

Definition int64_min : Z := - 2 ^ 63.
Definition int64_max : Z := 2 ^ 63 - 1.
Definition in_int64 (z : Z) : bool := (int64_min <=? z)%Z && (z <=? int64_max)%Z.

Inductive num_error := ErrSyntax | ErrRange.

Definition dec_value (s : str) : Z :=
  fold_left (fun acc c => acc * 10 + digit_val c)%Z s 0%Z.

(** [strconv.Atoi]: an optional sign and at least one decimal digit, within
    the 64-bit range. *)
Definition atoi_unsigned (s : str) : num_error + Z :=
  if decide (s = []) then inl ErrSyntax
  else if forallb is_digit s then inr (dec_value s) else inl ErrSyntax.
Definition Atoi (s : str) : num_error + Z :=
  let signed :=
    match s with
    | "+"%char :: s' => atoi_unsigned s'
    | "-"%char :: s' => match atoi_unsigned s' with inr z => inr (- z)%Z | e => e end
    | _ => atoi_unsigned s
    end in
  match signed with
  | inr z => if in_int64 z then inr z else inl ErrRange
  | e => e
  end.

Definition num_error_text (e : num_error) : str :=
  match e with ErrSyntax => $"invalid syntax" | ErrRange => $"value out of range" end.

(** ** Lemmas: prefixes *)

Lemma HasPrefix_spec s p : HasPrefix s p = true ↔ p `prefix_of` s.
Proof. apply bool_decide_eq_true. Qed.
Lemma HasSuffix_spec s p : HasSuffix s p = true ↔ p `suffix_of` s.
Proof. apply bool_decide_eq_true. Qed.
Lemma HasPrefix_app p s : HasPrefix (p ++ s) p = true.
Proof. apply HasPrefix_spec. by exists s. Qed.
Lemma HasSuffix_app p s : HasSuffix (s ++ p) p = true.
Proof. apply HasSuffix_spec. by exists s. Qed.
Lemma HasPrefix_single s c : HasPrefix s [c] = true ↔ head s = Some c.
Proof.
  rewrite HasPrefix_spec. split.
  - by intros [k ->].
  - destruct s as [|x s]; simpl; [done|]. intros [= ->]. by exists s.
Qed.

#[export] Hint Rewrite HasPrefix_app HasSuffix_app : dove_rw.

Lemma TrimPrefix_app p s : TrimPrefix (p ++ s) p = s.
Proof. unfold TrimPrefix. by rewrite HasPrefix_app, drop_app_length. Qed.

(** ** Lemmas: split and join on a one-byte separator *)

Section split_byte.
Context (c : ascii).

Lemma split_nil_cons s : ∃ h t, Split s [c] = h :: t.
Proof.
  unfold Split. destruct s as [|x s]; simpl; [eauto|].
  destruct (HasPrefix _ _); [eauto|].
  unfold cons_head. destruct (split_skip _ _ _); eauto.
Qed.

Lemma Split_cons_sep s : Split (c :: s) [c] = [] :: Split s [c].
Proof.
  unfold Split. cbn [split_skip].
  assert (HasPrefix (c :: s) [c] = true) as -> by by apply HasPrefix_single.
  done.
Qed.

Lemma Split_cons_other x s : x ≠ c → Split (x :: s) [c] = cons_head x (Split s [c]).
Proof.
  intros Hx. unfold Split. cbn [split_skip].
  assert (HasPrefix (x :: s) [c] = false) as ->; [|done].
  apply not_true_is_false. rewrite HasPrefix_single. simpl. congruence.
Qed.

(** [strings.Join] undoes [strings.Split]. *)
Lemma Join_Split s : Join (Split s [c]) [c] = s.
Proof.
  induction s as [|x s IH]; [done|].
  destruct (decide (x = c)) as [->|Hx].
  - rewrite Split_cons_sep.
    destruct (split_nil_cons s) as (h & t & E). rewrite E in *.
    change (c :: Join (h :: t) [c] = c :: s). by rewrite IH.
  - rewrite (Split_cons_other _ _ Hx).
    destruct (split_nil_cons s) as (h & t & E). rewrite E in *.
    simpl. destruct t; simpl in *; by rewrite <- IH.
Qed.

Lemma Split_no_sep s : c ∉ s → Split s [c] = [s].
Proof.
  induction s as [|x s IH]; [done|]. intros [Hx Hs]%not_elem_of_cons.
  rewrite Split_cons_other by done. by rewrite IH.
Qed.

Lemma Split_app_sep s k : c ∉ s → Split (s ++ c :: k) [c] = s :: Split k [c].
Proof.
  induction s as [|x s IH]; simpl; [intros _; apply Split_cons_sep|].
  intros [Hx Hs]%not_elem_of_cons. rewrite Split_cons_other by done. by rewrite IH.
Qed.

(** [strings.Split] undoes [strings.Join] on separator-free parts. *)
Lemma Split_Join l : l ≠ [] → Forall (fun s => c ∉ s) l → Split (Join l [c]) [c] = l.
Proof.
  intros Hne Hl. induction Hl as [|s l Hs Hl IH]; [done|].
  destruct l as [|s' l]; [by apply Split_no_sep|].
  change (Split (s ++ c :: Join (s' :: l) [c]) [c] = s :: s' :: l).
  rewrite Split_app_sep by done. by rewrite IH.
Qed.

Lemma Split_head_no_sep s h t : Split s [c] = h :: t → c ∉ h.
Proof.
  revert h t. induction s as [|x s IH]; intros h t; [intros [= <- <-]; apply not_elem_of_nil|].
  destruct (decide (x = c)) as [->|Hx].
  - rewrite Split_cons_sep. intros [= <- <-]. apply not_elem_of_nil.
  - rewrite Split_cons_other by done.
    destruct (split_nil_cons s) as (h' & t' & E). rewrite E. intros [= <- <-].
    apply not_elem_of_cons. split; [congruence|]. by eapply IH.
Qed.
End split_byte.

(** ** Lemmas: replacing one byte by another *)

Lemma Replace_byte_all a b s n :
  (n < 0)%Z → Replace s [a] [b] n = map (fun x => if decide (x = a) then b else x) s.
Proof.
  unfold Replace. revert n. induction s as [|x s IH]; intros n Hn; [done|].
  cbn [replace_skip map].
  assert ((n =? 0)%Z = false) as -> by (apply Z.eqb_neq; lia). simpl.
  destruct (decide (x = a)) as [->|Hx].
  - assert (HasPrefix (a :: s) [a] = true) as -> by by apply HasPrefix_single.
    simpl. by rewrite IH by lia.
  - assert (HasPrefix (x :: s) [a] = false) as ->; [|by rewrite IH].
    apply not_true_is_false. rewrite HasPrefix_single. simpl. congruence.
Qed.

(** ** Lemmas: trimming *)

Lemma in_cutset_spec cs x : in_cutset cs x = true ↔ x ∈ cs.
Proof. apply bool_decide_eq_true. Qed.

Lemma TrimRight_app_cut s t cs : Forall (fun x => x ∈ cs) t → TrimRight (s ++ t) cs = TrimRight s cs.
Proof.
  intros Ht. unfold TrimRight. rewrite reverse_app. f_equal.
  apply drop_while_app_all.
  rewrite Forall_reverse. eapply Forall_impl; [exact Ht|]. intros x. apply in_cutset_spec.
Qed.

Lemma TrimRight_keep s x cs : x ∉ cs → TrimRight (s ++ [x]) cs = s ++ [x].
Proof.
  intros Hx. unfold TrimRight. rewrite reverse_snoc, drop_while_stop.
  - by rewrite reverse_cons, reverse_involutive.
  - apply not_true_is_false. by rewrite in_cutset_spec.
Qed.

Lemma TrimRight_last s cs : TrimRight s cs = s ↔ (∀ k x, s = k ++ [x] → x ∉ cs).
Proof.
  split.
  - intros E k x -> Hx. unfold TrimRight in E.
    rewrite reverse_snoc in E. simpl in E.
    assert (in_cutset cs x = true) as Hc by by apply in_cutset_spec.
    rewrite Hc in E. apply (f_equal length) in E.
    rewrite length_reverse, length_app in E.
    pose proof (take_drop_while (in_cutset cs) (reverse k)) as HH.
    apply (f_equal length) in HH. rewrite length_app, length_reverse in HH. simpl in E. lia.
  - destruct s as [|x k _] using rev_ind; [done|].
    intros H. apply TrimRight_keep. by eapply H.
Qed.

Lemma TrimLeft_keep s cs : (∀ x, head s = Some x → x ∉ cs) → TrimLeft s cs = s.
Proof.
  destruct s as [|x s]; [done|]. intros H. apply drop_while_stop.
  apply not_true_is_false. rewrite in_cutset_spec. by apply H.
Qed.

Lemma TrimLeft_app_cut s t cs : Forall (fun x => x ∈ cs) t → TrimLeft (t ++ s) cs = TrimLeft s cs.
Proof.
  intros Ht. apply drop_while_app_all.
  eapply Forall_impl; [exact Ht|]. intros x. apply in_cutset_spec.
Qed.

(** ** Lemmas: decimal numbers *)

Lemma Z_of_digit d : (0 <= d < 10)%Z → Z_of_byte (digit d) = (48 + d)%Z.
Proof. intros H. unfold digit. rewrite Z_of_byte_of_Z. apply Z.mod_small. lia. Qed.

Lemma digit_val_digit d : (0 <= d < 10)%Z → digit_val (digit d) = d.
Proof. intros H. unfold digit_val. rewrite Z_of_digit by done. lia. Qed.

Lemma is_digit_digit d : (0 <= d < 10)%Z → is_digit (digit d) = true.
Proof.
  intros H. unfold is_digit. rewrite Z_of_digit by done.
  apply andb_true_iff. split; apply Z.leb_le; lia.
Qed.

Lemma dec_value_snoc s c : dec_value (s ++ [c]) = (dec_value s * 10 + digit_val c)%Z.
Proof. unfold dec_value. by rewrite fold_left_app. Qed.

Lemma itoa_fuel_spec f n :
  (0 <= n < 2 ^ Z.of_nat f)%Z → (0 < f)%nat →
  dec_value (itoa_fuel f n) = n ∧ forallb is_digit (itoa_fuel f n) = true ∧ itoa_fuel f n ≠ [].
Proof.
  revert n. induction f as [|f IH]; intros n Hn Hf; [lia|]. cbn [itoa_fuel].
  destruct (Z.ltb_spec n 10) as [Hlt|Hge].
  - split_and!; [|simpl; by rewrite is_digit_digit by lia|done].
    unfold dec_value. simpl. rewrite digit_val_digit by lia. lia.
  - pose proof (Z.div_mod n 10 ltac:(lia)) as Hdm.
    pose proof (Z.mod_pos_bound n 10 ltac:(lia)) as Hm.
    rewrite Nat2Z.inj_succ, Z.pow_succ_r in Hn by lia.
    destruct (IH (n / 10)%Z) as (Hv & Hd & _).
    { split; [apply Z.div_pos; lia|]. apply Z.div_lt_upper_bound; lia. }
    { destruct f; simpl in Hn; lia. }
    split_and!.
    + rewrite dec_value_snoc, Hv, digit_val_digit by lia. lia.
    + rewrite forallb_app, Hd. simpl. by rewrite is_digit_digit by lia.
    + by destruct (itoa_fuel f (n / 10)).
Qed.

Lemma log2_fuel n : (0 <= n)%Z → (n < 2 ^ Z.of_nat (S (Z.to_nat (Z.log2 n))))%Z.
Proof.
  intros Hn. pose proof (Z.log2_nonneg n).
  rewrite Nat2Z.inj_succ, Z2Nat.id by lia.
  destruct (decide (n = 0)%Z) as [->|]; [done|]. apply Z.log2_spec. lia.
Qed.

Lemma Itoa_nonneg n : (0 <= n)%Z → Itoa n = itoa_fuel (S (Z.to_nat (Z.log2 n))) n.
Proof. intros H. unfold Itoa. by destruct (Z.ltb_spec n 0); [lia|]. Qed.

Lemma Itoa_spec n :
  (0 <= n)%Z →
  dec_value (Itoa n) = n ∧ forallb is_digit (Itoa n) = true ∧ Itoa n ≠ [].
Proof. intros H. rewrite Itoa_nonneg by done. apply itoa_fuel_spec; [|lia]. split; [done|by apply log2_fuel]. Qed.

Lemma is_digit_not_sign x : is_digit x = true → x ≠ "+"%char ∧ x ≠ "-"%char ∧ x ≠ byte0.
Proof. intros H. split_and!; intros ->; discriminate H. Qed.

Lemma Atoi_digits s : s ≠ [] → forallb is_digit s = true → in_int64 (dec_value s) = true →
  Atoi s = inr (dec_value s).
Proof.
  intros Hne Hd Hr. unfold Atoi.
  assert (atoi_unsigned s = inr (dec_value s)) as Hu.
  { unfold atoi_unsigned. rewrite decide_False by done. by rewrite Hd. }
  destruct s as [|x s]; [done|].
  assert (is_digit x = true) as Hx by (simpl in Hd; by apply andb_true_iff in Hd as [? _]).
  apply is_digit_not_sign in Hx as (Hp & Hm & _).
  assert (∀ (a b : num_error + Z),
    match x with "+"%char => a | "-"%char => b | _ => atoi_unsigned (x :: s) end
    = atoi_unsigned (x :: s)) as Hc.
  { intros a b. destruct x as [[] [] [] [] [] [] [] []]; done. }
  rewrite Hc, Hu. by rewrite Hr.
Qed.

(** Printing a non-negative 64-bit integer and reading it back. *)
Lemma Atoi_Itoa n : (0 <= n <= int64_max)%Z → Atoi (Itoa n) = inr n.
Proof.
  intros Hn. destruct (Itoa_spec n) as (Hv & Hd & Hne); [lia|].
  rewrite Atoi_digits; rewrite ?Hv; [done..|].
  unfold in_int64, int64_min, int64_max in *. apply andb_true_iff. split; apply Z.leb_le; lia.
Qed.

(** Fewer than [10 ^ k] means at most [k] digits. *)
Lemma itoa_fuel_length f n k :
  (0 < k)%nat → (0 <= n < 10 ^ Z.of_nat k)%Z → (length (itoa_fuel f n) <= k)%nat.
Proof.
  revert n k. induction f as [|f IH]; intros n k Hk Hn; simpl; [lia|].
  destruct (Z.ltb_spec n 10); simpl; [lia|].
  rewrite length_app. simpl.
  destruct k as [|[|k]]; [lia|simpl in Hn; lia|].
  rewrite Nat2Z.inj_succ, Z.pow_succ_r in Hn by lia.
  assert (length (itoa_fuel f (n / 10)) <= S k)%nat; [|lia].
  apply IH; [lia|]. split; [apply Z.div_pos; lia|apply Z.div_lt_upper_bound; lia].
Qed.

Lemma itoa_fuel_length_ge f n k :
  (10 ^ Z.of_nat k <= n < 2 ^ Z.of_nat f)%Z → (k < length (itoa_fuel f n))%nat.
Proof.
  revert n k. induction f as [|f IH]; intros n k Hn; simpl.
  - pose proof (Z.pow_pos_nonneg 10 (Z.of_nat k)). simpl in Hn. lia.
  - pose proof (Z.pow_pos_nonneg 10 (Z.of_nat k)).
    rewrite Nat2Z.inj_succ, Z.pow_succ_r in Hn by lia.
    destruct (Z.ltb_spec n 10); simpl.
    + destruct k as [|k]; [lia|]. rewrite Nat2Z.inj_succ, Z.pow_succ_r in Hn by lia.
      pose proof (Z.pow_pos_nonneg 10 (Z.of_nat k)). lia.
    + rewrite length_app. simpl. destruct k as [|k]; [lia|].
      rewrite Nat2Z.inj_succ, Z.pow_succ_r in Hn by lia.
      assert (k < length (itoa_fuel f (n / 10)))%nat; [|lia].
      apply IH. split; [apply Z.div_le_lower_bound; lia|apply Z.div_lt_upper_bound; lia].
Qed.

Lemma Itoa_length n k :
  (0 < k)%nat → (0 <= n)%Z → (length (Itoa n) <= k)%nat ↔ (n < 10 ^ Z.of_nat k)%Z.
Proof.
  intros Hk Hn. rewrite Itoa_nonneg by done. split.
  - intros Hl. destruct (Z.lt_ge_cases n (10 ^ Z.of_nat k)) as [|Hge]; [done|].
    pose proof (itoa_fuel_length_ge (S (Z.to_nat (Z.log2 n))) n k) as Hlen.
    pose proof (log2_fuel n Hn). lia.
  - intros Hlt. by apply itoa_fuel_length.
Qed.
