(* ===== verification/GoFmt.v ===== *)
(** * Go's quoting of strings: UTF-8 decoding and the [%q] verb

    [strconv.Quote], which [fmt.Sprintf("%q", s)] calls.  The table of
    printable runes above ASCII ([unicode.IsPrint]) is a parameter of the
    model; on ASCII text, which is what the lemmas are about, it is not
    consulted. *)

From S2P Require Import Prelude GoLib.

Class UnicodeTables := { is_print_high : Z → bool }.

(** The double quote byte. *)
Definition dquote : ascii := Ascii false true false false false true false false.

Definition rune_error : Z := 65533.

Definition in_range (lo hi : Z) (a : ascii) : bool :=
  (lo <=? Z_of_byte a)%Z && (Z_of_byte a <=? hi)%Z.
Definition cont_bits (a : ascii) : Z := Z_of_byte a - 128.

(** [utf8.DecodeRuneInString]: the first rune and its width; an invalid
    sequence decodes to [(rune_error, 1)]. *)
Definition DecodeRune (s : str) : Z * nat :=
  match s with
  | [] => (rune_error, 0)
  | a :: s1 =>
      let b0 := Z_of_byte a in
      if (b0 <? 128)%Z then (b0, 1)
      else if in_range 194 223 a then
        match s1 with
        | b :: _ => if in_range 128 191 b then (((b0 - 192) * 64 + cont_bits b)%Z, 2)
                    else (rune_error, 1)
        | _ => (rune_error, 1)
        end
      else if in_range 224 239 a then
        match s1 with
        | b :: c :: _ =>
            if in_range (if (b0 =? 224)%Z then 160 else 128)
                        (if (b0 =? 237)%Z then 159 else 191) b && in_range 128 191 c
            then (((b0 - 224) * 4096 + cont_bits b * 64 + cont_bits c)%Z, 3)
            else (rune_error, 1)
        | _ => (rune_error, 1)
        end
      else if in_range 240 244 a then
        match s1 with
        | b :: c :: d :: _ =>
            if in_range (if (b0 =? 240)%Z then 144 else 128)
                        (if (b0 =? 244)%Z then 143 else 191) b
               && in_range 128 191 c && in_range 128 191 d
            then (((b0 - 240) * 262144 + cont_bits b * 4096 + cont_bits c * 64 + cont_bits d)%Z, 4)
            else (rune_error, 1)
        | _ => (rune_error, 1)
        end
      else (rune_error, 1)
  end.

Definition hex_digit (d : Z) : ascii :=
  if (d <? 10)%Z then byte_of_Z (48 + d) else byte_of_Z (87 + d).
Definition hex2 (z : Z) : str := [hex_digit (z / 16 mod 16); hex_digit (z mod 16)].
Definition hex4 (z : Z) : str := hex2 (z / 256 mod 256) ++ hex2 (z mod 256).
Definition hex8 (z : Z) : str := hex4 (z / 65536) ++ hex4 (z mod 65536).

Section quote.
Context `{U : UnicodeTables}.

Definition IsPrint (r : Z) : bool :=
  if (r <? 127)%Z then (32 <=? r)%Z else if (r <? 128)%Z then false else is_print_high r.

(** [appendEscapedRune] for the double quote; [raw] is the rune's bytes. *)
Definition escape_rune (r : Z) (raw : str) : str :=
  if (r =? 34)%Z || (r =? 92)%Z then "\"%char :: raw
  else if IsPrint r then raw
  else if (r =? 7)%Z then $"\a"
  else if (r =? 8)%Z then $"\b"
  else if (r =? 12)%Z then $"\f"
  else if (r =? 10)%Z then $"\n"
  else if (r =? 13)%Z then $"\r"
  else if (r =? 9)%Z then $"\t"
  else if (r =? 11)%Z then $"\v"
  else if (r <? 32)%Z then $"\x" ++ hex2 r
  else if (r <? 65536)%Z then $"\u" ++ hex4 r
  else $"\U" ++ hex8 r.

(** The loop over the runes: [skip] bytes of the current rune remain. *)
Fixpoint quote_body (skip : nat) (s : str) : str :=
  match s with
  | [] => []
  | a :: s' =>
      match skip with
      | S k => quote_body k s'
      | O =>
          let '(r, w) := DecodeRune s in
          (if (Nat.eqb w 1) && (r =? rune_error)%Z then $"\x" ++ hex2 (Z_of_byte a)
           else escape_rune r (take w s)) ++ quote_body (w - 1) s'
      end
  end.

Definition Quote (s : str) : str := dquote :: quote_body 0 s ++ [dquote].

(** ** Strings that need no escaping *)

Definition plain_byte (a : ascii) : bool :=
  let z := Z_of_byte a in
  (32 <=? z)%Z && (z <? 127)%Z && negb (z =? 34)%Z && negb (z =? 92)%Z.

Definition plain (s : str) : bool := forallb plain_byte s.

Lemma quote_body_plain s : plain s = true → quote_body 0 s = s.
Proof.
  induction s as [|a s IH]; [done|]. intros Hp. simpl in Hp. bool_to_prop.
  assert (DecodeRune (a :: s) = (Z_of_byte a, 1)) as HD.
  { unfold DecodeRune, plain_byte in *. bool_to_prop.
    destruct (Z.ltb_spec (Z_of_byte a) 128); [done|lia]. }
  cbn [quote_body]. rewrite HD. unfold plain_byte in *. bool_to_prop.
  assert ((Z_of_byte a =? rune_error)%Z = false) as -> by (apply Z.eqb_neq; unfold rune_error; lia).
  simpl. unfold escape_rune, IsPrint.
  assert ((Z_of_byte a =? 34)%Z = false) as -> by by apply Z.eqb_neq.
  assert ((Z_of_byte a =? 92)%Z = false) as -> by by apply Z.eqb_neq.
  assert ((Z_of_byte a <? 127)%Z = true) as -> by by apply Z.ltb_lt.
  assert ((32 <=? Z_of_byte a)%Z = true) as -> by by apply Z.leb_le.
  simpl. by rewrite IH.
Qed.

Lemma Quote_plain s : plain s = true → Quote s = dquote :: s ++ [dquote].
Proof. intros H. unfold Quote. by rewrite quote_body_plain. Qed.
End quote.
