(* ===== verification/Words.v ===== *)
(** * Machine words: fixed-width integers and big-endian bytes

    Go's [uint8], [uint16] and [uint32] as [Z] with their wrap-around written
    out, and [encoding/binary.BigEndian] on four bytes.  Shared by the Blowfish
    cipher and by the FastCGI client. *)

From S2P Require Import Prelude.
Local Open Scope Z_scope.

Definition uint8 (z : Z) : Z := z mod 2 ^ 8.
Definition uint16 (z : Z) : Z := z mod 2 ^ 16.
Definition uint32 (z : Z) : Z := z mod 2 ^ 32.

Definition is_word (z : Z) : Prop := 0 <= z < 2 ^ 32.

(** [uint32(b[0])<<24 | uint32(b[1])<<16 | uint32(b[2])<<8 | uint32(b[3])]. *)
Definition Uint32BE (b0 b1 b2 b3 : ascii) : Z :=
  Z.lor (Z.lor (Z.lor (Z.shiftl (Z_of_byte b0) 24) (Z.shiftl (Z_of_byte b1) 16))
               (Z.shiftl (Z_of_byte b2) 8))
        (Z_of_byte b3).

(** [byte(l>>24), byte(l>>16), byte(l>>8), byte(l)]. *)
Definition PutUint32BE (l : Z) : str :=
  [byte_of_Z (Z.shiftr l 24); byte_of_Z (Z.shiftr l 16);
   byte_of_Z (Z.shiftr l 8); byte_of_Z l].

(** [byte(n>>8), byte(n)]. *)
Definition PutUint16BE (n : Z) : str := [byte_of_Z (Z.shiftr n 8); byte_of_Z n].
Definition Uint16BE (b0 b1 : ascii) : Z :=
  Z.lor (Z.shiftl (Z_of_byte b0) 8) (Z_of_byte b1).

Lemma uint32_word z : is_word (uint32 z).
Proof. unfold is_word, uint32. apply Z.mod_pos_bound. lia. Qed.
#[export] Hint Resolve uint32_word : dove.

Lemma lor_shiftl_add a b k : 0 <= k → 0 <= b < 2 ^ k → Z.lor (Z.shiftl a k) b = a * 2 ^ k + b.
Proof.
  intros Hk Hb.
  assert (Z.land (Z.shiftl a k) b = 0) as Hl.
  { apply Z.bits_inj'. intros i Hi. rewrite Z.land_spec, Z.bits_0.
    destruct (Z.lt_ge_cases i k) as [Hlt|Hge].
    - by rewrite Z.shiftl_spec_low.
    - rewrite <- (Z.mod_small b (2 ^ k)) by done.
      by rewrite Z.mod_pow2_bits_high, andb_false_r by lia. }
  pose proof (Z.add_lor_land (Z.shiftl a k) b) as H. rewrite Hl in H.
  rewrite <- Z.shiftl_mul_pow2 by lia. lia.
Qed.

Lemma Uint32BE_arith b0 b1 b2 b3 :
  Uint32BE b0 b1 b2 b3 =
    Z_of_byte b0 * 2 ^ 24 + Z_of_byte b1 * 2 ^ 16 + Z_of_byte b2 * 2 ^ 8 + Z_of_byte b3.
Proof.
  unfold Uint32BE.
  pose proof (Z_of_byte_range b0). pose proof (Z_of_byte_range b1).
  pose proof (Z_of_byte_range b2). pose proof (Z_of_byte_range b3).
  rewrite (lor_shiftl_add (Z_of_byte b0) (Z.shiftl (Z_of_byte b1) 16) 24)
    by (rewrite ?Z.shiftl_mul_pow2 by lia; lia).
  replace (Z_of_byte b0 * 2 ^ 24 + Z.shiftl (Z_of_byte b1) 16)
    with (Z.shiftl (Z_of_byte b0 * 2 ^ 8 + Z_of_byte b1) 16)
    by (rewrite !Z.shiftl_mul_pow2 by lia; lia).
  rewrite (lor_shiftl_add _ (Z.shiftl (Z_of_byte b2) 8) 16)
    by (rewrite ?Z.shiftl_mul_pow2 by lia; lia).
  replace ((Z_of_byte b0 * 2 ^ 8 + Z_of_byte b1) * 2 ^ 16 + Z.shiftl (Z_of_byte b2) 8)
    with (Z.shiftl (Z_of_byte b0 * 2 ^ 16 + Z_of_byte b1 * 2 ^ 8 + Z_of_byte b2) 8)
    by (rewrite !Z.shiftl_mul_pow2 by lia; lia).
  rewrite lor_shiftl_add by lia. lia.
Qed.

Lemma Uint16BE_arith b0 b1 : Uint16BE b0 b1 = Z_of_byte b0 * 2 ^ 8 + Z_of_byte b1.
Proof. pose proof (Z_of_byte_range b1). unfold Uint16BE. by rewrite lor_shiftl_add by lia. Qed.

Lemma Uint32BE_word b0 b1 b2 b3 : is_word (Uint32BE b0 b1 b2 b3).
Proof.
  rewrite Uint32BE_arith. unfold is_word.
  pose proof (Z_of_byte_range b0). pose proof (Z_of_byte_range b1).
  pose proof (Z_of_byte_range b2). pose proof (Z_of_byte_range b3). lia.
Qed.
#[export] Hint Resolve Uint32BE_word : dove.

Lemma byte_of_Z_add_mul a b : byte_of_Z (a * 256 + b) = byte_of_Z b.
Proof. unfold byte_of_Z. by rewrite Z.add_comm, Z_mod_plus_full. Qed.

Lemma PutUint32BE_Uint32BE b0 b1 b2 b3 : PutUint32BE (Uint32BE b0 b1 b2 b3) = [b0; b1; b2; b3].
Proof.
  unfold PutUint32BE. rewrite Uint32BE_arith.
  pose proof (Z_of_byte_range b0). pose proof (Z_of_byte_range b1).
  pose proof (Z_of_byte_range b2). pose proof (Z_of_byte_range b3).
  set (z0 := Z_of_byte b0) in *. set (z1 := Z_of_byte b1) in *.
  set (z2 := Z_of_byte b2) in *. set (z3 := Z_of_byte b3) in *.
  rewrite !Z.shiftr_div_pow2 by lia.
  replace ((z0 * 2 ^ 24 + z1 * 2 ^ 16 + z2 * 2 ^ 8 + z3) / 2 ^ 24) with z0
    by (apply (Z.div_unique _ _ _ (z1 * 2 ^ 16 + z2 * 2 ^ 8 + z3)); lia).
  replace ((z0 * 2 ^ 24 + z1 * 2 ^ 16 + z2 * 2 ^ 8 + z3) / 2 ^ 16) with (z0 * 256 + z1)
    by (apply (Z.div_unique _ _ _ (z2 * 2 ^ 8 + z3)); lia).
  replace ((z0 * 2 ^ 24 + z1 * 2 ^ 16 + z2 * 2 ^ 8 + z3) / 2 ^ 8)
    with ((z0 * 256 + z1) * 256 + z2) by (apply (Z.div_unique _ _ _ z3); lia).
  replace (z0 * 2 ^ 24 + z1 * 2 ^ 16 + z2 * 2 ^ 8 + z3)
    with (((z0 * 256 + z1) * 256 + z2) * 256 + z3) by lia.
  rewrite !byte_of_Z_add_mul. subst z0 z1 z2 z3. by rewrite !byte_of_Z_of_byte.
Qed.

Lemma Uint32BE_PutUint32BE l :
  is_word l →
  Uint32BE (byte_of_Z (Z.shiftr l 24)) (byte_of_Z (Z.shiftr l 16))
           (byte_of_Z (Z.shiftr l 8)) (byte_of_Z l) = l.
Proof.
  intros Hl. rewrite Uint32BE_arith, !Z_of_byte_of_Z, !Z.shiftr_div_pow2 by lia.
  unfold is_word in Hl.
  replace (l / 2 ^ 24) with (l / 256 / 256 / 256) by (rewrite !Z.div_div by lia; done).
  replace (l / 2 ^ 16) with (l / 256 / 256) by (rewrite !Z.div_div by lia; done).
  replace (l / 2 ^ 8) with (l / 256) by done.
  pose proof (Z.div_mod l 256 ltac:(lia)).
  pose proof (Z.div_mod (l / 256) 256 ltac:(lia)).
  pose proof (Z.div_mod (l / 256 / 256) 256 ltac:(lia)).
  assert (0 <= l / 256 / 256 / 256 < 256).
  { rewrite !Z.div_div by lia. split; [apply Z.div_pos; lia|apply Z.div_lt_upper_bound; lia]. }
  rewrite (Z.mod_small (l / 256 / 256 / 256)) by lia. lia.
Qed.

Lemma Uint16BE_PutUint16BE n :
  0 <= n < 2 ^ 16 → Uint16BE (byte_of_Z (Z.shiftr n 8)) (byte_of_Z n) = n.
Proof.
  intros Hn. rewrite Uint16BE_arith, !Z_of_byte_of_Z, Z.shiftr_div_pow2 by lia.
  change (2 ^ 8) with 256. pose proof (Z.div_mod n 256 ltac:(lia)).
  assert (0 <= n / 256 < 256) by (split; [apply Z.div_pos|apply Z.div_lt_upper_bound]; lia).
  rewrite (Z.mod_small (n / 256)) by lia. lia.
Qed.

(** Exclusive or stays within the width. *)
Lemma lxor_word a b : is_word a → is_word b → is_word (Z.lxor a b).
Proof.
  intros Ha Hb. unfold is_word in *. split; [apply Z.lxor_nonneg; lia|].
  destruct (decide (Z.lxor a b = 0)) as [->|Hne]; [lia|].
  assert (0 <= Z.lxor a b) by (apply Z.lxor_nonneg; lia).
  apply Z.log2_lt_pow2; [lia|].
  pose proof (Z.log2_lxor a b ltac:(lia) ltac:(lia)).
  assert (∀ x, 0 <= x < 2 ^ 32 → Z.log2 x < 32) as Hlog.
  { intros x Hx. destruct (decide (x = 0)) as [->|]; [done|]. apply Z.log2_lt_pow2; lia. }
  pose proof (Hlog a Ha). pose proof (Hlog b Hb). lia.
Qed.
#[export] Hint Resolve lxor_word : dove.

Lemma lxor_cancel a b : Z.lxor (Z.lxor a b) b = a.
Proof. by rewrite Z.lxor_assoc, Z.lxor_nilpotent, Z.lxor_0_r. Qed.
#[export] Hint Rewrite lxor_cancel : dove_rw.
