(* ===== verification/Md5Sum.v ===== *)
(** * crypto/md5 and its digests as text

    [md5.Sum] of Go's standard library (RFC 1321): the padding of a message to
    blocks of 64 bytes, the 64 operations on each block with their wrap-around, and
    the digest printed with [%x], as [util.Md5File] and the signature of the
    environment server use it.

    [padded_injective]: the padding loses nothing of a message shorter than 2^61
    bytes; [digest_hex_shape]: the text of a digest is 32 hexadecimal digits, for
    every message. *)

From S2P Require Import Prelude GoLib GoFmt Words.
Local Open Scope Z_scope.

(** The constants of the 64 operations and the four rows of rotations. *)
Definition sines : list Z :=
  [0xd76aa478; 0xe8c7b756; 0x242070db; 0xc1bdceee; 0xf57c0faf; 0x4787c62a; 0xa8304613; 0xfd469501;
   0x698098d8; 0x8b44f7af; 0xffff5bb1; 0x895cd7be; 0x6b901122; 0xfd987193; 0xa679438e; 0x49b40821;
   0xf61e2562; 0xc040b340; 0x265e5a51; 0xe9b6c7aa; 0xd62f105d; 0x02441453; 0xd8a1e681; 0xe7d3fbc8;
   0x21e1cde6; 0xc33707d6; 0xf4d50d87; 0x455a14ed; 0xa9e3e905; 0xfcefa3f8; 0x676f02d9; 0x8d2a4c8a;
   0xfffa3942; 0x8771f681; 0x6d9d6122; 0xfde5380c; 0xa4beea44; 0x4bdecfa9; 0xf6bb4b60; 0xbebfbc70;
   0x289b7ec6; 0xeaa127fa; 0xd4ef3085; 0x04881d05; 0xd9d4d039; 0xe6db99e5; 0x1fa27cf8; 0xc4ac5665;
   0xf4292244; 0x432aff97; 0xab9423a7; 0xfc93a039; 0x655b59c3; 0x8f0ccc92; 0xffeff47d; 0x85845dd1;
   0x6fa87e4f; 0xfe2ce6e0; 0xa3014314; 0x4e0811a1; 0xf7537e82; 0xbd3af235; 0x2ad7d2bb; 0xeb86d391].

Definition shifts (round : Z) : list Z :=
  if round =? 0 then [7; 12; 17; 22]
  else if round =? 1 then [5; 9; 14; 20]
  else if round =? 2 then [4; 11; 16; 23]
  else [6; 10; 15; 21].

Definition rotate_left (x n : Z) : Z := Z.lor (uint32 (Z.shiftl x n)) (Z.shiftr x (32 - n)).
Definition not32 (x : Z) : Z := Z.lxor x 0xffffffff.

Record digest := mkDigest { dA : Z; dB : Z; dC : Z; dD : Z }.
Definition init : digest := mkDigest 0x67452301 0xefcdab89 0x98badcfe 0x10325476.

(** Operation [i] on the words [X] of a block. *)
Definition operation (X : list Z) (s : digest) (i : Z) : digest :=
  let '(mkDigest a b c d) := s in
  let round := i / 16 in
  let f := if round =? 0 then Z.lor (Z.land b c) (Z.land (not32 b) d)
           else if round =? 1 then Z.lor (Z.land d b) (Z.land (not32 d) c)
           else if round =? 2 then Z.lxor (Z.lxor b c) d
           else Z.lxor c (Z.lor b (not32 d)) in
  let g := if round =? 0 then i
           else if round =? 1 then (5 * i + 1) mod 16
           else if round =? 2 then (3 * i + 5) mod 16
           else (7 * i) mod 16 in
  let sum := uint32 (a + f + nth (Z.to_nat i) sines 0 + nth (Z.to_nat g) X 0) in
  mkDigest d (uint32 (b + rotate_left sum (nth (Z.to_nat (i mod 4)) (shifts round) 0))) b c.

(** Little-endian words. *)
Fixpoint le_bytes (n : nat) (z : Z) : str :=
  match n with O => [] | S n' => byte_of_Z z :: le_bytes n' (Z.shiftr z 8) end.
Fixpoint le_words (s : str) : list Z :=
  match s with
  | a :: b :: c :: d :: rest => Uint32BE d c b a :: le_words rest
  | _ => []
  end.

Definition block (s : digest) (chunk : str) : digest :=
  let r := fold_left (operation (le_words chunk)) (seqZ 0 64) s in
  mkDigest (uint32 (dA s + dA r)) (uint32 (dB s + dB r)) (uint32 (dC s + dC r)) (uint32 (dD s + dD r)).

(** A byte 0x80, zeros up to eight bytes before the end of a block, and the length
    in bits modulo 2^64. *)
Definition zeros (len : nat) : nat := Z.to_nat ((55 - Z.of_nat len) mod 64).
Definition padded (m : str) : str :=
  m ++ byte_of_Z 0x80 :: replicate (zeros (length m)) byte0 ++ le_bytes 8 (8 * Z.of_nat (length m)).

Fixpoint blocks (n : nat) (s : digest) (m : str) : digest :=
  match n with O => s | S n' => blocks n' (block s (take 64 m)) (drop 64 m) end.

(** [md5.Sum], and [fmt.Sprintf] with [%x] of it. *)
Definition Sum (m : str) : str :=
  let p := padded m in
  let s := blocks (length p / 64) init p in
  le_bytes 4 (dA s) ++ le_bytes 4 (dB s) ++ le_bytes 4 (dC s) ++ le_bytes 4 (dD s).

Definition hex_text (b : str) : str := flat_map (fun a => hex2 (Z_of_byte a)) b.
Definition digest_hex (m : str) : str := hex_text (Sum m).

(** The test suite of RFC 1321. *)
Example digest_empty : digest_hex [] = $"d41d8cd98f00b204e9800998ecf8427e".
Proof. vm_compute. reflexivity. Qed.
Example digest_abc : digest_hex $"abc" = $"900150983cd24fb0d6963f7d28e17f72".
Proof. vm_compute. reflexivity. Qed.
Example digest_message : digest_hex $"message digest" = $"f96b697d7cb7938d525a2f31aaf161d0".
Proof. vm_compute. reflexivity. Qed.
Example digest_two_blocks :
  digest_hex $"12345678901234567890123456789012345678901234567890123456789012345678901234567890"
  = $"57edf4a22be3c955ac49da2e2107b67a".
Proof. vm_compute. reflexivity. Qed.

(** ** The padding *)

Lemma length_le_bytes n : ∀ z, length (le_bytes n z) = n.
Proof. induction n as [|n IH]; intros z; simpl; [done|]. by rewrite IH. Qed.

Lemma le_bytes_inj n : ∀ z z',
  0 <= z < 2 ^ (8 * Z.of_nat n) → 0 <= z' < 2 ^ (8 * Z.of_nat n) → le_bytes n z = le_bytes n z' → z = z'.
Proof.
  induction n as [|n IH]; intros z z' Hz Hz' H; [simpl in *; lia|].
  simpl in H. injection H as Hb Ht.
  apply (f_equal Z_of_byte) in Hb. rewrite !Z_of_byte_of_Z in Hb.
  rewrite !Z.shiftr_div_pow2 in Ht by lia. change (2 ^ 8) with 256 in Ht.
  assert (∀ x, 0 <= x < 2 ^ (8 * Z.of_nat (S n)) → 0 <= x / 256 < 2 ^ (8 * Z.of_nat n)) as Hd.
  { intros x Hx. split; [apply Z.div_pos; lia|]. apply Z.div_lt_upper_bound; [lia|].
    replace (256 * 2 ^ (8 * Z.of_nat n)) with (2 ^ (8 * Z.of_nat (S n))); [lia|].
    replace (8 * Z.of_nat (S n)) with (8 + 8 * Z.of_nat n) by lia. by rewrite Z.pow_add_r by lia. }
  pose proof (IH (z / 256) (z' / 256) (Hd z Hz) (Hd z' Hz') Ht).
  rewrite (Z.div_mod z 256), (Z.div_mod z' 256) by lia. lia.
Qed.

Lemma length_padded m : length (padded m) = (length m + zeros (length m) + 9)%nat.
Proof. unfold padded. rewrite !length_app. cbn [length]. rewrite length_app, length_replicate, length_le_bytes. lia. Qed.

(** The padded message is whole blocks: the fewest that hold the message and nine
    bytes more. *)
Lemma padded_whole m : (length (padded m) mod 64 = 0)%nat ∧ (length (padded m) < length m + 73)%nat.
Proof.
  rewrite length_padded. unfold zeros.
  pose proof (Z.mod_pos_bound (55 - Z.of_nat (length m)) 64 ltac:(lia)).
  split; [|lia].
  apply Nat2Z.inj. rewrite Nat2Z.inj_mod, !Nat2Z.inj_add, Z2Nat.id by lia.
  change (Z.of_nat 64) with 64. change (Z.of_nat 9) with 9. change (Z.of_nat 0) with 0.
  Z.to_euclidean_division_equations. lia.
Qed.

Lemma padded_injective m m' :
  Z.of_nat (length m) < 2 ^ 61 → Z.of_nat (length m') < 2 ^ 61 → padded m = padded m' → m = m'.
Proof.
  intros Hm Hm' H.
  assert (∀ x, padded x = (x ++ byte_of_Z 0x80 :: replicate (zeros (length x)) byte0)
                       ++ le_bytes 8 (8 * Z.of_nat (length x))) as Hp.
  { intros x. unfold padded. by rewrite <- app_assoc. }
  rewrite !Hp in H. apply app_inj_2 in H as [Hf Hl]; [|by rewrite !length_le_bytes].
  apply le_bytes_inj in Hl; [|simpl; lia..].
  assert (length m = length m') as He by lia.
  by apply app_inj_1 in Hf as [? _].
Qed.

(** ** The text of a digest *)

Lemma length_Sum m : length (Sum m) = 16%nat.
Proof. unfold Sum. by rewrite !length_app, !length_le_bytes. Qed.

Definition is_hex (c : ascii) : bool := is_digit c || (97 <=? Z_of_byte c) && (Z_of_byte c <=? 102).

Lemma hex2_shape a : forallb is_hex (hex2 (Z_of_byte a)) = true.
Proof. destruct a as [[] [] [] [] [] [] [] []]; vm_compute; reflexivity. Qed.

Lemma hex_text_shape b : length (hex_text b) = (2 * length b)%nat ∧ forallb is_hex (hex_text b) = true.
Proof.
  induction b as [|a b [IHl IHh]]; [done|]. unfold hex_text in *. cbn [flat_map].
  split.
  - rewrite length_app, IHl. simpl. lia.
  - rewrite forallb_app, IHh, hex2_shape. done.
Qed.

Lemma is_hex_ascii s : forallb is_hex s = true → forallb (fun a => Z_of_byte a <? 128) s = true.
Proof.
  rewrite !forallb_forall. intros H a Ha%H. clear -Ha.
  destruct a as [[] [] [] [] [] [] [] []]; (discriminate Ha || reflexivity).
Qed.

(** The text of a digest is 32 lower-case hexadecimal digits. *)
Lemma digest_hex_shape m : length (digest_hex m) = 32%nat ∧ forallb is_hex (digest_hex m) = true.
Proof. unfold digest_hex. destruct (hex_text_shape (Sum m)) as [-> ->]. by rewrite length_Sum. Qed.
