(* ===== verification/Util.v ===== *)
(** * util/utils.go: string slices and TOML trees

    The helpers every other package calls ([InArrayString],
    [StringSliceUnique], [DelInArrayString], [StringSplit]) and the conversion
    of a parsed TOML tree to JSON bytes and to a map; sums of files.  The parsed tree is the
    data type of the vendored go-toml package; its parser is not modelled here
    (the packages that call it take it as a parameter), its accessors [Keys] and
    [Get] are. *)

From S2P Require Import Prelude GoLib GoFmt Md5Sum.

#[local] Set Warnings "-register-all".

(** ** Slices of strings *)

(** The inner loop of [StringSliceUnique] and [InArrayString]. *)
Fixpoint InArrayString (strArr : list str) (sep : str) : bool :=
  match strArr with
  | [] => false
  | s :: rest => if bool_decide (s = sep) then true else InArrayString rest sep
  end.

(** Appends [elm] unless it is already there: the body of the loop of
    [StringSliceUnique], of [ParseItems], [GetAllSchemaItemRootNodes] and of
    the [AddUpdated...] functions. *)
Definition append_unique (temp : list str) (elm : str) : list str :=
  if InArrayString temp elm then temp else temp ++ [elm].

Definition StringSliceUnique (s : list str) : list str :=
  fold_left append_unique s [].

(** [DelInArrayString]: Go panics on a negative index
    (the bounds of [arr[0:index]]) except on an empty slice. *)
Definition DelInArrayString (arr : list str) (index : Z) : outcome (list str) :=
  let l := Z.of_nat (length arr) in
  if (l <? 1)%Z || (l <=? index)%Z then Done arr
  else if (index =? 0)%Z then Done (drop 1 arr)
  else if (index <? 0)%Z then Panic $"slice bounds out of range"
  else Done (take (Z.to_nat index) arr ++ drop (Z.to_nat index + 1) arr).

Definition StringSplit (s sep : str) : list str :=
  let raw := Split s sep in
  if bool_decide (raw = [[]]) then [] else raw.

(** ** Parsed TOML trees (vendored go-toml)

    [TTree] is [*TomlTree] with its ordered keys and its values, [TTrees] is
    [[]*TomlTree], [TNil] the nil interface, [TList] is [[]interface{}];
    a [TOther] is a value of another type (a float or a date) with the text the
    [%v] verb prints for it. *)
Inductive toml : Type :=
| TTree (orderedkeys : list str) (values : list (str * toml))
| TTrees (l : list toml)
| TNil
| TString (s : str)
| TList (l : list toml)
| TInt (z : Z)
| TBool (b : bool)
| TOther (text : str).

Fixpoint assoc (k : str) (l : list (str * toml)) : option toml :=
  match l with
  | [] => None
  | (k', v) :: l' => if bool_decide (k = k') then Some v else assoc k l'
  end.

Definition tree_values (t : toml) : list (str * toml) :=
  match t with TTree _ vs => vs | _ => [] end.
Definition Keys (t : toml) : list str :=
  match t with TTree ks _ => ks | _ => [] end.

(** [TomlTree.GetPath]: walk the intermediate keys, through the last element
    of an array of tables. *)
Fixpoint GetPath (t : toml) (keys : list str) : toml :=
  match keys with
  | [] => t
  | [k] => default TNil (assoc k (tree_values t))
  | k :: rest =>
      match assoc k (tree_values t) with
      | Some (TTree ks vs) => GetPath (TTree ks vs) rest
      | Some (TTrees l) =>
          match last l with Some sub => GetPath sub rest | None => TNil end
      | _ => TNil
      end
  end.

(** [TomlTree.Get]. *)
Definition TomlGet (t : toml) (key : str) : toml :=
  if bool_decide (key = []) then t
  else match assoc key (tree_values t) with
       | Some v => v
       | None => GetPath t (Split key ["."%char])
       end.

Section json.
Context `{U : UnicodeTables}.
(** What [%v] prints for a slice of table pointers. *)
Context (fmt_tables : list toml → str).

(** [fmt.Sprintf("%v", v)] for the types the default branch meets. *)
Fixpoint fmt_v (v : toml) : str :=
  match v with
  | TInt z => Itoa z
  | TBool b => if b then $"true" else $"false"
  | TOther text => text
  | TString s => s
  | TNil => $"<nil>"
  | TList l => "["%char :: Join (map fmt_v l) $" " ++ ["]"%char]
  | TTree _ _ => fmt_tables [v]
  | TTrees l => fmt_tables l
  end.

(** The loop that writes [items] with a [','] after each but the last. *)
Fixpoint write_items (items : list str) : str :=
  match items with
  | [] => []
  | x :: rest => x ++ (match rest with [] => [] | _ => [","%char] end) ++ write_items rest
  end.

Fixpoint ListToJson_item (v : toml) : str :=
  match v with
  | TList l => "["%char :: write_items (map ListToJson_item l) ++ ["]"%char]
  | TString s => Quote s
  | _ => fmt_v v
  end.

Definition ListToJson (l : list toml) : str :=
  "["%char :: write_items (map ListToJson_item l) ++ ["]"%char].

(** [TraverseTomlAsJson] recurses through [Get], so its recursion is bounded
    by fuel; [None] is a run that has not returned yet.
    [TomlToJson_total] shows that the depth of the tree is enough. *)
Fixpoint TraverseTomlAsJson (fuel : nat) (t : toml) : option str :=
  match fuel with
  | O => None
  | S f =>
      items ← mapM (fun k =>
        let value := TomlGet t k in
        valueB ← (match value with
                  | TTree _ _ => TraverseTomlAsJson f value
                  | TNil => Some $"null"
                  | TString s => Some (Quote s)
                  | TList l => Some (ListToJson l)
                  | _ => Some (fmt_v value)
                  end);
        Some (Quote k ++ ":"%char :: valueB)) (Keys t);
      Some ("{"%char :: write_items items ++ ["}"%char])
  end.

Definition JsonEncode (fuel : nat) (v : toml) : option str :=
  match v with
  | TTree _ _ => TraverseTomlAsJson fuel v
  | TNil => Some $"null"
  | TString s => Some (Quote s)
  | TList l => Some (ListToJson l)
  | _ => Some (fmt_v v)
  end.

(** [toml.Load] of the vendored go-toml package. *)
Context (Load : str → result toml).

Definition TomlToJson (fuel : nat) (content : str) : option (result str) :=
  match Load content with
  | inl err => Some (inl err)
  | inr t => inr <$> TraverseTomlAsJson fuel t
  end.

(** The value of the first key; a tree with no key gives a nil slice. *)
Definition TomlConfigValueToJson (fuel : nat) (content : str) : option (result (option str)) :=
  match Load content with
  | inl err => Some (inl err)
  | inr t =>
      match Keys t with
      | [] => Some (inr None)
      | key :: _ => (fun re => inr (Some re)) <$> JsonEncode fuel (TomlGet t key)
      end
  end.
End json.

(** [TraverseTomlTree]: the same walk into a Go map (here an association list
    in key order; a later binding of a key replaces an earlier one). *)
Inductive toml_map : Type :=
| MapNode (m : list (str * toml_map))
| MapLeaf (v : toml).

Definition map_set (k : str) (v : toml_map) (m : list (str * toml_map)) : list (str * toml_map) :=
  List.filter (fun kv => negb (bool_decide (kv.1 = k))) m ++ [(k, v)].

Fixpoint TraverseTomlTree (fuel : nat) (t : toml) : option (list (str * toml_map)) :=
  match fuel with
  | O => None
  | S f =>
      fold_left (fun mm k =>
        mm ← mm;
        match TomlGet t k with
        | TTree ks vs => sub ← TraverseTomlTree f (TTree ks vs); Some (map_set k (MapNode sub) mm)
        | TNil => Some mm
        | elm => Some (map_set k (MapLeaf elm) mm)
        end) (Keys t) (Some [])
  end.

Definition TomlToMap (Load : str → result toml) (fuel : nat) (content : str) : option (result (list (str * toml_map))) :=
  match Load content with
  | inl err => Some (inl err)
  | inr t => inr <$> TraverseTomlTree fuel t
  end.

(** ** Maps and files *)

(** On a map with string keys; a nil map has none. *)
Definition ExistsInMap {V} (sMap : gmap str V) (index : str) : bool :=
  match sMap !! index with Some _ => true | None => false end.

(** [Md5File], given what reading the file returns. *)
Definition Md5File (read : result str) : result str :=
  match read with
  | inl err => inl err
  | inr b => inr (digest_hex b)
  end.

(** The errors of [os.Stat] that [os.IsExist] tells apart. *)
Inductive stat_error := ENOENT | EEXIST | ENOTEMPTY | EOTHER.
Definition IsExist (err : stat_error) : bool :=
  match err with EEXIST | ENOTEMPTY => true | _ => false end.
Definition FileExists (err : option stat_error) : bool :=
  match err with None => true | Some e => IsExist e end.

Lemma ExistsInMap_spec {V} (m : gmap str V) k : ExistsInMap m k = true ↔ is_Some (m !! k).
Proof. unfold ExistsInMap. destruct (m !! k); split; naive_solver. Qed.

(** A sum is the text of a digest. *)
Lemma Md5File_shape r s : Md5File r = inr s → length s = 32 ∧ forallb is_hex s = true.
Proof. destruct r as [e|b]; [done|]. intros [= <-]. apply digest_hex_shape. Qed.

(** ** Lemmas on string slices *)

Lemma InArrayString_spec l s : InArrayString l s = true ↔ s ∈ l.
Proof.
  induction l as [|x l IH]; simpl; [set_solver|].
  case_bool_decide; rewrite elem_of_cons; [naive_solver|]. rewrite IH. naive_solver.
Qed.

Lemma InArrayString_false l s : InArrayString l s = false ↔ s ∉ l.
Proof. rewrite <- InArrayString_spec. by destruct (InArrayString l s). Qed.

Lemma elem_of_append_unique l x y : y ∈ append_unique l x ↔ y ∈ l ∨ y = x.
Proof.
  unfold append_unique. destruct (InArrayString l x) eqn:E.
  - apply InArrayString_spec in E. naive_solver.
  - set_solver.
Qed.

Lemma append_unique_NoDup l x : NoDup l → NoDup (append_unique l x).
Proof.
  unfold append_unique. destruct (InArrayString l x) eqn:E; [done|]. intros Hl.
  apply NoDup_app. split_and!; [done| |apply NoDup_singleton].
  apply InArrayString_false in E. set_solver.
Qed.

Lemma fold_append_unique_elem s l y :
  y ∈ fold_left append_unique s l ↔ y ∈ l ∨ y ∈ s.
Proof.
  revert l. induction s as [|x s IH]; intros l; simpl; [set_solver|].
  rewrite IH, elem_of_append_unique. set_solver.
Qed.

Lemma fold_append_unique_NoDup s l : NoDup l → NoDup (fold_left append_unique s l).
Proof. revert l. induction s as [|x s IH]; intros l Hl; simpl; [done|]. by apply IH, append_unique_NoDup. Qed.

Lemma fold_append_unique_prefix s l : l `prefix_of` fold_left append_unique s l.
Proof.
  revert l. induction s as [|x s IH]; intros l; simpl; [done|].
  transitivity (append_unique l x); [|apply IH].
  unfold append_unique. destruct (InArrayString l x); [done|]. by exists [x].
Qed.

Lemma append_unique_old l x : x ∈ l → append_unique l x = l.
Proof. intros H%InArrayString_spec. unfold append_unique. by rewrite H. Qed.

Lemma append_unique_new l x : x ∉ l → append_unique l x = l ++ [x].
Proof. intros H%InArrayString_false. unfold append_unique. by rewrite H. Qed.

Lemma fold_append_unique_id s l : NoDup (l ++ s) → fold_left append_unique s l = l ++ s.
Proof.
  revert l. induction s as [|x s IH]; intros l Hl; simpl; [by rewrite app_nil_r|].
  rewrite append_unique_new.
  - rewrite IH; by rewrite <- (assoc_L (++)).
  - apply NoDup_app in Hl as (_ & Hd & _). intros Hx. apply (Hd x Hx). set_solver.
Qed.

#[export] Hint Rewrite InArrayString_spec InArrayString_false elem_of_append_unique
  fold_append_unique_elem : dove_rw.
#[export] Hint Resolve append_unique_NoDup fold_append_unique_NoDup : dove.

(** The order of the result is that of first occurrences: the reference
    definition keeps the head and drops its later copies. *)
Fixpoint first_occurrences (s : list str) : list str :=
  match s with
  | [] => []
  | x :: s' => x :: List.filter (fun y => negb (bool_decide (y = x))) (first_occurrences s')
  end.

Lemma filter_filter_and {A} (p q : A → bool) k :
  List.filter p (List.filter q k) = List.filter (fun y => q y && p y) k.
Proof.
  induction k as [|y k IH]; simpl; [done|].
  destruct (q y); simpl; [destruct (p y)|]; by rewrite ?IH.
Qed.

Lemma InArrayString_snoc l x y :
  InArrayString (l ++ [x]) y = InArrayString l y || bool_decide (y = x).
Proof.
  apply eq_true_iff_eq. rewrite orb_true_iff, !InArrayString_spec, bool_decide_eq_true.
  set_solver.
Qed.

Lemma fold_append_unique_filter s l :
  fold_left append_unique s l =
    l ++ List.filter (fun y => negb (InArrayString l y)) (first_occurrences s).
Proof.
  revert l. induction s as [|x s IH]; intros l; simpl; [by rewrite app_nil_r|].
  rewrite IH, filter_filter_and. destruct (InArrayString l x) eqn:E; simpl.
  - rewrite append_unique_old by by apply InArrayString_spec. f_equal.
    apply List.filter_ext. intros y. case_bool_decide; simpl; [|done]. by subst; rewrite E.
  - rewrite append_unique_new by by apply InArrayString_false.
    rewrite <- (assoc_L (++)). f_equal. simpl. f_equal.
    apply List.filter_ext. intros y. rewrite InArrayString_snoc.
    by rewrite negb_orb, andb_comm.
Qed.

Lemma fold_append_unique_nil s : fold_left append_unique s [] = first_occurrences s.
Proof.
  rewrite fold_append_unique_filter. simpl.
  induction (first_occurrences s) as [|x l IH]; simpl; [done|]. by rewrite IH.
Qed.

Lemma first_occurrences_elem x s : x ∈ first_occurrences s ↔ x ∈ s.
Proof. rewrite <- fold_append_unique_nil, fold_append_unique_elem, elem_of_nil. naive_solver. Qed.

(** ** The walk over a TOML tree returns

    The recursion follows [Get]; every key but the empty one leads to a
    strictly smaller tree ([Get("")] returns the tree itself). *)

Definition max_of (l : list nat) : nat := fold_right Nat.max 0 l.

Fixpoint toml_depth (t : toml) : nat :=
  match t with
  | TTree _ vs => S (max_of (map (fun kv => toml_depth kv.2) vs))
  | TTrees l => S (max_of (map toml_depth l))
  | _ => 0
  end.

Fixpoint keys_ok (t : toml) : bool :=
  match t with
  | TTree ks vs =>
      forallb (fun k => negb (bool_decide (k = []))) ks && forallb (fun kv => keys_ok kv.2) vs
  | TTrees l => forallb keys_ok l
  | _ => true
  end.

Lemma max_of_ge n l : n ∈ l → n ≤ max_of l.
Proof. induction 1; simpl; lia. Qed.

Lemma assoc_elem k vs v : assoc k vs = Some v → (k, v) ∈ vs.
Proof.
  induction vs as [|[k' v'] vs IH]; simpl; [done|].
  case_bool_decide; [intros [= ->]; subst; left|right; auto].
Qed.

Lemma assoc_smaller t k v :
  assoc k (tree_values t) = Some v → toml_depth v < toml_depth t.
Proof.
  destruct t; simpl; try done. intros H%assoc_elem.
  assert (toml_depth v ∈ map (fun kv => toml_depth kv.2) values) as Hin.
  { apply list_elem_of_In, List.in_map_iff. exists (k, v). split; [done|]. by apply list_elem_of_In. }
  apply max_of_ge in Hin. lia.
Qed.

Lemma assoc_keys_ok t k v :
  keys_ok t = true → assoc k (tree_values t) = Some v → keys_ok v = true.
Proof.
  destruct t; simpl; try done. intros Hok H%assoc_elem. bool_to_prop.
  apply (forallb_forall (fun kv => keys_ok kv.2)) with (x := (k, v)) in H1; [done|].
  by apply list_elem_of_In.
Qed.

Lemma last_table_smaller l sub : last l = Some sub → toml_depth sub < toml_depth (TTrees l).
Proof.
  intros H%last_Some_elem_of. simpl.
  assert (toml_depth sub ∈ map toml_depth l) as Hin.
  { apply list_elem_of_In, List.in_map, list_elem_of_In, H. }
  apply max_of_ge in Hin. lia.
Qed.

Lemma last_table_keys_ok l sub :
  keys_ok (TTrees l) = true → last l = Some sub → keys_ok sub = true.
Proof.
  simpl. intros Hok H%last_Some_elem_of.
  by apply (forallb_forall keys_ok) with (x := sub) in Hok; [|apply list_elem_of_In].
Qed.

(** What [Get] returns is smaller than the tree, or no tree at all. *)
Definition below (t v : toml) : Prop :=
  keys_ok v = true ∧ (toml_depth v < toml_depth t ∨ toml_depth v = 0).

Lemma GetPath_below t keys :
  keys_ok t = true → keys ≠ [] → below t (GetPath t keys).
Proof.
  revert t. induction keys as [|k keys IH]; [done|]. intros t Hok _.
  assert (below t TNil) as Hnil by by split; [|right].
  destruct keys as [|k' keys].
  - simpl. destruct (assoc k (tree_values t)) as [v|] eqn:E; simpl; [|done].
    split; [by eapply assoc_keys_ok|left; by eapply assoc_smaller].
  - change (below t (match assoc k (tree_values t) with
      | Some (TTree ks vs) => GetPath (TTree ks vs) (k' :: keys)
      | Some (TTrees l) => match last l with Some sub => GetPath sub (k' :: keys) | None => TNil end
      | _ => TNil end)).
    destruct (assoc k (tree_values t)) as [[]|] eqn:E; try done.
    + destruct (IH (TTree orderedkeys values)) as [? [?|?]]; [by eapply assoc_keys_ok|done|..];
        apply assoc_smaller in E; (split; [done|]); lia.
    + destruct (last l) as [sub|] eqn:El; [|done].
      assert (keys_ok sub = true) as Hs by (eapply last_table_keys_ok, El; by eapply assoc_keys_ok).
      apply last_table_smaller in El. apply assoc_smaller in E.
      destruct (IH sub Hs) as [? [?|?]]; [done|..]; (split; [done|]); lia.
Qed.

Lemma TomlGet_below t k :
  keys_ok t = true → k ≠ [] → below t (TomlGet t k).
Proof.
  intros Hok Hk. unfold TomlGet. rewrite bool_decide_eq_false_2 by done.
  destruct (assoc k (tree_values t)) as [v|] eqn:E.
  - split; [by eapply assoc_keys_ok|left; by eapply assoc_smaller].
  - apply GetPath_below; [done|].
    destruct (split_nil_cons "."%char k) as (h & t' & E'). by rewrite E'.
Qed.

Lemma keys_nonempty t k : keys_ok t = true → k ∈ Keys t → k ≠ [].
Proof.
  destruct t; simpl; intros Hok Hk; bool_to_prop; try by apply elem_of_nil in Hk.
  rewrite forallb_forall in H. apply list_elem_of_In in Hk.
  specialize (H _ Hk). by bool_to_prop.
Qed.

Section total.
Context `{U : UnicodeTables} (fmt_tables : list toml → str).

Lemma mapM_ext_is_Some {A B} (f g : A → option B) l :
  (∀ x, x ∈ l → f x = g x ∧ is_Some (f x)) → mapM f l = mapM g l ∧ is_Some (mapM f l).
Proof.
  induction l as [|x l IH]; intros H; simpl; [eauto|].
  destruct (H x) as [<- [y ->]]; [left|].
  destruct IH as [<- [ys ->]]; [intros; apply H; by right|]. simpl. eauto.
Qed.

(** Any two fuels of at least the depth give the same text. *)
Lemma TraverseTomlAsJson_fuel f f' t :
  keys_ok t = true → toml_depth t < f → toml_depth t < f' →
  TraverseTomlAsJson fmt_tables f t = TraverseTomlAsJson fmt_tables f' t
  ∧ is_Some (TraverseTomlAsJson fmt_tables f t).
Proof.
  revert f' t. induction f as [|f IH]; intros [|f'] t Hok Hf Hf'; try lia.
  cbn [TraverseTomlAsJson].
  match goal with |- (mapM ?F ?l ≫= _) = (mapM ?G ?l ≫= _) ∧ _ =>
    destruct (mapM_ext_is_Some F G l) as [<- [items ->]]; [|by eauto] end.
  intros k Hk.
  pose proof (keys_nonempty t k Hok Hk) as Hne.
  destruct (TomlGet_below t k Hok Hne) as [Hvok Hd].
  destruct (TomlGet t k) as [ks vs| | | | | | |] eqn:Ev; try by eauto.
  destruct (IH f' (TTree ks vs)) as [<- [s ->]]; [done|simpl in *; lia..|]. simpl. eauto.
Qed.
End total.

(** ** Theorems *)

(** [StringSliceUnique] keeps the first occurrence of every element in the
    order of the input: the result has no duplicates, has the same elements, and
    a slice without duplicates is left as it is. *)
Theorem StringSliceUnique_spec (s : list str) :
  StringSliceUnique s = first_occurrences s
  ∧ NoDup (StringSliceUnique s)
  ∧ (∀ x, x ∈ StringSliceUnique s ↔ x ∈ s)
  ∧ StringSliceUnique (StringSliceUnique s) = StringSliceUnique s.
Proof.
  unfold StringSliceUnique.
  assert (NoDup (fold_left append_unique s [])) as Hnd by (apply fold_append_unique_NoDup; constructor).
  split_and!; [apply fold_append_unique_nil|done| |by rewrite fold_append_unique_id].
  intros x. rewrite fold_append_unique_elem. set_solver.
Qed.

(** C39.  The conversion of TOML text to JSON terminates: on every tree the
    parser returns whose keys are not empty, any fuel above the depth of the
    tree gives a result, the same for every such fuel, for the whole document
    and for the value of its first key; a parse error is passed on. *)
Theorem TomlToJson_total `{U : UnicodeTables} fmt_tables (Load : str → result toml) content f f' :
  (∀ t, Load content = inr t → keys_ok t = true ∧ toml_depth t < f ∧ toml_depth t < f') →
  ∃ r r', TomlToJson fmt_tables Load f content = Some r
    ∧ TomlToJson fmt_tables Load f' content = Some r
    ∧ TomlConfigValueToJson fmt_tables Load f content = Some r'
    ∧ TomlConfigValueToJson fmt_tables Load f' content = Some r'
    ∧ (∀ e, Load content = inl e → r = inl e ∧ r' = inl e).
Proof.
  unfold TomlToJson, TomlConfigValueToJson. destruct (Load content) as [e|t].
  { intros _. exists (inl e), (inl e). naive_solver. }
  intros H. destruct (H t eq_refl) as (Hok & Hf & Hf').
  destruct (TraverseTomlAsJson_fuel fmt_tables f f' t Hok Hf Hf') as [<- [s ->]].
  destruct (Keys t) as [|key ks] eqn:Ek.
  { exists (inr s), (inr None). naive_solver. }
  assert (key ≠ []) as Hne by (apply (keys_nonempty t); [done|rewrite Ek; left]).
  destruct (TomlGet_below t key Hok Hne) as [Hvok Hd]. unfold JsonEncode.
  destruct (TomlGet t key) as [kk vs| | | | | | |] eqn:Ev; try by (eexists _, _; naive_solver).
  destruct (TraverseTomlAsJson_fuel fmt_tables f f' (TTree kk vs)) as [<- [s' ->]];
    [done|simpl in *; lia..|].
  eexists _, _. naive_solver.
Qed.

Definition example_toml : toml :=
  TTree [$"db"; $"n"] [($"db", TTree [$"host"] [($"host", TString $"h")]); ($"n", TList [TInt 1; TString $"x"])].
#[local] Instance example_unicode : UnicodeTables := Build_UnicodeTables (fun _ => false).

Lemma TomlToJson_total_witness :
  ∃ r r', TomlToJson (fun _ => []) (fun _ => inr example_toml) 3 [] = Some r
    ∧ TomlToJson (fun _ => []) (fun _ => inr example_toml) 7 [] = Some r
    ∧ TomlConfigValueToJson (fun _ => []) (fun _ => inr example_toml) 3 [] = Some r'
    ∧ TomlConfigValueToJson (fun _ => []) (fun _ => inr example_toml) 7 [] = Some r'
    ∧ (∀ e, (fun _ : str => @inr str toml example_toml) [] = inl e → r = inl e ∧ r' = inl e).
Proof.
  apply TomlToJson_total. intros t [= <-]. split; [reflexivity|].
  change (toml_depth example_toml) with 2. lia.
Defined.
