(* ===== verification/Blowfish.v ===== *)
(** * The Blowfish block cipher (vendored golang.org/x/crypto/blowfish)

    Key schedule, block encryption and block decryption as the package writes
    them, with 32-bit wrap-around.  [decryptBlock_encryptBlock] is the Feistel
    argument (it holds for every content of the tables); [Decrypt_Encrypt_block]
    lifts it to the byte interface for ciphers whose tables hold 32-bit words,
    which [NewCipher] returns. *)

From S2P Require Import Prelude Words BlowfishTables.
Local Open Scope Z_scope.

Module BF.

Definition BlockSize : Z := 8.

Record Cipher := mkCipher { p : list Z; s0 : list Z; s1 : list Z; s2 : list Z; s3 : list Z }.

(** Array reads; the tables have 18 and 256 entries and every index is a byte
    or a loop bound, so the default is never taken. *)
Definition word_at (t : list Z) (i : Z) : Z := nth (Z.to_nat i) t 0.

(** [((c.s0[byte(x>>24)] + c.s1[byte(x>>16)]) ^ c.s2[byte(x>>8)]) + c.s3[byte(x)]] *)
Definition F (c : Cipher) (x : Z) : Z :=
  uint32 (Z.lxor (uint32 (word_at (s0 c) (uint8 (Z.shiftr x 24))
                          + word_at (s1 c) (uint8 (Z.shiftr x 16))))
                 (word_at (s2 c) (uint8 (Z.shiftr x 8)))
          + word_at (s3 c) (uint8 x)).

(** One line [b ^= F(a) ^ c.p[i]]; the two halves are then exchanged, as the
    next line of the source does. *)
Definition round (c : Cipher) (ab : Z * Z) (i : Z) : Z * Z :=
  (Z.lxor ab.2 (Z.lxor (F c ab.1) (word_at (p c) i)), ab.1).

Definition up : list Z := [1; 2; 3; 4; 5; 6; 7; 8; 9; 10; 11; 12; 13; 14; 15; 16].

Definition encryptBlock (l r : Z) (c : Cipher) : Z * Z :=
  let '(xl, xr) := fold_left (round c) up (Z.lxor l (word_at (p c) 0), r) in
  (Z.lxor xr (word_at (p c) 17), xl).

Definition decryptBlock (l r : Z) (c : Cipher) : Z * Z :=
  let '(xl, xr) := fold_left (round c) (reverse up) (Z.lxor l (word_at (p c) 17), r) in
  (Z.lxor xr (word_at (p c) 0), xl).

(** ** Key schedule *)

Definition initCipher : Cipher := mkCipher init_p init_s0 init_s1 init_s2 init_s3.

(** The four key bytes [key[j..]], read cyclically. *)
Fixpoint next_word (key : str) (n : nat) (j : nat) (d : Z) : Z * nat :=
  match n with
  | O => (d, j)
  | S n' =>
      let d' := Z.lor (uint32 (Z.shiftl d 8)) (Z_of_byte (nth j key byte0)) in
      let j' := if Nat.leb (length key) (S j) then 0%nat else S j in
      next_word key n' j' d'
  end.

Fixpoint xor_key (key : str) (ps : list Z) (j : nat) : list Z :=
  match ps with
  | [] => []
  | x :: ps' => let '(d, j') := next_word key 4 j 0 in Z.lxor x d :: xor_key key ps' j'
  end.

Definition set_p (c : Cipher) (v : list Z) := mkCipher v (s0 c) (s1 c) (s2 c) (s3 c).
Definition set_s0 (c : Cipher) (v : list Z) := mkCipher (p c) v (s1 c) (s2 c) (s3 c).
Definition set_s1 (c : Cipher) (v : list Z) := mkCipher (p c) (s0 c) v (s2 c) (s3 c).
Definition set_s2 (c : Cipher) (v : list Z) := mkCipher (p c) (s0 c) (s1 c) v (s3 c).
Definition set_s3 (c : Cipher) (v : list Z) := mkCipher (p c) (s0 c) (s1 c) (s2 c) v.

(** [for i := 0; i < n; i += 2 { l, r = encryptBlock(l, r, c); t[i], t[i+1] = l, r }]
    where [t] is the table of [c] that [get] and [set] name. *)
Fixpoint refill (get : Cipher → list Z) (set : Cipher → list Z → Cipher)
    (n : nat) (i : nat) (st : Z * Z * Cipher) : Z * Z * Cipher :=
  match n with
  | O => st
  | S n' =>
      let '(l, r, c) := st in
      let '(l', r') := encryptBlock l r c in
      refill get set n' (i + 2) (l', r', set c (<[i + 1 := r']> (<[i := l']> (get c)))%nat)
  end.

Definition ExpandKey (key : str) (c : Cipher) : Cipher :=
  let c := set_p c (xor_key key (p c) 0) in
  let st := refill p set_p 9 0 (0, 0, c) in
  let st := refill s0 set_s0 128 0 st in
  let st := refill s1 set_s1 128 0 st in
  let st := refill s2 set_s2 128 0 st in
  let st := refill s3 set_s3 128 0 st in
  st.2.

(** [inl k] is [KeySizeError(k)]. *)
Definition NewCipher (key : str) : Z + Cipher :=
  let k := Z.of_nat (length key) in
  if (k <? 1) || (k >? 56) then inl k else inr (ExpandKey key initCipher).

(** ** The byte interface: one block of eight bytes *)

Definition on_block (f : Z → Z → Cipher → Z * Z) (c : Cipher) (src : str) : str :=
  match src with
  | [a0; a1; a2; a3; b0; b1; b2; b3] =>
      let '(l, r) := f (Uint32BE a0 a1 a2 a3) (Uint32BE b0 b1 b2 b3) c in
      PutUint32BE l ++ PutUint32BE r
  | _ => src
  end.
Definition Encrypt (c : Cipher) (src : str) : str := on_block encryptBlock c src.
Definition Decrypt (c : Cipher) (src : str) : str := on_block decryptBlock c src.

(** ** The Feistel network *)

Definition swap (ab : Z * Z) : Z * Z := (ab.2, ab.1).

Lemma round_undo c ab i : round c (swap (round c ab i)) i = swap ab.
Proof. destruct ab as [a b]. unfold round, swap. simpl. by rewrite lxor_cancel. Qed.

Lemma rounds_undo c ks ab :
  fold_left (round c) (reverse ks) (swap (fold_left (round c) ks ab)) = swap ab.
Proof.
  revert ab. induction ks as [|i ks IH]; intros ab; [done|].
  rewrite reverse_cons, fold_left_app. simpl. rewrite IH. apply round_undo.
Qed.

Lemma decryptBlock_encryptBlock l r c :
  let '(l', r') := encryptBlock l r c in decryptBlock l' r' c = (l, r).
Proof.
  unfold encryptBlock, decryptBlock.
  destruct (fold_left (round c) up (Z.lxor l (word_at (p c) 0), r)) as [xl xr] eqn:E.
  rewrite lxor_cancel. pose proof (rounds_undo c up (Z.lxor l (word_at (p c) 0), r)) as H.
  rewrite E in H. change (swap (xl, xr)) with (xr, xl) in H. rewrite H. cbn [swap fst snd].
  by rewrite lxor_cancel.
Qed.

(** ** Tables of 32-bit words *)

Definition wf (c : Cipher) : Prop :=
  Forall is_word (p c) ∧ Forall is_word (s0 c) ∧ Forall is_word (s1 c)
  ∧ Forall is_word (s2 c) ∧ Forall is_word (s3 c).

Lemma word_at_word t i : Forall is_word t → is_word (word_at t i).
Proof.
  intros Ht. unfold word_at. destruct (nth_in_or_default (Z.to_nat i) t 0) as [Hin| ->].
  - rewrite Forall_forall in Ht. by apply Ht, list_elem_of_In.
  - done.
Qed.

Lemma round_words c ab i :
  wf c → is_word ab.1 ∧ is_word ab.2 → is_word (round c ab i).1 ∧ is_word (round c ab i).2.
Proof.
  intros (Hp & _) [Ha Hb]. split; [|done]. simpl.
  apply lxor_word, lxor_word; [done|apply uint32_word|by apply word_at_word].
Qed.

Lemma rounds_words c ks ab :
  wf c → is_word ab.1 ∧ is_word ab.2 →
  is_word (fold_left (round c) ks ab).1 ∧ is_word (fold_left (round c) ks ab).2.
Proof.
  intros Hc. revert ab. induction ks as [|i ks IH]; intros ab Hab; [done|].
  simpl. apply IH. by apply round_words.
Qed.

Lemma encryptBlock_words l r c :
  wf c → is_word l → is_word r → is_word (encryptBlock l r c).1 ∧ is_word (encryptBlock l r c).2.
Proof.
  intros Hc Hl Hr. unfold encryptBlock.
  assert (∀ i, is_word (word_at (p c) i)) as Hp by (intros; apply word_at_word, Hc).
  destruct (rounds_words c up (Z.lxor l (word_at (p c) 0), r) Hc) as [H1 H2].
  { split; simpl; [by apply lxor_word|done]. }
  destruct (fold_left _ _ _) as [xl xr]. split; [by apply lxor_word|done].
Qed.

(** A block that is encrypted and decrypted with the same cipher. *)
Lemma Decrypt_Encrypt_block c src : wf c → length src = 8%nat → Decrypt c (Encrypt c src) = src.
Proof.
  intros Hc Hlen.
  destruct src as [|a0 [|a1 [|a2 [|a3 [|b0 [|b1 [|b2 [|b3 [|]]]]]]]]]; try discriminate Hlen.
  unfold Encrypt, Decrypt. cbn [on_block].
  set (l := Uint32BE a0 a1 a2 a3). set (r := Uint32BE b0 b1 b2 b3).
  pose proof (decryptBlock_encryptBlock l r c) as Hd.
  destruct (encryptBlock_words l r c Hc) as [Hl Hr]; [apply Uint32BE_word..|].
  destruct (encryptBlock l r c) as [l' r'] eqn:E. cbn [fst snd] in Hl, Hr.
  unfold PutUint32BE at 1 2. cbn [app on_block].
  rewrite !Uint32BE_PutUint32BE by done. rewrite Hd.
  subst l r. by rewrite !PutUint32BE_Uint32BE.
Qed.

Lemma Encrypt_length c src : length src = 8%nat → length (Encrypt c src) = 8%nat.
Proof.
  intros Hlen. destruct src as [|a0 [|a1 [|a2 [|a3 [|b0 [|b1 [|b2 [|b3 [|]]]]]]]]]; try discriminate Hlen.
  unfold Encrypt, on_block. by destruct (encryptBlock _ _ _).
Qed.

(** ** [NewCipher] builds such tables *)

Lemma initCipher_wf : wf initCipher.
Proof.
  assert (∀ t, forallb (fun z => (0 <=? z) && (z <? 2 ^ 32)) t = true → Forall is_word t) as H.
  { intros t. rewrite forallb_forall, Forall_forall. intros Ht z Hz%list_elem_of_In.
    specialize (Ht z Hz). bool_to_prop. done. }
  unfold wf, initCipher. simpl p. simpl s0. simpl s1. simpl s2. simpl s3.
  split_and!; apply H; vm_compute; reflexivity.
Qed.

Lemma next_word_word key n j d : is_word d → is_word (next_word key n j d).1.
Proof.
  revert j d. induction n as [|n IH]; intros j d Hd; simpl; [done|]. apply IH.
  set (b := nth j key byte0). pose proof (Z_of_byte_range b).
  assert (uint32 (Z.shiftl d 8) = Z.shiftl (d mod 2 ^ 24) 8) as ->.
  { unfold uint32. rewrite !Z.shiftl_mul_pow2 by lia.
    change (2 ^ 32) with (2 ^ 24 * 2 ^ 8). by rewrite Zmult_mod_distr_r. }
  rewrite lor_shiftl_add by lia. unfold is_word.
  pose proof (Z.mod_pos_bound d (2 ^ 24) ltac:(lia)). lia.
Qed.

Lemma xor_key_words key ps j : Forall is_word ps → Forall is_word (xor_key key ps j).
Proof.
  intros Hps. revert j. induction Hps as [|x ps Hx Hps IH]; intros j; [constructor|].
  unfold xor_key; fold xor_key.
  pose proof (next_word_word key 4 j 0) as Hw.
  destruct (next_word key 4 j 0) as [d j']. constructor; [|apply IH].
  apply lxor_word; [done|]. by apply Hw.
Qed.

Section refill_wf.
Context (get : Cipher → list Z) (set : Cipher → list Z → Cipher).
Context (get_words : ∀ c, wf c → Forall is_word (get c)).
Context (set_wf : ∀ c v, wf c → Forall is_word v → wf (set c v)).

Definition state_wf (st : Z * Z * Cipher) : Prop :=
  is_word st.1.1 ∧ is_word st.1.2 ∧ wf st.2.

Lemma refill_wf n i st : state_wf st → state_wf (refill get set n i st).
Proof.
  revert i st. induction n as [|n IH]; intros i [[l r] c] (Hl & Hr & Hc); [done|].
  cbn [refill]. simpl in Hl, Hr, Hc.
  destruct (encryptBlock_words l r c Hc Hl Hr) as [Hl' Hr'].
  destruct (encryptBlock l r c) as [l' r']. apply IH. split_and!; [done..|]. simpl.
  apply set_wf; [done|].
  apply Forall_insert; [apply Forall_insert; [by apply get_words|done]|done].
Qed.
End refill_wf.

Local Ltac tables := unfold wf; simpl; tauto.

Lemma ExpandKey_wf key c : wf c → wf (ExpandKey key c).
Proof.
  intros Hc. unfold ExpandKey.
  assert (state_wf (0, 0, set_p c (xor_key key (p c) 0))) as H0.
  { split_and!; [done..|]. destruct Hc as (Hp & ?). split; [by apply xor_key_words|done]. }
  apply (refill_wf s3 set_s3); [tables..|].
  apply (refill_wf s2 set_s2); [tables..|].
  apply (refill_wf s1 set_s1); [tables..|].
  apply (refill_wf s0 set_s0); [tables..|].
  by apply (refill_wf p set_p); [tables..|].
Qed.

Lemma NewCipher_wf key c : NewCipher key = inr c → wf c.
Proof.
  unfold NewCipher. pose proof (ExpandKey_wf key initCipher initCipher_wf) as H.
  revert H. generalize (ExpandKey key initCipher). intros c' H.
  destruct (_ || _); [done|]. by intros [= <-].
Qed.

(** Reference vector: eight zero bytes under the key of eight zero bytes. *)
Example blowfish_vector :
  match NewCipher (make_bytes 8) with
  | inr c => map Z_of_byte (Encrypt c (make_bytes 8))
  | inl _ => []
  end = [0x4E; 0xF9; 0x97; 0x45; 0x61; 0x98; 0xDD; 0x78].
Proof. vm_compute. reflexivity. Qed.

End BF.
