(* ===== verification/Encrypt.v ===== *)
(** * encrypt/encrypt.go: the configuration encryptor

    Blowfish in CBC mode with zero padding.  [CBC] is the standard library's
    [crypto/cipher] block mode, whose constructor panics on an IV that is not
    one block long and whose [CryptBlocks] panics on a partial block.  The main
    results: what [Decrypt] returns after [Encrypt] ([Decrypt_Encrypt]), which
    is the plain text up to its trailing zero bytes, and every failure of the
    two functions. *)

From S2P Require Import Prelude GoLib Words Blowfish.

Record Encryptor := mkEncryptor { IV : str; Key : str; Mode : str; CipherName : str }.

Definition ENC_IV_SIZE : Z := 8.

(** ** crypto/cipher: CBC *)
Module CBC.

Fixpoint xor_bytes (a b : str) : str :=
  match a, b with
  | x :: a', y :: b' => byte_of_Z (Z.lxor (Z_of_byte x) (Z_of_byte y)) :: xor_bytes a' b'
  | _, _ => []
  end.

(** The blocks of [src], in order; the last one may be short. *)
Fixpoint blocks (n : nat) (src : str) : list str :=
  match n with
  | O => []
  | S n' => match src with [] => [] | _ => take 8 src :: blocks n' (drop 8 src) end
  end.
Definition blocks_of (src : str) : list str := blocks (length src) src.

Fixpoint encrypt_blocks (enc : str → str) (iv : str) (bs : list str) : str :=
  match bs with
  | [] => []
  | b :: bs' => let e := enc (xor_bytes b iv) in e ++ encrypt_blocks enc e bs'
  end.

Fixpoint decrypt_blocks (dec : str → str) (iv : str) (bs : list str) : str :=
  match bs with
  | [] => []
  | b :: bs' => xor_bytes (dec b) iv ++ decrypt_blocks dec b bs'
  end.

Definition CryptBlocks (run : list str → str) (src : str) : outcome str :=
  if Nat.eqb (length src mod 8) 0 then Done (run (blocks_of src))
  else Panic $"crypto/cipher: input not full blocks".

(** ** The chaining is undone by the chained decryption *)

Lemma length_xor_bytes a b : length (xor_bytes a b) = Nat.min (length a) (length b).
Proof. revert b. induction a as [|x a IH]; intros [|y b]; simpl; by rewrite ?IH. Qed.

Lemma lxor_byte_range x y : (0 <= Z.lxor (Z_of_byte x) (Z_of_byte y) < 256)%Z.
Proof.
  pose proof (Z_of_byte_range x) as Hx. pose proof (Z_of_byte_range y) as Hy.
  split; [apply Z.lxor_nonneg; lia|].
  destruct (decide (Z.lxor (Z_of_byte x) (Z_of_byte y) = 0)%Z) as [->|]; [lia|].
  assert (0 <= Z.lxor (Z_of_byte x) (Z_of_byte y))%Z by (apply Z.lxor_nonneg; lia).
  change 256%Z with (2 ^ 8)%Z. apply Z.log2_lt_pow2; [lia|].
  pose proof (Z.log2_lxor (Z_of_byte x) (Z_of_byte y) ltac:(lia) ltac:(lia)).
  assert (∀ z, (0 <= z < 256)%Z → (Z.log2 z < 8)%Z) as Hlog.
  { intros z Hz. destruct (decide (z = 0)%Z) as [->|]; [done|]. apply Z.log2_lt_pow2; lia. }
  pose proof (Hlog _ Hx). pose proof (Hlog _ Hy). lia.
Qed.

Lemma xor_bytes_cancel a b : length a = length b → xor_bytes (xor_bytes a b) b = a.
Proof.
  revert b. induction a as [|x a IH]; intros [|y b]; simpl; intros H; try done.
  rewrite IH by lia. f_equal.
  rewrite Z_of_byte_of_Z, (Z.mod_small (Z.lxor _ _)) by apply lxor_byte_range.
  by rewrite lxor_cancel, byte_of_Z_of_byte.
Qed.

Definition full (bs : list str) : Prop := Forall (fun b => length b = 8) bs.

Lemma blocks_full n src : length src ≤ n → length src mod 8 = 0 →
  full (blocks n src) ∧ concat (blocks n src) = src.
Proof.
  revert src. induction n as [|n IH]; intros src Hn Hm; simpl.
  - destruct src; [|simpl in Hn; lia]. split; [constructor|done].
  - destruct src as [|x src]; [split; [constructor|done]|].
    set (s := x :: src) in *.
    assert (8 ≤ length s).
    { destruct (decide (length s < 8)); [|lia].
      rewrite Nat.mod_small in Hm by done. subst s. simpl in Hm. lia. }
    assert (length (drop 8 s) = length s - 8) as Hd by (by rewrite length_drop).
    destruct (IH (drop 8 s)) as [Hf Hc].
    { lia. }
    { rewrite Hd. replace (length s) with (length s - 8 + 1 * 8) in Hm by lia.
      by rewrite Nat.Div0.mod_add in Hm. }
    split; [constructor; [rewrite length_take; lia|done]|].
    change (take 8 s ++ concat (blocks n (drop 8 s)) = s). rewrite Hc. apply take_drop.
Qed.

Lemma blocks_of_concat bs : full bs → blocks_of (concat bs) = bs.
Proof.
  intros Hf. unfold blocks_of.
  assert (∀ n, length (concat bs) ≤ n → blocks n (concat bs) = bs) as H; [|by apply H].
  induction Hf as [|b bs Hb Hf IH]; intros n Hn; [by destruct n|].
  simpl in *. rewrite length_app in Hn. destruct n as [|n]; [lia|].
  simpl. destruct (b ++ concat bs) as [|y k] eqn:E.
  - apply (f_equal length) in E. rewrite length_app in E. simpl in E. lia.
  - rewrite <- E.
    rewrite take_app_le, take_ge by lia.
    rewrite drop_app_le by lia. rewrite (drop_ge b) by lia.
    simpl. rewrite IH by lia. done.
Qed.

Section chain.
Context (enc dec : str → str).
Context (dec_enc : ∀ b, length b = 8 → dec (enc b) = b).
Context (enc_length : ∀ b, length b = 8 → length (enc b) = 8).

(** The blocks the encryption produces. *)
Fixpoint chain_blocks (iv : str) (bs : list str) : list str :=
  match bs with
  | [] => []
  | b :: bs' => let e := enc (xor_bytes b iv) in e :: chain_blocks e bs'
  end.

Lemma encrypt_blocks_concat iv bs : encrypt_blocks enc iv bs = concat (chain_blocks iv bs).
Proof. revert iv. induction bs as [|b bs IH]; intros iv; simpl; [done|]. by rewrite IH. Qed.

Lemma chain_blocks_full iv bs : length iv = 8 → full bs → full (chain_blocks iv bs).
Proof.
  intros Hiv Hbs. revert iv Hiv. induction Hbs as [|b bs Hb Hbs IH]; intros iv Hiv; simpl.
  - constructor.
  - assert (length (enc (xor_bytes b iv)) = 8) as He.
    { apply enc_length. rewrite length_xor_bytes. lia. }
    constructor; [done|]. by apply IH.
Qed.

Lemma decrypt_chain iv bs :
  length iv = 8 → full bs → decrypt_blocks dec iv (chain_blocks iv bs) = concat bs.
Proof.
  intros Hiv Hbs. revert iv Hiv. induction Hbs as [|b bs Hb Hbs IH]; intros iv Hiv; simpl; [done|].
  assert (length (xor_bytes b iv) = 8) as Hx by (rewrite length_xor_bytes; lia).
  rewrite dec_enc by done. rewrite xor_bytes_cancel by lia. f_equal.
  apply IH. by apply enc_length.
Qed.

Lemma length_encrypt_blocks iv bs :
  length iv = 8 → full bs → length (encrypt_blocks enc iv bs) = length (concat bs).
Proof.
  intros Hiv Hbs. rewrite encrypt_blocks_concat.
  pose proof (chain_blocks_full iv bs Hiv Hbs) as Hc. revert Hc.
  clear Hiv. revert iv. induction Hbs as [|b bs Hb Hbs IH]; intros iv Hc; simpl in *; [done|].
  inv Hc. rewrite !length_app. rewrite IH by done. lia.
Qed.
End chain.
End CBC.

(** ** The encryptor *)

(** The text of [KeySizeError]. *)
Definition key_size_error (k : Z) : error := $"crypto/blowfish: invalid key size " ++ Itoa k.

Definition iv_panic (who : str) : str := who ++ $": IV length must equal block size".

(** [modLen] is at least one: a full block of zeros is appended to a text
    whose length is already a multiple of the block size. *)
Definition pad (plainText : str) : str :=
  let textLen := length plainText in
  let modLen := 8 - textLen mod 8 in
  plainText ++ make_bytes modLen.

Definition Encrypt (c : Encryptor) (plainText : str) : outcome (result str) :=
  match BF.NewCipher (Key c) with
  | inl k => Done (inl (key_size_error k))
  | inr blockCipher =>
      if negb (Nat.eqb (length (IV c)) 8) then Panic (iv_panic $"cipher.NewCBCEncrypter")
      else
        encryptedText ← CBC.CryptBlocks
          (CBC.encrypt_blocks (BF.Encrypt blockCipher) (IV c)) (pad plainText);
        Done (inr encryptedText)
  end.

(** [for textLen > 0 { if plainText[textLen-1] != 0 { break }; textLen -= 1 }] *)
Definition strip_zeros (plainText : str) : str :=
  reverse (drop_while (fun x => bool_decide (x = byte0)) (reverse plainText)).

Definition Decrypt (c : Encryptor) (encryptedText : str) : outcome (result str) :=
  match BF.NewCipher (Key c) with
  | inl k => Done (inl (key_size_error k))
  | inr blockCipher =>
      if negb (Nat.eqb (length (IV c)) 8) then Panic (iv_panic $"cipher.NewCBCDecrypter")
      else
        plainText ← CBC.CryptBlocks
          (CBC.decrypt_blocks (BF.Decrypt blockCipher) (IV c)) encryptedText;
        Done (inr (strip_zeros plainText))
  end.

(** ** Padding *)

Lemma pad_length s : length (pad s) = length s + (8 - length s mod 8).
Proof. unfold pad, make_bytes. by rewrite length_app, length_replicate. Qed.

Lemma pad_full s : length (pad s) mod 8 = 0.
Proof.
  rewrite pad_length. pose proof (Nat.div_mod_eq (length s) 8) as H.
  pose proof (Nat.mod_upper_bound (length s) 8 ltac:(lia)).
  replace (length s + (8 - length s mod 8)) with ((length s / 8 + 1) * 8) by lia.
  apply Nat.Div0.mod_mul.
Qed.

Lemma strip_zeros_app s n : strip_zeros (s ++ make_bytes n) = strip_zeros s.
Proof.
  unfold strip_zeros, make_bytes. rewrite reverse_app, reverse_replicate.
  rewrite drop_while_app_all; [done|]. apply Forall_replicate_p. by apply bool_decide_eq_true.
Qed.

Lemma strip_zeros_spec s :
  ∃ n, s = strip_zeros s ++ make_bytes n ∧ list.last (strip_zeros s) ≠ Some byte0.
Proof.
  exists (length (take_while (fun x => bool_decide (x = byte0)) (reverse s))). split.
  - rewrite <- (reverse_involutive s) at 1.
    rewrite <- (take_drop_while (fun x => bool_decide (x = byte0)) (reverse s)) at 1.
    rewrite reverse_app. unfold strip_zeros. f_equal. unfold make_bytes.
    rewrite <- reverse_replicate. f_equal.
    pose proof (take_while_Forall (fun x => bool_decide (x = byte0)) (reverse s)) as H.
    induction H as [|x l Hx _ IH]; simpl; [done|]. bool_to_prop. by rewrite <- IH, Hx.
  - unfold strip_zeros.
    destruct (drop_while _ (reverse s)) as [|x k] eqn:E; [done|].
    apply drop_while_head in E. rewrite last_reverse. simpl. bool_to_prop. congruence.
Qed.

Lemma strip_zeros_id s : list.last s ≠ Some byte0 → strip_zeros s = s.
Proof.
  intros Hs. destruct s as [|x s _] using rev_ind; [done|].
  rewrite last_snoc in Hs. unfold strip_zeros. rewrite reverse_snoc, drop_while_stop.
  - by rewrite reverse_cons, reverse_involutive.
  - apply bool_decide_eq_false. congruence.
Qed.

(** ** Keys and IVs the two functions accept *)

Definition usable (c : Encryptor) : Prop :=
  1 ≤ length (Key c) ≤ 56 ∧ length (IV c) = 8.

Lemma NewCipher_usable key :
  1 ≤ length key ≤ 56 → ∃ c, BF.NewCipher key = inr c ∧ BF.wf c.
Proof.
  intros H.
  assert (BF.NewCipher key = inr (BF.ExpandKey key BF.initCipher)) as E.
  { unfold BF.NewCipher.
    generalize (BF.ExpandKey key BF.initCipher). intros c.
    destruct (Z.ltb_spec (Z.of_nat (length key)) 1); [lia|].
    destruct (Z.gtb_spec (Z.of_nat (length key)) 56); [lia|]. done. }
  eexists. split; [exact E|]. by eapply BF.NewCipher_wf.
Qed.

Lemma NewCipher_bad_key key :
  ¬ (1 ≤ length key ≤ 56) → BF.NewCipher key = inl (Z.of_nat (length key)).
Proof.
  intros H. unfold BF.NewCipher.
  generalize (BF.ExpandKey key BF.initCipher). intros c.
  destruct (Z.ltb_spec (Z.of_nat (length key)) 1); [done|].
  destruct (Z.gtb_spec (Z.of_nat (length key)) 56); [done|]. lia.
Qed.

(** ** Properties *)

Lemma Encrypt_usable c s :
  usable c →
  ∃ bc, BF.NewCipher (Key c) = inr bc ∧ BF.wf bc ∧
    Encrypt c s = Done (inr (CBC.encrypt_blocks (BF.Encrypt bc) (IV c) (CBC.blocks_of (pad s)))).
Proof.
  intros [Hk Hiv]. destruct (NewCipher_usable _ Hk) as (bc & Hbc & Hwf).
  exists bc. split_and!; [done..|].
  unfold Encrypt, CBC.CryptBlocks. rewrite Hbc, Hiv, pad_full. done.
Qed.

Lemma Encrypt_roundtrip c s :
  usable c →
  ∃ e, Encrypt c s = Done (inr e)
    ∧ length e = 8 * (length s / 8 + 1)
    ∧ Decrypt c e = Done (inr (strip_zeros s))
    ∧ (Decrypt c e = Done (inr s) ↔ list.last s ≠ Some byte0).
Proof.
  intros Hu. destruct (Encrypt_usable c s Hu) as (bc & Hbc & Hwf & He).
  destruct Hu as [_ Hiv]. eexists. split; [exact He|].
  destruct (CBC.blocks_full (length (pad s)) (pad s)) as [Hf Hc]; [done|apply pad_full|].
  fold (CBC.blocks_of (pad s)) in Hf, Hc.
  pose proof (BF.Encrypt_length bc) as Hlen.
  assert (Decrypt c (CBC.encrypt_blocks (BF.Encrypt bc) (IV c) (CBC.blocks_of (pad s)))
          = Done (inr (strip_zeros s))) as HD.
  { unfold Decrypt, CBC.CryptBlocks. rewrite Hbc, Hiv.
    rewrite CBC.length_encrypt_blocks, Hc, pad_full by done.
    cbn [negb Nat.eqb mbind outcome_bind]. rewrite CBC.encrypt_blocks_concat, CBC.blocks_of_concat
      by by apply CBC.chain_blocks_full.
    rewrite CBC.decrypt_chain; [|intros; by apply BF.Decrypt_Encrypt_block|done..].
    rewrite Hc. unfold pad. by rewrite strip_zeros_app. }
  split_and!; [|exact HD|].
  - rewrite CBC.length_encrypt_blocks, Hc, pad_length by done.
    pose proof (Nat.div_mod_eq (length s) 8).
    pose proof (Nat.mod_upper_bound (length s) 8 ltac:(lia)). lia.
  - rewrite HD. split.
    + intros [= E]. destruct (strip_zeros_spec s) as (n & _ & Hl). by rewrite E in Hl.
    + intros Hl. by rewrite strip_zeros_id.
Qed.

(** C16.  For a key of 1 to 56 bytes and an IV of 8 bytes, [Encrypt] succeeds on
    every text, its output is a whole number of blocks with at least one block of
    padding appended, and [Decrypt] of that output returns the text without its
    trailing zero bytes; the text itself comes back exactly when it does not
    end in a zero byte. *)
Theorem Decrypt_Encrypt c s :
  usable c →
  ∃ e, Encrypt c s = Done (inr e)
    ∧ length e = 8 * (length s / 8 + 1)
    ∧ Decrypt c e = Done (inr (strip_zeros s))
    ∧ (Decrypt c e = Done (inr s) ↔ list.last s ≠ Some byte0).
Proof. apply Encrypt_roundtrip. Qed.

Lemma Decrypt_Encrypt_witness :
  ∃ e, Encrypt (mkEncryptor $"11111111" $"example-encrypt-key" [] []) $"a=1" = Done (inr e)
    ∧ Decrypt (mkEncryptor $"11111111" $"example-encrypt-key" [] []) e = Done (inr $"a=1").
Proof.
  destruct (Decrypt_Encrypt (mkEncryptor $"11111111" $"example-encrypt-key" [] []) $"a=1")
    as (e & He & _ & _ & Hd).
  - split; simpl; lia.
  - exists e. split; [exact He|]. apply Hd. discriminate.
Defined.

(** The failures: a key of any other length makes both functions return
    the key-size error; with a good key an IV that is not 8 bytes makes both
    panic; with a good key and IV, [Decrypt] panics on a cipher text that is not a
    whole number of blocks and otherwise always returns a text. *)
Theorem Encrypt_Decrypt_failures c s :
  (¬ (1 ≤ length (Key c) ≤ 56) →
     Encrypt c s = Done (inl (key_size_error (Z.of_nat (length (Key c)))))
     ∧ Decrypt c s = Done (inl (key_size_error (Z.of_nat (length (Key c))))))
  ∧ (1 ≤ length (Key c) ≤ 56 → length (IV c) ≠ 8 →
     Encrypt c s = Panic (iv_panic $"cipher.NewCBCEncrypter")
     ∧ Decrypt c s = Panic (iv_panic $"cipher.NewCBCDecrypter"))
  ∧ (usable c → length s mod 8 ≠ 0 →
     Decrypt c s = Panic $"crypto/cipher: input not full blocks")
  ∧ (usable c → length s mod 8 = 0 → ∃ t, Decrypt c s = Done (inr t)).
Proof.
  split_and!.
  - intros Hk. unfold Encrypt, Decrypt. by rewrite (NewCipher_bad_key _ Hk).
  - intros Hk Hiv. destruct (NewCipher_usable _ Hk) as (bc & Hbc & _).
    unfold Encrypt, Decrypt. rewrite Hbc.
    assert (Nat.eqb (length (IV c)) 8 = false) as -> by by apply Nat.eqb_neq. done.
  - intros [Hk Hiv] Hm. destruct (NewCipher_usable _ Hk) as (bc & Hbc & _).
    unfold Decrypt, CBC.CryptBlocks. rewrite Hbc, Hiv.
    assert (Nat.eqb (length s mod 8) 0 = false) as -> by by apply Nat.eqb_neq. done.
  - intros [Hk Hiv] Hm. destruct (NewCipher_usable _ Hk) as (bc & Hbc & _).
    unfold Decrypt, CBC.CryptBlocks. rewrite Hbc, Hiv, Hm. by eexists.
Qed.
