(* ===== verification/Fcgi.v ===== *)
(** * callbacks/fcgiclient/fcgiclient.go: the FastCGI client

    Record headers with their field widths, the length encoding of name-value
    pairs, the buffered stream writer, [Request] and the record reader.  The
    connection is a state: the byte blocks written so far, the outcome of each
    coming [Write] (a failing [Write] is an entry of [faults]) and the bytes
    that the peer will send.

    Results: a record that is written is read back ([read_writeRecord], for
    contents that fit the 16-bit length field), the record is a whole number of
    8-byte units, the pair encoding is injective ([decode_pairs_encode_pairs]),
    and the records [Request] puts on the wire ([Request_wire]). *)

From S2P Require Import Prelude GoLib Words.

Module FCGI.
Local Open Scope Z_scope.

Definition FCGI_BEGIN_REQUEST : Z := 1.
Definition FCGI_END_REQUEST : Z := 3.
Definition FCGI_PARAMS : Z := 4.
Definition FCGI_STDIN : Z := 5.
Definition FCGI_RESPONDER : Z := 1.

Definition maxWrite : nat := Z.to_nat 6553500.
Definition maxPad : nat := 255.

Record header := mkHeader {
  Version : Z; Type_ : Z; Id : Z; ContentLength : Z; PaddingLength : Z; Reserved : Z }.

Definition zero_header : header := mkHeader 0 0 0 0 0 0.

(** [header.init]: [Reserved] keeps its value. *)
Definition header_init (h : header) (recType reqId contentLength : Z) : header :=
  mkHeader 1 recType reqId (uint16 contentLength)
    (uint8 (Z.land (- contentLength) 7)) (Reserved h).

(** [binary.Write(&buf, binary.BigEndian, h)]. *)
Definition header_bytes (h : header) : str :=
  [byte_of_Z (Version h); byte_of_Z (Type_ h)] ++ PutUint16BE (Id h)
  ++ PutUint16BE (ContentLength h) ++ [byte_of_Z (PaddingLength h); byte_of_Z (Reserved h)].

(** ** The connection and the client *)

Record conn := mkConn { sent : list str; faults : list (option error); incoming : str }.

Definition conn_write (c : conn) (b : str) : option error * conn :=
  match faults c with
  | Some e :: fs => (Some e, mkConn (sent c) fs (incoming c))
  | None :: fs => (None, mkConn (sent c ++ [b]) fs (incoming c))
  | [] => (None, mkConn (sent c ++ [b]) [] (incoming c))
  end.

Record FCGIClient := mkClient { rwc : conn; h : header; buf : str }.

(** ** Dialling *)

(** The values [New] takes as an [interface{}]. *)
Inductive dial_arg := ArgInt (z : Z) | ArgString (s : str) | ArgOther.

(** [New]: [net.Dial] of a network and an address; the client, whose connection
    may be nil, and the error. *)
Definition New (dial : str → str → result conn) (h : str) (args : list dial_arg)
    : option (option conn) * option error :=
  let made (r : result conn) : option (option conn) * option error :=
    match r with inr c => (Some (Some c), None) | inl err => (Some None, Some err) end in
  match args with
  | [ArgInt port] => made (dial $"tcp" (h ++ ":"%char :: Itoa port))
  | [ArgString addr] => made (dial $"unix" addr)
  | [ArgOther] => (Some None, Some $"fcgi: we only accept int (port) or string (socket) params.")
  | _ => (None, Some $"fcgi: not enough params")
  end.

(** The client of a connection that [New] made. *)
Definition new_client (c : conn) : FCGIClient := mkClient c zero_header [].

Definition writeRecord (this : FCGIClient) (recType reqId : Z) (content : str)
    : option error * FCGIClient :=
  let h' := header_init (h this) recType reqId (Z.of_nat (length content)) in
  let buf' := header_bytes h' ++ content ++ make_bytes (Z.to_nat (PaddingLength h')) in
  let '(err, c) := conn_write (rwc this) buf' in
  (err, mkClient c h' buf').

(** [[8]byte{byte(role >> 8), byte(role), flags}]. *)
Definition writeBeginRequest (this : FCGIClient) (reqId role flags : Z) :=
  let b := [byte_of_Z (Z.shiftr role 8); byte_of_Z role; byte_of_Z flags] ++ make_bytes 5 in
  writeRecord this FCGI_BEGIN_REQUEST reqId b.

Definition writeEndRequest (this : FCGIClient) (reqId appStatus protocolStatus : Z) :=
  let b := PutUint32BE (uint32 appStatus) ++ [byte_of_Z protocolStatus] ++ make_bytes 3 in
  writeRecord this FCGI_END_REQUEST reqId b.

(** ** Lengths of names and values *)

Definition encodeSize (size : Z) : str :=
  if 127 <? size then PutUint32BE (Z.lor size (Z.shiftl 1 31)) else [byte_of_Z size].

(** [(size, n)]; [(0, 0)] when there are not enough bytes. *)
Definition readSize (s : str) : Z * nat :=
  match s with
  | [] => (0, 0%nat)
  | a :: rest =>
      let size := Z_of_byte a in
      if Z.land size (Z.shiftl 1 7) =? 0 then (size, 1%nat)
      else match rest with
           | b :: c :: d :: _ => (Z.ldiff (Uint32BE a b c d) (Z.shiftl 1 31), 4%nat)
           | _ => (0, 0%nat)
           end
  end.

Definition readString (s : str) (size : Z) : str :=
  if Z.of_nat (length s) <? size then [] else take (Z.to_nat size) s.

(** ** The stream writer and its buffer *)

Record streamWriter := mkStream { recType : Z; reqId : Z }.

(** [for len(p) > 0 { n := min(len(p), maxWrite); writeRecord(p[:n]); p = p[n:] }];
    [length p] iterations are enough because [maxWrite] is positive. *)
Fixpoint stream_write_loop (mw fuel : nat) (w : streamWriter) (c : FCGIClient) (p : str) (nn : nat)
    : nat * option error * FCGIClient :=
  match fuel with
  | O => (nn, None, c)
  | S f =>
      match p with
      | [] => (nn, None, c)
      | _ =>
          let n := if Nat.ltb mw (length p) then mw else length p in
          match writeRecord c (recType w) (reqId w) (take n p) with
          | (Some err, c') => (nn, Some err, c')
          | (None, c') => stream_write_loop mw f w c' (drop n p) (nn + n)
          end
      end
  end.
Definition stream_write (mw : nat) (w : streamWriter) (c : FCGIClient) (p : str) :=
  stream_write_loop mw (length p) w c p 0.

Definition stream_close (w : streamWriter) (c : FCGIClient) : option error * FCGIClient :=
  writeRecord c (recType w) (reqId w) [].

(** [bufio.Writer] of size [mw] over the stream writer. *)
Record bufWriter := mkBuf { wr : streamWriter; pending : str; berr : option error }.

Definition buf_flush (mw : nat) (b : bufWriter) (c : FCGIClient) : bufWriter * FCGIClient :=
  match berr b with
  | Some _ => (b, c)
  | None =>
      match pending b with
      | [] => (b, c)
      | _ =>
          match stream_write mw (wr b) c (pending b) with
          | (n, Some err, c') => (mkBuf (wr b) (drop n (pending b)) (Some err), c')
          | (_, None, c') => (mkBuf (wr b) [] None, c')
          end
      end
  end.

(** [bufio.Writer.Write]: while the data exceeds the free space, write it
    through (empty buffer) or fill the buffer and flush.  The loop shortens [p]
    each time round, so [length p + 1] iterations are enough. *)
Fixpoint buf_write_loop (mw fuel : nat) (b : bufWriter) (c : FCGIClient) (p : str)
    : bufWriter * FCGIClient :=
  match fuel with
  | O => (b, c)
  | S f =>
      let avail := (mw - length (pending b))%nat in
      if Nat.ltb avail (length p) && bool_decide (berr b = None) then
        match pending b with
        | [] =>
            let '(n, err, c') := stream_write mw (wr b) c p in
            buf_write_loop mw f (mkBuf (wr b) [] err) c' (drop n p)
        | _ =>
            let '(b', c') := buf_flush mw (mkBuf (wr b) (pending b ++ take avail p) (berr b)) c in
            buf_write_loop mw f b' c' (drop avail p)
        end
      else match berr b with
           | Some _ => (b, c)
           | None => (mkBuf (wr b) (pending b ++ p) None, c)
           end
  end.
Definition buf_write (mw : nat) (b : bufWriter) (c : FCGIClient) (p : str) :=
  let '(b', c') := buf_write_loop mw (length p + 1) b c p in (berr b', b', c').

Definition buf_close (mw : nat) (b : bufWriter) (c : FCGIClient) : option error * FCGIClient :=
  let '(b', c') := buf_flush mw b c in
  match berr b' with
  | Some err => let '(_, c'') := stream_close (wr b) c' in (Some err, c'')
  | None => stream_close (wr b) c'
  end.

(** [writePairs]; the pairs come in the order of the map iteration.  The
    result of [w.Close()] is dropped. *)
Fixpoint write_pairs_loop (mw : nat) (b : bufWriter) (c : FCGIClient) (pairs : list (str * str))
    : option error * bufWriter * FCGIClient :=
  match pairs with
  | [] => (None, b, c)
  | (k, v) :: rest =>
      let sizes := encodeSize (uint32 (Z.of_nat (length k)))
                   ++ encodeSize (uint32 (Z.of_nat (length v))) in
      match buf_write mw b c sizes with
      | (Some err, b1, c1) => (Some err, b1, c1)
      | (None, b1, c1) =>
          match buf_write mw b1 c1 k with
          | (Some err, b2, c2) => (Some err, b2, c2)
          | (None, b2, c2) =>
              match buf_write mw b2 c2 v with
              | (Some err, b3, c3) => (Some err, b3, c3)
              | (None, b3, c3) => write_pairs_loop mw b3 c3 rest
              end
          end
      end
  end.
Definition writePairs (mw : nat) (this : FCGIClient) (recType reqId : Z) (pairs : list (str * str))
    : option error * FCGIClient :=
  match write_pairs_loop mw (mkBuf (mkStream recType reqId) [] None) this pairs with
  | (Some err, _, c) => (Some err, c)
  | (None, b, c) => let '(_, c') := buf_close mw b c in (None, c')
  end.

(** ** Reading a record *)

Definition ReadFull (n : nat) (s : str) : result (str * str) :=
  if Nat.leb n (length s) then inr (take n s, drop n s)
  else inl (match s with [] => $"EOF" | _ => $"unexpected EOF" end).

Definition header_of_bytes (b : str) : header :=
  match b with
  | [v; t; i1; i0; c1; c0; pl; rv] =>
      mkHeader (Z_of_byte v) (Z_of_byte t) (Uint16BE i1 i0) (Uint16BE c1 c0)
               (Z_of_byte pl) (Z_of_byte rv)
  | _ => zero_header
  end.

(** [record.read] and [record.content]: the content and the rest of the
    stream. *)
Definition record_read (r : str) : result (header * str * str) :=
  match ReadFull 8 r with
  | inl err => inl err
  | inr (hb, r1) =>
      let hd := header_of_bytes hb in
      if negb (Version hd =? 1) then inl $"fcgi: invalid header version"
      else
        let n := Z.to_nat (ContentLength hd + PaddingLength hd) in
        match ReadFull n r1 with
        | inl err => inl err
        | inr (b, r2) => inr (hd, take (Z.to_nat (ContentLength hd)) b, r2)
        end
  end.

Definition Request (mw : nat) (this : FCGIClient) (env : list (str * str)) (reqStr : str)
    : result str * FCGIClient :=
  match writeBeginRequest this 1 FCGI_RESPONDER 0 with
  | (Some err, c) => (inl err, c)
  | (None, c1) =>
      match writePairs mw c1 FCGI_PARAMS 1 env with
      | (Some err, c) => (inl err, c)
      | (None, c2) =>
          let '(err, c3) :=
            if Nat.ltb 0 (length reqStr) then writeRecord c2 FCGI_STDIN 1 reqStr else (None, c2) in
          match err with
          | Some err => (inl err, c3)
          | None =>
              match record_read (incoming (rwc c3)) with
              | inl err => (inl err, c3)
              | inr (_, content, rest) =>
                  (inr content, mkClient (mkConn (sent (rwc c3)) (faults (rwc c3)) rest) (h c3) (buf c3))
              end
          end
      end
  end.

(** ** Lemmas: one record *)

(** The bytes of a record. *)
Definition record_bytes (rv recType reqId : Z) (content : str) : str :=
  let hd := header_init (mkHeader 0 0 0 0 0 rv) recType reqId (Z.of_nat (length content)) in
  header_bytes hd ++ content ++ make_bytes (Z.to_nat (PaddingLength hd)).

Lemma land_7 z : Z.land z 7 = z mod 8.
Proof. change 7 with (Z.ones 3). by rewrite Z.land_ones. Qed.

Lemma padding_range n : 0 <= uint8 (Z.land (- n) 7) < 8.
Proof.
  unfold uint8. rewrite land_7. pose proof (Z.mod_pos_bound (- n) 8 ltac:(lia)).
  by rewrite Z.mod_small by lia.
Qed.

Lemma padding_fills n : (n + uint8 (Z.land (- n) 7)) mod 8 = 0.
Proof.
  unfold uint8. rewrite land_7. pose proof (Z.mod_pos_bound (- n) 8 ltac:(lia)).
  rewrite (Z.mod_small (- n mod 8)) by lia.
  rewrite Zplus_mod_idemp_r. by rewrite Z.add_opp_diag_r.
Qed.

Lemma length_header_bytes hd : length (header_bytes hd) = 8%nat.
Proof. done. Qed.

Lemma header_of_header_bytes hd :
  0 <= Version hd < 256 → 0 <= Type_ hd < 256 → 0 <= Id hd < 2 ^ 16 →
  0 <= ContentLength hd < 2 ^ 16 → 0 <= PaddingLength hd < 256 → 0 <= Reserved hd < 256 →
  header_of_bytes (header_bytes hd) = hd.
Proof.
  intros. destruct hd. simpl in *.
  rewrite !Z_of_byte_of_Z, !Uint16BE_PutUint16BE, !Z.mod_small by lia. done.
Qed.

Lemma writeRecord_ok this rt id content :
  faults (rwc this) = [] →
  writeRecord this rt id content =
    (None, mkClient (mkConn (sent (rwc this) ++ [record_bytes (Reserved (h this)) rt id content])
                            [] (incoming (rwc this)))
             (header_init (h this) rt id (Z.of_nat (length content)))
             (record_bytes (Reserved (h this)) rt id content)).
Proof. intros Hf. unfold writeRecord, conn_write. by rewrite Hf. Qed.

Lemma record_read_bytes rv rt id content rest :
  0 <= rt < 256 → 0 <= id < 2 ^ 16 → 0 <= rv < 256 →
  let hd := header_init (mkHeader 0 0 0 0 0 rv) rt id (Z.of_nat (length content)) in
  record_read (record_bytes rv rt id content ++ rest) =
    inr (hd, take (Z.to_nat (ContentLength hd)) content,
         drop (Z.to_nat (ContentLength hd + PaddingLength hd))
           (content ++ make_bytes (Z.to_nat (PaddingLength hd)) ++ rest)).
Proof.
  intros Hrt Hid Hrv hd.
  set (n := Z.of_nat (length content)).
  pose proof (padding_range n) as Hp.
  assert (0 <= uint16 n < 2 ^ 16) as Hu by (unfold uint16; apply Z.mod_pos_bound; lia).
  assert (uint16 n <= n) as Hle by (unfold uint16; apply Z.mod_le; lia).
  assert (ContentLength hd = uint16 n) as Ecl by done.
  assert (PaddingLength hd = uint8 (Z.land (- n) 7)) as Epl by done.
  assert (header_of_bytes (header_bytes hd) = hd) as Hh.
  { apply header_of_header_bytes; rewrite ?Ecl, ?Epl; cbn [hd header_init Version Type_ Id Reserved]; lia. }
  unfold record_read, record_bytes. fold hd. rewrite <- !(assoc_L (++)).
  unfold ReadFull at 1. rewrite length_app, length_header_bytes.
  assert (Nat.leb 8 (8 + length (content ++ make_bytes (Z.to_nat (PaddingLength hd)) ++ rest)) = true)
    as -> by (apply Nat.leb_le; lia).
  rewrite take_app_length', drop_app_length' by done. rewrite Hh.
  change (Version hd =? 1) with true. cbn [negb].
  unfold ReadFull. rewrite !length_app. unfold make_bytes. rewrite length_replicate.
  assert (Nat.leb (Z.to_nat (ContentLength hd + PaddingLength hd))
    (length content + (Z.to_nat (PaddingLength hd) + length rest)) = true) as ->
    by (apply Nat.leb_le; lia).
  rewrite take_take, Nat.min_l by lia. by rewrite take_app_le by lia.
Qed.

(** ** Lemmas: lengths and pairs *)

Lemma lor_bit31 size : 0 <= size < 2 ^ 31 → Z.lor size (Z.shiftl 1 31) = 2 ^ 31 + size.
Proof. intros H. rewrite Z.lor_comm, lor_shiftl_add by lia. lia. Qed.

Lemma ldiff_bit31 size : 0 <= size < 2 ^ 31 → Z.ldiff (2 ^ 31 + size) (Z.shiftl 1 31) = size.
Proof.
  intros H. rewrite <- lor_bit31 by done. apply Z.bits_inj'. intros i Hi.
  rewrite Z.ldiff_spec, Z.lor_spec, Z.shiftl_1_l.
  destruct (decide (i = 31)) as [->|Hne].
  - rewrite Z.pow2_bits_true by lia. rewrite andb_false_r. symmetry.
    apply Z.testbit_false; [lia|]. by rewrite Z.div_small.
  - rewrite Z.pow2_bits_false by lia. by rewrite orb_false_r, andb_true_r.
Qed.

Lemma land_128 a : (Z.land (Z_of_byte a) (Z.shiftl 1 7) =? 0) = (Z_of_byte a <? 128).
Proof. destruct a as [[] [] [] [] [] [] [] []]; reflexivity. Qed.

Lemma readSize_encodeSize size rest :
  0 <= size < 2 ^ 31 →
  readSize (encodeSize size ++ rest) = (size, length (encodeSize size)).
Proof.
  intros H. unfold encodeSize. destruct (Z.ltb_spec 127 size) as [Hlt|Hge].
  - rewrite lor_bit31 by done. set (w := 2 ^ 31 + size).
    assert (is_word w) by (unfold is_word, w; lia).
    unfold PutUint32BE, readSize. cbn [app]. rewrite land_128, Z_of_byte_of_Z.
    rewrite Z.shiftr_div_pow2 by lia.
    assert (128 <= w / 2 ^ 24 < 256).
    { split; [apply Z.div_le_lower_bound|apply Z.div_lt_upper_bound]; unfold w; lia. }
    rewrite Z.mod_small by lia.
    destruct (Z.ltb_spec (w / 2 ^ 24) 128); [lia|].
    rewrite <- (Z.shiftr_div_pow2 w 24) by lia. rewrite Uint32BE_PutUint32BE by done.
    unfold w. by rewrite ldiff_bit31.
  - unfold readSize. cbn [app]. rewrite land_128, Z_of_byte_of_Z, Z.mod_small by lia.
    destruct (Z.ltb_spec size 128); [done|lia].
Qed.

(** The byte string of one pair and of a list of pairs. *)
Definition encode_pair (kv : str * str) : str :=
  (encodeSize (uint32 (Z.of_nat (length kv.1))) ++ encodeSize (uint32 (Z.of_nat (length kv.2))))
  ++ kv.1 ++ kv.2.
Definition encode_pairs (pairs : list (str * str)) : str := concat (map encode_pair pairs).

(** The reader of the FastCGI peer: [readSize] twice, [readString] twice. *)
Fixpoint decode_pairs (fuel : nat) (s : str) : list (str * str) :=
  match fuel with
  | O => []
  | S f =>
      let '(nk, i) := readSize s in
      if Nat.eqb i 0 then []
      else
        let s1 := drop i s in
        let '(nv, j) := readSize s1 in
        if Nat.eqb j 0 then []
        else
          let s2 := drop j s1 in
          let k := readString s2 nk in
          let s3 := drop (Z.to_nat nk) s2 in
          (k, readString s3 nv) :: decode_pairs f (drop (Z.to_nat nv) s3)
  end.

Definition short_pair (kv : str * str) : Prop :=
  Z.of_nat (length kv.1) < 2 ^ 31 ∧ Z.of_nat (length kv.2) < 2 ^ 31.

Lemma readString_app k rest : readString (k ++ rest) (Z.of_nat (length k)) = k.
Proof.
  unfold readString. rewrite length_app.
  destruct (Z.ltb_spec (Z.of_nat (length k + length rest)) (Z.of_nat (length k))); [lia|].
  by rewrite Nat2Z.id, take_app_length.
Qed.

Lemma encodeSize_nonempty size : length (encodeSize size) ≠ 0%nat.
Proof. unfold encodeSize. by destruct (127 <? size). Qed.

Lemma uint32_small z : 0 <= z < 2 ^ 31 → uint32 z = z.
Proof. intros H. unfold uint32. apply Z.mod_small. lia. Qed.

(** ** Lemmas: the buffer keeps what fits *)

Lemma buf_write_fits mw b c p :
  berr b = None → (length (pending b) + length p <= mw)%nat →
  buf_write mw b c p = (None, mkBuf (wr b) (pending b ++ p) None, c).
Proof.
  intros He Hl. unfold buf_write.
  replace (length p + 1)%nat with (S (length p)) by lia. cbn [buf_write_loop].
  assert (Nat.ltb (mw - length (pending b)) (length p) = false) as ->
    by (apply Nat.ltb_ge; lia).
  rewrite He. simpl. done.
Qed.

Lemma write_pairs_loop_fits mw b c pairs :
  berr b = None → (length (pending b) + length (encode_pairs pairs) <= mw)%nat →
  write_pairs_loop mw b c pairs =
    (None, mkBuf (wr b) (pending b ++ encode_pairs pairs) None, c).
Proof.
  revert b. induction pairs as [|[k v] pairs IH]; intros b He Hl.
  - destruct b as [w pd e]. simpl in *. subst e. unfold encode_pairs. simpl.
    by rewrite app_nil_r.
  - unfold encode_pairs in Hl. cbn [map concat] in Hl. unfold encode_pair in Hl at 1.
    cbn [fst snd] in Hl. rewrite !length_app in Hl.
    cbn [write_pairs_loop].
    rewrite buf_write_fits; [|done|rewrite length_app; lia].
    rewrite buf_write_fits; [|done|cbn [pending]; rewrite !length_app; lia].
    rewrite buf_write_fits; [|done|cbn [pending]; rewrite !length_app; lia].
    rewrite IH; [|done|cbn [pending]; rewrite !length_app; unfold encode_pairs; lia].
    cbn [pending wr]. unfold encode_pairs. cbn [map concat]. unfold encode_pair at 2.
    cbn [fst snd]. by rewrite <- !(assoc_L (++)).
Qed.

Lemma stream_write_once mw w c p :
  p ≠ [] → (length p <= mw)%nat → faults (rwc c) = [] →
  stream_write mw w c p =
    (length p, None, (writeRecord c (recType w) (reqId w) p).2).
Proof.
  intros Hp Hl Hf. unfold stream_write. destruct p as [|x p]; [done|].
  set (q := x :: p) in *. change (length q) with (S (length p)) at 1. cbn [stream_write_loop].
  subst q. cbn [length].
  assert (Nat.ltb mw (S (length p)) = false) as -> by (apply Nat.ltb_ge; simpl in Hl; lia).
  rewrite take_ge, drop_ge by done. rewrite writeRecord_ok by done.
  destruct (length p); done.
Qed.

Lemma writePairs_fits mw this rt id pairs :
  faults (rwc this) = [] → (length (encode_pairs pairs) <= mw)%nat → pairs ≠ [] →
  writePairs mw this rt id pairs =
    (None, mkClient (mkConn (sent (rwc this)
                             ++ [record_bytes (Reserved (h this)) rt id (encode_pairs pairs)]
                             ++ [record_bytes (Reserved (h this)) rt id []])
                            [] (incoming (rwc this)))
             (header_init (header_init (h this) rt id (Z.of_nat (length (encode_pairs pairs)))) rt id 0)
             (record_bytes (Reserved (h this)) rt id [])).
Proof.
  intros Hf Hl Hne. unfold writePairs.
  rewrite write_pairs_loop_fits by done. cbn [pending wr app].
  assert (encode_pairs pairs ≠ []) as Hpn.
  { destruct pairs as [|kv pairs]; [done|].
    change (encode_pair kv ++ encode_pairs pairs ≠ []). unfold encode_pair.
    intros E. apply (f_equal length) in E. rewrite !length_app in E.
    pose proof (encodeSize_nonempty (uint32 (Z.of_nat (length kv.1)))). simpl in E. lia. }
  unfold buf_close, buf_flush. cbn [berr pending].
  destruct (encode_pairs pairs) as [|x q] eqn:E; [done|]. rewrite <- E in *.
  rewrite stream_write_once by done. rewrite writeRecord_ok by done. cbn [snd wr berr].
  unfold stream_close. cbn [recType reqId]. rewrite writeRecord_ok by done.
  cbn [rwc sent h incoming Reserved header_init]. by rewrite <- (assoc_L (++)).
Qed.

(** ** Properties *)

(** A record whose content fits the 16-bit length field, written on a
    working connection, is one block of bytes, a whole number of 8-byte units
    long, from which the reader recovers the type, the request id, the content
    and exactly the rest of the stream. *)
Theorem read_writeRecord this rt id content rest :
  faults (rwc this) = [] → 0 <= rt < 256 → 0 <= id < 2 ^ 16 → 0 <= Reserved (h this) < 256 →
  Z.of_nat (length content) < 2 ^ 16 →
  ∃ b this',
    writeRecord this rt id content = (None, this')
    ∧ sent (rwc this') = sent (rwc this) ++ [b]
    ∧ Z.of_nat (length b) mod 8 = 0
    ∧ record_read (b ++ rest) =
        inr (header_init (h this) rt id (Z.of_nat (length content)), content, rest).
Proof.
  intros Hf Hrt Hid Hrv Hlen.
  exists (record_bytes (Reserved (h this)) rt id content). eexists.
  split; [by apply writeRecord_ok|]. split; [done|].
  set (hd := header_init (mkHeader 0 0 0 0 0 (Reserved (h this))) rt id (Z.of_nat (length content))).
  pose proof (padding_range (Z.of_nat (length content))) as Hp.
  assert (ContentLength hd = Z.of_nat (length content)) as Ecl by (apply Z.mod_small; lia).
  assert (PaddingLength hd = uint8 (Z.land (- Z.of_nat (length content)) 7)) as Epl by done.
  split.
  - unfold record_bytes. fold hd. rewrite !length_app, length_header_bytes, !Nat2Z.inj_add.
    unfold make_bytes. rewrite length_replicate, Z2Nat.id, Epl by lia.
    rewrite Zplus_mod, padding_fills. done.
  - rewrite record_read_bytes by done. fold hd. rewrite Ecl, Epl.
    rewrite Nat2Z.id, take_ge by lia. f_equal. f_equal.
    rewrite (assoc_L (++)). apply drop_app_length'.
    unfold make_bytes. rewrite length_app, length_replicate. lia.
Qed.

Lemma read_writeRecord_witness :
  ∃ b this', writeRecord (mkClient (mkConn [] [] []) zero_header []) FCGI_STDIN 1 $"hi" = (None, this')
    ∧ sent (rwc this') = [b]
    ∧ record_read (b ++ $"rest") = inr (header_init zero_header FCGI_STDIN 1 2, $"hi", $"rest").
Proof.
  destruct (read_writeRecord (mkClient (mkConn [] [] []) zero_header []) FCGI_STDIN 1 $"hi" $"rest")
    as (b & t & Hw & Hs & _ & Hr); [done|done|done|done|done|].
  exists b, t. split; [exact Hw|]. split; [exact Hs|exact Hr].
Defined.

(** [writeRecord] does not split: a content of [65536 * q + m] bytes is
    announced as [m] bytes, and the reader returns only its first [m] bytes, with
    the length of the padding still computed from the full content.  (The stream
    writer hands over up to [maxWrite] = 6553500 bytes at a time, so such a
    record is reachable.) *)
Theorem writeRecord_truncates this rt id content rest :
  faults (rwc this) = [] → 0 <= rt < 256 → 0 <= id < 2 ^ 16 → 0 <= Reserved (h this) < 256 →
  2 ^ 16 <= Z.of_nat (length content) →
  ∃ b this' hd rest',
    writeRecord this rt id content = (None, this')
    ∧ sent (rwc this') = sent (rwc this) ++ [b]
    ∧ record_read (b ++ rest)
      = inr (hd, take (Z.to_nat (Z.of_nat (length content) mod 2 ^ 16)) content, rest')
    ∧ (length (take (Z.to_nat (Z.of_nat (length content) mod 2 ^ 16)) content)
       < length content)%nat.
Proof.
  intros Hf Hrt Hid Hrv Hlen. do 4 eexists.
  split; [by apply writeRecord_ok|]. split; [done|]. split.
  - rewrite record_read_bytes by done. done.
  - rewrite length_take.
    pose proof (Z.mod_pos_bound (Z.of_nat (length content)) (2 ^ 16) ltac:(lia)). lia.
Qed.

Lemma writeRecord_truncates_witness :
  ∃ b this' hd rest',
    writeRecord (mkClient (mkConn [] [] []) zero_header []) FCGI_STDIN 1 (make_bytes (Z.to_nat 65539))
      = (None, this')
    ∧ sent (rwc this') = [b]
    ∧ record_read (b ++ []) = inr (hd, make_bytes 3, rest').
Proof.
  destruct (writeRecord_truncates (mkClient (mkConn [] [] []) zero_header []) FCGI_STDIN 1
              (make_bytes (Z.to_nat 65539)) []) as (b & t & hd & r & Hw & Hs & Hr & _);
    [done|done|done|done|vm_compute; discriminate|].
  exists b, t, hd, r. split; [exact Hw|]. split; [exact Hs|].
  rewrite Hr. vm_compute. reflexivity.
Defined.

(** Name-value pairs with lengths below [2 ^ 31] are recovered from
    their encoding: the encoding loses nothing. *)
Theorem decode_pairs_encode_pairs pairs :
  Forall short_pair pairs → decode_pairs (length pairs) (encode_pairs pairs) = pairs.
Proof.
  induction 1 as [|[k v] pairs [Hk Hv] Hp IH]; [done|]. simpl in Hk, Hv.
  change (encode_pairs ((k, v) :: pairs)) with (encode_pair (k, v) ++ encode_pairs pairs).
  cbn [length decode_pairs]. unfold encode_pair. cbn [fst snd]. rewrite !uint32_small by lia. rewrite <- !(assoc_L (++)).
  rewrite readSize_encodeSize by lia.
  destruct (Nat.eqb_spec (length (encodeSize (Z.of_nat (length k)))) 0) as [E|_];
    [by apply encodeSize_nonempty in E|].
  rewrite drop_app_length. rewrite readSize_encodeSize by lia.
  destruct (Nat.eqb_spec (length (encodeSize (Z.of_nat (length v)))) 0) as [E|_];
    [by apply encodeSize_nonempty in E|].
  rewrite drop_app_length, readString_app, Nat2Z.id, drop_app_length, readString_app.
  rewrite Nat2Z.id, drop_app_length. by rewrite IH.
Qed.

Lemma decode_pairs_encode_pairs_witness :
  decode_pairs 2 (encode_pairs [($"REQUEST_METHOD", $"GET"); ($"X", make_bytes 300)])
  = [($"REQUEST_METHOD", $"GET"); ($"X", make_bytes 300)].
Proof.
  apply (decode_pairs_encode_pairs [($"REQUEST_METHOD", $"GET"); ($"X", make_bytes 300)]).
  repeat constructor.
Defined.

(** C38.  What [Request] puts on the wire when no write fails and the encoded
    environment fits the buffer: the begin-request record, one record with all
    pairs, the empty record that ends the parameters, and a standard-input
    record when there is a body; it returns the content of the first record the
    peer sends. *)
Theorem Request_wire mw this env reqStr :
  faults (rwc this) = [] → (length (encode_pairs env) <= mw)%nat → env ≠ [] →
  let rv := Reserved (h this) in
  let '(re, this') := Request mw this env reqStr in
  sent (rwc this') =
    sent (rwc this)
    ++ [record_bytes rv FCGI_BEGIN_REQUEST 1
          (byte_of_Z 0 :: byte_of_Z FCGI_RESPONDER :: byte_of_Z 0 :: make_bytes 5);
        record_bytes rv FCGI_PARAMS 1 (encode_pairs env);
        record_bytes rv FCGI_PARAMS 1 []]
    ++ (if bool_decide (reqStr = []) then [] else [record_bytes rv FCGI_STDIN 1 reqStr])
  ∧ match record_read (incoming (rwc this)) with
    | inl err => re = inl err
    | inr (_, content, rest) => re = inr content ∧ incoming (rwc this') = rest
    end.
Proof.
  intros Hf Hl Hne rv. unfold Request, writeBeginRequest.
  rewrite writeRecord_ok by done.
  rewrite writePairs_fits by done.
  destruct reqStr as [|x reqStr]; cbn [length Nat.ltb Nat.leb rwc incoming].
  - rewrite bool_decide_eq_true_2 by done.
    destruct (record_read _) as [err|[[hd content] rest]]; (split; [|done]); cbn [rwc sent h];
      rewrite <- !(assoc_L (++)); done.
  - rewrite bool_decide_eq_false_2 by done. rewrite writeRecord_ok by done. cbn [rwc incoming].
    destruct (record_read _) as [err|[[hd content] rest]]; (split; [|done]); cbn [rwc sent h];
      rewrite <- !(assoc_L (++)); done.
Qed.

Lemma Request_wire_witness :
  ∃ re this',
    Request 100 (mkClient (mkConn [] [] []) zero_header []) [($"A", $"B")] [] = (re, this')
    ∧ length (sent (rwc this')) = 3%nat ∧ re = inl $"EOF".
Proof.
  pose proof (Request_wire 100 (mkClient (mkConn [] [] []) zero_header []) [($"A", $"B")] []) as H.
  destruct (Request 100 _ _ _) as [re t]. exists re, t.
  destruct H as [Hs Hr]; [done|vm_compute; lia|done|].
  split; [done|]. rewrite Hs. split; [done|exact Hr].
Defined.

End FCGI.
