(* ===== verification/Regex.v ===== *)
(** * Go's [regexp] on byte strings

    The expressions the client compiles, with leftmost-first (Perl)
    preference: [rmatch] lists the ways an expression can match at a position,
    in order of preference, so that the match of [regexp] is the head of the
    list at the leftmost position where it is not empty.  [lang] is the usual
    language of an expression and [rmatch_spec] relates the two. *)

From S2P Require Import Prelude GoLib.

Inductive regex : Type :=
| REps
| RSet (p : ascii → bool)
| RSeq (r1 r2 : regex)
| RAlt (r1 r2 : regex)
| RStar (greedy : bool) (r : regex)
| RBegin
| REnd.

Definition RPlus (g : bool) (r : regex) : regex := RSeq r (RStar g r).

Fixpoint RLit (s : str) : regex :=
  match s with
  | [] => REps
  | [c] => RSet (fun x => bool_decide (x = c))
  | c :: s' => RSeq (RSet (fun x => bool_decide (x = c))) (RLit s')
  end.

(** [i] is the position in the text, [s] what is left from there. *)
Fixpoint rmatch (r : regex) (i : nat) (s : str) : list (nat * str) :=
  match r with
  | REps => [(i, s)]
  | RSet p => match s with c :: s' => if p c then [(S i, s')] else [] | [] => [] end
  | RSeq r1 r2 => flat_map (fun js => rmatch r2 js.1 js.2) (rmatch r1 i s)
  | RAlt r1 r2 => rmatch r1 i s ++ rmatch r2 i s
  | RStar g r1 =>
      (fix star (n : nat) (i : nat) (s : str) : list (nat * str) :=
         match n with
         | O => [(i, s)]
         | S n' =>
             let more := flat_map (fun js : nat * str =>
               if Nat.ltb (length js.2) (length s) then star n' js.1 js.2 else [])
               (rmatch r1 i s) in
             if g then more ++ [(i, s)] else (i, s) :: more
         end) (length s) i s
  | RBegin => match i with O => [(i, s)] | _ => [] end
  | REnd => match s with [] => [(i, s)] | _ => [] end
  end.

(** The leftmost match from position [i] on: the matched bytes, the position
    after it and the rest of the text. *)
Fixpoint find_from (r : regex) (i : nat) (s : str) : option (str * nat * str) :=
  match rmatch r i s with
  | (j, rest) :: _ => Some (take (j - i) s, j, rest)
  | [] => match s with [] => None | _ :: s' => find_from r (S i) s' end
  end.

(** [FindString]: the empty string when there is no match. *)
Definition FindString (r : regex) (s : str) : str :=
  match find_from r 0 s with Some (m, _, _) => m | None => [] end.

(** [FindAllString] for expressions that do not match the empty string: each
    search starts where the previous match ended.  [n] bounds the number of
    matches. *)
Fixpoint find_all (r : regex) (n : nat) (i : nat) (s : str) : list str :=
  match n with
  | O => []
  | S n' =>
      match find_from r i s with
      | Some (m, j, rest) => m :: find_all r n' j rest
      | None => []
      end
  end.
Definition FindAllString (r : regex) (s : str) : list str := find_all r (length s) 0 s.
Definition FindAllStringN (r : regex) (s : str) (n : nat) : list str := find_all r n 0 s.

(** ** Character classes *)

Definition is_between (lo hi : Z) (c : ascii) : bool :=
  (lo <=? Z_of_byte c)%Z && (Z_of_byte c <=? hi)%Z.
(** [\w] and [\d]. *)
Definition is_word_char (c : ascii) : bool :=
  is_between 48 57 c || is_between 65 90 c || is_between 97 122 c || bool_decide (c = "_"%char).
Definition is_digit_char (c : ascii) : bool := is_between 48 57 c.
(** The line feed byte, and [.], which matches every other byte. *)
Definition newline : ascii := Ascii false true false true false false false false.
Definition not_newline (c : ascii) : bool := negb (bool_decide (c = newline)).

(** ** The language of an expression without anchors *)

Fixpoint anchor_free (r : regex) : bool :=
  match r with
  | RBegin | REnd => false
  | RSeq r1 r2 | RAlt r1 r2 => anchor_free r1 && anchor_free r2
  | RStar _ r => anchor_free r
  | _ => true
  end.

Inductive lang : regex → str → Prop :=
| lang_eps : lang REps []
| lang_set p c : p c = true → lang (RSet p) [c]
| lang_seq r1 r2 a b : lang r1 a → lang r2 b → lang (RSeq r1 r2) (a ++ b)
| lang_alt_l r1 r2 a : lang r1 a → lang (RAlt r1 r2) a
| lang_alt_r r1 r2 a : lang r2 a → lang (RAlt r1 r2) a
| lang_star_nil g r : lang (RStar g r) []
| lang_star_cons g r a b : a ≠ [] → lang r a → lang (RStar g r) b → lang (RStar g r) (a ++ b).
#[export] Hint Constructors lang : dove.

Lemma lang_seq_inv r1 r2 a : lang (RSeq r1 r2) a → ∃ x y, a = x ++ y ∧ lang r1 x ∧ lang r2 y.
Proof. inversion 1; subst. eauto. Qed.

(** A match of [s] at [i] that ends at [j] with [rest] left. *)
Definition splits (P : str → Prop) (i : nat) (s : str) (j : nat) (rest : str) : Prop :=
  ∃ a, s = a ++ rest ∧ j = i + length a ∧ P a.

Lemma elem_of_flat_map {A B} (f : A → list B) l y :
  y ∈ flat_map f l ↔ ∃ x, x ∈ l ∧ y ∈ f x.
Proof.
  rewrite list_elem_of_In, in_flat_map.
  by setoid_rewrite <- list_elem_of_In.
Qed.

Section star.
Context (g : bool) (r : regex).
Context (IHr : ∀ i s j rest, (j, rest) ∈ rmatch r i s ↔ splits (lang r) i s j rest).

Definition star_fuel :=
  fix star (n : nat) (i : nat) (s : str) : list (nat * str) :=
    match n with
    | O => [(i, s)]
    | S n' =>
        let more := flat_map (fun js : nat * str =>
          if Nat.ltb (length js.2) (length s) then star n' js.1 js.2 else [])
          (rmatch r i s) in
        if g then more ++ [(i, s)] else (i, s) :: more
    end.

Lemma elem_of_star_S n i s js :
  js ∈ star_fuel (S n) i s ↔
    js = (i, s) ∨ ∃ j s', (j, s') ∈ rmatch r i s ∧ length s' < length s ∧ js ∈ star_fuel n j s'.
Proof.
  assert (∀ l, js ∈ (if g then l ++ [(i, s)] else (i, s) :: l) ↔ js = (i, s) ∨ js ∈ l) as H
    by (intros l; destruct g; set_solver).
  cbn [star_fuel]. rewrite H, elem_of_flat_map. split; (intros [?|H']; [by left|right]).
  - destruct H' as ([j s'] & Hin & Hjs). exists j, s'. simpl in Hjs.
    destruct (Nat.ltb_spec (length s') (length s)); [done|]. by apply elem_of_nil in Hjs.
  - destruct H' as (j & s' & Hin & Hlt & Hjs). exists (j, s'). split; [done|]. simpl.
    destruct (Nat.ltb_spec (length s') (length s)); [done|lia].
Qed.

Lemma star_sound n i s j rest :
  (j, rest) ∈ star_fuel n i s → splits (lang (RStar g r)) i s j rest.
Proof.
  revert i s. induction n as [|n IH]; intros i s.
  - simpl. intros [= -> ->]%list_elem_of_singleton. exists []. split_and!; simpl; auto with dove.
  - rewrite elem_of_star_S. intros [[= -> ->]|(j' & s' & Hin & Hlt & Hst)].
    + exists []. split_and!; simpl; auto with dove.
    + apply IHr in Hin as (a & -> & -> & Ha).
      apply IH in Hst as (b & -> & -> & Hb).
      exists (a ++ b). rewrite length_app. split_and!; [by rewrite (assoc_L (++))|lia|].
      constructor; [|done|done]. intros ->. simpl in Hlt. lia.
Qed.

Lemma star_complete n i s rest b :
  lang (RStar g r) b → s = b ++ rest → length s ≤ n → (i + length b, rest) ∈ star_fuel n i s.
Proof.
  intros Hb. remember (RStar g r) as r0 eqn:Er. revert n i s.
  induction Hb as [| | | | |g' r'|g' r' a b Hne Ha _ Hb IH]; intros n i s; try done; injection Er as -> ->.
  - intros -> _. simpl. rewrite Nat.add_0_r. destruct n as [|n]; [by left|].
    apply elem_of_star_S. by left.
  - intros -> Hn. rewrite <- (assoc_L (++)) in *.
    assert (0 < length a) by (destruct a; [done|simpl; lia]).
    rewrite !length_app in Hn. destruct n as [|n]; [lia|].
    apply elem_of_star_S. right. exists (i + length a), (b ++ rest). split_and!.
    + apply IHr. by exists a.
    + rewrite !length_app. lia.
    + rewrite length_app, Nat.add_assoc. apply IH; [done|done|]. rewrite length_app. lia.
Qed.

Lemma star_spec i s j rest :
  (j, rest) ∈ rmatch (RStar g r) i s ↔ splits (lang (RStar g r)) i s j rest.
Proof.
  change (rmatch (RStar g r) i s) with (star_fuel (length s) i s). split.
  - apply star_sound.
  - intros (b & -> & -> & Hb). by eapply star_complete.
Qed.
End star.

Lemma rmatch_spec r i s j rest :
  anchor_free r = true → (j, rest) ∈ rmatch r i s ↔ splits (lang r) i s j rest.
Proof.
  revert i s j rest. induction r as [|p|r1 IH1 r2 IH2|r1 IH1 r2 IH2|g r IH| |];
    intros i s j rest Hf; simpl in Hf; try done; bool_to_prop.
  - simpl. rewrite list_elem_of_singleton. split.
    + intros [= -> ->]. exists []. simpl. auto with dove.
    + intros (a & -> & -> & Ha). inv Ha. simpl. by rewrite Nat.add_0_r.
  - simpl. split.
    + destruct s as [|c s]; [by intros ?%elem_of_nil|].
      destruct (p c) eqn:E; [|by intros ?%elem_of_nil].
      intros [= -> ->]%list_elem_of_singleton. exists [c]. split_and!; simpl; [done|lia|by constructor].
    + intros (a & -> & -> & Ha). inv Ha. simpl.
      match goal with H : p _ = true |- _ => rewrite H end.
      apply list_elem_of_singleton. f_equal. lia.
  - simpl. rewrite elem_of_flat_map. split.
    + intros ([j1 s1] & H1 & H2). apply IH1 in H1 as (a & -> & -> & Ha); [|done].
      apply IH2 in H2 as (b & E & -> & Hb); [|done]. simpl in E. subst s1.
      exists (a ++ b). rewrite length_app. simpl. split_and!; [by rewrite (assoc_L (++))|lia|by constructor].
    + intros (c & -> & -> & Hc). inv Hc. exists (i + length a, b ++ rest). split.
      * apply IH1; [done|]. exists a. by rewrite (assoc_L (++)).
      * apply IH2; [done|]. exists b. rewrite length_app. simpl. split_and!; [done|lia|done].
  - simpl. rewrite elem_of_app, IH1, IH2 by done. split.
    + intros [(a & -> & -> & Ha)|(a & -> & -> & Ha)]; exists a; auto with dove.
    + intros (a & -> & -> & Ha). inv Ha; [left|right]; by exists a.
  - apply star_spec. intros. by apply IH.
Qed.

(** ** Languages of the derived forms *)

Lemma lang_lit s a : lang (RLit s) a ↔ a = s.
Proof.
  revert a. induction s as [|c s IH]; intros a.
  - simpl. split; [by inversion 1|intros ->; constructor].
  - destruct s as [|d s].
    + simpl. split.
      * inversion 1 as [|p x Hx| | | | |]; subst. bool_to_prop. by subst.
      * intros ->. constructor. by apply bool_decide_eq_true.
    + change (RLit (c :: d :: s)) with (RSeq (RSet (fun x => bool_decide (x = c))) (RLit (d :: s))).
      split.
      * inversion 1 as [| |r1 r2 x y Hx Hy| | | |]; subst. apply IH in Hy as ->.
        inversion Hx as [|p z Hz| | | | |]; subst. bool_to_prop. by subst.
      * intros ->. change (c :: d :: s) with ([c] ++ d :: s). constructor; [|by apply IH].
        constructor. by apply bool_decide_eq_true.
Qed.

Lemma lang_star_set g p a : lang (RStar g (RSet p)) a ↔ Forall (fun c => p c = true) a.
Proof.
  split.
  - intros H. remember (RStar g (RSet p)) as r eqn:Er. revert Er.
    induction H as [| | | | |g' r'|g' r' x y Hne Hx _ Hy IH]; intros Er; try done.
    injection Er as -> ->. inv Hx. constructor; [done|]. by apply IH.
  - induction 1 as [|c a Hc Ha IH]; [constructor|].
    change (c :: a) with ([c] ++ a). constructor; [done|by constructor|done].
Qed.

Lemma lang_plus_set g p a :
  lang (RPlus g (RSet p)) a ↔ a ≠ [] ∧ Forall (fun c => p c = true) a.
Proof.
  split.
  - inversion 1 as [| |r1 r2 x y Hx Hy| | | |]; subst. inv Hx.
    split; [done|]. constructor; [done|]. by apply lang_star_set in Hy.
  - intros [Hne Ha]. destruct Ha as [|c a Hc Ha]; [done|].
    change (c :: a) with ([c] ++ a). constructor; [by constructor|]. by apply lang_star_set.
Qed.

Lemma anchor_free_lit s : anchor_free (RLit s) = true.
Proof. induction s as [|c [|d s] IH]; done. Qed.
