(* ===== verification/Base64.v ===== *)
(** * encoding/base64, [StdEncoding]

    The decoder the client uses for encrypted contents, and the encoder of the
    server side for the round trip [DecodeString_encode]. *)

From S2P Require Import Prelude GoLib Regex.

Open Scope Z_scope.

Definition enc_char (v : Z) : ascii :=
  if v <? 26 then byte_of_Z (65 + v)
  else if v <? 52 then byte_of_Z (97 + (v - 26))
  else if v <? 62 then byte_of_Z (48 + (v - 52))
  else if v =? 62 then "+"%char else "/"%char.

Definition dec_char (c : ascii) : option Z :=
  let z := Z_of_byte c in
  if (65 <=? z) && (z <=? 90) then Some (z - 65)
  else if (97 <=? z) && (z <=? 122) then Some (z - 97 + 26)
  else if (48 <=? z) && (z <=? 57) then Some (z - 48 + 52)
  else if z =? 43 then Some 62
  else if z =? 47 then Some 63
  else None.

Definition pad_char : ascii := "="%char.

Fixpoint encode (s : str) : str :=
  match s with
  | [] => []
  | [a] =>
      let x := Z_of_byte a in
      [enc_char (x / 4); enc_char (x mod 4 * 16); pad_char; pad_char]
  | [a; b] =>
      let x := Z_of_byte a in let y := Z_of_byte b in
      [enc_char (x / 4); enc_char (x mod 4 * 16 + y / 16); enc_char (y mod 16 * 4); pad_char]
  | a :: b :: c :: rest =>
      let x := Z_of_byte a in let y := Z_of_byte b in let z := Z_of_byte c in
      enc_char (x / 4) :: enc_char (x mod 4 * 16 + y / 16)
        :: enc_char (y mod 16 * 4 + z / 64) :: enc_char (z mod 64) :: encode rest
  end.

(** Four characters at a time; padding ends the text; the spare bits of the
    last group are ignored. *)
Fixpoint decode_groups (s : str) : option str :=
  match s with
  | [] => Some []
  | a :: b :: c :: d :: rest =>
      x ← dec_char a; y ← dec_char b;
      if bool_decide (d = pad_char) then
        match rest with
        | [] =>
            if bool_decide (c = pad_char) then Some [byte_of_Z (x * 4 + y / 16)]
            else z ← dec_char c; Some [byte_of_Z (x * 4 + y / 16); byte_of_Z (y * 16 + z / 4)]
        | _ => None
        end
      else
        z ← dec_char c; w ← dec_char d; tail ← decode_groups rest;
        Some (byte_of_Z (x * 4 + y / 16) :: byte_of_Z (y * 16 + z / 4) :: byte_of_Z (z * 64 + w) :: tail)
  | _ => None
  end.

(** [DecodeString]: carriage returns and line feeds are skipped. *)
Definition DecodeString (s : str) : option str :=
  decode_groups (List.filter (fun c => negb (bool_decide (c = newline)
                                             || (Z_of_byte c =? 13)%Z)) s).

(** ** Round trip *)

Lemma all_sextets (P : Z → Prop) :
  Forall P (map Z.of_nat (seq 0 64)) → ∀ v, 0 <= v < 64 → P v.
Proof.
  intros H v Hv. rewrite List.Forall_forall in H. apply H, in_map_iff.
  exists (Z.to_nat v). split; [lia|]. apply in_seq. lia.
Qed.

Lemma enc_char_ok v : 0 <= v < 64 →
  dec_char (enc_char v) = Some v ∧ enc_char v ≠ pad_char ∧ enc_char v ≠ newline ∧ Z_of_byte (enc_char v) ≠ 13.
Proof. revert v. apply all_sextets. simpl. repeat constructor; by vm_compute. Qed.

Lemma byte_eq a z : z mod 256 = Z_of_byte a → byte_of_Z z = a.
Proof.
  intros H. rewrite <- (byte_of_Z_of_byte a), <- H. unfold byte_of_Z. by rewrite Z.mod_mod.
Qed.

Ltac divs := Z.to_euclidean_division_equations; lia.
Ltac sextet := match goal with |- context [dec_char (enc_char ?v)] =>
  rewrite (proj1 (enc_char_ok v ltac:(divs))); cbn [mbind option_bind] end.
Ltac not_pad := match goal with |- context [bool_decide (enc_char ?v = pad_char)] =>
  rewrite (bool_decide_eq_false_2 (enc_char v = pad_char)) by (apply enc_char_ok; divs) end.

Lemma decode_groups_encode s : decode_groups (encode s) = Some s.
Proof.
  induction s as [s IH] using (induction_ltof1 _ length); unfold ltof in IH.
  destruct s as [|a [|b [|c rest]]]; [done|..]; cbn [encode decode_groups].
  - pose proof (Z_of_byte_range a). do 2 sextet. rewrite !(bool_decide_eq_true_2 (pad_char = pad_char)) by done.
    do 2 f_equal. apply byte_eq. divs.
  - pose proof (Z_of_byte_range a). pose proof (Z_of_byte_range b). do 2 sextet.
    rewrite !(bool_decide_eq_true_2 (pad_char = pad_char)) by done. not_pad. sextet.
    f_equal. f_equal; [apply byte_eq; divs|]. f_equal. apply byte_eq. divs.
  - pose proof (Z_of_byte_range a). pose proof (Z_of_byte_range b). pose proof (Z_of_byte_range c).
    do 2 sextet. not_pad. do 2 sextet. rewrite IH by (simpl; lia). cbn [mbind option_bind].
    f_equal. f_equal; [apply byte_eq; divs|]. f_equal; [apply byte_eq; divs|]. f_equal. apply byte_eq. divs.
Qed.

Lemma encode_no_newlines s :
  List.filter (fun c => negb (bool_decide (c = newline) || (Z_of_byte c =? 13)%Z)) (encode s) = encode s.
Proof.
  assert (∀ v, 0 <= v < 64 → negb (bool_decide (enc_char v = newline) || (Z_of_byte (enc_char v) =? 13)) = true) as He.
  { intros v Hv. destruct (enc_char_ok v Hv) as (_ & _ & H1 & H2).
    rewrite bool_decide_eq_false_2 by done. by rewrite (proj2 (Z.eqb_neq _ _)). }
  assert (negb (bool_decide (pad_char = newline) || (Z_of_byte pad_char =? 13)) = true) as Hp by done.
  induction s as [s IH] using (induction_ltof1 _ length); unfold ltof in IH.
  destruct s as [|a [|b [|c rest]]]; [done|..]; cbn [encode List.filter].
  all: pose proof (Z_of_byte_range a); try pose proof (Z_of_byte_range b); try pose proof (Z_of_byte_range c).
  all: rewrite ?Hp, !He by divs; try done. by rewrite IH by (simpl; lia).
Qed.

Lemma DecodeString_encode s : DecodeString (encode s) = Some s.
Proof. unfold DecodeString. rewrite encode_no_newlines. apply decode_groups_encode. Qed.
