(* ===== verification/Json.v ===== *)
(** * encoding/json on byte strings

    The decoder the client uses ([Unmarshal] into interfaces and maps) as a
    recursive descent parser with the grammar and the replacement rules of
    encoding/json, and [Marshal] of strings and of the values the client
    encodes.  The text of a decoding error is left to a parameter of the
    callers.  [unquote_marshal] is the round trip of strings. *)

From S2P Require Import Prelude GoLib GoFmt Regex.

#[local] Set Warnings "-register-all".

Inductive json : Type :=
| JNull
| JBool (b : bool)
| JNum (literal : str)
| JStr (s : str)
| JArr (l : list json)
| JObj (l : list (str * json)).

(** ** Characters *)

Definition backslash : ascii := "\"%char.
Definition ch (z : Z) : ascii := byte_of_Z z.

Definition is_json_space (c : ascii) : bool :=
  let z := Z_of_byte c in (z =? 32)%Z || (z =? 9)%Z || (z =? 13)%Z || (z =? 10)%Z.
Definition skip_space (s : str) : str := drop_while is_json_space s.

(** [utf8.EncodeRune]: surrogates and values out of range become U+FFFD. *)
Definition EncodeRune (r : Z) : str :=
  let r := if (r <? 0)%Z || (1114111 <? r)%Z || ((55296 <=? r)%Z && (r <=? 57343)%Z) then rune_error else r in
  if (r <? 128)%Z then [ch r]
  else if (r <? 2048)%Z then [ch (192 + r / 64); ch (128 + r mod 64)]
  else if (r <? 65536)%Z then [ch (224 + r / 4096); ch (128 + r / 64 mod 64); ch (128 + r mod 64)]
  else [ch (240 + r / 262144); ch (128 + r / 4096 mod 64); ch (128 + r / 64 mod 64); ch (128 + r mod 64)].

Definition hex_val (c : ascii) : option Z :=
  let z := Z_of_byte c in
  if (48 <=? z)%Z && (z <=? 57)%Z then Some (z - 48)%Z
  else if (97 <=? z)%Z && (z <=? 102)%Z then Some (z - 87)%Z
  else if (65 <=? z)%Z && (z <=? 70)%Z then Some (z - 55)%Z
  else None.

(** The four digits of an escape [\u]. *)
Definition getu4 (s : str) : option (Z * str) :=
  match s with
  | a :: b :: c :: d :: rest =>
      a ← hex_val a; b ← hex_val b; c ← hex_val c; d ← hex_val d;
      Some (((a * 16 + b) * 16 + c) * 16 + d, rest)%Z
  | _ => None
  end.

(** [utf16.DecodeRune] for a high and a low surrogate. *)
Definition surrogate_pair (r1 r2 : Z) : option Z :=
  if (55296 <=? r1)%Z && (r1 <? 56320)%Z && (56320 <=? r2)%Z && (r2 <? 57344)%Z
  then Some ((r1 - 55296) * 1024 + (r2 - 56320) + 65536)%Z else None.
Definition is_surrogate (r : Z) : bool := (55296 <=? r)%Z && (r <? 57344)%Z.

Definition simple_escape (e : ascii) : option ascii :=
  if bool_decide (e = dquote) then Some dquote
  else if bool_decide (e = backslash) then Some backslash
  else if bool_decide (e = "/"%char) then Some "/"%char
  else if bool_decide (e = "b"%char) then Some (ch 8)
  else if bool_decide (e = "f"%char) then Some (ch 12)
  else if bool_decide (e = "n"%char) then Some (ch 10)
  else if bool_decide (e = "r"%char) then Some (ch 13)
  else if bool_decide (e = "t"%char) then Some (ch 9)
  else None.

(** The text of a string after its opening quote, up to the closing one. *)
Fixpoint unquote (fuel : nat) (s : str) : option (str * str) :=
  match fuel with
  | O => None
  | S f =>
      match s with
      | [] => None
      | c :: s1 =>
          if bool_decide (c = dquote) then Some ([], s1)
          else if bool_decide (c = backslash) then
            match s1 with
            | [] => None
            | e :: s2 =>
                if bool_decide (e = "u"%char) then
                  '(rr, s3) ← getu4 s2;
                  let '(piece, rest) :=
                    if is_surrogate rr then
                      match s3 with
                      | a :: b :: s4 =>
                          if bool_decide (a = backslash) && bool_decide (b = "u"%char) then
                            match getu4 s4 with
                            | Some (rr1, s5) =>
                                match surrogate_pair rr rr1 with
                                | Some dec => (EncodeRune dec, s5)
                                | None => (EncodeRune rune_error, s3)
                                end
                            | None => (EncodeRune rune_error, s3)
                            end
                          else (EncodeRune rune_error, s3)
                      | _ => (EncodeRune rune_error, s3)
                      end
                    else (EncodeRune rr, s3) in
                  '(tail, rest) ← unquote f rest; Some (piece ++ tail, rest)
                else
                  x ← simple_escape e;
                  '(tail, rest) ← unquote f s2; Some (x :: tail, rest)
            end
          else if (Z_of_byte c <? 32)%Z then None
          else
            let '(r, w) := DecodeRune s in
            let piece := if Nat.eqb w 1 && (r =? rune_error)%Z then EncodeRune rune_error else take w s in
            '(tail, rest) ← unquote f (drop w s); Some (piece ++ tail, rest)
      end
  end.

(** ** Numbers *)

Definition eat_digits (s : str) : str * str := (take_while is_digit_char s, drop_while is_digit_char s).

(** The literal at the front of the text, and the rest. *)
Definition number_prefix (s : str) : option (str * str) :=
  let '(sign, s) := match s with "-"%char :: s' => (["-"%char], s') | _ => ([], s) end in
  '(int, s) ← match s with
              | "0"%char :: s' => Some (["0"%char], s')
              | c :: _ => if is_digit_char c then Some (eat_digits s) else None
              | [] => None
              end;
  '(frac, s) ← match s with
               | "."%char :: s' =>
                   match eat_digits s' with
                   | ([], _) => None
                   | (ds, r) => Some ("."%char :: ds, r)
                   end
               | _ => Some ([], s)
               end;
  '(exp, s) ← match s with
              | e :: s' =>
                  if bool_decide (e = "e"%char) || bool_decide (e = "E"%char) then
                    let '(sg, s'') := match s' with
                                      | "+"%char :: r => (["+"%char], r)
                                      | "-"%char :: r => (["-"%char], r)
                                      | _ => ([], s') end in
                    match eat_digits s'' with
                    | ([], _) => None
                    | (ds, r) => Some (e :: sg ++ ds, r)
                    end
                  else Some ([], s)
              | [] => Some ([], s)
              end;
  Some (sign ++ int ++ frac ++ exp, s).

Definition digits_value (s : str) : Z :=
  fold_left (fun a c => (a * 10 + (Z_of_byte c - 48))%Z) (List.filter is_digit_char s) 0%Z.

(** A literal whose value rounds to an infinite [float64] is an error. *)
Definition overflows (lit : str) : bool :=
  let s := match lit with "-"%char :: s' => s' | _ => lit end in
  let mant := take_while (fun c => negb (bool_decide (c = "e"%char) || bool_decide (c = "E"%char))) s in
  let expo := drop (S (length mant)) s in
  let e := (match expo with "-"%char :: _ => -1 | _ => 1 end * digits_value expo
            - Z.of_nat (length (drop (S (length (take_while is_digit_char mant))) mant)))%Z in
  let m := digits_value mant in
  let limit := (2 ^ 1024 - 2 ^ 970)%Z in
  if (0 <=? e)%Z then (limit <=? m * 10 ^ e)%Z else (limit * 10 ^ (- e) <=? m)%Z.

(** The [float64] of a literal, as the pair of an integer and a power of two,
    rounded to nearest even; the pair is unique for every finite value. *)
Definition lit_parts (lit : str) : bool * Z * Z :=
  let neg := match lit with "-"%char :: _ => true | _ => false end in
  let s := if neg then drop 1 lit else lit in
  let mant := take_while (fun c => negb (bool_decide (c = "e"%char) || bool_decide (c = "E"%char))) s in
  let expo := drop (S (length mant)) s in
  let e := (match expo with "-"%char :: _ => -1 | _ => 1 end * digits_value expo
            - Z.of_nat (length (drop (S (length (take_while is_digit_char mant))) mant)))%Z in
  (neg, digits_value mant, e).

Definition round_ratio (num den : Z) : Z * Z :=
  if (num =? 0)%Z then (0, 0)%Z
  else
    let lg := (Z.log2 num - Z.log2 den)%Z in
    let fits := if (0 <=? lg)%Z then (den * 2 ^ lg <=? num)%Z else (den <=? num * 2 ^ (- lg))%Z in
    let e := Z.max ((if fits then lg else lg - 1) - 52) (-1074) in
    let n := if (0 <=? e)%Z then num else (num * 2 ^ (- e))%Z in
    let d := if (0 <=? e)%Z then (den * 2 ^ e)%Z else den in
    let q := (n / d)%Z in
    let r := (n mod d)%Z in
    let q := if (d <? 2 * r)%Z || ((d =? 2 * r)%Z && Z.odd q) then (q + 1)%Z else q in
    if (q =? 2 ^ 53)%Z then (2 ^ 52, e + 1)%Z else (q, e).

Definition json_float (lit : str) : Z * Z :=
  let '(neg, m, e) := lit_parts lit in
  let '(q, x) := if (0 <=? e)%Z then round_ratio (m * 10 ^ e) 1 else round_ratio m (10 ^ (- e)) in
  (if neg then - q else q, x)%Z.

(** [int(f)] of a finite float that fits: truncation toward zero. *)
Definition float_int (f : Z * Z) : Z :=
  let '(m, e) := f in if (0 <=? e)%Z then (m * 2 ^ e)%Z else Z.quot m (2 ^ (- e)).

(** ** Values *)

Fixpoint parse_value (fuel : nat) (s : str) : option (json * str) :=
  match fuel with
  | O => None
  | S f =>
      match skip_space s with
      | [] => None
      | c :: s1 =>
          if bool_decide (c = dquote) then '(x, r) ← unquote (length s1) s1; Some (JStr x, r)
          else if bool_decide (c = "{"%char) then
            match skip_space s1 with
            | "}"%char :: r => Some (JObj [], r)
            | _ => '(l, r) ← parse_members f s1; Some (JObj l, r)
            end
          else if bool_decide (c = "["%char) then
            match skip_space s1 with
            | "]"%char :: r => Some (JArr [], r)
            | _ => '(l, r) ← parse_items f s1; Some (JArr l, r)
            end
          else if HasPrefix (c :: s1) $"true" then Some (JBool true, drop 4 (c :: s1))
          else if HasPrefix (c :: s1) $"false" then Some (JBool false, drop 5 (c :: s1))
          else if HasPrefix (c :: s1) $"null" then Some (JNull, drop 4 (c :: s1))
          else '(lit, r) ← number_prefix (c :: s1); Some (JNum lit, r)
      end
  end
with parse_members (fuel : nat) (s : str) : option (list (str * json) * str) :=
  match fuel with
  | O => None
  | S f =>
      match skip_space s with
      | q :: s1 =>
          if bool_decide (q = dquote) then
            '(k, s2) ← unquote (length s1) s1;
            match skip_space s2 with
            | ":"%char :: s3 =>
                '(v, s4) ← parse_value f s3;
                match skip_space s4 with
                | ","%char :: s5 => '(l, r) ← parse_members f s5; Some ((k, v) :: l, r)
                | "}"%char :: r => Some ([(k, v)], r)
                | _ => None
                end
            | _ => None
            end
          else None
      | [] => None
      end
  end
with parse_items (fuel : nat) (s : str) : option (list json * str) :=
  match fuel with
  | O => None
  | S f =>
      '(v, s1) ← parse_value f s;
      match skip_space s1 with
      | ","%char :: s2 => '(l, r) ← parse_items f s2; Some (v :: l, r)
      | "]"%char :: r => Some ([v], r)
      | _ => None
      end
  end.

Fixpoint has_overflow (j : json) : bool :=
  match j with
  | JNum lit => overflows lit
  | JArr l => existsb has_overflow l
  | JObj l => existsb (fun kv => has_overflow kv.2) l
  | _ => false
  end.

(** [json.Unmarshal] into an [interface{}]: one value and nothing after it. *)
Definition Unmarshal (s : str) : option json :=
  '(j, r) ← parse_value (S (length s)) s;
  match skip_space r with
  | [] => if has_overflow j then None else Some j
  | _ => None
  end.

(** The members of an object in a Go map: of equal keys the last one counts. *)
Fixpoint member (k : str) (l : list (str * json)) : option json :=
  match l with
  | [] => None
  | (k', v) :: l' =>
      match member k l' with
      | Some v' => Some v'
      | None => if bool_decide (k' = k) then Some v else None
      end
  end.

(** ** Encoding strings *)

(** The escaped form of one rune ([raw] are its bytes), with HTML escaping. *)
Definition marshal_rune (r : Z) (raw : str) : str :=
  if (r <? 128)%Z then
    if (r =? 34)%Z || (r =? 92)%Z then backslash :: raw
    else if (r =? 10)%Z then backslash :: ["n"%char]
    else if (r =? 13)%Z then backslash :: ["r"%char]
    else if (r =? 9)%Z then backslash :: ["t"%char]
    else if (r <? 32)%Z || (r =? 60)%Z || (r =? 62)%Z || (r =? 38)%Z
    then backslash :: $"u00" ++ hex2 r
    else raw
  else if (r =? 8232)%Z || (r =? 8233)%Z then backslash :: $"u202" ++ [hex_digit (r mod 16)]
  else raw.

Fixpoint marshal_body (skip : nat) (s : str) : str :=
  match s with
  | [] => []
  | a :: s' =>
      match skip with
      | S k => marshal_body k s'
      | O =>
          let '(r, w) := DecodeRune s in
          (if Nat.eqb w 1 && (r =? rune_error)%Z then backslash :: $"ufffd" else marshal_rune r (take w s))
          ++ marshal_body (w - 1) s'
      end
  end.

(** [json.Marshal] of a string. *)
Definition MarshalString (s : str) : str := dquote :: marshal_body 0 s ++ [dquote].

Fixpoint valid_utf8 (skip : nat) (s : str) : bool :=
  match s with
  | [] => match skip with O => true | _ => false end
  | a :: s' =>
      match skip with
      | S k => valid_utf8 k s'
      | O => let '(r, w) := DecodeRune s in
             negb (Nat.eqb w 1 && (r =? rune_error)%Z) && valid_utf8 (w - 1) s'
      end
  end.

Example json_float_ex :
  float_int (json_float $"1") = 1%Z ∧ float_int (json_float $"-2.9e0") = (-2)%Z
  ∧ json_float $"0.1" = (7205759403792794, -56)%Z ∧ json_float $"1.0" = json_float $"10e-1"
  ∧ float_int (json_float $"0.99999999999999999999") = 1%Z.
Proof. vm_compute. done. Qed.

Example Unmarshal_ex :
  Unmarshal ($"{ " ++ dquote :: $"cmd" ++ dquote :: $": [1, -2.5e3, true, null], " ++ dquote :: $"b" ++ dquote
             :: $" : " ++ dquote :: $"x\u0041\n" ++ dquote :: $"}")
  = Some (JObj [($"cmd", JArr [JNum $"1"; JNum $"-2.5e3"; JBool true; JNull]);
                ($"b", JStr ($"xA" ++ [ch 10]))]).
Proof. vm_compute. reflexivity. Qed.

(** ** Round trip of strings *)

Lemma DecodeRune_width s : s ≠ [] → 1 ≤ (DecodeRune s).2.
Proof. destruct s as [|a [|b [|c [|d s]]]]; [done|..]; intros _; unfold DecodeRune; repeat case_match; simpl; lia. Qed.

Definition decodes (s : str) (r : Z) (w : nat) : Prop :=
  DecodeRune s = (r, w) ∧ Nat.eqb w 1 && (r =? rune_error)%Z = false.

Lemma DecodeRune_app s t r w : s ≠ [] → decodes s r w → decodes (s ++ t) r w ∧ w ≤ length s.
Proof.
  intros Hne [Hd Hv]. unfold decodes.
  cut (DecodeRune (s ++ t) = (r, w) ∧ w ≤ length s); [naive_solver|].
  destruct s as [|a [|b [|c [|d s]]]]; [done|..]; unfold DecodeRune in *; cbv zeta in *; simpl app; simpl length.
  all: repeat match type of Hd with
       | (if ?x then _ else _) = _ => destruct x eqn:?
       end; simplify_eq; try (simpl in Hv; discriminate); split; try lia.
  all: repeat match goal with H : ?x = _ |- context [if ?x then _ else _] => rewrite H end; reflexivity.
Qed.

Lemma DecodeRune_ascii a s : (Z_of_byte a <? 128)%Z = true → DecodeRune (a :: s) = (Z_of_byte a, 1).
Proof. intros H. unfold DecodeRune. by rewrite H. Qed.

Lemma DecodeRune_high a s r w :
  DecodeRune (a :: s) = (r, w) → (Z_of_byte a <? 128)%Z = false → (128 <= r)%Z.
Proof.
  unfold DecodeRune. intros H Ha. rewrite Ha in H.
  repeat case_match; simplify_eq; unfold in_range, cont_bits, rune_error in *; bool_to_prop; try lia.
Qed.

Lemma marshal_skip k s : marshal_body k s = marshal_body 0 (drop k s).
Proof. revert k. induction s as [|a s IH]; intros [|k]; try done. apply IH. Qed.
Lemma valid_skip k s : valid_utf8 k s = true → valid_utf8 0 (drop k s) = true ∧ k ≤ length s.
Proof.
  revert k. induction s as [|a s IH]; intros [|k]; try done.
  - simpl. intros H. split; [done|lia].
  - intros H. apply IH in H as [? ?]. simpl. split; [done|lia].
Qed.

(** ASCII bytes before a text do not change whether it is valid. *)
Lemma valid_utf8_ascii s r : forallb (fun a => Z_of_byte a <? 128)%Z s = true → valid_utf8 0 (s ++ r) = valid_utf8 0 r.
Proof.
  induction s as [|a s IH]; [done|]. simpl forallb. intros [Ha Hs]%andb_true_iff.
  cbn [app valid_utf8]. rewrite DecodeRune_ascii by done. cbn [Nat.sub]. rewrite IH by done.
  replace (Z_of_byte a =? rune_error)%Z with false; [done|]. unfold rune_error. bool_to_prop. lia.
Qed.

Ltac decode_cases Hd Hv :=
  repeat match type of Hd with (if ?x then _ else _) = _ => destruct x eqn:? end;
  simplify_eq; try (simpl in Hv; discriminate).

Lemma DecodeRune_take s r w : s ≠ [] → decodes s r w → decodes (take w s) r w.
Proof.
  intros Hne [Hd Hv]. split; [|done].
  destruct s as [|a [|b [|c [|d s]]]]; [done|..]; unfold DecodeRune in Hd; cbv zeta in Hd; decode_cases Hd Hv.
  all: unfold DecodeRune; cbn [take]; cbv zeta;
    repeat match goal with H : ?x = _ |- context [if ?x then _ else _] => rewrite H end; reflexivity.
Qed.

Lemma unquote_ascii a f X :
  (Z_of_byte a <? 128)%Z = true →
  unquote (S f) (marshal_rune (Z_of_byte a) [a] ++ X) = ('(t, r) ← unquote f X; Some (a :: t, r)).
Proof. destruct a as [[] [] [] [] [] [] [] []]; intros H; try discriminate H; reflexivity. Qed.

Lemma line_separators s r w :
  s ≠ [] → decodes s r w → r = 8232%Z ∨ r = 8233%Z → take w s = EncodeRune r ∧ w = 3.
Proof.
  intros Hne [Hd Hv] Hr.
  destruct s as [|a [|b [|c [|d s]]]]; [done|..]; unfold DecodeRune in Hd; cbv zeta in Hd; decode_cases Hd Hv.
  all: unfold in_range, cont_bits in *; bool_to_prop; try lia.
  all: try (exfalso; repeat case_match; bool_to_prop; lia).
  all: assert (Z_of_byte a = 226)%Z by (repeat case_match; bool_to_prop; lia).
  all: assert (Z_of_byte b = 128)%Z by lia.
  all: assert (a = ch 226 ∧ b = ch 128) as [-> ->] by (split; apply (inj Z_of_byte); lia || (by rewrite Z_of_byte_of_Z)).
  all: split; [|done]; destruct Hr as [Hr|Hr]; rewrite Hr.
  all: assert (c = ch (Z_of_byte c)) as -> by (symmetry; apply byte_of_Z_of_byte).
  all: (assert (Z_of_byte c = 168)%Z as -> by lia) || (assert (Z_of_byte c = 169)%Z as -> by lia); reflexivity.
Qed.

Lemma unquote_raw s r w f X :
  s ≠ [] → decodes s r w → (128 <= r)%Z →
  unquote (S f) (take w s ++ X) = ('(t, rest) ← unquote f X; Some (take w s ++ t, rest)).
Proof.
  intros Hne Hd Hr. destruct s as [|a s]; [done|].
  pose proof (DecodeRune_take _ _ _ Hne Hd) as Ht.
  assert (1 ≤ w) as Hw by (pose proof (DecodeRune_width (a :: s) Hne) as H; destruct Hd as [Hd _]; by rewrite Hd in H).
  assert (w ≤ length (a :: s)) as Hl by by apply (DecodeRune_app (a :: s) [] r w).
  assert (take w (a :: s) ≠ []) as Hne' by by destruct w; [lia|].
  destruct (DecodeRune_app _ X _ _ Hne' Ht) as [[Hdx Hvx] _].
  assert ((Z_of_byte a <? 128)%Z = false) as Ha.
  { apply not_true_is_false. intros Ha. destruct Hd as [Hd _]. rewrite DecodeRune_ascii in Hd by done.
    bool_to_prop. simplify_eq. lia. }
  destruct w as [|w]; [lia|]. cbn [take app] in Hdx |- *. cbn [unquote].
  rewrite !bool_decide_eq_false_2; [|intros ->; discriminate Ha..].
  assert ((Z_of_byte a <? 32)%Z = false) as -> by (bool_to_prop; apply Z.ltb_ge; lia).
  rewrite Hdx, Hvx. cbn [take drop].
  rewrite take_app_le, (take_take s w w), Nat.min_id by (rewrite length_take; simpl in Hl; lia).
  rewrite drop_app_ge by (rewrite length_take; simpl in Hl; lia).
  replace (w - length (take w s)) with 0 by (rewrite length_take; simpl in Hl; lia). done.
Qed.

Lemma unquote_separator r f X :
  r = 8232%Z ∨ r = 8233%Z →
  unquote (S f) ((backslash :: $"u202" ++ [hex_digit (r mod 16)]) ++ X)
  = ('(t, rest) ← unquote f X; Some (EncodeRune r ++ t, rest)).
Proof. intros [-> | ->]; reflexivity. Qed.

Lemma unquote_marshal f s rest :
  valid_utf8 0 s = true → length s < f → unquote f (marshal_body 0 s ++ dquote :: rest) = Some (s, rest).
Proof.
  revert f. induction s as [s IH] using (induction_ltof1 _ length); unfold ltof in IH. intros f Hv Hf.
  destruct f as [|f]; [lia|]. destruct s as [|a s]; [reflexivity|].
  assert (a :: s ≠ []) as Hne by done.
  pose proof (DecodeRune_width (a :: s) Hne) as Hw.
  cbn [valid_utf8] in Hv. cbn [marshal_body].
  destruct (DecodeRune (a :: s)) as [r w] eqn:E. bool_to_prop. simpl in Hw.
  destruct (valid_skip _ _ H0) as [Hrest Hk]. rewrite H, marshal_skip.
  assert (decodes (a :: s) r w) as Hd by done.
  assert (drop (w - 1) s = drop w (a :: s)) as Hdrop by (destruct w; [lia|simpl; by rewrite Nat.sub_0_r]).
  rewrite Hdrop in *. rewrite <- (assoc_L (++)).
  assert (unquote f (marshal_body 0 (drop w (a :: s)) ++ dquote :: rest) = Some (drop w (a :: s), rest)) as Hrec.
  { apply IH; [rewrite length_drop; simpl; lia|done|rewrite length_drop; simpl in *; lia]. }
  rewrite <- (take_drop w (a :: s)) at 3.
  destruct (Z_of_byte a <? 128)%Z eqn:Ha.
  - rewrite DecodeRune_ascii in E by done. simplify_eq. cbn [take].
    rewrite unquote_ascii, Hrec by done. done.
  - pose proof (DecodeRune_high _ _ _ _ E Ha) as Hr. unfold marshal_rune.
    assert ((r <? 128)%Z = false) as -> by by apply Z.ltb_ge.
    destruct ((r =? 8232)%Z || (r =? 8233)%Z) eqn:Hs.
    + assert (r = 8232%Z ∨ r = 8233%Z) as Hrr by (apply orb_true_iff in Hs as [Hs|Hs]; bool_to_prop; auto).
      destruct (line_separators _ _ _ Hne Hd Hrr) as [-> ->].
      by rewrite unquote_separator, Hrec.
    + rewrite (unquote_raw _ _ _ _ _ Hne Hd Hr), Hrec. done.
Qed.

Lemma marshal_rune_length s r w :
  s ≠ [] → decodes s r w → length (take w s) ≤ length (marshal_rune r (take w s)).
Proof.
  intros Hne Hd. unfold marshal_rune.
  destruct (Z.ltb_spec r 128) as [Hr|Hr].
  - assert (w ≤ 1) as Hw.
    { destruct s as [|a s]; [done|]. destruct Hd as [Hd _].
      destruct (Z_of_byte a <? 128)%Z eqn:Ha.
      - rewrite DecodeRune_ascii in Hd by done. by simplify_eq.
      - apply DecodeRune_high in Hd; [lia|done]. }
    assert (length (take w s) ≤ 1) as Hl by (rewrite length_take; lia).
    generalize dependent (take w s). intros raw Hl.
    repeat match goal with |- context [if ?b then _ else _] => destruct b end; cbn [length app]; lia.
  - destruct ((r =? 8232)%Z || (r =? 8233)%Z) eqn:Hs; [|done].
    assert (r = 8232%Z ∨ r = 8233%Z) as Hrr by (apply orb_true_iff in Hs as [Hs|Hs]; bool_to_prop; auto).
    destruct (line_separators _ _ _ Hne Hd Hrr) as [_ ->]. rewrite length_take.
    transitivity 3; [lia|]. simpl. lia.
Qed.

Lemma marshal_length s : valid_utf8 0 s = true → length s ≤ length (marshal_body 0 s).
Proof.
  induction s as [s IH] using (induction_ltof1 _ length); unfold ltof in IH. intros Hv.
  destruct s as [|a s]; [done|]. assert (a :: s ≠ []) as Hne by done.
  pose proof (DecodeRune_width (a :: s) Hne) as Hw.
  cbn [valid_utf8] in Hv. cbn [marshal_body].
  destruct (DecodeRune (a :: s)) as [r w] eqn:E. bool_to_prop. simpl in Hw.
  destruct (valid_skip _ _ H0) as [Hrest Hk]. rewrite H, marshal_skip.
  pose proof (marshal_rune_length (a :: s) r w Hne (conj E H)) as Hl.
  assert (length (drop (w - 1) s) ≤ length (marshal_body 0 (drop (w - 1) s))) as Hr
    by (apply IH; [rewrite length_drop; simpl; lia|done]).
  rewrite length_app. rewrite length_take in Hl. rewrite length_drop in Hr. simpl in *. lia.
Qed.

(** A string in valid UTF-8 that is encoded by [json.Marshal] (with the
    escapes of quotes, control characters, HTML characters and line separators)
    is decoded by [json.Unmarshal] to itself. *)
Theorem Unmarshal_MarshalString (s : str) :
  valid_utf8 0 s = true → Unmarshal (MarshalString s) = Some (JStr s).
Proof.
  intros Hv. pose proof (marshal_length s Hv) as Hl.
  unfold Unmarshal. set (n := length (MarshalString s)). unfold MarshalString. cbn [parse_value].
  change (skip_space (dquote :: marshal_body 0 s ++ [dquote])) with (dquote :: marshal_body 0 s ++ [dquote]).
  cbv iota. rewrite bool_decide_eq_true_2 by done.
  rewrite unquote_marshal; [|done|rewrite length_app; simpl; lia]. reflexivity.
Qed.

Lemma Unmarshal_MarshalString_witness :
  Unmarshal (MarshalString ($"Method <x>" ++ [ch 226; ch 128; ch 168; ch 10])) =
    Some (JStr ($"Method <x>" ++ [ch 226; ch 128; ch 168; ch 10])).
Proof. apply Unmarshal_MarshalString. vm_compute. reflexivity. Defined.
