(* ===== verification/Schema.v ===== *)
(** * configschema/configschema.go: schema files and their placeholders

    A schema file is a template with placeholders such as the item
    [database.host] between a double quote, a number sign and braces.  The file
    system is a value: what [ioutil.ReadFile] and the directory listing return
    at the time of the call.

    [placeholders_scan] shows that the compiled regular expression finds exactly
    what a direct left-to-right scan finds; [ParseItems_template] what
    [ParseItems] returns on a template, and [ParseItems_sound] what it can return
    on any text. *)

From S2P Require Import Prelude GoLib GoFmt Util Regex.

Record FileSystem := mkFS {
  ReadFile : str → result str;
  (** [os.Open] and [Readdir(0)]: names, and whether each is a directory. *)
  ReadDir : str → result (list (str * bool)) }.

Definition pathSep : str := $"/".

Definition SCHEMAFILE_SUFFIX : str := $".schema.php".
Definition TOML_SUFFIX : str := $".schema.toml".

Record SchemaFile := mkSchemaFile { Md5 : str; Path : str }.

Definition IsSchemaFile (filename : str) : bool :=
  HasSuffix filename SCHEMAFILE_SUFFIX || HasSuffix filename TOML_SUFFIX.

Definition SchemaFileMd5 (fs : FileSystem) (filePath : str) : result str :=
  Md5File (ReadFile fs filePath).

Definition schema_file_of (fs : FileSystem) (dir : str) (f : str * bool) : list SchemaFile :=
  if f.2 then []
  else if HasSuffix f.1 $".schema.php" || HasSuffix f.1 $".schema.toml" then
    let filePath := TrimRight dir pathSep ++ pathSep ++ f.1 in
    let md5sum := match SchemaFileMd5 fs filePath with
                  | inl _ => $"error_of_md5sum" | inr m => m end in
    [mkSchemaFile md5sum filePath]
  else [].

Definition GetSchemaFilesByDir (fs : FileSystem) (dir : str) : list SchemaFile :=
  match ReadDir fs dir with
  | inl _ => []
  | inr dFiles => flat_map (schema_file_of fs dir) dFiles
  end.

Definition LoadSchemaFiles (fs : FileSystem) (CONFIG_DIR : list str) : list SchemaFile :=
  flat_map (GetSchemaFilesByDir fs) CONFIG_DIR.

Definition GetSchemaFileContent (fs : FileSystem) (filePath : str) : result str :=
  ReadFile fs filePath.

(** ** Placeholders *)

Definition open_mark : str := dquote :: $"#{".
Definition close_mark : str := "}"%char :: [dquote].

(** The class [[\-\d\w\.]]. *)
Definition is_item_char (c : ascii) : bool :=
  bool_decide (c = "-"%char) || is_digit_char c || is_word_char c || bool_decide (c = "."%char).
Definition is_item_end (c : ascii) : bool := is_word_char c || is_digit_char c.

(** The expression of [ParseItemPlaceholders]: between the marks either
    [\w+] or [\w+[\-\d\w\.]*[\w\d]]. *)
Definition placeholder_name_re : regex :=
  RAlt (RPlus true (RSet is_word_char))
       (RSeq (RPlus true (RSet is_word_char))
             (RSeq (RStar true (RSet is_item_char)) (RSet is_item_end))).
Definition placeholder_re : regex :=
  RSeq (RLit open_mark) (RSeq placeholder_name_re (RLit close_mark)).

Definition ParseItemPlaceholders (fs : FileSystem) (filePath : str) : result (list str) :=
  match ReadFile fs filePath with
  | inl err => inl err
  | inr b => inr (FindAllString placeholder_re b)
  end.

Definition mark_cutset : str := dquote :: $"#{}".

(** The loop of [ParseItems] over the placeholders. *)
Definition unique_items (items : list str) : list str :=
  fold_left (fun tempItems item => append_unique tempItems (Trim item mark_cutset)) items [].

Definition ParseItems (fs : FileSystem) (filePath : str) : result (list str) :=
  match ParseItemPlaceholders fs filePath with
  | inl err => inl err
  | inr items => inr (unique_items items)
  end.

Definition GetAllSchemaItems (fs : FileSystem) (CONFIG_DIR : list str) : list str :=
  flat_map (fun f => match ParseItemPlaceholders fs (Path f) with inl _ => [] | inr l => l end)
           (LoadSchemaFiles fs CONFIG_DIR).

(** [strings.Split(name, ".")[0]]. *)
Definition root_of (name : str) : str := default [] (head (Split name ["."%char])).

Definition GetAllSchemaItemRootNodes (fs : FileSystem) (CONFIG_DIR : list str) : list str :=
  fold_left (fun itemRoots item => append_unique itemRoots (root_of (Trim item mark_cutset)))
            (GetAllSchemaItems fs CONFIG_DIR) [].

Definition nl : str := [newline].

Definition GetCompilationCaution (withTag : bool) : str :=
  let caution := nl ++ $"/**" ++ nl
    ++ $" * This file is generated automatically by ConfigurationSystem." ++ nl
    ++ $" * Do not change it manually in production, unless you know what you're doing and can take responsibilities for the consequences of changes you make." ++ nl
    ++ $" */" ++ nl in
  if withTag then $"<?php " ++ caution ++ $"?>" ++ nl else caution.

(** ** The names a placeholder can hold, and the direct scan *)

Definition item_name (n : str) : bool :=
  forallb is_item_char n
  && match head n with Some c => is_word_char c | None => false end
  && match list.last n with Some c => is_word_char c | None => false end.

Definition item_text (n : str) : str := open_mark ++ n ++ close_mark.

(** A placeholder at the front of [s]: the name between the marks. *)
Definition scan_at (s : str) : option str :=
  if HasPrefix s open_mark then
    let n := take_while is_item_char (drop 3 s) in
    if item_name n && HasPrefix (drop (3 + length n) s) close_mark then Some n else None
  else None.

Fixpoint scan (skip : nat) (s : str) : list str :=
  match s with
  | [] => []
  | _ :: s' =>
      match skip with
      | S k => scan k s'
      | O => match scan_at s with
             | Some n => item_text n :: scan (length (item_text n) - 1) s'
             | None => scan 0 s'
             end
      end
  end.

(** ** Lemmas *)

Lemma item_name_spec n :
  item_name n = true ↔
    Forall (fun c => is_item_char c = true) n
    ∧ (∃ c, head n = Some c ∧ is_word_char c = true)
    ∧ (∃ c, list.last n = Some c ∧ is_word_char c = true).
Proof.
  unfold item_name. rewrite !andb_true_iff, forallb_forall, Forall_forall.
  setoid_rewrite list_elem_of_In.
  destruct (head n), (list.last n); naive_solver.
Qed.

Lemma word_item c : is_word_char c = true → is_item_char c = true.
Proof. intros H. unfold is_item_char. by rewrite H, orb_true_r. Qed.

Lemma item_end_word c : is_item_end c = true ↔ is_word_char c = true.
Proof.
  unfold is_item_end, is_word_char, is_digit_char.
  destruct (is_between 48 57 c); simpl; [done|]. by rewrite orb_false_r.
Qed.

Lemma lang_placeholder_name n : lang placeholder_name_re n ↔ item_name n = true.
Proof.
  rewrite item_name_spec. unfold placeholder_name_re. split.
  - inversion 1 as [| | |r1 r2 a Ha|r1 r2 a Ha| |]; subst.
    + apply lang_plus_set in Ha as [Hne Hw].
      assert (∀ c, c ∈ n → is_word_char c = true) as Hw' by by apply Forall_forall.
      split_and!.
      * eapply Forall_impl; [exact Hw|]. intros c. apply word_item.
      * destruct n as [|c n]; [done|]. exists c. split; [done|]. apply Hw'. left.
      * destruct n as [|c n _] using rev_ind; [done|]. exists c. rewrite last_snoc.
        split; [done|]. apply Hw'. set_solver.
    + inversion Ha as [| |q1 q2 x y Hx Hy| | | |]; subst.
      inversion Hy as [| |q3 q4 y1 y2 Hy1 Hy2| | | |]; subst.
      apply lang_plus_set in Hx as [Hne Hx]. apply lang_star_set in Hy1.
      inversion Hy2 as [|q c Hc| | | | |]; subst. apply item_end_word in Hc.
      split_and!.
      * apply Forall_app. split; [|apply Forall_app; split; [done|]].
        -- eapply Forall_impl; [exact Hx|]. intros d. apply word_item.
        -- constructor; [by apply word_item|constructor].
      * destruct Hx as [|d x Hd Hx]; [done|]. by exists d.
      * exists c. rewrite (assoc_L (++)), last_snoc. done.
  - intros (Hall & (c & Hc & Hcw) & (d & Hd & Hdw)).
    destruct n as [|c' n]; [done|]. injection Hc as ->.
    destruct n as [|e n _] using rev_ind.
    + apply lang_alt_l, lang_plus_set. split; [done|]. by repeat constructor.
    + apply lang_alt_r.
      change (c :: n ++ [e]) with ([c] ++ (n ++ [e])).
      change (c :: n ++ [e]) with ((c :: n) ++ [e]) in Hd. rewrite last_snoc in Hd. injection Hd as ->.
      rewrite Forall_cons, Forall_app in Hall. destruct Hall as (_ & Hn & _).
      constructor; [apply lang_plus_set; split; [done|by repeat constructor]|].
      constructor; [by apply lang_star_set|]. constructor. by apply item_end_word.
Qed.

Lemma lang_placeholder a : lang placeholder_re a ↔ ∃ n, item_name n = true ∧ a = item_text n.
Proof.
  unfold placeholder_re. split.
  - intros (x & y & -> & Hx & (y1 & y2 & -> & Hy1 & Hy2)%lang_seq_inv)%lang_seq_inv.
    apply lang_lit in Hx as ->. apply lang_lit in Hy2 as ->. apply lang_placeholder_name in Hy1.
    by exists y1.
  - intros (n & Hn & ->). constructor; [by apply lang_lit|].
    constructor; [by apply lang_placeholder_name|by apply lang_lit].
Qed.

Lemma rmatch_placeholder i s j rest :
  (j, rest) ∈ rmatch placeholder_re i s ↔
    ∃ n, item_name n = true ∧ s = item_text n ++ rest ∧ j = i + length (item_text n).
Proof.
  rewrite rmatch_spec by done. unfold splits. setoid_rewrite lang_placeholder.
  split; [intros (a & -> & -> & n & Hn & ->)|intros (n & Hn & -> & ->)]; eauto 10.
Qed.

Lemma close_mark_head rest : ∃ r, close_mark ++ rest = "}"%char :: r ∧ is_item_char "}"%char = false.
Proof. by eexists. Qed.

Lemma drop_open_mark b : drop 3 (open_mark ++ b) = b.
Proof. done. Qed.

(** The direct scan finds a placeholder exactly when there is one. *)
Lemma scan_at_spec s n :
  scan_at s = Some n ↔ item_name n = true ∧ ∃ rest, s = item_text n ++ rest.
Proof.
  unfold scan_at. split.
  - destruct (HasPrefix s open_mark) eqn:Ho; [|done].
    apply HasPrefix_spec in Ho as [b ->].
    rewrite <- drop_drop, drop_open_mark.
    destruct (_ && _) eqn:E; [|done]. intros [= <-]. bool_to_prop. split; [done|].
    apply HasPrefix_spec in H0 as [r Hr]. exists r.
    unfold item_text. rewrite <- !(assoc_L (++)), <- Hr. f_equal.
    rewrite <- (take_drop_while is_item_char b) at 1. f_equal.
    rewrite <- (take_drop_while is_item_char b) at 3. by rewrite drop_app_length.
  - intros (Hn & rest & ->). unfold item_text. rewrite <- !(assoc_L (++)).
    rewrite HasPrefix_app, <- drop_drop, drop_open_mark.
    destruct (close_mark_head rest) as (r & Hr & Hb).
    assert (take_while is_item_char (n ++ close_mark ++ rest) = n) as ->.
    { rewrite Hr. apply take_while_app_stop; [|done]. by apply item_name_spec in Hn as [? _]. }
    rewrite drop_app_length, Hn, HasPrefix_app. done.
Qed.

Lemma scan_skip k s : scan k s = scan 0 (drop k s).
Proof. revert k. induction s as [|c s IH]; intros [|k]; try done. apply IH. Qed.

Lemma item_text_length n : length (item_text n) = 5 + length n.
Proof. unfold item_text. rewrite !length_app. simpl. lia. Qed.

Lemma scan_item n rest :
  item_name n = true → scan 0 (item_text n ++ rest) = item_text n :: scan 0 rest.
Proof.
  intros Hn. destruct (item_text n ++ rest) as [|c s] eqn:E; [done|].
  assert (scan_at (c :: s) = Some n) as Hs by (rewrite <- E; apply scan_at_spec; eauto).
  cbn [scan]. rewrite Hs, scan_skip. f_equal. f_equal.
  pose proof (item_text_length n) as Hl.
  change s with (drop 1 (c :: s)). rewrite <- E, drop_drop.
  replace (1 + (length (item_text n) - 1)) with (length (item_text n)) by lia.
  apply drop_app_length.
Qed.

Lemma find_from_scan i s :
  match find_from placeholder_re i s with
  | None => scan 0 s = []
  | Some (m, j, rest) => scan 0 s = m :: scan 0 rest ∧ length rest < length s
  end.
Proof.
  revert i. induction s as [|c s IH]; intros i.
  - destruct (find_from placeholder_re i []) as [[[m j] rest]|] eqn:E; [|done]. simpl in E.
    by destruct (rmatch placeholder_re i []) as [|[j' r'] ?] eqn:Em.
  - cbn [find_from].
    destruct (rmatch placeholder_re i (c :: s)) as [|[j rest] l] eqn:Em.
    + assert (scan_at (c :: s) = None) as Hn.
      { destruct (scan_at (c :: s)) as [n|] eqn:Es; [|done].
        apply scan_at_spec in Es as (Hn & rest & Hs).
        assert ((i + length (item_text n), rest) ∈ rmatch placeholder_re i (c :: s)) as Hin
          by (apply rmatch_placeholder; eauto).
        rewrite Em in Hin. by apply elem_of_nil in Hin. }
      cbn [scan]. rewrite Hn. specialize (IH (S i)).
      destruct (find_from placeholder_re (S i) s) as [[[m j] rest]|]; [|done].
      destruct IH. split; [done|simpl; lia].
    + assert ((j, rest) ∈ rmatch placeholder_re i (c :: s)) as Hin by (rewrite Em; left).
      apply rmatch_placeholder in Hin as (n & Hn & Hs & ->). rewrite Hs.
      rewrite scan_item by done. split.
      * f_equal. replace (i + length (item_text n) - i) with (length (item_text n)) by lia.
        by rewrite take_app_length.
      * rewrite length_app, item_text_length. lia.
Qed.

Lemma find_all_scan n i s : length s ≤ n → find_all placeholder_re n i s = scan 0 s.
Proof.
  revert i s. induction n as [|n IH]; intros i s Hn.
  - destruct s; [done|simpl in Hn; lia].
  - cbn [find_all]. pose proof (find_from_scan i s) as H.
    destruct (find_from placeholder_re i s) as [[[m j] rest]|]; [|done].
    destruct H as [-> Hl]. f_equal. apply IH. lia.
Qed.

(** ** Names and texts *)

Lemma scan_names s : ∃ ns, scan 0 s = item_text <$> ns
  ∧ Forall (fun n => item_name n = true ∧ ∃ a b, s = a ++ item_text n ++ b) ns.
Proof.
  induction s as [s IH] using (induction_ltof1 _ length); unfold ltof in IH.
  destruct s as [|c s]; [by exists []|].
  destruct (scan_at (c :: s)) as [n|] eqn:E.
  - apply scan_at_spec in E as (Hn & rest & Hs). rewrite Hs.
    destruct (IH rest) as (ns & He & HF).
    { rewrite Hs, length_app, item_text_length. lia. }
    exists (n :: ns). rewrite scan_item, He by done. split; [done|]. constructor.
    + split; [done|]. by exists [], rest.
    + eapply Forall_impl; [exact HF|]. intros m (Hm & a & b & ->). split; [done|].
      exists (item_text n ++ a), b. by rewrite (assoc_L (++)).
  - destruct (IH s) as (ns & He & HF); [simpl; lia|]. exists ns. cbn [scan]. rewrite E.
    split; [done|]. eapply Forall_impl; [exact HF|]. intros m (Hm & a & b & ->).
    split; [done|]. by exists (c :: a), b.
Qed.

Lemma word_not_mark c : is_word_char c = true → c ∉ mark_cutset.
Proof. destruct c as [[] [] [] [] [] [] [] []]; vm_compute; set_solver. Qed.

Lemma Trim_item_text n : item_name n = true → Trim (item_text n) mark_cutset = n.
Proof.
  intros (_ & (c & Hc & Hcw) & (d & Hd & Hdw))%item_name_spec.
  unfold Trim, item_text. rewrite TrimLeft_app_cut.
  2:{ repeat constructor; vm_compute; set_solver. }
  rewrite TrimLeft_keep.
  2:{ intros x Hx. destruct n; [done|]. simplify_eq/=. by apply word_not_mark. }
  rewrite TrimRight_app_cut.
  2:{ repeat constructor; vm_compute; set_solver. }
  apply TrimRight_last. intros k x ->. rewrite last_snoc in Hd. simplify_eq.
  by apply word_not_mark.
Qed.

Lemma unique_items_texts ns :
  Forall (fun n => item_name n = true) ns → unique_items (item_text <$> ns) = first_occurrences ns.
Proof.
  intros HF. transitivity (fold_left append_unique ns []).
  - unfold unique_items. generalize (@nil str). induction HF as [|n ns Hn _ IH]; intros l; simpl; [done|].
    by rewrite Trim_item_text, IH.
  - by rewrite fold_append_unique_nil.
Qed.

(** A loop that appends an image once is the loop over the images. *)
Lemma fold_append_unique_map (f : str → str) (l acc : list str) :
  fold_left (fun r x => append_unique r (f x)) l acc = fold_left append_unique (f <$> l) acc.
Proof. revert acc. induction l as [|x l IH]; intros acc; simpl; [done|]. apply IH. Qed.

Lemma elem_of_unique_items items n :
  n ∈ unique_items items ↔ ∃ it, it ∈ items ∧ n = Trim it mark_cutset.
Proof.
  unfold unique_items. rewrite fold_append_unique_map, fold_append_unique_elem, list_elem_of_fmap.
  set_solver.
Qed.

Lemma elem_of_GetAllSchemaItems fs dirs it :
  it ∈ GetAllSchemaItems fs dirs ↔
    ∃ f l, f ∈ LoadSchemaFiles fs dirs ∧ ParseItemPlaceholders fs (Path f) = inr l ∧ it ∈ l.
Proof.
  unfold GetAllSchemaItems. rewrite elem_of_flat_map. split.
  - intros (f & Hf & Hit). destruct (ParseItemPlaceholders fs (Path f)) as [e|l] eqn:E; [by apply elem_of_nil in Hit|].
    eauto.
  - intros (f & l & Hf & E & Hit). exists f. by rewrite E.
Qed.

(** ** Templates *)

(** Literal text between placeholders: it has no double quote followed by a
    number sign and does not end in a double quote. *)
Fixpoint lit_ok (l : str) : bool :=
  match l with
  | [] => true
  | c :: l' =>
      negb (bool_decide (c = dquote)
            && match l' with [] => true | d :: _ => bool_decide (d = "#"%char) end)
      && lit_ok l'
  end.

(** A template: literals ([inl]) and placeholders ([inr]). *)
Abbreviation template := (list (str + str)).
Definition render (t : template) : str :=
  flat_map (fun x : str + str => match x with inl l => l | inr n => item_text n end) t.
Definition names (t : template) : list str := omap (fun x : str + str => match x with inl _ => None | inr n => Some n end) t.
Definition template_ok (t : template) : Prop :=
  Forall (fun x : str + str => match x with inl l => lit_ok l = true | inr n => item_name n = true end) t.

Lemma scan_lit l rest : lit_ok l = true → scan 0 (l ++ rest) = scan 0 rest.
Proof.
  induction l as [|c l IH]; [done|]. cbn [lit_ok]. intros H. bool_to_prop.
  change ((c :: l) ++ rest) with (c :: (l ++ rest)). cbn [scan].
  replace (scan_at (c :: l ++ rest)) with (@None str); [by apply IH|].
  unfold scan_at. replace (HasPrefix (c :: l ++ rest) open_mark) with false; [done|].
  symmetry. apply not_true_is_false. intros [k Hk]%HasPrefix_spec.
  injection Hk as -> Hk. rewrite bool_decide_eq_true_2 in H by done.
  destruct l as [|d l]; [done|]. injection Hk as -> _.
  by rewrite bool_decide_eq_true_2 in H.
Qed.

Lemma scan_render t : template_ok t → scan 0 (render t) = item_text <$> names t.
Proof.
  unfold render. induction 1 as [|[l|n] t Hx _ IH]; cbn [flat_map]; [done| |].
  - rewrite scan_lit by done. apply IH.
  - rewrite scan_item by done. by rewrite IH.
Qed.

Lemma names_ok t : template_ok t → Forall (fun n => item_name n = true) (names t).
Proof. induction 1 as [|[l|n] t Hx _ IH]; simpl; [constructor|done|by constructor]. Qed.

(** ** Theorems *)

(** The regular expression of [ParseItemPlaceholders], matched by the
    backtracking search, finds in every text exactly the placeholders that a
    single left-to-right scan finds, in the same order. *)
Theorem placeholders_scan (s : str) : FindAllString placeholder_re s = scan 0 s.
Proof. by apply find_all_scan. Qed.

(** On a schema file that is a template (literal text without an opening
    mark, and placeholders) [ParseItems] returns the names of the placeholders,
    each once, in the order of their first occurrence. *)
Theorem ParseItems_template (fs : FileSystem) (filePath : str) (t : template) :
  template_ok t → ReadFile fs filePath = inr (render t) →
  ParseItems fs filePath = inr (first_occurrences (names t)).
Proof.
  intros Ht Hr. unfold ParseItems, ParseItemPlaceholders. rewrite Hr.
  unfold FindAllString. rewrite find_all_scan, scan_render, unique_items_texts by auto using names_ok. done.
Qed.

Definition example_template : template :=
  [inl $"<?php return ["; inl (dquote :: $"a" ++ dquote :: $" => "); inr $"db.host"; inl $", ";
   inr $"port"; inl $", "; inr $"db.host"; inl $"];"].
Definition example_fs : FileSystem :=
  mkFS (fun _ => inr (render example_template)) (fun _ => inl $"no such directory").

Lemma ParseItems_template_witness :
  ParseItems example_fs $"/c/a.schema.php" = inr [$"db.host"; $"port"].
Proof.
  apply (ParseItems_template example_fs $"/c/a.schema.php" example_template).
  - repeat constructor.
  - reflexivity.
Defined.

(** Whatever the file holds, the items [ParseItems] returns are pairwise
    different, each is a well-formed item name, and its placeholder occurs in
    the file; when the file cannot be read the error is returned. *)
Theorem ParseItems_sound (fs : FileSystem) (filePath : str) :
  match ReadFile fs filePath, ParseItems fs filePath with
  | inl e, r => r = inl e
  | inr b, inr l => NoDup l ∧ ∀ n, n ∈ l → item_name n = true ∧ ∃ x y, b = x ++ item_text n ++ y
  | inr _, inl _ => False
  end.
Proof.
  unfold ParseItems, ParseItemPlaceholders. destruct (ReadFile fs filePath) as [e|b]; [done|].
  unfold FindAllString. rewrite find_all_scan by done.
  destruct (scan_names b) as (ns & -> & HF).
  rewrite unique_items_texts by (eapply Forall_impl; [exact HF|]; naive_solver).
  rewrite <- fold_append_unique_nil. split.
  - apply fold_append_unique_NoDup. constructor.
  - intros n Hn. apply fold_append_unique_elem in Hn as [Hn|Hn]; [by apply elem_of_nil in Hn|].
    by rewrite Forall_forall in HF; apply HF.
Qed.

(** The root nodes the watcher starts from are pairwise different and are
    exactly the parts before the first dot of the items of all schema files. *)
Theorem GetAllSchemaItemRootNodes_spec (fs : FileSystem) (dirs : list str) :
  NoDup (GetAllSchemaItemRootNodes fs dirs)
  ∧ ∀ r, r ∈ GetAllSchemaItemRootNodes fs dirs ↔
      ∃ f items n, f ∈ LoadSchemaFiles fs dirs ∧ ParseItems fs (Path f) = inr items
        ∧ n ∈ items ∧ r = root_of n.
Proof.
  unfold GetAllSchemaItemRootNodes. rewrite fold_append_unique_map. split.
  - apply fold_append_unique_NoDup. constructor.
  - intros r. rewrite fold_append_unique_elem, list_elem_of_fmap. split.
    + intros [?%elem_of_nil|(it & -> & (f & l & Hf & E & Hit)%elem_of_GetAllSchemaItems)]; [done|].
      exists f, (unique_items l), (Trim it mark_cutset). unfold ParseItems. rewrite E.
      split_and!; try done. apply elem_of_unique_items. by exists it.
    + intros (f & items & n & Hf & Hp & Hn & ->). right. unfold ParseItems in Hp.
      destruct (ParseItemPlaceholders fs (Path f)) as [e|l] eqn:E; [done|]. simplify_eq.
      apply elem_of_unique_items in Hn as (it & Hit & ->). exists it. split; [done|].
      apply elem_of_GetAllSchemaItems. eauto.
Qed.
