(* ===== verification/Storage.v ===== *)
(** * storage: process memory, leveldb and the etcd connection

    - [Mem]: storage/mem.go, the configurations cached in the process.
    - [LevelDB]: storage/leveldb/leveldb.go, the one shared connection with its
      lock, over the interface [GoLevelDB] of the goleveldb package; [MapDB] is
      an instance of the interface.
    - [Zk]: storage/zk/storage.go and util.go, the mapping between configuration
      names and node paths, the operations of [Conn] over the interface
      [EtcdKV], the connection singleton and the goroutine that re-creates a
      broken connection. *)

From S2P Require Import Prelude GoLib.

(** ** Process memory *)

Module Mem.

Record Mem := mkMem {
  memCachedProjectConfigs : gmap str (option str);
  rawConfig : gmap str str }.

(** [None] is the nil slice, of a missing key or stored under the key. *)
Definition GetFromMem (m : Mem) (name : str) : option str := default None (memCachedProjectConfigs m !! name).

Definition StoreToMem (m : Mem) (name : str) (data : option str) : Mem :=
  mkMem (<[name := data]> (memCachedProjectConfigs m)) (rawConfig m).

Definition SaveRawConfig (m : Mem) (name value : str) : Mem :=
  mkMem (memCachedProjectConfigs m) (<[name := value]> (rawConfig m)).

Definition GetRawConfig (m : Mem) (name : str) : result str :=
  match rawConfig m !! name with
  | Some value => inr value
  | None => inl ($"Cannot find value for config[" ++ name ++ $"].")
  end.

End Mem.

(** ** leveldb *)

Module LevelDB.

Inductive ErrorCode := ErrorDbLockFailed | ErrorDbOpenFailed | ErrorDbCreateFailed.

Inductive db_error :=
| ErrClosed
| DbError (code : ErrorCode) (m : str)
| Other (m : str).

#[export] Instance ErrorCode_eq_dec : EqDecision ErrorCode.
Proof. solve_decision. Defined.
#[export] Instance db_error_eq_dec : EqDecision db_error.
Proof. solve_decision. Defined.

(** What the client relies on of goleveldb: an open handle stores and returns
    values, a closed one answers [ErrClosed] and changes nothing, and opening
    keeps the stored contents. *)
Class GoLevelDB (W H : Type) := {
  OpenFile : W → str → (str + H) * W;
  db_Get : W → H → str → db_error + str;
  db_Put : W → H → str → str → option db_error * W;
  db_Close : W → H → option db_error * W;
  is_open : W → H → bool;
  contents : W → H → gmap str str;
  db_Get_closed w h k : is_open w h = false → db_Get w h k = inl ErrClosed;
  db_Get_open w h k : is_open w h = true →
    ∃ e, e ≠ ErrClosed ∧ db_Get w h k = match contents w h !! k with Some v => inr v | None => inl e end;
  db_Put_closed w h k v : is_open w h = false → db_Put w h k v = (Some ErrClosed, w);
  db_Put_open w h k v : is_open w h = true →
    (∃ e w', e ≠ ErrClosed ∧ db_Put w h k v = (Some e, w'))
    ∨ ∃ w', db_Put w h k v = (None, w') ∧ is_open w' h = true
        ∧ contents w' h = <[k := v]> (contents w h);
  OpenFile_open w d h w' : OpenFile w d = (inr h, w') → is_open w' h = true }.

(** The package variables [config] and [initialized], set by [InitDb]. *)
Record db_config := mkDbConfig { config : str; initialized : bool }.
Definition InitDb (Dsn : str) (c : db_config) : db_config := mkDbConfig Dsn true.
Definition IsIntialized (c : db_config) : bool := initialized c.

Section conn.
Context {W H : Type} `{L : !GoLevelDB W H} (Dsn : str).

(** [Conn] with the package's [dbRWLock]: [locked] says whether the one slot of
    the channel is taken. *)
Record Conn := mkConn { rconn : H; locked : bool }.

(** [getDbRWLock] polls the channel until the timeout; [free] lists, for each
    poll after the first, whether another goroutine has emptied it by then. *)
Fixpoint poll_lock (taken : bool) (free : list bool) : bool :=
  if taken then match free with
                | [] => false
                | f :: rest => poll_lock (negb f) rest
                end
  else true.
Definition getDbRWLock (c : Conn) (free : list bool) : bool * Conn :=
  if poll_lock (locked c) free then (true, mkConn (rconn c) true) else (false, c).
Definition releasedbRWLock (c : Conn) : Conn := mkConn (rconn c) false.

Definition lock_error : db_error :=
  DbError ErrorDbLockFailed $"Failed to get db connection, cannot accqurie lock.".

Definition createRealConn (w : W) : (db_error + H) * W :=
  match OpenFile w Dsn with
  | (inl err, w') => (inl (DbError ErrorDbOpenFailed err), w')
  | (inr lvDb, w') => (inr lvDb, w')
  end.

Definition reConnect (w : W) (c : Conn) : option db_error * W * Conn :=
  match createRealConn w with
  | (inl err, w') => (Some err, w', c)
  | (inr h, w') => (None, w', mkConn h (locked c))
  end.

Definition Get (w : W) (c : Conn) (free : list bool) (key : str) : (db_error + str) * W * Conn :=
  match getDbRWLock c free with
  | (false, c) => (inl lock_error, w, c)
  | (true, c) =>
      let r := db_Get w (rconn c) key in
      if decide (r = inl ErrClosed) then
        match reConnect w c with
        | (Some _, w', c') => (r, w', c')
        | (None, w', c') => (db_Get w' (rconn c') key, w', c')
        end
      else (r, w, releasedbRWLock c)
  end.

Definition Put (w : W) (c : Conn) (free : list bool) (key value : str) : option db_error * W * Conn :=
  match getDbRWLock c free with
  | (false, c) => (Some lock_error, w, c)
  | (true, c) =>
      let (e, w') := db_Put w (rconn c) key value in
      if decide (e = Some ErrClosed) then
        match reConnect w' c with
        | (Some _, w2, c') => (e, w2, c')
        | (None, w2, c') => let (e2, w3) := db_Put w2 (rconn c') key value in (e2, w3, c')
        end
      else (e, w', releasedbRWLock c)
  end.

(** Up to 180 attempts to open. *)
Fixpoint open_retry (n : nat) (w : W) (cErr : option db_error) : (option db_error * option H) * W :=
  match n with
  | O => ((cErr, None), w)
  | S n' =>
      match createRealConn w with
      | (inr h, w') => ((None, Some h), w')
      | (inl e, w') => open_retry n' w' (Some e)
      end
  end.

Definition err_text (e : db_error) : str :=
  match e with
  | ErrClosed => $"leveldb: closed"
  | DbError _ m | Other m => m
  end.

(** [GetDb] polls [dbObjCreateLock] until it has the lock, until another
    goroutine has set [db], or until the timeout.  A poll sees whether the lock
    is free and the value of [db] at that moment; [polls] lists what the polls
    before the timeout see.  [inr tt] is the lock. *)
Fixpoint wait_create (polls : list (bool * option Conn)) : (db_error + Conn) + unit :=
  match polls with
  | [] => inl (inl (DbError ErrorDbCreateFailed $"Failed to create db object, cannot accquire lock."))
  | (free, db) :: rest =>
      match db with
      | Some c => inl (inr c)
      | None => if free then inr tt else wait_create rest
      end
  end.

Definition GetDb (w : W) (db : option Conn) (polls : list (bool * option Conn))
    (initialized : bool) (rwlocked : bool) : (db_error + Conn) * W * option Conn :=
  match db with
  | Some c => (inr c, w, db)
  | None =>
      match wait_create polls with
      | inl (inl e) => (inl e, w, db)
      | inl (inr c) => (inr c, w, Some c)
      | inr tt =>
          if negb initialized then (inl (Other $"Db not initialized. You should call InitDb first!"), w, db)
          else match open_retry 180 w None with
               | ((None, Some h), w') => let c := mkConn h rwlocked in (inr c, w', Some c)
               | ((cErr, _), w') =>
                   (inl (Other ($"Failed to create db connection: " ++ default $"<nil>" (err_text <$> cErr))), w', db)
               end
      end
  end.

Definition Close (w : W) (db : option Conn) : option db_error * W :=
  match db with Some c => db_Close w (rconn c) | None => (None, w) end.

Lemma getDbRWLock_free c free : locked c = false → getDbRWLock c free = (true, mkConn (rconn c) true).
Proof. intros Hc. unfold getDbRWLock. destruct free; simpl; by rewrite Hc. Qed.

Lemma getDbRWLock_stuck c free :
  locked c = true → Forall (fun f => f = false) free → getDbRWLock c free = (false, c).
Proof.
  intros Hc HF. unfold getDbRWLock. rewrite Hc.
  assert (poll_lock true free = false) as ->; [|done].
  induction HF as [|f free -> _ IH]; [done|]. exact IH.
Qed.

Lemma Get_open w c free k :
  is_open w (rconn c) = true → locked c = false →
  ∃ e, e ≠ ErrClosed ∧ Get w c free k =
    (match contents w (rconn c) !! k with Some v => inr v | None => inl e end, w, c).
Proof.
  intros Ho Hl. destruct (db_Get_open w (rconn c) k Ho) as (e & He & Hg).
  exists e. split; [done|]. unfold Get. rewrite getDbRWLock_free by done. cbn [rconn]. rewrite Hg.
  rewrite decide_False by (destruct (contents w (rconn c) !! k); congruence).
  unfold releasedbRWLock. simpl. destruct c; simpl in *; by subst.
Qed.

Lemma Put_open w c free k v :
  is_open w (rconn c) = true → locked c = false →
  (∃ e w', e ≠ ErrClosed ∧ Put w c free k v = (Some e, w', c))
  ∨ ∃ w', Put w c free k v = (None, w', c) ∧ is_open w' (rconn c) = true
      ∧ contents w' (rconn c) = <[k := v]> (contents w (rconn c)).
Proof.
  intros Ho Hl.
  assert (releasedbRWLock (mkConn (rconn c) true) = c) as Hc by (destruct c; simpl in *; by subst).
  unfold Put. rewrite getDbRWLock_free by done. cbn [rconn].
  destruct (db_Put_open w (rconn c) k v Ho) as [(e & w' & He & Hp)|(w' & Hp & Ho' & Hk)]; rewrite Hp.
  - left. exists e, w'. rewrite decide_False, Hc by congruence. done.
  - right. exists w'. rewrite decide_False, Hc by congruence. done.
Qed.

End conn.
Arguments Conn H : clear implicits.

(** On an open connection with a free lock a [Put] that succeeds is read
    back by the next [Get], other keys keep their values, and the lock is free
    after each operation, on the error paths too. *)
Theorem Put_Get {W H} `{!GoLevelDB W H} (Dsn : str) (w : W) (c : Conn H) (k v : str) :
  is_open w (rconn c) = true → locked c = false →
  match Put Dsn w c [] k v with
  | (Some e, w', c') => e ≠ ErrClosed ∧ c' = c
  | (None, w', c') =>
      c' = c ∧ is_open w' (rconn c) = true
      ∧ Get Dsn w' c' [] k = (inr v, w', c)
      ∧ ∀ k' x, k' ≠ k → contents w (rconn c) !! k' = Some x → Get Dsn w' c' [] k' = (inr x, w', c)
  end.
Proof.
  intros Ho Hl. destruct (Put_open Dsn w c [] k v Ho Hl) as [(e & w' & He & ->)|(w' & -> & Ho' & Hk)]; [done|].
  split_and!; try done.
  - destruct (Get_open Dsn w' c [] k Ho' Hl) as (e & _ & ->). by rewrite Hk, lookup_insert_eq.
  - intros k' x Hne Hx. destruct (Get_open Dsn w' c [] k' Ho' Hl) as (e & _ & ->).
    by rewrite Hk, lookup_insert_ne, Hx.
Qed.

(** When the connection has been closed, [Get] and [Put] re-open it and
    keep the lock: every later operation on the connection fails with the lock
    error unless some other goroutine empties the channel. *)
Theorem reconnect_keeps_lock {W H} `{!GoLevelDB W H} (Dsn : str) (w : W) (c : Conn H) (k v : str) :
  is_open w (rconn c) = false → locked c = false →
  ∀ w' c', (∃ r, Get Dsn w c [] k = (r, w', c')) ∨ (∃ e, Put Dsn w c [] k v = (e, w', c')) →
  locked c' = true
  ∧ ∀ free k' v', Forall (fun f => f = false) free →
      Get Dsn w' c' free k' = (inl lock_error, w', c')
      ∧ Put Dsn w' c' free k' v' = (Some lock_error, w', c').
Proof.
  intros Ho Hl w' c' Hop.
  assert (locked c' = true) as Hc'.
  { destruct Hop as [(r & Hg)|(e & Hp)].
    - unfold Get, reConnect in Hg. rewrite getDbRWLock_free in Hg by done. cbn [rconn] in Hg.
      rewrite (db_Get_closed w (rconn c) k Ho), decide_True in Hg by done.
      destruct (createRealConn Dsn w) as [[?|?] ?]; by simplify_eq/=.
    - unfold Put, reConnect in Hp. rewrite getDbRWLock_free in Hp by done. cbn [rconn] in Hp.
      rewrite (db_Put_closed w (rconn c) k v Ho), decide_True in Hp by done.
      destruct (createRealConn Dsn w) as [[?|h] w2]; [by simplify_eq/=|].
      destruct (db_Put w2 (rconn (mkConn h _)) k v) as [e2 w3]. by simplify_eq/=. }
  split; [done|]. intros free k' v' HF. unfold Get, Put.
  by rewrite (getDbRWLock_stuck c' free Hc' HF).
Qed.

(** ** An instance: databases in memory *)

Module MapDB.

(** [openable] says whether [OpenFile] succeeds; a handle is a number with its
    state. *)
Record World := mkWorld { store : gmap str str; opened : gset nat; next : nat; openable : bool }.

Definition open (w : World) (dsn : str) : (str + nat) * World :=
  if openable w then (inr (next w), mkWorld (store w) ({[next w]} ∪ opened w) (S (next w)) true)
  else (inl $"resource temporarily unavailable", w).
Definition up (w : World) (h : nat) : bool := bool_decide (h ∈ opened w).
Definition get (w : World) (h : nat) (k : str) : db_error + str :=
  if up w h then match store w !! k with Some v => inr v | None => inl (Other $"leveldb: not found") end
  else inl ErrClosed.
Definition put (w : World) (h : nat) (k v : str) : option db_error * World :=
  if up w h then (None, mkWorld (<[k := v]> (store w)) (opened w) (next w) (openable w))
  else (Some ErrClosed, w).
Definition close (w : World) (h : nat) : option db_error * World :=
  (None, mkWorld (store w) (opened w ∖ {[h]}) (next w) (openable w)).

#[global] Instance MapDB_instance : GoLevelDB World nat.
Proof.
  refine {| OpenFile := open; db_Get := get; db_Put := put; db_Close := close;
            is_open := up; contents := fun w _ => store w |}.
  - intros w h k Hh. unfold get. by rewrite Hh.
  - intros w h k Hh. exists (Other $"leveldb: not found"). split; [done|]. unfold get. by rewrite Hh.
  - intros w h k v Hh. unfold put. by rewrite Hh.
  - intros w h k v Hh. right. unfold put. rewrite Hh. by eexists.
  - intros w d h w' Hop. unfold open in Hop. destruct (openable w); simplify_eq/=.
    unfold up. simpl. apply bool_decide_eq_true_2. set_solver.
Defined.

End MapDB.

Definition w_open : MapDB.World := MapDB.mkWorld {[ $"b" := $"2" ]} {[0]} 1 true.
Definition w_closed : MapDB.World := MapDB.mkWorld {[ $"b" := $"2" ]} ∅ 1 true.

Lemma Put_Get_witness :
  is_open w_open 0 = true
  ∧ match Put $"db" w_open (mkConn 0 false) [] $"a" $"1" with
    | (Some e, w', c') => e ≠ ErrClosed ∧ c' = mkConn 0 false
    | (None, w', c') =>
        c' = mkConn 0 false ∧ is_open w' 0 = true
        ∧ Get $"db" w' c' [] $"a" = (inr $"1", w', mkConn 0 false)
        ∧ ∀ k' x, k' ≠ $"a" → contents w_open 0 !! k' = Some x →
            Get $"db" w' c' [] k' = (inr x, w', mkConn 0 false)
    end.
Proof.
  split; [reflexivity|].
  exact (Put_Get $"db" w_open (mkConn 0 false) $"a" $"1" eq_refl eq_refl).
Defined.

Lemma reconnect_keeps_lock_witness :
  is_open w_closed 0 = false
  ∧ match Get $"db" w_closed (mkConn 0 false) [] $"b" with
    | (r, w', c') => r = inr $"2" ∧ Get $"db" w' c' [false] $"b" = (inl lock_error, w', c')
    end.
Proof.
  split; [reflexivity|].
  destruct (Get $"db" w_closed (mkConn 0 false) [] $"b") as [[r w'] c'] eqn:E.
  destruct (reconnect_keeps_lock $"db" w_closed (mkConn 0 false) $"b" []) with (w' := w') (c' := c')
    as [_ Hs]; [reflexivity|reflexivity|left; by exists r|].
  split.
  - vm_compute in E. by simplify_eq.
  - apply (Hs [false] $"b" []). by repeat constructor.
Defined.

End LevelDB.

(** ** The etcd connection *)

Module Zk.

(** What the client relies on of etcd's key-value API: a [Put] that reports no
    error is what the next [Get] of the key returns, and other keys keep their
    values.  [kv_Get] returns the values of [resp.Kvs]. *)
Class EtcdKV (W : Type) := {
  kv_Get : W → str → result (list str);
  kv_Put : W → str → str → option error * W;
  kv_Get_Put w k v w' : kv_Put w k v = (None, w') → kv_Get w' k = inr [v];
  kv_Get_Put_ne w k v w' k' : kv_Put w k v = (None, w') → k' ≠ k → kv_Get w' k' = kv_Get w k' }.

Definition slash : str := ["/"%char].
Definition dot : str := ["."%char].

Section paths.
(** [config.GetZkConfig()["root"]]. *)
Context (root : str).

Definition CN2P (name : str) : str :=
  let path := root in
  if negb (bool_decide (name = [])) && negb (bool_decide (name = slash)) then
    let path := path ++ slash ++ Replace name dot slash (-1) in
    TrimRight path slash
  else path.

Definition P2CN (path : str) : str :=
  let name := TrimPrefix path (TrimRight root slash ++ slash) in
  Replace (Trim name slash) slash dot (-1).

Definition MonitorNodeRoot : str := root ++ $"_monitor".

(** [MyMonitorNode] without its cache: [hostname] and [dial] are the results of
    [os.Hostname] and of the connection's local address. *)
Definition MyMonitorNode (monitorNodeRoot : str) (hostname dial : result str) (pid : Z) (ClientVer : str)
    : result str * str :=
  if negb (bool_decide (monitorNodeRoot = [])) then (inr monitorNodeRoot, monitorNodeRoot)
  else match hostname with
       | inl e => (inl e, monitorNodeRoot)
       | inr h =>
           match dial with
           | inl e => (inl e, monitorNodeRoot)
           | inr addr =>
               let localAddr := Split addr [":"%char] in
               let n := MonitorNodeRoot ++ slash ++ h ++ $":" ++ default [] (head localAddr)
                        ++ $"@" ++ Itoa pid ++ $":" ++ ClientVer in
               (inr n, n)
           end
       end.

Context {W : Type} `{!EtcdKV W}.

Definition Get (w : W) (path : str) : result str :=
  match kv_Get w (P2CN path) with
  | inl err => inl err
  | inr [] => inr []
  | inr (v :: _) => inr v
  end.

(** [Set] and [Create]; the lease decides only how long the node lives. *)
Definition Set_ (w : W) (path data : str) : option error * W := kv_Put w (P2CN path) data.
Definition Create (w : W) (path data : str) : option error * W := kv_Put w (P2CN path) data.

Definition Exists (w : W) (path : str) : result bool :=
  match kv_Get w (P2CN path) with
  | inl err => inl err
  | inr kvs => inr (Nat.ltb 0 (length kvs))
  end.

End paths.

(** ** The connection singleton and its repair *)

(** A [Conn]: the client it uses (by number) and its [DriverReset] channel (by
    number). *)
Record Conn := mkConn { zkConn : nat; DriverReset : nat }.

(** The package's state: [storage] is nil, or points to a [Storage] whose
    [Conn] may be nil; [chans] counts the channels made, [closed] are the closed
    ones, [clients] counts the clients made; [refreshes] counts the calls of the
    callback with every configuration name. *)
Record zk := mkZk {
  storage : option (option Conn);
  chans : nat;
  closed : gset nat;
  clients : nat;
  closed_clients : gset nat;
  refreshes : nat }.

(** [envs] is what [%v] prints for the keys of the map of hosts. *)
Definition env_error (ENV envs : str) : error :=
  $"Defined ENV(" ++ ENV ++ $") is not valid, it must one of " ++ envs.

(** [CreateConn]: [hosts] is the address list of the environment, [New] the
    error of [clientv3.New].  The [Storage] it returns has no [Conn] when
    [clientv3.New] fails. *)
Definition CreateConn (s : zk) (ENV envs : str) (hosts : option (list str)) (New : option error)
    : option (option Conn) * option error * zk :=
  match hosts with
  | None => (None, Some (env_error ENV envs), s)
  | Some _ =>
      match New with
      | Some err => (Some None, Some err, s)
      | None =>
          let c := mkConn (clients s) (chans s) in
          (Some (Some c), None,
           mkZk (storage s) (S (chans s)) (closed s) (S (clients s)) (closed_clients s) (refreshes s))
      end
  end.

Definition GetConn (s : zk) (ENV envs : str) (hosts : option (list str)) (New : option error)
    : option (option Conn) * option error * zk :=
  match storage s with
  | Some st => (Some st, None, s)
  | None =>
      match CreateConn s ENV envs hosts New with
      | (st, err, s') => (st, err, mkZk st (chans s') (closed s') (clients s') (closed_clients s') (refreshes s'))
      end
  end.

(** One round of the goroutine [CreateConn] starts: the heartbeat's error and
    the error of the new client.  Closing a closed channel panics. *)
Definition heartbeat (s : zk) (has_callback : bool) (beat New : option error) : outcome zk :=
  match beat, New with
  | None, _ | _, Some _ => Done s
  | Some _, None =>
      match storage s with
      | Some (Some c) =>
          if bool_decide (DriverReset c ∈ closed s) then Panic $"close of closed channel"
          else Done (mkZk (Some (Some (mkConn (clients s) (chans s)))) (S (chans s))
                       ({[DriverReset c]} ∪ closed s) (S (clients s))
                       ({[zkConn c]} ∪ closed_clients s)
                       (refreshes s + (if has_callback then 1 else 0)))
      | _ => Panic $"invalid memory address or nil pointer dereference"
      end
  end.

(** [GetOneHost]: [hosts] of the settings of etcd; indexing the nil slice of a
    missing key, or an empty one, panics. *)
Definition GetOneHost (zkHosts : gmap str (list str)) (defEnv : str) : outcome str :=
  match zkHosts !! defEnv with
  | Some (h :: _) => Done h
  | _ => Panic $"index out of range"
  end.

(** [Conn.Grant], given the answer of etcd: the lease, 0 with an error. *)
Definition Grant (resp : result Z) : Z * option error :=
  match resp with
  | inl err => (0%Z, Some err)
  | inr id => (id, None)
  end.

(** [Conn.Close] returns before its only statement. *)
Definition Close_conn (s : zk) : zk := s.

(** Once [CreateConn] has accepted the environment there is a host to take the own
    address from: the settings fill the map by splitting text at commas, which never
    gives an empty list. *)
Lemma GetOneHost_after_create zkHosts s ENV envs New st err s' :
  map_Forall (fun _ l => ∃ text, l = Split text [","%char]) zkHosts →
  CreateConn s ENV envs (zkHosts !! ENV) New = (Some st, err, s') →
  ∃ h, GetOneHost zkHosts ENV = Done h.
Proof.
  intros Hz. unfold CreateConn, GetOneHost. destruct (zkHosts !! ENV) as [l|] eqn:E; [|done]. intros _.
  destruct (Hz _ _ E) as [text ->]. destruct (split_nil_cons ","%char text) as (h & t & ->). by exists h.
Qed.

(** ** Lemmas *)

Lemma TrimRight_split x cs : ∃ t, x = TrimRight x cs ++ t ∧ Forall (fun c => c ∈ cs) t.
Proof.
  exists (reverse (take_while (in_cutset cs) (reverse x))). split.
  - unfold TrimRight. rewrite <- reverse_app, take_drop_while. by rewrite reverse_involutive.
  - apply Forall_reverse.
    eapply Forall_impl; [apply take_while_Forall|]. intros c. apply in_cutset_spec.
Qed.

(** A configuration name: not empty, without a slash, and neither starting nor
    ending with a dot. *)
Definition config_name (name : str) : Prop :=
  ("/"%char ∉ name)
  ∧ (∃ c, head name = Some c ∧ c ≠ "."%char) ∧ (∃ c, list.last name = Some c ∧ c ≠ "."%char).

Lemma replace_there_and_back name :
  "/"%char ∉ name → Replace (Replace name dot slash (-1)) slash dot (-1) = name.
Proof.
  intros Hn. unfold dot, slash. rewrite !Replace_byte_all by lia. rewrite map_map.
  rewrite <- (map_id name) at 2. apply map_ext_in. intros c Hc%list_elem_of_In.
  repeat case_decide; naive_solver.
Qed.

Lemma head_map {A B} (f : A → B) l : head (map f l) = f <$> head l.
Proof. by destruct l. Qed.
Lemma last_map {A B} (f : A → B) l : list.last (map f l) = f <$> list.last l.
Proof. induction l as [|x [|y l] IH]; [done|done|]. exact IH. Qed.

Lemma Replace_slash_ends name :
  config_name name →
  (∀ x, head (Replace name dot slash (-1)) = Some x → x ∉ slash)
  ∧ (∀ k x, Replace name dot slash (-1) = k ++ [x] → x ∉ slash)
  ∧ Replace name dot slash (-1) ≠ [].
Proof.
  intros (Hn & (c & Hc & Hcd) & (d & Hd & Hdd)).
  unfold dot, slash. rewrite Replace_byte_all by lia. split_and!.
  - intros x. rewrite head_map, Hc. simpl. rewrite decide_False by done. intros [= <-].
    assert (c ∈ name) by (destruct name; simplify_eq/=; left). set_solver.
  - intros k x E. apply (f_equal list.last) in E. rewrite last_map, last_snoc, Hd in E. simpl in E.
    rewrite decide_False in E by done. injection E as ->.
    apply last_Some_elem_of in Hd. set_solver.
  - by destruct name.
Qed.

Lemma CN2P_name root name :
  config_name name → CN2P root name = root ++ slash ++ Replace name dot slash (-1).
Proof.
  intros Hc. destruct (Replace_slash_ends name Hc) as (_ & Hl & Hne).
  unfold CN2P. rewrite !bool_decide_eq_false_2; simpl.
  - apply TrimRight_last. intros k x E.
    destruct (Replace name dot slash (-1)) as [|y l _] using rev_ind; [done|].
    apply (Hl l). f_equal.
    change (root ++ (("/"%char :: l) ++ [y]) = k ++ [x]) in E. rewrite (assoc_L (++)) in E. by apply app_inj_tail in E as [_ ->].
  - intros ->. destruct Hc as (Hs & _). apply Hs. left.
  - intros ->. by destruct Hc as (_ & (c & ? & _) & _).
Qed.

Lemma P2CN_CN2P_aux root name : config_name name → P2CN root (CN2P root name) = name.
Proof.
  intros Hc. destruct (Replace_slash_ends name Hc) as (Hh & Hl & _).
  rewrite CN2P_name by done. unfold P2CN.
  destruct (TrimRight_split root slash) as (t & Hr & Ht).
  set (r := TrimRight root slash) in *. rewrite Hr.
  assert (∃ t', t ++ slash = slash ++ t' ∧ Forall (fun c => c ∈ slash) t') as (t' & Ht' & HF).
  { clear - Ht. destruct t as [|c t]; [by exists []|]. exists (t ++ slash).
    apply Forall_cons in Ht as [Hc Ht]. apply list_elem_of_singleton in Hc as ->. split; [done|].
    apply Forall_app. split; [done|]. constructor; [left|constructor]. }
  replace ((r ++ t) ++ slash ++ Replace name dot slash (-1))
    with ((r ++ slash) ++ t' ++ Replace name dot slash (-1)).
  2:{ rewrite <- !(assoc_L (++)). f_equal. rewrite !(assoc_L (++)). by rewrite <- Ht'. }
  rewrite TrimPrefix_app. unfold Trim.
  rewrite TrimLeft_app_cut, TrimLeft_keep by done.
  rewrite (proj2 (TrimRight_last _ _)) by done.
  apply replace_there_and_back. by destruct Hc.
Qed.

(** ** Theorems *)

(** The path of a configuration name leads back to the name, whatever
    the root node is and however many slashes it ends in. *)
Theorem P2CN_CN2P (root name : str) : config_name name → P2CN root (CN2P root name) = name.
Proof. apply P2CN_CN2P_aux. Qed.

Lemma P2CN_CN2P_witness : P2CN $"/dove/" (CN2P $"/dove/" $"db.master.host") = $"db.master.host".
Proof.
  apply P2CN_CN2P. unfold config_name. split_and!.
  - vm_compute. set_solver.
  - by exists "d"%char.
  - by exists "t"%char.
Defined.

(** A configuration set through the path of its name is what [Get]
    returns for that path afterwards and makes [Exists] true; the
    configurations of all other names are as before. *)
Theorem Set_Get {W} `{!EtcdKV W} (root : str) (w w' : W) (name data : str) :
  config_name name → Set_ root w (CN2P root name) data = (None, w') →
  Get root w' (CN2P root name) = inr data
  ∧ Exists root w' (CN2P root name) = inr true
  ∧ ∀ other, config_name other → other ≠ name →
      Get root w' (CN2P root other) = Get root w (CN2P root other)
      ∧ Exists root w' (CN2P root other) = Exists root w (CN2P root other).
Proof.
  intros Hn Hs. unfold Set_, Get, Exists in *. rewrite P2CN_CN2P_aux in * by done.
  rewrite (kv_Get_Put _ _ _ _ Hs). split_and!; [done|done|].
  intros other Ho Hne. rewrite P2CN_CN2P_aux by done.
  by rewrite (kv_Get_Put_ne _ _ _ _ other Hs Hne).
Qed.

(** An etcd that never fails. *)
#[global] Instance map_kv : EtcdKV (gmap str str).
Proof.
  refine {| kv_Get := fun w k => inr (match w !! k with Some v => [v] | None => [] end);
            kv_Put := fun w k v => (None, <[k := v]> w) |}.
  - intros w k v w' [= <-]. by rewrite lookup_insert_eq.
  - intros w k v w' k' [= <-] Hne. by rewrite lookup_insert_ne.
Defined.

Lemma Set_Get_witness :
  Get $"/dove" (<[ $"db" := $"1" ]> (∅ : gmap str str)) (CN2P $"/dove" $"db") = inr $"1".
Proof.
  apply (Set_Get $"/dove" ∅ (<[ $"db" := $"1" ]> ∅) $"db" $"1").
  - unfold config_name. split_and!; [vm_compute; set_solver|by exists "d"%char|by exists "b"%char].
  - vm_compute. reflexivity.
Defined.

(** When the first [GetConn] fails because the client cannot be created,
    the [Storage] without a connection is kept: the next [GetConn] returns it
    with no error. *)
Theorem GetConn_keeps_broken (s : zk) (ENV envs : str) (hosts : list str) (err : error) :
  storage s = None →
  ∃ s', GetConn s ENV envs (Some hosts) (Some err) = (Some None, Some err, s')
    ∧ ∀ hosts' New, GetConn s' ENV envs hosts' New = (Some None, None, s').
Proof. intros Hs. unfold GetConn. rewrite Hs. simpl. eexists. split; [done|]. done. Qed.

Definition zk_init : zk := mkZk None 0 ∅ 0 ∅ 0.

Lemma GetConn_keeps_broken_witness :
  ∃ s', GetConn zk_init $"prod" [] (Some [$"10.0.0.1:2379"]) (Some $"dial") = (Some None, Some $"dial", s')
    ∧ ∀ hosts' New, GetConn s' $"prod" [] hosts' New = (Some None, None, s').
Proof. apply (GetConn_keeps_broken zk_init $"prod" [] [$"10.0.0.1:2379"] $"dial"). reflexivity. Defined.

(** The rounds of the repair goroutine, one after the other. *)
Fixpoint heartbeats (s : zk) (cb : bool) (rounds : list (option error * option error)) : outcome zk :=
  match rounds with
  | [] => Done s
  | (beat, New) :: rest => s' ← heartbeat s cb beat New; heartbeats s' cb rest
  end.

(** A round repairs the connection when the heartbeat fails and the new client
    can be created. *)
Definition repairs (rounds : list (option error * option error)) : nat :=
  length (List.filter (fun r => match r with (Some _, None) => true | _ => false end) rounds).

Definition zk_inv (n : nat) (s : zk) : Prop :=
  storage s = Some (Some (mkConn n n)) ∧ chans s = S n ∧ clients s = S n
  ∧ (∀ k, k ∈ closed s ↔ k < n) ∧ (∀ k, k ∈ closed_clients s ↔ k < n) ∧ refreshes s = n.

Lemma heartbeat_inv n s beat New :
  zk_inv n s →
  ∃ s', heartbeat s true beat New = Done s' ∧ zk_inv (n + repairs [(beat, New)]) s'.
Proof.
  intros (Hst & Hch & Hcl & Hc & Hcc & Hr). unfold heartbeat.
  destruct beat as [e|]; [destruct New as [e'|]|]; try (exists s; unfold repairs; simpl; rewrite Nat.add_0_r; by split_and!).
  rewrite Hst. simpl. rewrite bool_decide_eq_false_2 by (rewrite Hc; lia).
  eexists. split; [done|]. replace (n + repairs [(Some e, None)]) with (S n) by (unfold repairs; simpl; lia).
  unfold zk_inv. simpl. rewrite Hch, Hcl. split_and!; try done; try lia.
  - intros k. rewrite elem_of_union, elem_of_singleton, Hc. lia.
  - intros k. rewrite elem_of_union, elem_of_singleton, Hcc. lia.
Qed.

(** From a successful [GetConn] on, the repair goroutine never panics,
    whatever the heartbeats answer: the channel readers now get is open, every
    channel handed out before a repair is closed (its readers are woken), the
    replaced clients are closed and the current one is not, and the callback has
    been asked to refresh every configuration once per repair. *)
Theorem heartbeats_inv (rounds : list (option error * option error)) (ENV envs : str) (hosts : list str) :
  ∃ s c s', GetConn zk_init ENV envs (Some hosts) None = (Some (Some c), None, s)
    ∧ heartbeats s true rounds = Done s' ∧ zk_inv (repairs rounds) s'.
Proof.
  eexists _, _. cut (∀ n s, zk_inv n s → ∃ s', heartbeats s true rounds = Done s' ∧ zk_inv (n + repairs rounds) s').
  - intros H. destruct (H 0 (mkZk (Some (Some (mkConn 0 0))) 1 ∅ 1 ∅ 0)) as (s' & Hh & Hi).
    { unfold zk_inv. simpl. split_and!; try done; intros k; split; try lia; set_solver. }
    exists s'. split; [reflexivity|]. done.
  - induction rounds as [|[beat New] rounds IH]; intros n s Hi.
    { exists s. split; [done|]. by rewrite Nat.add_0_r. }
    destruct (heartbeat_inv n s beat New Hi) as (s1 & Hs1 & Hi1).
    destruct (IH _ s1 Hi1) as (s2 & Hs2 & Hi2). exists s2. split.
    + cbn [heartbeats]. rewrite Hs1. done.
    + replace (n + repairs ((beat, New) :: rounds)) with (n + repairs [(beat, New)] + repairs rounds); [done|].
      unfold repairs. simpl. destruct beat, New; simpl; lia.
Qed.

End Zk.
