(* ===== verification/Callbacks.v ===== *)
(** * callbacks/callback.go: what runs after a configuration update

    The lists of updated schema files and nodes and the diff of a schema file's
    nodes ([Updated]), the choice of the user's scripts
    ([GetCustomizeCallbacks]), and the two built-in callbacks: [ClearApc] over
    the FastCGI client and [ReloadPHPServer].  Connections and the output of
    [netstat] are arguments. *)

From S2P Require Import Prelude GoLib Regex Util Fcgi.

(** ** The state of the package *)

Record Updated := mkUpdated {
  updatedSchemaFiles : list str;
  updatedNodes : list str;
  schemaToNodes : gmap str (list str) }.

Definition AddUpdatedSchemafiles (u : Updated) (file : str) : Updated :=
  mkUpdated (append_unique (updatedSchemaFiles u) file) (updatedNodes u) (schemaToNodes u).

Definition AddUpdatedNodes (u : Updated) (nodes : list str) : Updated :=
  match nodes with
  | [] => u
  | _ => mkUpdated (updatedSchemaFiles u) (fold_left append_unique nodes (updatedNodes u)) (schemaToNodes u)
  end.

Definition GetUpdatedNodes (u : Updated) : list str := updatedNodes u.

(** One rule of [PostUpdateRule]: a script, and the schema files it is for. *)
Definition add_rule (updated : list str) (scripts : list str) (rule : list str) : list str :=
  match rule with
  | [] => scripts
  | [script] => if InArrayString scripts script then scripts else scripts ++ [script]
  | script :: files =>
      if InArrayString scripts script then scripts
      else if existsb (InArrayString updated) files then scripts ++ [script] else scripts
  end.

Definition GetCustomizeCallbacks (PostUpdateRule : list (list str)) (u : Updated) : list str * Updated :=
  let scripts := fold_left (add_rule (updatedSchemaFiles u)) PostUpdateRule [] in
  let params := Join (updatedNodes u) [","%char] in
  (map (fun v => v ++ [" "%char] ++ params) scripts, mkUpdated [] [] (schemaToNodes u)).

Definition diff_nodes (nodeList nodes : list str) : list str :=
  fold_left (fun result node =>
    if negb (InArrayString nodeList node) && negb (InArrayString result node)
    then result ++ [node] else result) nodes [].

Definition UpdateSchemaNodesAndDiff (u : Updated) (file : str) (nodes : list str) : list str * Updated :=
  let u' := mkUpdated (updatedSchemaFiles u) (updatedNodes u) (<[file := nodes]> (schemaToNodes u)) in
  match schemaToNodes u !! file with
  | None => (nodes, u')
  | Some nodeList => (diff_nodes nodeList nodes, u')
  end.

(** ** php-fpm *)

Record FcgiHost := mkFcgiHost { Net : str; Addr : str; Port : Z }.
Definition no_host : FcgiHost := mkFcgiHost [] [] 0.

Definition index_panic {A} : outcome A := Panic $"index out of range".
Definition nth_or_panic {A} (l : list A) (i : nat) : outcome A :=
  match l !! i with Some x => Done x | None => index_panic end.

(** The value [strconv.Atoi] returns next to its error. *)
Definition Atoi_value (s : str) : Z :=
  match Atoi s with
  | inr z => z
  | inl ErrSyntax => 0
  | inl ErrRange => if HasPrefix s ["-"%char] then - 2 ^ 63 else 2 ^ 63 - 1
  end.

(** [GetFpmHost] on Linux: [run] is the error of the command and its output. *)
Definition GetFpmHost (run : option error * str) : outcome (option error * FcgiHost) :=
  match run with
  | (Some err, out) =>
      Done (Some ($"Failed to detect php-fpm host info: " ++ err ++ $" : " ++ out), no_host)
  | (None, out) =>
      let lines := Split out [newline] in
      let lines := Fields (default [] (head lines)) in
      net ← nth_or_panic lines 0;
      if bool_decide (net = $"tcp") then
        hp ← nth_or_panic lines 3;
        let hostPorts := Split hp [":"%char] in
        addr ← nth_or_panic hostPorts 0;
        port ← nth_or_panic hostPorts 1;
        Done (None, mkFcgiHost net addr (Atoi_value port))
      else if bool_decide (net = $"unix") then
        addr ← nth_or_panic lines 9;
        Done (None, mkFcgiHost net addr 0)
      else Done (None, mkFcgiHost net [] 0)
  end.

(** [initClearApc]: [write] is the error of [ioutil.WriteFile].  The result is
    the error, the script's path and the host. *)
Definition initClearApc (POST_UPDATE_CALLBACKS : list str) (DATA_DIR : str)
    (write : option error) (run : option error * str) (file : str) (host : FcgiHost)
    : outcome (option error * str * FcgiHost) :=
  if negb (InArrayString POST_UPDATE_CALLBACKS $"ClearApc") then Done (None, file, host)
  else
    let file := DATA_DIR ++ $"apc_clear.php" in
    let wrap e := $"Cannot initialize callback 'ClearApc': " ++ e in
    match write with
    | Some err => Done (Some (wrap err), file, host)
    | None =>
        match GetFpmHost run with
        | Done (err, host) => Done (option_map wrap err, file, host)
        | Panic why => Panic why
        end
    end.

(** The body of a FastCGI answer: what follows the second line feed when the
    answer starts with a content type. *)
Fixpoint after_second_newline (sepCount : nat) (raw : str) : str :=
  match raw with
  | [] => []
  | c :: rest =>
      let sepCount := if bool_decide (c = newline) then S sepCount else sepCount in
      if Nat.leb 2 sepCount then rest else after_second_newline sepCount rest
  end.
Definition response_body (resultRaw : str) : str :=
  if Nat.ltb 12 (length resultRaw) && bool_decide (ToLower (take 12 resultRaw) = $"content-type")
  then after_second_newline 0 resultRaw else resultRaw.

Definition apc_env (script : str) : list (str * str) :=
  [($"REQUEST_METHOD", $"GET"); ($"SCRIPT_FILENAME", script);
   ($"REMOTE_ADDR", $"127.0.0.1"); ($"SERVER_PROTOCOL", $"HTTP/1.1")].

(** [CbClearApc.Run]: [dial] is [net.Dial], [order] the order in which the map of
    parameters is ranged over.  With another network the client stays nil. *)
Definition ClearApc_Run (dial : str → str → result FCGI.conn)
    (order : list (str * str) → list (str * str)) (script : str) (fpmHost : FcgiHost)
    : outcome (result str) :=
  if bool_decide (Addr fpmHost = []) then Done (inl $"Could not get Fpm Addr!")
  else
    let '(fcgi, err) :=
      if bool_decide (Net fpmHost = $"tcp") then FCGI.New dial (Addr fpmHost) [FCGI.ArgInt (Port fpmHost)]
      else if bool_decide (Net fpmHost = $"unix") then FCGI.New dial $"unix" [FCGI.ArgString (Addr fpmHost)]
      else (None, None) in
    match err, fcgi with
    | Some err, _ => Done (inl ($"Could not connect to fastcgi: " ++ err ++ $"."))
    | None, Some (Some c) =>
        match FCGI.Request FCGI.maxWrite (FCGI.new_client c) (order (apc_env script)) [] with
        | (inl err, _) => Done (inl ($"Fastcgi request: " ++ err ++ $"."))
        | (inr resultRaw, _) => Done (inr (response_body resultRaw))
        end
    | None, _ => Panic $"invalid memory address or nil pointer dereference"
    end.

(** ** phpserver *)

(** Copy [data] into [result] at [start]. *)
Definition put_at (result : str) (start : nat) (data : str) : str :=
  take start result ++ data ++ drop (start + length data) result.

(** The read loop: [reads] lists the results of [conn.Read]; a read returns at
    most the room that is left. *)
Fixpoint read_loop (result : str) (start : nat) (reads : list (str * option error)) : str :=
  match reads with
  | [] => result
  | (data, err) :: rest =>
      if Nat.ltb start 500 then
        let data := take (500 - start) data in
        let result := put_at result start data in
        match err with
        | Some _ => result
        | None => read_loop result (start + length data) rest
        end
      else result
  end.

Definition ReloadPHPServer_Run (dial write : option error) (reads : list (str * option error)) : result str :=
  match dial with
  | Some err => inl ($"Failed to connect to phpserver : " ++ err)
  | None =>
      match write with
      | Some err => inl ($"Failed to execute 'reload' command on phpserver: " ++ err)
      | None => inr (TrimRight (read_loop (make_bytes 500) 0 reads) [byte0])
      end
  end.

(** ** Lemmas *)

(** A rule is due when it names no schema file or one that was updated. *)
Definition due (updated : list str) (rule : list str) : bool :=
  match rule with
  | [] => false
  | [_] => true
  | _ :: files => existsb (InArrayString updated) files
  end.

Definition rule_script (rule : list str) : str := default [] (head rule).

Lemma add_rule_due updated scripts rule :
  add_rule updated scripts rule =
    if due updated rule then append_unique scripts (rule_script rule) else scripts.
Proof.
  destruct rule as [|script [|f files]]; [done|done|]. unfold add_rule, due, append_unique, rule_script. simpl.
  destruct (InArrayString scripts script), (InArrayString updated f); simpl; by try destruct (existsb _ files).
Qed.

Lemma fold_add_rule updated rules scripts :
  fold_left (add_rule updated) rules scripts =
    fold_left append_unique (map rule_script (List.filter (due updated) rules)) scripts.
Proof.
  revert scripts. induction rules as [|rule rules IH]; intros scripts; simpl; [done|].
  rewrite add_rule_due. destruct (due updated rule); apply IH.
Qed.

Lemma fold_diff nodeList nodes acc :
  fold_left (fun result node =>
    if negb (InArrayString nodeList node) && negb (InArrayString result node)
    then result ++ [node] else result) nodes acc =
  fold_left append_unique (List.filter (fun n => negb (InArrayString nodeList n)) nodes) acc.
Proof.
  revert acc. induction nodes as [|n nodes IH]; intros acc; simpl; [done|].
  destruct (InArrayString nodeList n); simpl; [apply IH|].
  rewrite IH. unfold append_unique. by destruct (InArrayString acc n).
Qed.

Lemma diff_nodes_eq nodeList nodes :
  diff_nodes nodeList nodes =
    first_occurrences (List.filter (fun n => negb (InArrayString nodeList n)) nodes).
Proof. unfold diff_nodes. by rewrite fold_diff, fold_append_unique_nil. Qed.

Lemma filter_known l : List.filter (fun n => negb (InArrayString l n)) l = [].
Proof.
  cut (∀ k, (∀ x, x ∈ k → x ∈ l) → List.filter (fun n => negb (InArrayString l n)) k = []); [by auto|].
  induction k as [|x k IH]; intros H; simpl; [done|].
  rewrite (proj2 (InArrayString_spec l x)) by (apply H; left). apply IH. intros y Hy. apply H. by right.
Qed.

(** The calls that record updates. *)
Inductive update := UFile (file : str) | UNodes (nodes : list str).
Definition record (u : Updated) (x : update) : Updated :=
  match x with
  | UFile file => AddUpdatedSchemafiles u file
  | UNodes nodes => AddUpdatedNodes u nodes
  end.
Definition files_of (l : list update) : list str :=
  flat_map (fun x => match x with UFile f => [f] | UNodes _ => [] end) l.
Definition nodes_of (l : list update) : list str :=
  flat_map (fun x => match x with UFile _ => [] | UNodes n => n end) l.

Lemma record_all l u :
  fold_left record l u =
    mkUpdated (fold_left append_unique (files_of l) (updatedSchemaFiles u))
              (fold_left append_unique (nodes_of l) (updatedNodes u)) (schemaToNodes u).
Proof.
  revert u. induction l as [|[f|n] l IH]; intros u; cbn [fold_left record files_of nodes_of flat_map]; rewrite ?IH.
  - by destruct u.
  - done.
  - unfold AddUpdatedNodes, files_of, nodes_of. rewrite (fold_left_app append_unique n). by destruct n.
Qed.

Lemma existsb_InArray_ext u u' files :
  (∀ x, x ∈ u ↔ x ∈ u') → existsb (InArrayString u) files = existsb (InArrayString u') files.
Proof.
  intros H. induction files as [|f files IH]; simpl; [done|]. rewrite IH. f_equal.
  apply eq_true_iff_eq. by rewrite !InArrayString_spec.
Qed.

Lemma due_ext u u' rule : (∀ x, x ∈ u ↔ x ∈ u') → due u rule = due u' rule.
Proof. intros H. destruct rule as [|? [|? ?]]; [done|done|]. by apply existsb_InArray_ext. Qed.

Lemma after_newline0 h rest :
  newline ∉ h → after_second_newline 0 (h ++ newline :: rest) = after_second_newline 1 rest.
Proof.
  induction h as [|c h IH]; intros Hn; cbn [after_second_newline app].
  - by rewrite bool_decide_eq_true_2.
  - rewrite bool_decide_eq_false_2 by set_solver. apply IH. set_solver.
Qed.

Lemma after_newline1 h rest :
  newline ∉ h → after_second_newline 1 (h ++ newline :: rest) = rest.
Proof.
  induction h as [|c h IH]; intros Hn; cbn [after_second_newline app].
  - by rewrite bool_decide_eq_true_2.
  - rewrite bool_decide_eq_false_2 by set_solver. apply IH. set_solver.
Qed.

(** ** Theorems *)

(** What runs after a batch of updates: after any sequence of recorded
    schema files and nodes, the scripts are those of the rules that are due (no
    schema file given, or one of the updated files), each script once and in the
    order of the rules, each with the distinct updated nodes as its argument,
    separated by commas; and the record of updates is empty again. *)
Theorem callbacks_after_updates (rules : list (list str)) (l : list update) (u : Updated) :
  updatedSchemaFiles u = [] → updatedNodes u = [] →
  GetCustomizeCallbacks rules (fold_left record l u) =
    (map (fun script => script ++ [" "%char] ++ Join (first_occurrences (nodes_of l)) [","%char])
         (first_occurrences (map rule_script (List.filter (due (files_of l)) rules))),
     mkUpdated [] [] (schemaToNodes u)).
Proof.
  intros Hf Hn. rewrite record_all, Hf, Hn. unfold GetCustomizeCallbacks. simpl.
  rewrite fold_add_rule, !fold_append_unique_nil. f_equal. do 3 f_equal.
  apply List.filter_ext. intros rule. apply due_ext. intros x.
  rewrite <- fold_append_unique_nil, fold_append_unique_elem. set_solver.
Qed.

Lemma callbacks_after_updates_witness :
  (GetCustomizeCallbacks [[$"a.sh"]; [$"b.sh"; $"x"]; [$"c.sh"; $"y"]]
     (fold_left record [UFile $"y"; UNodes [$"db"; $"mq"]; UNodes [$"db"]] (mkUpdated [] [] ∅))).1
  = [$"a.sh db,mq"; $"c.sh db,mq"].
Proof. rewrite callbacks_after_updates by reflexivity. vm_compute. reflexivity. Defined.

(** [UpdateSchemaNodesAndDiff] returns all nodes of a file it has not seen
    and otherwise the nodes that are there now and were not there the last time,
    once each in their order; it remembers the new nodes and nothing else, so
    that the same call repeated returns nothing new. *)
Theorem UpdateSchemaNodesAndDiff_spec (u : Updated) (file : str) (nodes : list str) :
  let (r, u') := UpdateSchemaNodesAndDiff u file nodes in
  r = match schemaToNodes u !! file with
      | None => nodes
      | Some old => first_occurrences (List.filter (fun n => negb (InArrayString old n)) nodes)
      end
  ∧ u' = mkUpdated (updatedSchemaFiles u) (updatedNodes u) (<[file := nodes]> (schemaToNodes u))
  ∧ UpdateSchemaNodesAndDiff u' file nodes = ([], u').
Proof.
  unfold UpdateSchemaNodesAndDiff. destruct (schemaToNodes u !! file) as [old|] eqn:E; simpl;
    rewrite lookup_insert_eq, insert_insert_eq, !diff_nodes_eq; split_and!; try done.
  all: by rewrite filter_known.
Qed.

(** The body of a FastCGI answer: an answer whose first line starts with
    the content type (in any case) is cut after its second line feed, whatever
    the body holds; every other answer is passed on as it is. *)
Theorem response_body_spec (ct h1 h2 body raw : str) :
  ToLower ct = $"content-type" → newline ∉ h1 → newline ∉ h2 →
  response_body (ct ++ h1 ++ newline :: h2 ++ newline :: body) = body
  ∧ (ToLower (take 12 raw) ≠ $"content-type" → response_body raw = raw).
Proof.
  intros Hct H1 H2.
  assert (length ct = 12) as Hlen by (apply (f_equal length) in Hct; unfold ToLower in Hct; by rewrite length_map in Hct).
  split.
  - unfold response_body. rewrite <- Hlen, take_app_length, Hct, Hlen, bool_decide_eq_true_2 by done.
    rewrite (proj2 (Nat.ltb_lt _ _)) by (rewrite !length_app; simpl; lia). cbn [andb].
    rewrite (assoc_L (++)), after_newline0, after_newline1; [done|done|].
    rewrite not_elem_of_app. split; [|done].
    intros Hin. assert (newline ∈ ToLower ct) as Hl.
    { unfold ToLower. apply list_elem_of_In, List.in_map_iff. exists newline. by rewrite <- list_elem_of_In. }
    rewrite Hct in Hl. vm_compute in Hl. set_solver.
  - intros Hne. unfold response_body. by rewrite bool_decide_eq_false_2, andb_false_r.
Qed.

Lemma response_body_spec_witness :
  response_body ($"Content-Type" ++ $": text/html" ++ newline :: [] ++ newline :: $"true") = $"true".
Proof.
  apply (response_body_spec $"Content-Type" $": text/html" [] $"true" []).
  - vm_compute. reflexivity.
  - vm_compute. set_solver.
  - set_solver.
Defined.

(** [ClearApc] with the host [GetFpmHost] found never dereferences a nil
    client: a host with an address is on tcp or on a unix socket. *)
Theorem ClearApc_no_panic (run : option error * str) (err : option error) (host : FcgiHost)
    dial order script :
  GetFpmHost run = Done (err, host) →
  ∃ r, ClearApc_Run dial order script host = Done r
    ∧ (Addr host = [] → r = inl $"Could not get Fpm Addr!").
Proof.
  intros Hg. unfold ClearApc_Run.
  case_bool_decide as Ha; [by eexists|].
  assert (Net host = $"tcp" ∨ Net host = $"unix") as Hnet.
  { unfold GetFpmHost in Hg. destruct run as [[e|] out]; [by simplify_eq/=|].
    destruct (nth_or_panic _ 0) as [net|]; [|done]. cbn [mbind outcome_bind] in Hg.
    case_bool_decide as H1; [|case_bool_decide as H2; [|by simplify_eq/=]].
    - destruct (nth_or_panic _ 3) as [hp|]; [|done]. cbn [mbind outcome_bind] in Hg.
      destruct (nth_or_panic _ 0) as [addr|]; [|done]. cbn [mbind outcome_bind] in Hg.
      destruct (nth_or_panic _ 1) as [port|]; [|done]. cbn [mbind outcome_bind] in Hg. injection Hg as <- <-. by left.
    - destruct (nth_or_panic _ 9) as [addr|]; [|done]. cbn [mbind outcome_bind] in Hg. injection Hg as <- <-. by right. }
  case_bool_decide as Ht; [|rewrite bool_decide_eq_true_2 by naive_solver];
    cbn [FCGI.New]; (destruct (dial _ _) as [e|c]; [by eexists|]);
    destruct (FCGI.Request _ _ _ _) as [[e|raw] ?]; by eexists.
Qed.

Lemma ClearApc_no_panic_witness :
  ∃ r, ClearApc_Run (fun _ _ => inl $"refused") (fun l => l) $"/d/apc_clear.php"
         (mkFcgiHost $"tcp" $"127.0.0.1" 9000) = Done r
    ∧ (Addr (mkFcgiHost $"tcp" $"127.0.0.1" 9000) = [] → r = inl $"Could not get Fpm Addr!").
Proof.
  apply (ClearApc_no_panic (None, $"tcp 0 0 127.0.0.1:9000 0.0.0.0:* LISTEN 1/php-fpm") None).
  vm_compute. reflexivity.
Defined.
