(* ===== verification/Protocol.v ===== *)
(** * connection/conn_handler.go and handler/base.go: the local protocol

    A request is a head of 8 bytes (the decimal length of the body, padded with
    zero bytes, or the word CLOSE) and the body, a JSON object with a command
    and its arguments; a response is a head of the same form, a status of 8 bytes
    and the data.  A connection is the sequence of what its [Read] calls will
    return, in chunks of any size, and of the faults of its [Write] calls.

    [readRequest_frame] and [response_roundtrip] are the round trips of the two
    directions, [HandleConn_serves] the behaviour of a whole connection,
    [HandleConn_fatal_request] which requests end the process. *)

From S2P Require Import Prelude GoLib GoFmt Regex Json.

Definition HEAD_TAG_LENGTH : nat := 8.
Definition STATUS_TAG_LENGTH : nat := 8.
Definition tagClose : str := $"CLOSE".

(** ** Responses *)

(** The bytes written so far and the results of the coming [Write] calls (no
    error when the list is exhausted). *)
Record wconn := mkW { out : list str; wfaults : list (option error) }.

Definition Write (c : wconn) (b : str) : option error * wconn :=
  match wfaults c with
  | [] => (None, mkW (out c ++ [b]) [])
  | None :: fs => (None, mkW (out c ++ [b]) fs)
  | Some e :: fs => (Some e, mkW (out c) fs)
  end.

Definition makeslice_panic {A} : outcome A := Panic $"makeslice: len out of range".

(** [append(s, make([]byte, n-len(s))...)]: a negative length panics. *)
Definition pad_to (n : nat) (s : str) : outcome str :=
  if Nat.leb (length s) n then Done (s ++ make_bytes (n - length s)) else makeslice_panic.

Definition response (c : wconn) (status data : str) : outcome (option error * wconn) :=
  statusTag ← pad_to STATUS_TAG_LENGTH status;
  headTag ← pad_to 8 (Itoa (Z.of_nat (length data)));
  match Write c headTag with
  | (Some err, c) => Done (Some err, c)
  | (None, c) =>
      match Write c statusTag with
      | (Some err, c) => Done (Some err, c)
      | (None, c) => Done (Write c data)
      end
  end.

(** [map[string]Handler]; the arguments are the members of a JSON object. *)
Abbreviation handlers := (gmap str (list (str * json) → outcome (result str))) (only parsing).

(** ** Reading requests *)

Section server.
Context `{U : UnicodeTables}.

(** What a [Read] returns: bytes, or an error ([eof] for [io.EOF]). *)
Inductive ev := Data (s : str) | Fault (err : error) (eof : bool).

Inductive filled :=
| Filled (buf : str) (rest : list ev)
| Broken (err : error) (eof : bool) (buf : str) (rest : list ev)
| Waiting.

(** The loop [for start < n { count, err = Read(buf[start:]) ... }]: a [Read]
    takes at most the room that is left.  [Waiting]: the next [Read] has not
    returned yet. *)
Fixpoint fill (n : nat) (got : str) (evs : list ev) : filled :=
  if Nat.eqb n 0 then Filled got evs
  else match evs with
       | [] => Waiting
       | Fault e eof :: rest => Broken e eof got rest
       | Data s :: rest =>
           if Nat.leb (length s) n then fill (n - length s) (got ++ s) rest
           else Filled (got ++ take n s) (Data (drop n s) :: rest)
       end.

Record Request := mkRequest { Closed : bool; Body : option str; Err : option error }.

Definition isTagClose (tag : str) : bool := bool_decide (tagClose = tag).

Definition parseHeadTagLength (tag : str) : str :=
  take_while (fun c => negb (bool_decide (c = byte0))) (take HEAD_TAG_LENGTH tag).

Definition short_error : error := $"数据长度小于1.".

Definition readRequest (evs : list ev) : option (Request * list ev) :=
  match fill HEAD_TAG_LENGTH [] evs with
  | Waiting => None
  | Broken err _ buf evs =>
      let headerTag := buf ++ make_bytes (HEAD_TAG_LENGTH - length buf) in
      let headComplete := bool_decide (tagClose = take 5 headerTag) in
      if Nat.ltb 0 (length buf) && negb headComplete
      then Some (mkRequest false None (Some ($"client data length read error: " ++ err)), evs)
      else Some (mkRequest true None None, evs)
  | Filled headerTag evs =>
      let headerTagLength := parseHeadTagLength headerTag in
      if isTagClose headerTagLength then Some (mkRequest true None None, evs)
      else match Atoi headerTagLength with
           | inl e =>
               Some (mkRequest false None
                 (Some ($"Request length parse error: strconv.Atoi: parsing "
                        ++ Quote headerTagLength ++ $": " ++ num_error_text e)), evs)
           | inr bodyLength =>
               if (bodyLength <? 1)%Z then Some (mkRequest false None (Some short_error), evs)
               else
                 let n := Z.to_nat bodyLength in
                 match fill n [] evs with
                 | Waiting => None
                 | Broken err eof buf evs =>
                     let Body := buf ++ make_bytes (n - length buf) in
                     let err := if negb eof && Nat.ltb (length buf) (n - 1)
                                then $"client data read premature"
                                else $"read client data error: " ++ err in
                     Some (mkRequest false (Some Body) (Some err), evs)
                 | Filled Body evs => Some (mkRequest false (Some Body) None, evs)
                 end
           end
  end.

(** ** Handlers *)

Definition HandlerExists (hs : handlers) (n : str) : bool :=
  match hs !! n with Some _ => true | None => false end.

Definition Run (hs : handlers) (n : str) (args : list (str * json)) : outcome (result str) :=
  match hs !! n with
  | None => Done (inl ($"Method " ++ dquote :: n ++ dquote :: $" not exists!"))
  | Some h => h args
  end.

(** [processRequest]: [timely] says whether the handler answers before
    [PROCESS_TIMEOUT]; [json_error] is the text of a decoding error.  A failed
    type assertion, and a panic of the handler's goroutine, end the process. *)
Definition processRequest (json_error : str → str) (hs : handlers) (timely : bool) (requestData : str)
    : outcome (result str) :=
  let refuse := Done (inl ($"Failed to decode client data: " ++ json_error requestData
                           ++ newline :: $"Raw data: " ++ requestData)) in
  match Unmarshal requestData with
  | None => refuse
  | Some (JObj clientData) =>
      match member $"cmd" clientData, member $"args" clientData with
      | Some (JStr cmd), Some (JObj args) =>
          r ← Run hs cmd args;
          Done (if timely then r else inl $"Process timeout.")
      | _, _ => Panic $"interface conversion"
      end
  | Some JNull => Panic $"interface conversion"
  | Some _ => refuse
  end.

(** ** Connections *)

(** How [HandleConn] ends: what was written, and whether the connection is
    still counted in [sso.userCounter] ([Use] without [Unuse]). *)
Record ended := mkEnded { written : list str; counted : bool }.

(** The loop of [HandleConn]: [sigs] says, round by round, whether the stopping
    signal is what [select] receives; [None] is a connection that still waits for
    its client. *)
Fixpoint handle_loop (fuel : nat) (process : str → outcome (result str))
    (evs : list ev) (sigs : list bool) (c : wconn) : option (outcome ended) :=
  match fuel with
  | O => None
  | S f =>
      if default false (head sigs) then Some (Done (mkEnded (out c) true))
      else match readRequest evs with
           | None => None
           | Some (request, evs) =>
               if Closed request then Some (Done (mkEnded (out c) false))
               else match Err request with
                    | Some _ => Some (Done (mkEnded (out c) false))
                    | None =>
                        match process (default [] (Body request)) with
                        | Panic why => Some (Panic why)
                        | Done r =>
                            let '(status, re) := match r with
                              | inr re => ($"ok", re)
                              | inl err => ($"failed", MarshalString err)
                              end in
                            match response c status re with
                            | Panic why => Some (Panic why)
                            | Done (Some _, c) => Some (Done (mkEnded (out c) false))
                            | Done (None, c) => handle_loop f process evs (drop 1 sigs) c
                            end
                        end
                    end
           end
  end.

(** Every round that goes on has read at least 9 bytes. *)
Definition ev_size (e : ev) : nat := match e with Data s => S (length s) | Fault _ _ => 1 end.
Definition evs_size (evs : list ev) : nat := fold_right (fun e n => ev_size e + n) 0 evs.

(** [HandleConn]: the deferred function writes CLOSE (an error is ignored). *)
Definition HandleConn (stopping : bool) (process : str → outcome (result str))
    (evs : list ev) (sigs : list bool) (faults : list (option error)) : option (outcome ended) :=
  if stopping then Some (Done (mkEnded [tagClose] false))
  else match handle_loop (S (evs_size evs)) process evs sigs (mkW [] faults) with
       | Some (Done e) => Some (Done (mkEnded (written e ++ [tagClose]) (counted e)))
       | r => r
       end.

(** ** Lemmas: heads *)

(** The 8 bytes of a head for [n]. *)
Definition head_of (n : nat) : str :=
  let d := Itoa (Z.of_nat n) in d ++ make_bytes (8 - length d).
Definition frame (body : str) : str := head_of (length body) ++ body.
Definition close_frame : str := tagClose ++ make_bytes 3.

Definition fits (n : nat) : Prop := (Z.of_nat n < 10 ^ 8)%Z.

Lemma Itoa_fits n : fits n ↔ length (Itoa (Z.of_nat n)) ≤ 8.
Proof. unfold fits. change 8%Z with (Z.of_nat 8). rewrite Itoa_length by lia. done. Qed.

Lemma length_head n : fits n → length (head_of n) = 8.
Proof. intros H%Itoa_fits. unfold head_of, make_bytes. rewrite length_app, length_replicate. lia. Qed.

Lemma pad_head n : fits n → pad_to 8 (Itoa (Z.of_nat n)) = Done (head_of n).
Proof. intros H%Itoa_fits. unfold pad_to. by rewrite (proj2 (Nat.leb_le _ _) H). Qed.

Lemma take_while_zeros (d : str) k :
  byte0 ∉ d → take_while (fun c => negb (bool_decide (c = byte0))) (d ++ make_bytes k) = d.
Proof.
  intros H. assert (Forall (fun c => negb (bool_decide (c = byte0)) = true) d) as HF.
  { apply Forall_forall. intros c Hc. apply negb_true_iff, bool_decide_eq_false_2. by intros ->. }
  destruct k as [|k]; simpl.
  - rewrite app_nil_r. by apply take_while_all.
  - by apply take_while_app_stop.
Qed.

Lemma digits_no_zero d : forallb is_digit d = true → byte0 ∉ d.
Proof.
  intros H Hin. rewrite forallb_forall in H. apply list_elem_of_In in Hin. by apply H in Hin.
Qed.

Lemma parse_head n : fits n → parseHeadTagLength (head_of n) = Itoa (Z.of_nat n).
Proof.
  intros H. unfold parseHeadTagLength, HEAD_TAG_LENGTH. rewrite take_ge by (rewrite length_head; done).
  apply take_while_zeros, digits_no_zero. apply Itoa_spec. lia.
Qed.

Lemma Itoa_not_close n : isTagClose (Itoa (Z.of_nat n)) = false.
Proof.
  apply bool_decide_eq_false_2. intros E. destruct (Itoa_spec (Z.of_nat n)) as (_ & Hd & _); [lia|].
  by rewrite <- E in Hd.
Qed.

(** ** Lemmas: reading a stream *)

Definition stream (evs : list ev) : str := flat_map (fun e => match e with Data s => s | Fault _ _ => [] end) evs.
Definition fault_free (evs : list ev) : Prop := Forall (fun e => match e with Data _ => True | Fault _ _ => False end) evs.

Lemma fill_stream n got evs :
  fault_free evs → n ≤ length (stream evs) →
  ∃ evs', fill n got evs = Filled (got ++ take n (stream evs)) evs' ∧ fault_free evs'
    ∧ stream evs' = drop n (stream evs) ∧ evs_size evs' + n ≤ evs_size evs.
Proof.
  intros HF. revert n got. induction HF as [|e evs He HF IH]; intros n got Hn.
  - simpl in Hn. assert (n = 0) as -> by lia. exists []. simpl. rewrite app_nil_r.
    split_and!; [done|by apply Forall_nil|done|lia].
  - destruct e as [s|]; [|done]. cbn [fill stream flat_map] in *.
    destruct (Nat.eqb_spec n 0) as [->|Hne].
    { exists (Data s :: evs). simpl. rewrite app_nil_r. split_and!; [done|by apply Forall_cons|done|lia]. }
    rewrite length_app in Hn. fold (stream evs) in *.
    destruct (Nat.leb_spec (length s) n) as [Hs|Hs].
    + destruct (IH (n - length s) (got ++ s)) as (evs' & -> & HF' & Hst & Hsz); [lia|].
      exists evs'. rewrite <- (assoc_L (++)), take_app_ge, drop_app_ge by lia. simpl. split_and!; try done. lia.
    + exists (Data (drop n s) :: evs). rewrite take_app_le, drop_app_le by lia. simpl.
      fold (stream evs). split_and!; [done|by apply Forall_cons|done|rewrite length_drop; lia].
Qed.

Lemma readRequest_stream evs body rest :
  1 ≤ length body → fits (length body) → fault_free evs → stream evs = frame body ++ rest →
  ∃ evs', readRequest evs = Some (mkRequest false (Some body) None, evs')
    ∧ fault_free evs' ∧ stream evs' = rest ∧ evs_size evs' < evs_size evs.
Proof.
  intros Hb Hfit HF Hst.
  assert (length (head_of (length body)) = 8) as Hh by by apply length_head.
  destruct (fill_stream 8 [] evs HF) as (e1 & Hf1 & HF1 & Hst1 & Hsz1).
  { rewrite Hst. unfold frame. rewrite !length_app. lia. }
  assert (take 8 (stream evs) = head_of (length body) ∧ stream e1 = body ++ rest) as [Ht He1].
  { rewrite Hst1, Hst. unfold frame. rewrite <- (assoc_L (++)), <- Hh, take_app_length, drop_app_length. done. }
  rewrite Ht in Hf1. simpl in Hf1.
  destruct (fill_stream (length body) [] e1 HF1) as (e2 & Hf2 & HF2 & Hst2 & Hsz2).
  { rewrite He1, length_app. lia. }
  rewrite He1, take_app_length in Hf2. rewrite He1, drop_app_length in Hst2. simpl in Hf2.
  exists e2. split_and!; [|done|done|lia].
  unfold readRequest, HEAD_TAG_LENGTH. rewrite Hf1, parse_head, Itoa_not_close by done.
  rewrite Atoi_Itoa by (unfold fits in Hfit; unfold int64_max; lia).
  destruct (Z.ltb_spec (Z.of_nat (length body)) 1); [lia|]. by rewrite Nat2Z.id, Hf2.
Qed.

Lemma readRequest_close evs rest :
  fault_free evs → stream evs = close_frame ++ rest →
  ∃ evs', readRequest evs = Some (mkRequest true None None, evs').
Proof.
  intros HF Hst. destruct (fill_stream 8 [] evs HF) as (e1 & Hf1 & _).
  { rewrite Hst, length_app. simpl. lia. }
  rewrite Hst in Hf1. simpl in Hf1. exists e1. unfold readRequest, HEAD_TAG_LENGTH. rewrite Hf1. reflexivity.
Qed.

(** ** Lemmas: writing a response *)

(** The three writes of a response. *)
Definition response_parts (status data : str) : list str :=
  [head_of (length data); status ++ make_bytes (8 - length status); data].

Lemma response_ok (o : list str) status data :
  length status ≤ 8 → fits (length data) →
  response (mkW o []) status data = Done (None, mkW (o ++ response_parts status data) []).
Proof.
  intros Hs Hd. unfold response. rewrite pad_head by done.
  unfold pad_to, STATUS_TAG_LENGTH. rewrite (proj2 (Nat.leb_le _ _) Hs). simpl.
  unfold Write. simpl. unfold response_parts. by rewrite <- !(assoc_L (++)).
Qed.

Definition answer (r : result str) : str * str :=
  match r with inr re => ($"ok", re) | inl err => ($"failed", MarshalString err) end.

(** The client's side: the status and the data of a response. *)
Definition read_response (s : str) : option (str * str * str) :=
  let status := take_while (fun c => negb (bool_decide (c = byte0))) (take 8 (drop 8 s)) in
  match Atoi (parseHeadTagLength s) with
  | inr n => if Nat.leb (16 + Z.to_nat n) (length s)
             then Some (status, take (Z.to_nat n) (drop 16 s), drop (16 + Z.to_nat n) s) else None
  | inl _ => None
  end.

(** The client reads back what a response wrote. *)
Lemma read_response_parts (status data rest : str) :
  byte0 ∉ status → length status ≤ 8 → fits (length data) →
  read_response (concat (response_parts status data) ++ rest) = Some (status, data, rest).
Proof.
  intros Hz Hs Hd.
  pose proof (length_head _ Hd) as Hh.
  assert (length (status ++ make_bytes (8 - length status)) = 8) as Hst
    by (rewrite length_app; unfold make_bytes; rewrite length_replicate; lia).
  unfold read_response, response_parts. cbn [concat]. rewrite app_nil_r, <- !(assoc_L (++)).
  set (X := (status ++ make_bytes (8 - length status) ++ data ++ rest)).
  assert (parseHeadTagLength (head_of (length data) ++ X) = Itoa (Z.of_nat (length data))) as ->.
  { rewrite <- (parse_head _ Hd). unfold parseHeadTagLength, HEAD_TAG_LENGTH.
    rewrite take_app_le by lia. done. }
  rewrite Atoi_Itoa by (unfold fits in Hd; unfold int64_max; lia). rewrite Nat2Z.id.
  rewrite (drop_app_length' (head_of (length data)) X 8) by done.
  assert (X = (status ++ make_bytes (8 - length status)) ++ data ++ rest) as HX by (by rewrite <- (assoc_L (++))).
  rewrite HX. rewrite take_app_le, take_ge, take_while_zeros by (done || lia).
  rewrite (proj2 (Nat.leb_le _ _)) by (rewrite length_app, Hh, length_app, Hst, length_app; lia).
  rewrite <- (drop_drop _ (length data) 16).
  assert (∀ y, drop 16 (head_of (length data) ++ (status ++ make_bytes (8 - length status)) ++ y) = y) as Hdr.
  { intros y. change 16 with (8 + 8). rewrite <- drop_drop, !drop_app_length'; done. }
  rewrite Hdr, take_app_length, drop_app_length. done.
Qed.

End server.

(** ** Theorems *)

(** A request is read back whatever the chunks it arrives in: when the
    bytes of the connection are the frame of a body of 1 to 99,999,999 bytes and
    something after it, [readRequest] returns the body, with no error, and leaves
    exactly what follows. *)
Theorem readRequest_frame `{U : UnicodeTables} (evs : list ev) (body rest : str) :
  1 ≤ length body → fits (length body) → fault_free evs → stream evs = frame body ++ rest →
  ∃ evs', readRequest evs = Some (mkRequest false (Some body) None, evs')
    ∧ fault_free evs' ∧ stream evs' = rest.
Proof.
  intros Hb Hf HF Hst. destruct (readRequest_stream evs body rest Hb Hf HF Hst) as (evs' & ? & ? & ? & _).
  by exists evs'.
Qed.

#[local] Instance no_unicode : UnicodeTables := Build_UnicodeTables (fun _ => false).

Lemma readRequest_frame_witness :
  ∃ evs', readRequest [Data $"12"; Data (make_bytes 6 ++ $"{a"); Data $"bcdefghijk"; Data $"more"]
            = Some (mkRequest false (Some $"{abcdefghijk") None, evs')
    ∧ fault_free evs' ∧ stream evs' = $"more".
Proof.
  apply readRequest_frame.
  - simpl. lia.
  - unfold fits. simpl. lia.
  - repeat constructor.
  - vm_compute. reflexivity.
Defined.

(** A response is what the client reads: for a status of at most 8 bytes
    without a zero byte and data below 100,000,000 bytes, the bytes [response]
    writes decode to the status and the data, and leave what follows; outside
    these bounds [response] panics. *)
Theorem response_roundtrip (status data rest : str) :
  byte0 ∉ status →
  if decide (length status ≤ 8 ∧ fits (length data)) then
    ∃ ws, response (mkW [] []) status data = Done (None, mkW ws [])
      ∧ read_response (concat ws ++ rest) = Some (status, data, rest)
  else ∃ why, response (mkW [] []) status data = Panic why.
Proof.
  intros Hz. case_decide as Hb.
  - destruct Hb as [Hs Hd]. exists (response_parts status data). split; [by apply response_ok|by apply read_response_parts].
  - unfold response, pad_to, STATUS_TAG_LENGTH. destruct (Nat.leb_spec (length status) 8) as [Hs|Hs]; [|by eexists].
    simpl. destruct (Nat.leb_spec (length (Itoa (Z.of_nat (length data)))) 8) as [Hd|Hd]; [|by eexists].
    exfalso. apply Hb. split; [done|]. by apply Itoa_fits.
Qed.

Lemma response_roundtrip_witness :
  if decide (length $"ok" ≤ 8 ∧ fits (length $"[1,2]")) then
    ∃ ws, response (mkW [] []) $"ok" $"[1,2]" = Done (None, mkW ws [])
      ∧ read_response (concat ws ++ $"tail") = Some ($"ok", $"[1,2]", $"tail")
  else ∃ why, response (mkW [] []) $"ok" $"[1,2]" = Panic why.
Proof. apply (response_roundtrip $"ok" $"[1,2]" $"tail"). vm_compute. set_solver. Defined.

(** A request the handler answers within the size of a frame. *)
Definition answered (process : str → outcome (result str)) (b : str) (r : result str) : Prop :=
  1 ≤ length b ∧ fits (length b) ∧ process b = Done r ∧ fits (length (answer r).2).

Definition answer_parts (r : result str) : list str := response_parts (answer r).1 (answer r).2.

Lemma answer_status r : length (answer r).1 ≤ 8.
Proof. destruct r; simpl; lia. Qed.

Lemma handle_loop_serves `{U : UnicodeTables} process bs rs :
  Forall2 (answered process) bs rs →
  ∀ fuel evs o rest, evs_size evs < fuel → fault_free evs →
  stream evs = concat (map frame bs) ++ rest →
  ∃ fuel' evs', handle_loop fuel process evs [] (mkW o []) =
      handle_loop fuel' process evs' [] (mkW (o ++ concat (map answer_parts rs)) [])
    ∧ evs_size evs' < fuel' ∧ fault_free evs' ∧ stream evs' = rest.
Proof.
  induction 1 as [|b r bs rs (Hb & Hfit & Hp & Ha) HF2 IH]; intros fuel evs o rest Hfuel HF Hst.
  { exists fuel, evs. simpl. by rewrite app_nil_r. }
  destruct fuel as [|fuel]; [lia|].
  cbn [map concat] in Hst. rewrite <- (assoc_L (++)) in Hst.
  destruct (readRequest_stream evs b _ Hb Hfit HF Hst) as (e1 & Hr & HF1 & Hst1 & Hsz).
  destruct (IH fuel e1 (o ++ answer_parts r) rest) as (fuel' & e2 & Hl & ?); [lia|done|done|].
  exists fuel', e2. split; [|done]. cbn [map concat handle_loop]. simpl (default false (head [])).
  rewrite Hr. cbn [Closed Err Body]. change (default [] (Some b)) with b. rewrite Hp.
  rewrite (assoc_L (++)). rewrite <- Hl.
  assert (response (mkW o []) (answer r).1 (answer r).2 = Done (None, mkW (o ++ answer_parts r) [])) as Hresp
    by (apply response_ok; [apply answer_status|done]).
  destruct r as [err|re]; cbn [answer fst snd] in Hresp; rewrite Hresp; done.
Qed.

Lemma HandleConn_answers `{U : UnicodeTables} (process : str → outcome (result str))
    (bs : list str) (rs : list (result str)) (evs : list ev) (rest : str) :
  Forall2 (answered process) bs rs → fault_free evs →
  stream evs = concat (map frame bs) ++ close_frame ++ rest →
  HandleConn false process evs [] [] =
    Some (Done (mkEnded (concat (map answer_parts rs) ++ [tagClose]) false)).
Proof.
  intros H2 HF Hst. unfold HandleConn.
  destruct (handle_loop_serves process bs rs H2 (S (evs_size evs)) evs [] _ ltac:(lia) HF Hst)
    as (fuel & e1 & Hl & Hfuel & HF1 & Hst1).
  rewrite Hl. destruct fuel as [|fuel]; [lia|]. cbn [handle_loop]. simpl (default false (head [])).
  destruct (readRequest_close e1 rest HF1 Hst1) as (e2 & ->). done.
Qed.

(** C15.  A whole connection: a client that sends requests and then CLOSE, in
    chunks of any size, gets the answers to its requests in order, each as one
    response with the status of its outcome, and then CLOSE; the connection is
    not counted as a user of the server any more. *)
Theorem HandleConn_serves `{U : UnicodeTables} (process : str → outcome (result str))
    (bs : list str) (rs : list (result str)) (evs : list ev) (rest : str) :
  Forall2 (answered process) bs rs → fault_free evs →
  stream evs = concat (map frame bs) ++ close_frame ++ rest →
  HandleConn false process evs [] [] =
    Some (Done (mkEnded (concat (map answer_parts rs) ++ [tagClose]) false)).
Proof. apply HandleConn_answers. Qed.

Lemma HandleConn_serves_witness :
  HandleConn false (fun b => Done (if bool_decide (b = $"a") then inr $"1" else inl $"no"))
    [Data (frame $"a" ++ take 3 (frame $"b")); Data (drop 3 (frame $"b")); Data close_frame] [] []
  = Some (Done (mkEnded (concat (map answer_parts [inr $"1"; inl $"no"]) ++ [tagClose]) false)).
Proof.
  apply (HandleConn_serves _ [$"a"; $"b"] [inr $"1"; inl $"no"] _ []).
  - repeat constructor.
  - repeat constructor.
  - vm_compute. reflexivity.
Defined.

(** A request that is a JSON object without a string [cmd] or without an
    object [args] ends the process: the type assertion panics and nothing between
    [processRequest] and the connection's goroutine recovers, whatever the
    handlers are. *)
Theorem HandleConn_fatal_request `{U : UnicodeTables} (json_error : str → str) (hs : handlers) (timely : bool)
    (evs : list ev) (body rest : str) (l : list (str * json)) :
  1 ≤ length body → fits (length body) → fault_free evs → stream evs = frame body ++ rest →
  Unmarshal body = Some (JObj l) →
  (∀ cmd, member $"cmd" l ≠ Some (JStr cmd)) ∨ (∀ args, member $"args" l ≠ Some (JObj args)) →
  ∃ why, HandleConn false (processRequest json_error hs timely) evs [] [] = Some (Panic why).
Proof.
  intros Hb Hf HF Hst Hu Hm. unfold HandleConn.
  destruct (readRequest_stream evs body rest Hb Hf HF Hst) as (e1 & Hr & _).
  cbn [handle_loop]. simpl (default false (head [])). rewrite Hr. cbn [Closed Err Body]. change (default [] (Some body)) with body.
  assert (processRequest json_error hs timely body = Panic $"interface conversion") as ->; [|by eexists].
  unfold processRequest. rewrite Hu.
  destruct (member $"cmd" l) as [[]|]; try done. destruct (member $"args" l) as [[]|]; try done. naive_solver.
Qed.

Lemma HandleConn_fatal_request_witness :
  ∃ why, HandleConn false (processRequest (fun s => s) (∅ : handlers) true) [Data (frame $"{}")] [] [] = Some (Panic why).
Proof.
  apply (HandleConn_fatal_request _ _ _ _ $"{}" [] []).
  - simpl. lia.
  - unfold fits. simpl. lia.
  - repeat constructor.
  - vm_compute. reflexivity.
  - vm_compute. reflexivity.
  - left. intros cmd. vm_compute. discriminate.
Defined.
