(* ===== verification/Stats.v ===== *)
(** * connection/statistics.go: request statistics and the console

    The statistics are kept per minute and command; a minute points to its segment
    ([segments]).  A goroutine adds each message ([receive]), reading the current
    minute twice, and another removes old minutes ([gcStats_round]).  The console reads commands from a telnet connection into
    a buffer of 51 bytes ([console_read]) and answers them ([console_session], from
    the pieces of a connection to the bytes of its answers).

    [console_serves]: what is answered, and when the connection ends;
    [two_in_one_piece]: two commands that arrive together are one unknown command. *)

From S2P Require Import Prelude GoLib GoFmt Regex Json.

Definition MAX_IN_MEM_STATS_LENGTH : Z := 30.
Definition CONNACTION_ACCEPT : Z := 1.
Definition CONNACTION_RESPONSE : Z := 2.
Definition CONNACTION_PROCESS_FIN : Z := 3.
Definition CONNACTION_STATUS_OK : Z := 1.
Definition CONNACTION_STATUS_FAILED : Z := 1.

Record StatsMessage := mkMsg { cmd : str; action : Z; status : Z }.
Record Stats := mkStats { TotalReq : Z; FinishedReq : Z; FailedReq : Z }.

(** The minutes with the contents of their segments, as the console reads them. *)
Abbreviation segs := (gmap Z (gmap str Stats)) (only parsing).

(** [statsSegs : map[int64]*map[string]*Stats]: a minute has the address of a
    segment, and two minutes may have the same.  A [*Stats] belongs to one segment
    only and is its contents. *)
Record segments := mkSegments { statsSegs : gmap Z nat; objects : list (gmap str Stats) }.
Definition segments_init : segments := mkSegments ∅ [].
Definition seg_values (s : segments) : segs := (fun a => default ∅ (objects s !! a)) <$> statsSegs s.

(** [calIndex]: the minute of a Unix time ([%] of Go truncates). *)
Definition calIndex (unix : Z) : Z := unix - Z.rem unix 60.

(** The messages [runRequestHandler] sends for one request. *)
Definition finStatus (err : option error) : Z :=
  match err with Some _ => CONNACTION_STATUS_FAILED | None => CONNACTION_STATUS_OK end.
Definition request_messages (c : str) (err : option error) : list StatsMessage :=
  [mkMsg c CONNACTION_ACCEPT CONNACTION_STATUS_OK; mkMsg c CONNACTION_PROCESS_FIN (finStatus err)].

(** The loop of [receiveStats] for one message: the segment of the current minute,
    or a new one; the count; the segment becomes that of the current minute, which is
    read again. *)
Definition take_segment (s : segments) (currentSegIndex : Z) : nat * segments :=
  match statsSegs s !! currentSegIndex with
  | Some a => (a, s)
  | None => (length (objects s), mkSegments (statsSegs s) (objects s ++ [∅]))
  end.
Definition count_message (cStats : StatsMessage) (newStatsSeg : gmap str Stats) : gmap str Stats :=
  let newStats := default (mkStats 0 0 0) (newStatsSeg !! cmd cStats) in
  let newStats := mkStats (TotalReq newStats + 1) (FinishedReq newStats) (FailedReq newStats) in
  let newStats :=
    if (status cStats =? CONNACTION_STATUS_OK)%Z
    then mkStats (TotalReq newStats) (FinishedReq newStats + 1) (FailedReq newStats)
    else mkStats (TotalReq newStats) (FinishedReq newStats) (FailedReq newStats + 1) in
  <[cmd cStats := newStats]> newStatsSeg.
Definition count_segment (s : segments) (currentSegIndex : Z) (cStats : StatsMessage) : nat * segments :=
  let '(a, s) := take_segment s currentSegIndex in
  (a, mkSegments (statsSegs s) (alter (count_message cStats) a (objects s))).
Definition put_segment (s : segments) (currentSegIndex : Z) (a : nat) : segments :=
  mkSegments (<[currentSegIndex := a]> (statsSegs s)) (objects s).

Definition receive (first second : Z) (s : segments) (cStats : StatsMessage) : segments :=
  if negb (action cStats =? CONNACTION_PROCESS_FIN)%Z then s
  else let '(a, s) := count_segment s first cStats in put_segment s second a.

(** The messages with the two values of [currentSegIndex] that are read for each. *)
Definition receiveStats (s : segments) (msgs : list (Z * Z * StatsMessage)) : segments :=
  fold_left (fun s x => receive x.1.1 x.1.2 s x.2) msgs s.

(** [gcStats]: the minute it deletes in its round [i], and a round in which the
    current minute does not change. *)
Definition gc_key (currentSegIndex i : Z) : Z := currentSegIndex - (MAX_IN_MEM_STATS_LENGTH * 24 + i) * 60.
Definition gc_excess {A} (statsSegs : gmap Z A) : Z := Z.of_nat (size statsSegs) - MAX_IN_MEM_STATS_LENGTH * 24 * 60.
Definition gc_keys (currentSegIndex delRangeLength : Z) : list Z :=
  map (fun i => gc_key currentSegIndex (Z.of_nat i)) (seq 1 (Z.to_nat delRangeLength)).
Definition gcStats_round {A} (currentSegIndex : Z) (statsSegs : gmap Z A) : gmap Z A :=
  let delRangeLength := gc_excess statsSegs in
  if (delRangeLength <? 1)%Z then statsSegs
  else fold_left (fun m k => delete k m) (gc_keys currentSegIndex delRangeLength) statsSegs.

(** ** The text of the statistics *)

Definition member_text (k v : str) : str := MarshalString k ++ ":"%char :: v.
Fixpoint comma_join (l : list str) : str :=
  match l with
  | [] => []
  | [x] => x
  | x :: l' => x ++ ","%char :: comma_join l'
  end.
Definition object_text (l : list (str * str)) : str :=
  "{"%char :: comma_join (map (fun kv => member_text kv.1 kv.2) l) ++ ["}"%char].

Definition stats_text (s : Stats) : str :=
  object_text [($"TotalReq", Itoa (TotalReq s)); ($"FinishedReq", Itoa (FinishedReq s));
               ($"FailedReq", Itoa (FailedReq s))].

Fixpoint str_leb (a b : str) : bool :=
  match a, b with
  | [], _ => true
  | _ :: _, [] => false
  | x :: a', y :: b' =>
      (Z_of_byte x <? Z_of_byte y)%Z || ((Z_of_byte x =? Z_of_byte y)%Z && str_leb a' b')
  end.

(** [json.Marshal] of a map: its keys in order. *)
Fixpoint insert_by {A} (le : A → A → bool) (x : A) (l : list A) : list A :=
  match l with
  | [] => [x]
  | y :: l' => if le x y then x :: l else y :: insert_by le x l'
  end.
Definition sort_by {A} (le : A → A → bool) (l : list A) : list A := foldr (insert_by le) [] l.

Definition seg_text (seg : gmap str Stats) : str :=
  object_text (map (fun kv => (kv.1, stats_text kv.2))
                   (sort_by (fun a b => str_leb a.1 b.1) (map_to_list seg))).

(** What [sendStatsToConsole] writes to the gzip writer for [statsz]. *)
Definition statsz_text (statsSegs : segs) : str :=
  let keysInt := sort_by Z.leb (map fst (map_to_list statsSegs)) in
  "{"%char :: comma_join (map (fun k =>
     dquote :: Itoa k ++ dquote :: $": " ++ seg_text (default ∅ (statsSegs !! k))) keysInt) ++ ["}"%char].

(** ** The console *)

(** The buffer, the number of bytes in it, and whether the last byte seen was a
    carriage return. *)
Record console := mkConsole { buffer : str; start : nat; cmdOverHashEnter : bool }.
Definition console_init : console := mkConsole (make_bytes 51) 0 false.

Inductive reply :=
| RNothing
| RStats
| RStatsz
| RBye
| RHelp
| RInvalid (c : str)
| RTooLong (c : str).

Definition cr : ascii := ch 13.
Definition lf : ascii := ch 10.

Definition dispatch (c : str) : reply :=
  let l := ToLower c in
  if bool_decide (l = []) then RNothing
  else if bool_decide (l = $"stats") then RStats
  else if bool_decide (l = $"statsz") then RStatsz
  else if bool_decide (l = $"quit") || bool_decide (l = $"exit") || bool_decide (l = $"close") then RBye
  else if bool_decide (l = $"help") then RHelp
  else RInvalid c.

(** The loop [for i := 0; i < n; i++] over the first [n] bytes of the buffer;
    [inl] is a completed command. *)
Fixpoint scan_line (n : nat) (i : nat) (enter : bool) (buf : str) : unit + bool :=
  match buf with
  | [] => inr enter
  | c :: rest =>
      if Nat.leb n i then inr enter
      else
        let '(enter, cmdOver) :=
          if bool_decide (c = cr) then (true, false)
          else if bool_decide (c = lf) then if enter then (enter, true) else (false, false)
          else (false, false) in
        let '(enter, cmdOver) := if cmdOver && negb (Nat.eqb i (n - 1)) then (false, false) else (enter, cmdOver) in
        if cmdOver then inl tt else scan_line n (S i) enter rest
  end.

(** One [Read] that returned [data]: the reply, and the next state unless the
    console is closed. *)
Definition console_read (k : console) (data : str) : reply * option console :=
  let n := length data in
  let buf := take (start k) (buffer k) ++ data ++ drop (start k + n) (buffer k) in
  match scan_line n 0 (cmdOverHashEnter k) buf with
  | inl _ =>
      let r := dispatch (TrimRight buf [cr; lf; byte0]) in
      (r, match r with RBye => None | _ => Some console_init end)
  | inr enter =>
      let start' := start k + n in
      if Nat.leb 50 start' then (RTooLong buf, None)
      else (RNothing, Some (mkConsole buf start' enter))
  end.

(** What [sendStatsToConsole] writes for [stats]: a line with the time of each
    minute and the indented text of its entries, the indentation being empty.
    [rfc3339] is the text of a Unix time. *)
Definition indent_object (l : list (str * str)) : str :=
  match l with
  | [] => $"{}"
  | _ => "{"%char :: lf :: Join (map (fun kv => MarshalString kv.1 ++ $": " ++ kv.2) l) ($"," ++ [lf]) ++ lf :: $"}"
  end.
Definition stats_indent (s : Stats) : str :=
  indent_object [($"TotalReq", Itoa (TotalReq s)); ($"FinishedReq", Itoa (FinishedReq s)); ($"FailedReq", Itoa (FailedReq s))].
Definition seg_indent (seg : gmap str Stats) : str :=
  indent_object (map (fun kv => (kv.1, stats_indent kv.2)) (sort_by (fun a b => str_leb a.1 b.1) (map_to_list seg))).

Section session.
Context (rfc3339 : Z → str).
(** [gzip.NewWriterLevel] with the bytes written to it. *)
Context (gzip : str → str).

Definition stats_lines (statsSegs : segs) : list str :=
  flat_map (fun k => [rfc3339 k ++ [lf]; seg_indent (default ∅ (statsSegs !! k)); [lf; lf; lf]])
           (sort_by Z.leb (map fst (map_to_list statsSegs))).

(** What a reply writes, and whether the connection is closed then. *)
Definition reply_bytes (statsSegs : segs) (r : reply) : str :=
  match r with
  | RNothing => []
  | RStats => concat (stats_lines statsSegs)
  | RStatsz => gzip (statsz_text statsSegs)
  | RBye => $"Byte" ++ [lf]
  | RHelp => $"command list:" ++ lf :: $"    stats               show statistics as json." ++ lf
             :: $"    statsz              export statistics as gziped json data and exit console." ++ lf
             :: $"    quit,close          quit console." ++ [lf]
  | RInvalid c => $"Invalid command: " ++ c ++ lf :: $"Availabe commands are 'stats','quit','close','statsz'" ++ [lf]
  | RTooLong c => $"Invalid command: " ++ c ++ $" " ++ lf :: $"command  exceeded 50 chars." ++ [lf]
  end.

Definition closes (r : reply) : bool := match r with RStatsz | RBye | RTooLong _ => true | _ => false end.

(** One connection of the console: [arrivals] are the pieces that arrive, a read
    takes as much of one as the buffer has room; it ends with the arrivals or when
    it is closed. *)
Fixpoint console_session (fuel : nat) (statsSegs : segs) (k : console) (arrivals : list str) : option str :=
  match fuel with
  | 0 => None
  | S fuel =>
      match arrivals with
      | [] => Some []
      | [] :: rest => console_session fuel statsSegs k rest
      | data :: rest =>
          let room := 51 - start k in
          let '(r, k') := console_read k (take room data) in
          let out := reply_bytes statsSegs r in
          if closes r then Some out
          else match k' with
               | Some k' => app out <$> console_session fuel statsSegs k' (drop room data :: rest)
               | None => Some out
               end
      end
  end.
End session.

(** ** Lemmas: counting *)

Definition stat_of (m : segs) (k : Z) (c : str) : Stats :=
  default (mkStats 0 0 0) (default ∅ (m !! k) !! c).
Definition stat_at (s : segments) (k : Z) (c : str) : Stats := stat_of (seg_values s) k c.

Definition counts (k : Z) (c : str) (x : Z * StatsMessage) : bool :=
  (x.1 =? k)%Z && bool_decide (cmd x.2 = c) && (action x.2 =? CONNACTION_PROCESS_FIN)%Z.
Definition is_ok (x : Z * StatsMessage) : bool := (status x.2 =? CONNACTION_STATUS_OK)%Z.

(** The numbers a list of messages adds to one entry. *)
Definition tally (k : Z) (c : str) (msgs : list (Z * StatsMessage)) : Stats :=
  let l := List.filter (counts k c) msgs in
  mkStats (Z.of_nat (length l)) (Z.of_nat (length (List.filter is_ok l)))
          (Z.of_nat (length (List.filter (fun x => negb (is_ok x)) l))).

Definition add_stats (a b : Stats) : Stats :=
  mkStats (TotalReq a + TotalReq b) (FinishedReq a + FinishedReq b) (FailedReq a + FailedReq b).

Lemma add_stats_assoc a b c : add_stats a (add_stats b c) = add_stats (add_stats a b) c.
Proof. unfold add_stats. simpl. f_equal; lia. Qed.

Lemma tally_cons k c x msgs : tally k c (x :: msgs) = add_stats (tally k c [x]) (tally k c msgs).
Proof.
  unfold tally, add_stats. cbn [List.filter]. destruct (counts k c x); simpl; [|done].
  destruct (is_ok x); simpl; f_equal; lia.
Qed.

(** No two minutes have one segment. *)
Definition separate (s : segments) : Prop :=
  (∀ k a, statsSegs s !! k = Some a → a < length (objects s))
  ∧ ∀ k k' a, statsSegs s !! k = Some a → statsSegs s !! k' = Some a → k = k'.

Lemma count_message_at msg seg k c :
  action msg = CONNACTION_PROCESS_FIN →
  default (mkStats 0 0 0) (count_message msg seg !! c)
  = add_stats (default (mkStats 0 0 0) (seg !! c)) (tally k c [(k, msg)]).
Proof.
  intros Ha. unfold count_message, tally, counts, is_ok. cbn [List.filter fst snd].
  rewrite Z.eqb_refl, Ha. change (CONNACTION_PROCESS_FIN =? CONNACTION_PROCESS_FIN)%Z with true. rewrite andb_true_r. cbn [andb].
  case_bool_decide as Hc; cbn [List.filter snd].
  - subst c. rewrite lookup_insert_eq. unfold add_stats. cbn [default].
    destruct (status msg =? CONNACTION_STATUS_OK)%Z; simpl; f_equal; lia.
  - rewrite lookup_insert_ne by done. unfold add_stats. simpl. destruct (default _ _). simpl. f_equal; lia.
Qed.

Lemma tally_other k i c msg : i ≠ k ∨ action msg ≠ CONNACTION_PROCESS_FIN → tally k c [(i, msg)] = mkStats 0 0 0.
Proof.
  intros H. unfold tally, counts. cbn [List.filter fst snd].
  destruct (Z.eqb_spec i k), (Z.eqb_spec (action msg) CONNACTION_PROCESS_FIN); rewrite ?andb_false_r; try done.
  by destruct H.
Qed.

Lemma add_stats_0 s : add_stats s (mkStats 0 0 0) = s.
Proof. destruct s. unfold add_stats. simpl. f_equal; lia. Qed.

(** One message in one minute. *)
Lemma stat_at_receive s i msg k c :
  separate s → separate (receive i i s msg)
  ∧ stat_at (receive i i s msg) k c = add_stats (stat_at s k c) (tally k c [(i, msg)]).
Proof.
  intros [Hr Hi]. unfold receive.
  destruct (Z.eqb_spec (action msg) CONNACTION_PROCESS_FIN) as [Ha|Ha]; cbn [negb].
  2:{ split; [by split|]. by rewrite tally_other, add_stats_0 by by right. }
  assert (∀ a b, a ≠ b → alter (count_message msg) a (objects s) !! b = objects s !! b) as Hne
    by (intros; by rewrite list_lookup_alter_ne).
  unfold count_segment, take_segment. destruct (statsSegs s !! i) as [a|] eqn:E.
  - assert (<[i := a]> (statsSegs s) = statsSegs s) as Hid by by apply insert_id.
    split; [split; cbn; rewrite Hid; [rewrite length_alter|]; done|].
    unfold stat_at, stat_of, seg_values. cbn. rewrite Hid, !lookup_fmap. destruct (decide (i = k)) as [<-|Hik].
    + rewrite E. cbn. rewrite list_lookup_alter_eq. destruct (lookup_lt_is_Some_2 (objects s) a (Hr i a E)) as [seg ->].
      cbn. by apply count_message_at.
    + rewrite tally_other, add_stats_0 by by left. destruct (statsSegs s !! k) as [b|] eqn:Ek; [|done]. cbn.
      rewrite Hne; [done|]. intros ->. by destruct (Hik (Hi i k b E Ek)).
  - cbn [objects statsSegs]. assert (alter (count_message msg) (length (objects s)) (objects s ++ [∅])
      = objects s ++ [count_message msg ∅]) as ->.
    { rewrite alter_app_r_alt by lia. by rewrite Nat.sub_diag. }
    split.
    + split; cbn.
      * intros k' b. rewrite length_app. cbn. destruct (decide (i = k')) as [<-|]; [rewrite lookup_insert_eq; intros [= <-]; lia|].
        rewrite lookup_insert_ne by done. intros Hb%Hr. lia.
      * intros k1 k2 b. destruct (decide (i = k1)) as [<-|]; destruct (decide (i = k2)) as [<-|]; rewrite ?lookup_insert_eq, ?lookup_insert_ne by done;
          [done|intros [= <-] Hb%Hr; lia|intros Hb%Hr [= <-]; lia|apply Hi].
    + unfold stat_at, stat_of, seg_values. cbn. rewrite !lookup_fmap. destruct (decide (i = k)) as [<-|Hik].
      * rewrite lookup_insert_eq, E. cbn. rewrite list_lookup_middle by done. cbn. rewrite (count_message_at _ _ i) by done.
        by rewrite !lookup_empty.
      * rewrite lookup_insert_ne by done. rewrite tally_other, add_stats_0 by by left.
        destruct (statsSegs s !! k) as [b|] eqn:Ek; [|done]. cbn. by rewrite lookup_app_l by by eapply Hr.
Qed.

(** Messages taken in minutes that do not change between the two reads. *)
Definition in_minute (x : Z * StatsMessage) : Z * Z * StatsMessage := (x.1, x.1, x.2).

Lemma stat_at_receiveStats msgs s k c :
  separate s → stat_at (receiveStats s (map in_minute msgs)) k c = add_stats (stat_at s k c) (tally k c msgs).
Proof.
  revert s. unfold receiveStats. induction msgs as [|[i msg] msgs IH]; intros s Hs; cbn [map fold_left in_minute fst snd].
  - unfold tally, add_stats. simpl. destruct (stat_at s k c). simpl. f_equal; lia.
  - destruct (stat_at_receive s i msg k c Hs) as [Hs' E]. by rewrite IH, E, <- add_stats_assoc, <- tally_cons.
Qed.

(** ** Lemmas: removal and the console *)

Lemma lookup_delete_list {A} (ks : list Z) (m : gmap Z A) (k : Z) :
  fold_left (fun m k => delete k m) ks m !! k = if bool_decide (k ∈ ks) then None else m !! k.
Proof.
  revert m. induction ks as [|k' ks IH]; intros m; simpl; [done|]. rewrite IH.
  destruct (decide (k' = k)) as [->|Hne].
  - rewrite (bool_decide_eq_true_2 (k ∈ k :: ks)) by left. rewrite lookup_delete_eq. by case_bool_decide.
  - rewrite lookup_delete_ne by done. do 2 case_bool_decide; set_solver.
Qed.

Lemma elem_of_gc_keys cur n k :
  k ∈ gc_keys cur n ↔ ∃ i, (1 <= i <= n)%Z ∧ k = (cur - (720 + i) * 60)%Z.
Proof.
  unfold gc_keys, gc_key. rewrite list_elem_of_In, in_map_iff. setoid_rewrite in_seq.
  change (MAX_IN_MEM_STATS_LENGTH * 24)%Z with 720%Z. split.
  - intros (i & <- & Hi). exists (Z.of_nat i). split; [lia|done].
  - intros (i & Hi & ->). exists (Z.to_nat i). split; [|lia]. rewrite Z2Nat.id by lia. done.
Qed.

Lemma scan_line_command c pad i :
  cr ∉ c → lf ∉ c → scan_line (i + (length c + length [cr; lf])) i false (c ++ [cr; lf] ++ pad) = inl tt.
Proof.
  revert i. induction c as [|x c IH]; intros i Hcr Hlf.
  - cbn [length app scan_line]. rewrite (proj2 (Nat.leb_gt _ _)) by lia.
    rewrite (bool_decide_eq_true_2 (cr = cr)) by done. cbn [andb].
    rewrite (proj2 (Nat.leb_gt _ _)) by lia. rewrite (proj2 (Nat.eqb_eq (S i) _)) by lia. done.
  - cbn [app scan_line]. rewrite (proj2 (Nat.leb_gt _ _)) by (simpl; lia).
    rewrite !bool_decide_eq_false_2 by set_solver. cbn [andb].
    replace (i + (length (x :: c) + length [cr; lf])) with (S i + (length c + length [cr; lf])) by (simpl; lia).
    apply IH; set_solver.
Qed.

(** ** Theorems *)

(** The statistics are the counts of the messages: after any sequence of
    messages, each taken in one minute, the entry of a minute and a command holds how
    many requests of that command finished in that minute, how many with the
    status OK and how many with another status. *)
Theorem receiveStats_counts (msgs : list (Z * StatsMessage)) (k : Z) (c : str) :
  stat_at (receiveStats segments_init (map in_minute msgs)) k c = tally k c msgs.
Proof. rewrite stat_at_receiveStats by by split. unfold stat_at, stat_of, add_stats, tally. cbn. done. Qed.

(** A minute that ends between the two reads: its segment becomes that of the next
    one as well, and a message of the next minute counts in both. *)
Example one_segment_two_minutes :
  let fin := mkMsg $"Get" CONNACTION_PROCESS_FIN CONNACTION_STATUS_OK in
  let s := receiveStats segments_init [(0, 0, fin); (0, 60, fin); (60, 60, fin)]%Z in
  TotalReq (stat_at s 0 $"Get") = 3%Z ∧ TotalReq (stat_at s 60 $"Get") = 3%Z ∧ length (objects s) = 1.
Proof. vm_compute. by split_and!. Qed.

Definition never_failed (x : Stats) : Prop := FailedReq x = 0%Z ∧ FinishedReq x = TotalReq x.

Lemma never_failed_default o : from_option never_failed True o → never_failed (default (mkStats 0 0 0) o).
Proof. by destruct o. Qed.

Lemma receive_never_failed first second s msg :
  status msg = CONNACTION_STATUS_OK → Forall (map_Forall (fun _ => never_failed)) (objects s) →
  Forall (map_Forall (fun _ => never_failed)) (objects (receive first second s msg)).
Proof.
  intros Hst Hs. unfold receive. destruct (_ =? _)%Z; cbn [negb]; [|done].
  assert (∀ l a, Forall (map_Forall (fun _ => never_failed)) l →
    Forall (map_Forall (fun _ => never_failed)) (alter (count_message msg) a l)) as Halter.
  { intros l a Hl. apply Forall_alter; [done|]. intros seg _ Hseg. unfold count_message. rewrite Hst.
    apply map_Forall_insert_2; [|done]. cbn. assert (never_failed (default (mkStats 0 0 0) (seg !! cmd msg))) as [H1 H2].
    { destruct (seg !! cmd msg) as [x|] eqn:E; [by apply (Hseg _ _ E)|done]. }
    unfold never_failed. cbn. lia. }
  unfold count_segment, take_segment. destruct (statsSegs s !! first); cbn; apply Halter; [done|].
  apply Forall_app. split; [done|]. apply Forall_singleton, map_Forall_empty.
Qed.

(** No failure is ever counted: whatever requests are handled, failed or
    not, every entry has [FailedReq] zero and as many finished as total requests,
    because the two status constants are equal. *)
Theorem failed_requests_not_counted (reqs : list (Z * Z * (str * option error))) (k : Z) (c : str) :
  let msgs := flat_map (fun r => map (pair r.1) (request_messages r.2.1 r.2.2)) reqs in
  let s := stat_at (receiveStats segments_init msgs) k c in
  FailedReq s = 0%Z ∧ FinishedReq s = TotalReq s.
Proof.
  intros msgs. assert (∀ l s, Forall (fun x => status x.2 = CONNACTION_STATUS_OK) l →
    Forall (map_Forall (fun _ => never_failed)) (objects s) →
    Forall (map_Forall (fun _ => never_failed)) (objects (receiveStats s l))) as Hrun.
  { induction l as [|x l IH]; intros s Hl Hs; [done|]. apply Forall_cons in Hl as [Hx Hl].
    apply IH; [done|]. by apply receive_never_failed. }
  specialize (Hrun msgs segments_init). intros s. subst s. unfold stat_at, stat_of, seg_values. rewrite lookup_fmap.
  destruct (statsSegs _ !! k) as [a|]; [|done]. cbn [fmap option_fmap option_map].
  destruct (objects _ !! a) as [seg|] eqn:E; [|done]. unfold default, id. destruct (seg !! c) as [x|] eqn:Ec; [|done].
  refine (Forall_lookup_1 _ _ _ _ (Hrun _ _) E c x Ec); [|constructor].
  unfold msgs. clear. induction reqs as [|[i [c' err]] reqs IH]; [constructor|]. cbn [flat_map fst snd].
  apply Forall_app. split; [|done]. unfold request_messages. repeat constructor. by destruct err.
Qed.

(** What [gcStats] removes: with more than 30 days of minutes in memory, it
    removes the minutes that are 12 hours and 1 to [n] minutes old, where [n] is
    the number of minutes above the limit, and keeps every other one; a minute
    more than 30 days old stays in memory as long as fewer than 42481 minutes are
    above the limit. *)
Theorem gcStats_removes {A} (cur : Z) (m : gmap Z A) :
  let n := (Z.of_nat (size m) - 43200)%Z in
  (∀ k, gcStats_round cur m !! k =
     if bool_decide (k < cur - 720 * 60 ∧ cur - (720 + n) * 60 <= k ∧ (cur - k) mod 60 = 0)%Z then None else m !! k)
  ∧ ((n < 42481)%Z → ∀ k, (k < cur - 43200 * 60)%Z → gcStats_round cur m !! k = m !! k).
Proof.
  intros n.
  assert (∀ k, gcStats_round cur m !! k =
     if bool_decide (k < cur - 720 * 60 ∧ cur - (720 + n) * 60 <= k ∧ (cur - k) mod 60 = 0)%Z then None else m !! k) as H.
  { intros k. unfold gcStats_round, gc_excess. change (MAX_IN_MEM_STATS_LENGTH * 24 * 60)%Z with 43200%Z. fold n.
    destruct (Z.ltb_spec n 1) as [Hn|Hn]; [rewrite bool_decide_eq_false_2; [done|lia]|].
    rewrite lookup_delete_list.
    rewrite (bool_decide_ext _ (k < cur - 720 * 60 ∧ cur - (720 + n) * 60 <= k ∧ (cur - k) mod 60 = 0)%Z); [done|].
    rewrite elem_of_gc_keys. split.
    - intros (i & Hi & ->). split_and!; [lia|lia|].
      replace (cur - (cur - (720 + i) * 60))%Z with ((720 + i) * 60)%Z by lia. apply Z.mod_mul. lia.
    - intros (H1 & H2 & H3). apply Z.mod_divide in H3 as [q Hq]; [|lia]. exists (q - 720)%Z. split; lia. }
  split; [done|]. intros Hn k Hk. rewrite H, bool_decide_eq_false_2; [done|]. lia.
Qed.

(** A console command that arrives in one piece, of at most 48 bytes and
    without line ends or zero bytes, is executed when its line end arrives. *)
Theorem console_one_piece (c : str) :
  cr ∉ c → lf ∉ c → byte0 ∉ c → length c ≤ 48 →
  console_read console_init (c ++ [cr; lf]) =
    (dispatch c, match dispatch c with RBye => None | _ => Some console_init end).
Proof.
  intros Hcr Hlf Hz Hl. unfold console_read. cbn [start buffer cmdOverHashEnter console_init].
  change (take 0 (make_bytes 51)) with (@nil ascii). rewrite app_nil_l.
  set (pad := drop (0 + length (c ++ [cr; lf])) (make_bytes 51)).
  assert (scan_line (length (c ++ [cr; lf])) 0 false ((c ++ [cr; lf]) ++ pad) = inl tt) as ->.
  { rewrite length_app, <- (assoc_L (++)). by apply (scan_line_command c pad 0). }
  assert (TrimRight ((c ++ [cr; lf]) ++ pad) [cr; lf; byte0] = c) as ->; [|done].
  rewrite <- (assoc_L (++)), TrimRight_app_cut.
  - apply TrimRight_last. intros k x ->. set_solver.
  - apply Forall_app. split; [repeat constructor; set_solver|].
    unfold pad, make_bytes. rewrite drop_replicate. apply Forall_replicate_p. set_solver.
Qed.

Lemma console_one_piece_witness :
  console_read console_init ($"Stats" ++ [cr; lf]) = (RStats, Some console_init).
Proof.
  change RStats with (dispatch $"Stats").
  apply (console_one_piece $"Stats"); [vm_compute; set_solver..|simpl; lia].
Defined.

(** ** A connection of the console *)

Definition console_command (c : str) : Prop :=
  (cr ∉ c) ∧ (lf ∉ c) ∧ (byte0 ∉ c) ∧ length c ≤ 48.

(** The commands up to the one that closes the connection. *)
Fixpoint until_closed (cs : list str) : list str :=
  match cs with
  | [] => []
  | c :: cs => c :: if closes (dispatch c) then [] else until_closed cs
  end.

Lemma console_read_room k data r k' : console_read k data = (r, Some k') → start k < 50 → start k' < 50.
Proof.
  unfold console_read. destruct (scan_line _ _ _ _).
  - intros H _. case_match; simplify_eq/=; lia.
  - destruct (Nat.leb_spec 50 (start k + length data)); intros [= <- <-] _; simpl; lia.
Qed.

(** A connection is served to its end: the number of bytes and of pieces that
    arrive bounds the rounds of the loop. *)
Lemma console_session_ends rfc3339 gzip fuel statsSegs k arrivals :
  start k < 50 → length (concat arrivals) + length arrivals < fuel →
  is_Some (console_session rfc3339 gzip fuel statsSegs k arrivals).
Proof.
  revert k arrivals. induction fuel as [|fuel IH]; intros k arrivals Hk Hf; [lia|]. cbn [console_session].
  destruct arrivals as [|[|c data] rest]; [done|apply IH; [done|]; simpl in *; lia|].
  destruct (console_read _ _) as [r [k'|]] eqn:E; [|destruct (closes r); done].
  destruct (closes r); [done|]. apply fmap_is_Some. apply IH; [by eapply console_read_room|].
  cbn [concat length] in *. rewrite length_app, length_drop in *. cbn [length] in *. lia.
Qed.

(** A console serves its commands in order: commands that arrive one by one, each
    of at most 48 bytes and without line ends or zero bytes, are answered one by
    one up to the first that closes the connection. *)
Theorem console_serves (rfc3339 : Z → str) (gzip : str → str) (fuel : nat) (statsSegs : gmap Z (gmap str Stats)) (cs : list str) :
  Forall console_command cs → 2 * length cs < fuel →
  console_session rfc3339 gzip fuel statsSegs console_init (map (fun c => c ++ [cr; lf]) cs) =
    Some (concat (map (fun c => reply_bytes rfc3339 gzip statsSegs (dispatch c)) (until_closed cs))).
Proof.
  intros Hcs. revert fuel. induction Hcs as [|c cs (H1 & H2 & H3 & H4) _ IH]; intros [|[|fuel]] Hf; simpl in Hf; try lia; [done..|].
  cbn [map until_closed]. remember (c ++ [cr; lf]) as line eqn:El.
  assert (length line ≤ 50) as Hl by (subst; rewrite length_app; simpl; lia).
  destruct line as [|x line]; [by destruct c|]. rewrite El in *. cbn [console_session]. rewrite <- El. cbn [console_session].
  change (start console_init) with 0. cbn [Nat.sub]. rewrite take_ge, drop_ge by (rewrite El in *; lia). rewrite El.
  rewrite console_one_piece by done.
  destruct (dispatch c); cbn [closes map concat]; rewrite ?IH by lia; rewrite ?app_nil_r; done.
Qed.

Lemma console_serves_witness :
  console_session (fun _ => []) (fun s => s) 7 ∅ console_init
    (map (fun c => c ++ [cr; lf]) [$"STATS"; $"quit"; $"help"]) = Some ($"Byte" ++ [lf]).
Proof.
  refine (eq_trans (console_serves (fun _ => []) (fun s => s) 7 ∅ [$"STATS"; $"quit"; $"help"] _ _) _).
  - repeat constructor; try (vm_compute; set_solver); simpl; lia.
  - simpl. lia.
  - vm_compute. reflexivity.
Defined.

(** Two commands that arrive in one piece: the line end between them is skipped
    over and one command is made of both. *)
Example two_in_one_piece :
  console_session (fun _ => []) (fun s => s) 4 ∅ console_init [$"help" ++ [cr; lf] ++ $"quit" ++ [cr; lf]]
  = Some ($"Invalid command: help" ++ [cr; lf] ++ $"quit" ++ lf :: $"Availabe commands are 'stats','quit','close','statsz'" ++ [lf]).
Proof. vm_compute. reflexivity. Qed.
