(* ===== verification/Requests.v ===== *)
(** * Requests, their timeout and the statistics (connection/conn_handler.go, statistics.go)

    Every request has two goroutines: the connection's, which waits in the select
    of [processRequest] for the result or [PROCESS_TIMEOUT], and
    [runRequestHandler], which hands the result over an unbuffered channel and
    reports to the statistics through [sendStats], a goroutine per message, a lock
    and a channel of a hundred places that [receiveStats] empties.

    The receiver reads the current minute twice for a message, while another
    goroutine changes it and [gcStats] removes minutes.

    [stats_drain]: in every interleaving the statistics settle, and count every
    result that was handed over once in one segment; the minutes show exactly these
    counts unless a minute ended between the two reads or was removed.
    [minute_counted_twice]: otherwise requests are shown in two minutes.
    [timed_out_leaks]: a request that timed out never hands over its result: its
    goroutine stays for ever, and it is not counted.  [requests_counted]: the
    invariant of both. *)

From S2P Require Import Prelude GoLib Stats.

Definition stats_room : nat := 100.

(** ** State *)

(** [processRequest] in its select, and what it took. *)
Inductive selecting := Waiting | Answered (err : option error) | TimedOut.

(** [runRequestHandler]: before its first message, in [handler.Run], at
    [reCh <- ...], before its last message, and returned. *)
Inductive running := Begun | Handling | Sending (err : option error) | Handed (err : option error) | Returned.

Record call := mkCall { cmd_of : str; select : selecting; runner : running }.

(** A goroutine [sendStats]: before the lock, before the send, before the
    release, and returned. *)
Inductive sender := Lock (m : StatsMessage) | Send (m : StatsMessage) | Release | Gone.

#[export] Instance StatsMessage_eq_dec : EqDecision StatsMessage.
Proof. solve_decision. Defined.
#[export] Instance sender_eq_dec : EqDecision sender.
Proof. solve_decision. Defined.

(** [receiveStats]: at the receive, with a message that counts, and with the segment
    it was counted in, before that becomes the segment of the current minute. *)
Inductive receiving := Await | Took (m : StatsMessage) | Storing (a : nat).

(** [removing] is the number of minutes above the limit and the next round of the
    loop of [gcStats], while that is in it. *)
Record dispatcher := mkDispatcher {
  calls : list call;
  senders : list sender;
  statsInChanRWLock : bool;
  statsInChan : list StatsMessage;
  currentSegIndex : Z;
  receiver : receiving;
  removing : option (Z * Z);
  segs_ : segments }.

Definition dispatcher_init (now : Z) : dispatcher :=
  mkDispatcher [] [] false [] (calIndex now) Await None segments_init.

(** ** Steps *)

Definition set_call (s : dispatcher) (i : nat) (x : call) (new : list sender) : dispatcher :=
  mkDispatcher (<[i := x]> (calls s)) (senders s ++ new) (statsInChanRWLock s) (statsInChan s)
    (currentSegIndex s) (receiver s) (removing s) (segs_ s).

(** [processRequest] up to its select. *)
Definition processRequest_go (s : dispatcher) (c : str) : dispatcher :=
  mkDispatcher (calls s ++ [mkCall c Waiting Begun]) (senders s) (statsInChanRWLock s) (statsInChan s)
    (currentSegIndex s) (receiver s) (removing s) (segs_ s).

(** The next step of the goroutine of request [i]; [err] is the error of
    [handler.Run].  The send on [pqCh] needs the select at the other side. *)
Definition runRequestHandler (s : dispatcher) (i : nat) (err : option error) : option dispatcher :=
  match calls s !! i with
  | Some (mkCall c sel Begun) =>
      Some (set_call s i (mkCall c sel Handling) [Lock (mkMsg c CONNACTION_ACCEPT CONNACTION_STATUS_OK)])
  | Some (mkCall c sel Handling) => Some (set_call s i (mkCall c sel (Sending err)) [])
  | Some (mkCall c Waiting (Sending e)) => Some (set_call s i (mkCall c (Answered e) (Handed e)) [])
  | Some (mkCall c sel (Handed e)) =>
      Some (set_call s i (mkCall c sel Returned) [Lock (mkMsg c CONNACTION_PROCESS_FIN (finStatus e))])
  | _ => None
  end.

Definition pTimeout (s : dispatcher) (i : nat) : option dispatcher :=
  match calls s !! i with
  | Some (mkCall c Waiting r) => Some (set_call s i (mkCall c TimedOut r) [])
  | _ => None
  end.

Definition set_sender (s : dispatcher) (j : nat) (x : sender) (locked : bool) (ch : list StatsMessage) : dispatcher :=
  mkDispatcher (calls s) (<[j := x]> (senders s)) locked ch (currentSegIndex s) (receiver s) (removing s) (segs_ s).

Definition sendStats (s : dispatcher) (j : nat) : option dispatcher :=
  match senders s !! j with
  | Some (Lock m) => if statsInChanRWLock s then None else Some (set_sender s j (Send m) true (statsInChan s))
  | Some (Send m) =>
      if Nat.ltb (length (statsInChan s)) stats_room
      then Some (set_sender s j Release (statsInChanRWLock s) (statsInChan s ++ [m])) else None
  | Some Release => Some (set_sender s j Gone false (statsInChan s))
  | _ => None
  end.

Definition set_receiver (s : dispatcher) (ch : list StatsMessage) (x : receiving) (g : segments) : dispatcher :=
  mkDispatcher (calls s) (senders s) (statsInChanRWLock s) ch (currentSegIndex s) x (removing s) g.

(** The next step of [receiveStats]; a whole round of it in one minute is
    [Stats.receive]. *)
Definition receiveStats_next (s : dispatcher) : option dispatcher :=
  match receiver s with
  | Await =>
      match statsInChan s with
      | [] => None
      | m :: ch =>
          Some (set_receiver s ch (if negb (action m =? CONNACTION_PROCESS_FIN)%Z then Await else Took m) (segs_ s))
      end
  | Took m =>
      let '(a, g) := count_segment (segs_ s) (currentSegIndex s) m in
      Some (set_receiver s (statsInChan s) (Storing a) g)
  | Storing a => Some (set_receiver s (statsInChan s) Await (put_segment (segs_ s) (currentSegIndex s) a))
  end.

(** The goroutine that sets the current minute every two seconds. *)
Definition tick (s : dispatcher) (now : Z) : dispatcher :=
  mkDispatcher (calls s) (senders s) (statsInChanRWLock s) (statsInChan s) (calIndex now) (receiver s) (removing s) (segs_ s).

(** The next step of [gcStats] when it is not asleep. *)
Definition gcStats_next (s : dispatcher) : dispatcher :=
  let set g x := mkDispatcher (calls s) (senders s) (statsInChanRWLock s) (statsInChan s) (currentSegIndex s) (receiver s) x g in
  match removing s with
  | None =>
      let delRangeLength := gc_excess (statsSegs (segs_ s)) in
      set (segs_ s) (if (delRangeLength <? 1)%Z then None else Some (delRangeLength, 1%Z))
  | Some (delRangeLength, i) =>
      if (0 <=? delRangeLength - i)%Z
      then set (mkSegments (delete (gc_key (currentSegIndex s) i) (statsSegs (segs_ s))) (objects (segs_ s)))
               (Some (delRangeLength, (i + 1)%Z))
      else set (segs_ s) None
  end.

(** The steps of the statistics, with those of a goroutine that has handed over its
    result; and all steps. *)
Inductive stats_step (s : dispatcher) : dispatcher → Prop :=
| step_send j s' : sendStats s j = Some s' → stats_step s s'
| step_receive s' : receiveStats_next s = Some s' → stats_step s s'
| step_finish i c sel e s' :
    calls s !! i = Some (mkCall c sel (Handed e)) → runRequestHandler s i None = Some s' → stats_step s s'.

Inductive dispatch_step (s : dispatcher) : dispatcher → Prop :=
| step_request c : dispatch_step s (processRequest_go s c)
| step_handler i err s' : runRequestHandler s i err = Some s' → dispatch_step s s'
| step_timeout i s' : pTimeout s i = Some s' → dispatch_step s s'
| step_tick now : dispatch_step s (tick s now)
| step_gc : dispatch_step s (gcStats_next s)
| step_stats s' : stats_step s s' → dispatch_step s s'.
#[export] Hint Constructors stats_step dispatch_step : dove.

(** ** Counting *)

(** The requests of a command in a segment, in a list of segments, and in all
    minutes. *)
Definition in_seg (c : str) (seg : gmap str Stats) : Z := TotalReq (default (mkStats 0 0 0) (seg !! c)).
Definition in_segs (c : str) (l : list (gmap str Stats)) : Z := foldr (fun seg n => (in_seg c seg + n)%Z) 0%Z l.
Definition total (c : str) (m : gmap Z (gmap str Stats)) : Z := in_segs c (map snd (map_to_list m)).

Definition fin_msg (c : str) (m : StatsMessage) : bool :=
  bool_decide (cmd m = c) && (action m =? CONNACTION_PROCESS_FIN)%Z.
Definition fin_sender (c : str) (x : sender) : bool :=
  match x with Lock m | Send m => fin_msg c m | _ => false end.
Definition returned (c : str) (x : call) : bool :=
  bool_decide (cmd_of x = c) && match runner x with Returned => true | _ => false end.
Definition handed (c : str) (x : call) : bool :=
  bool_decide (cmd_of x = c) && match select x with Answered _ => true | _ => false end.
Definition holds (x : sender) : bool := match x with Send _ | Release => true | _ => false end.

(** A result was handed over exactly when the select took it. *)
Definition call_ok (x : call) : Prop :=
  match select x, runner x with
  | Answered e, Handed e' => e = e'
  | Answered _, Returned => True
  | (Waiting | TimedOut), (Begun | Handling | Sending _) => True
  | _, _ => False
  end.

Definition finishing (x : call) : bool := match runner x with Handed _ => true | _ => false end.
Definition received (c : str) (x : receiving) : bool := match x with Took m => fin_msg c m | _ => false end.

(** Nothing is on its way to the statistics. *)
Definition no_more (s : dispatcher) : Prop :=
  Forall (eq Gone) (senders s) ∧ statsInChan s = [] ∧ receiver s = Await ∧ count finishing (calls s) = 0.

(** Minutes point to segments that exist. *)
Definition minutes_ok (s : dispatcher) : Prop :=
  (∀ k a, statsSegs (segs_ s) !! k = Some a → a < length (objects (segs_ s)))
  ∧ ∀ a, receiver s = Storing a → a < length (objects (segs_ s)).

Definition dispatch_inv (s : dispatcher) : Prop :=
  minutes_ok s
  ∧ Forall call_ok (calls s)
  ∧ count holds (senders s) = b2n (statsInChanRWLock s)
  ∧ (∀ m, receiver s = Took m → action m = CONNACTION_PROCESS_FIN)
  ∧ ∀ c, (in_segs c (objects (segs_ s))
          + Z.of_nat (b2n (received c (receiver s)) + count (fin_msg c) (statsInChan s) + count (fin_sender c) (senders s))
          = Z.of_nat (count (returned c) (calls s)))%Z.

Lemma in_segs_app c l k : in_segs c (l ++ k) = (in_segs c l + in_segs c k)%Z.
Proof. induction l as [|x l IH]; simpl; [done|]. rewrite IH. lia. Qed.

Lemma in_segs_perm c l k : l ≡ₚ k → in_segs c l = in_segs c k.
Proof. induction 1; simpl; lia. Qed.

Lemma in_seg_count c m seg :
  action m = CONNACTION_PROCESS_FIN → in_seg c (count_message m seg) = (in_seg c seg + Z.of_nat (b2n (fin_msg c m)))%Z.
Proof.
  intros Ha. unfold in_seg, count_message, fin_msg. rewrite Ha, Z.eqb_refl, andb_true_r. case_bool_decide as Hc.
  - subst c. rewrite lookup_insert_eq. destruct (status m =? _)%Z; simpl; lia.
  - rewrite lookup_insert_ne by done. simpl. lia.
Qed.

Lemma in_segs_alter c m a l :
  action m = CONNACTION_PROCESS_FIN → a < length l →
  in_segs c (alter (count_message m) a l) = (in_segs c l + Z.of_nat (b2n (fin_msg c m)))%Z.
Proof.
  intros Ha. revert a. induction l as [|seg l IH]; intros [|a] Hl; simpl in *; [lia|lia| |].
  - rewrite in_seg_count by done. lia.
  - change (list_alter ?f ?a ?l) with (alter f a l). rewrite IH by lia. lia.
Qed.

(** What counting leaves of the segments and their minutes. *)
Lemma count_segment_spec g i m a g' :
  count_segment g i m = (a, g') →
  statsSegs g' = statsSegs g
  ∧ (statsSegs g !! i = Some a ∧ objects g' = alter (count_message m) a (objects g)
     ∨ statsSegs g !! i = None ∧ a = length (objects g) ∧ objects g' = objects g ++ [count_message m ∅]).
Proof.
  unfold count_segment, take_segment. destruct (statsSegs g !! i) as [b|]; intros [= <- <-]; cbn; (split; [done|]).
  - by left.
  - right. split_and!; [done|done|]. rewrite alter_app_r_alt by lia. by rewrite Nat.sub_diag.
Qed.

(** ** The invariant *)

Lemma inv_call s i x y new :
  dispatch_inv s → calls s !! i = Some x → call_ok y → Forall (fun z => holds z = false) new →
  (∀ c, b2n (returned c y) = b2n (returned c x) + count (fin_sender c) new) →
  dispatch_inv (set_call s i y new).
Proof.
  intros (Hm & Hc & Hl & Hf & Ht) Hi Hy Hn Hr. split_and!; cbn; [done| | |done|].
  - by apply Forall_insert.
  - rewrite count_app, (count_zero holds new Hn). lia.
  - intros c. rewrite count_app. pose proof (count_insert (returned c) _ _ _ y Hi).
    specialize (Ht c). specialize (Hr c). lia.
Qed.

Lemma inv_sender s j x y locked ch :
  dispatch_inv s → senders s !! j = Some x →
  b2n locked + b2n (holds x) = b2n (statsInChanRWLock s) + b2n (holds y) →
  (∀ c, count (fin_msg c) ch + b2n (fin_sender c y) = count (fin_msg c) (statsInChan s) + b2n (fin_sender c x)) →
  dispatch_inv (set_sender s j y locked ch).
Proof.
  intros (Hm & Hc & Hl & Hf & Ht) Hj Hh Hch. split_and!; cbn; [done|done| |done|].
  - pose proof (count_insert holds _ _ _ y Hj). lia.
  - intros c. pose proof (count_insert (fin_sender c) _ _ _ y Hj). specialize (Ht c). specialize (Hch c). lia.
Qed.

(** The holder of the lock is one. *)
Lemma holder_locked s j x : dispatch_inv s → senders s !! j = Some x → holds x = true → statsInChanRWLock s = true.
Proof.
  intros (_ & _ & Hl & _) Hj Hx. assert (0 < count holds (senders s)) by (apply count_pos; eauto).
  destruct (statsInChanRWLock s); [done|]. simpl in *. lia.
Qed.

Lemma inv_receive s s' : dispatch_inv s → receiveStats_next s = Some s' → dispatch_inv s'.
Proof.
  intros ([Hm1 Hm2] & Hc & Hl & Hf & Ht) H. unfold receiveStats_next in H. destruct (receiver s) as [|m|a] eqn:Er.
  - destruct (statsInChan s) as [|m ch] eqn:Ech; [done|]. injection H as <-.
    split_and!; cbn; [|done|done| |].
    + split; [done|]. intros a. cbn. by case_match.
    + intros m' Hm'. case_match eqn:Ea; [done|]. injection Hm' as <-. by apply negb_false_iff, Z.eqb_eq in Ea.
    + intros c. specialize (Ht c). rewrite ?Ech, ?Er in Ht. cbn in Ht. unfold fin_msg in *.
      destruct (action m =? CONNACTION_PROCESS_FIN)%Z eqn:Ea; cbn; unfold fin_msg; rewrite ?Ea; rewrite ?andb_false_r, ?andb_true_r in *; cbn in *; lia.
  - pose proof (Hf m eq_refl) as Ha. destruct (count_segment _ _ _) as [a g] eqn:E. injection H as <-.
    destruct (count_segment_spec _ _ _ _ _ E) as [Hs [[Hk Ho]|(Hk & -> & Ho)]]; split_and!; cbn; try done;
      try (unfold minutes_ok; cbn [segs_ set_receiver receiver]; rewrite Hs); rewrite Ho; rewrite ?length_alter, ?length_app; cbn.
    + split; [done|]. intros b [= <-]. by eapply Hm1.
    + intros c. rewrite in_segs_alter by (done || by eapply Hm1). specialize (Ht c). rewrite ?Er in Ht. cbn in *. lia.
    + split; [intros k b Hb%Hm1; lia|]. intros b [= <-]. lia.
    + intros c. rewrite in_segs_app. cbn. rewrite in_seg_count by done. specialize (Ht c). rewrite ?Er in Ht. cbn in *.
      unfold in_seg. rewrite lookup_empty. cbn. lia.
  - injection H as <-. split_and!; cbn; [|done|done|done|].
    + split; [|done]. cbn. intros k b. destruct (decide (currentSegIndex s = k)) as [<-|Hne].
      * rewrite lookup_insert_eq. intros [= <-]. by apply Hm2.
      * rewrite lookup_insert_ne by done. apply Hm1.
    + intros c. specialize (Ht c). rewrite ?Er in Ht. done.
Qed.

Lemma inv_handler s s' i err : dispatch_inv s → runRequestHandler s i err = Some s' → dispatch_inv s'.
Proof.
  intros Hinv H. unfold runRequestHandler in H. destruct (calls s !! i) as [[c sel r]|] eqn:Hi; [|done].
  assert (call_ok (mkCall c sel r)) as Hok by (by eapply Forall_lookup_1; [apply Hinv|]).
  destruct sel, r; simplify_eq; try done;
    (eapply inv_call; [done|done|done|by repeat constructor|]);
    intros c'; unfold returned; cbn; rewrite ?andb_false_r, ?andb_true_r; unfold fin_msg; cbn;
    rewrite ?andb_false_r, ?andb_true_r; simpl; lia.
Qed.

Lemma inv_stats s s' : dispatch_inv s → stats_step s s' → dispatch_inv s'.
Proof.
  intros Hinv [j s'' H | s'' H | i c sel e s'' _ H]; [|by eapply inv_receive|by eapply inv_handler].
  unfold sendStats in H. destruct (senders s !! j) as [[m|m| |]|] eqn:Hj; try done.
  - destruct (statsInChanRWLock s) eqn:El; [done|]. simplify_eq.
    eapply inv_sender; [done|done|by rewrite El|done].
  - case_match; [|done]. simplify_eq. eapply inv_sender; [done|done|done|].
    intros c. rewrite count_snoc. simpl. lia.
  - simplify_eq. eapply inv_sender; [done|done| |done].
    by rewrite (holder_locked s j Release).
Qed.

Lemma inv_gc s : dispatch_inv s → dispatch_inv (gcStats_next s).
Proof.
  intros ([Hm1 Hm2] & Hc & Hl & Hf & Ht). unfold gcStats_next. destruct (removing s) as [[d i]|].
  - destruct (0 <=? d - i)%Z; split_and!; cbn; try done; (split; [|done]); try done. cbn. intros k a [_ Hk]%lookup_delete_Some. by eapply Hm1.
  - by split_and!.
Qed.

Lemma inv_dispatch s s' : dispatch_step s s' → dispatch_inv s → dispatch_inv s'.
Proof.
  intros [c | i err s'' H | i s'' H | now | | s'' H] Hinv.
  - destruct Hinv as (Hm & Hc & Hl & Hf & Ht). split_and!; cbn; [done| |done|done|].
    + apply Forall_app. by repeat constructor.
    + intros c'. rewrite count_snoc. unfold returned at 2. simpl. rewrite andb_false_r. specialize (Ht c'). simpl. lia.
  - by eapply inv_handler.
  - unfold pTimeout in H. destruct (calls s !! i) as [[c [ | |] r]|] eqn:Hi; simplify_eq.
    assert (call_ok (mkCall c Waiting r)) as Hok by (by eapply Forall_lookup_1; [apply Hinv|]).
    eapply inv_call; [done|done|by destruct r|constructor|].
    intros c'. unfold returned. simpl. lia.
  - done.
  - by apply inv_gc.
  - by eapply inv_stats.
Qed.

Lemma dispatch_reachable now s : steps dispatch_step (dispatcher_init now) s → dispatch_inv s.
Proof. intros H. eapply (steps_inv _ _ _ _ inv_dispatch H). split_and!; [by split|constructor|done|done|done]. Qed.

(** ** Minutes *)

(** A step that neither changes the minute while a message is between its two reads
    nor removes a minute. *)
Definition calm_step (s s' : dispatcher) : Prop :=
  dispatch_step s s'
  ∧ ((∃ a, receiver s = Storing a) → currentSegIndex s' = currentSegIndex s)
  ∧ ∀ k, is_Some (statsSegs (segs_ s) !! k) → is_Some (statsSegs (segs_ s') !! k).

(** The segment that is not yet that of a minute. *)
Definition loose (s : dispatcher) : list nat :=
  match receiver s with
  | Storing a => match statsSegs (segs_ s) !! currentSegIndex s with Some _ => [] | None => [a] end
  | _ => []
  end.

(** Every segment belongs to one minute. *)
Definition one_each (s : dispatcher) : Prop :=
  (map snd (map_to_list (statsSegs (segs_ s))) ++ loose s) ≡ₚ seq 0 (length (objects (segs_ s)))
  ∧ ∀ a b, receiver s = Storing a → statsSegs (segs_ s) !! currentSegIndex s = Some b → a = b.

Lemma one_each_same s s' :
  segs_ s' = segs_ s → receiver s' = receiver s →
  ((∃ a, receiver s = Storing a) → currentSegIndex s' = currentSegIndex s) → one_each s → one_each s'.
Proof.
  intros Hg Hr Hi. unfold one_each, loose. rewrite Hg, Hr. destruct (receiver s) as [| |a]; [by intros [? _]..|].
  by rewrite Hi by by exists a.
Qed.

Lemma one_each_receive s s' : receiveStats_next s = Some s' → one_each s → one_each s'.
Proof.
  unfold receiveStats_next, one_each, loose. destruct (receiver s) as [|m|a].
  - destruct (statsInChan s) as [|m ch]; [done|]. intros [= <-] [H _]. cbn. by destruct (negb _).
  - destruct (count_segment _ _ _) as [a g] eqn:E. intros [= <-] [H _]. cbn [receiver segs_ currentSegIndex set_receiver].
    rewrite app_nil_r in H. destruct (count_segment_spec _ _ _ _ _ E) as [-> [[-> ->]|(-> & -> & ->)]].
    + rewrite app_nil_r, length_alter. split; [done|]. by intros ? ? [= <-] [= <-].
    + rewrite length_app, seq_app, H. done.
  - intros [= <-] [H Ho]. cbn. rewrite app_nil_r. split; [|done].
    destruct (statsSegs (segs_ s) !! currentSegIndex s) as [b|] eqn:Ek.
    + rewrite (Ho a b) by done. rewrite insert_id by done. by rewrite app_nil_r in H.
    + rewrite <- H, map_to_list_insert by done. cbn. by rewrite Permutation_cons_append.
Qed.

Lemma one_each_calm s s' : calm_step s s' → one_each s → one_each s'.
Proof.
  intros (Hstep & Hi & Hd) H. destruct Hstep as [c | i err s'' Hs | i s'' Hs | now | | s'' [j s3 Hs | s3 Hs | i c sel e s3 _ Hs]].
  all: try (by eapply one_each_receive).
  1, 4: by apply (one_each_same s).
  3: { unfold gcStats_next in *. destruct (removing s) as [[d i]|]; [|by apply (one_each_same s)].
       destruct (0 <=? d - i)%Z; [|by apply (one_each_same s)].
       assert (delete (gc_key (currentSegIndex s) i) (statsSegs (segs_ s)) = statsSegs (segs_ s)) as E.
       { apply delete_id. destruct (statsSegs (segs_ s) !! gc_key (currentSegIndex s) i) as [a|] eqn:Ek; [|done].
         destruct (Hd (gc_key (currentSegIndex s) i)) as [b Hb]; [by rewrite Ek|]. cbn in Hb. by rewrite lookup_delete_eq in Hb. }
       unfold one_each, loose in *. cbn in *. by rewrite E. }
  all: apply (one_each_same s); try done.
  all: unfold runRequestHandler, pTimeout, sendStats in Hs; repeat case_match; by simplify_eq.
Qed.

Lemma total_one_each s c :
  one_each s → receiver s = Await → total c (seg_values (segs_ s)) = in_segs c (objects (segs_ s)).
Proof.
  intros [H _] Hr. unfold loose in H. rewrite Hr, app_nil_r in H. unfold total, seg_values.
  rewrite map_to_list_fmap. change (map snd ?l) with (snd <$> l). rewrite <- list_fmap_compose.
  assert ((snd ∘ prod_map id (fun a => default ∅ (objects (segs_ s) !! a))) <$> map_to_list (statsSegs (segs_ s))
          = (fun a => default ∅ (objects (segs_ s) !! a)) <$> (snd <$> map_to_list (statsSegs (segs_ s)))) as ->
    by (rewrite <- list_fmap_compose; by apply list_fmap_ext).
  change (snd <$> ?l) with (map snd l). erewrite in_segs_perm by (by rewrite H). f_equal.
  generalize (objects (segs_ s)). clear. intros l. induction l as [|x l IH] using rev_ind; [done|].
  rewrite length_app, seq_app, fmap_app. cbn. rewrite list_lookup_middle by done. f_equal. rewrite <- IH at 2.
  apply list_fmap_ext. intros i a Ha. apply lookup_seq in Ha as [-> Ha]. by rewrite lookup_app_l.
Qed.

(** ** Draining *)

Definition sender_work (x : sender) : nat := match x with Lock _ => 6 | Send _ => 5 | Release => 1 | Gone => 0 end.
Definition receiver_work (x : receiving) : nat := match x with Await => 0 | Took _ => 2 | Storing _ => 1 end.
Definition work (s : dispatcher) : nat :=
  7 * count finishing (calls s) + sum_list_with sender_work (senders s) + 3 * length (statsInChan s) + receiver_work (receiver s).

Lemma sum_list_with_insert {A} (f : A → nat) l i x y :
  l !! i = Some x → sum_list_with f (<[i := y]> l) + f x = sum_list_with f l + f y.
Proof.
  revert i. induction l as [|z l IH]; intros [|i]; simpl; try done.
  - intros [= ->]. lia.
  - intros H%IH. lia.
Qed.

(** What was answered, and what timed out, stays so. *)
Definition handing (x : call) : str * selecting * bool :=
  (cmd_of x, select x, match runner x with Handed _ | Returned => true | _ => false end).

Lemma stats_step_work s s' : stats_step s s' → work s' < work s ∧ map handing (calls s') = map handing (calls s).
Proof.
  intros [j s'' H | s'' H | i c sel e s'' Hi H]; unfold work.
  - unfold sendStats in H. destruct (senders s !! j) as [x|] eqn:Hj; [|done].
    destruct x; [case_match|case_match| |]; simplify_eq/=; (split; [|done]);
      match goal with |- context [<[j := ?y]> _] => pose proof (sum_list_with_insert sender_work _ _ _ y Hj) end;
      rewrite ?length_app; simpl in *; lia.
  - unfold receiveStats_next in H. destruct (receiver s) as [|m|a].
    + destruct (statsInChan s) as [|m ch]; simplify_eq/=. split; [|done]. case_match; simpl; lia.
    + destruct (count_segment _ _ _). simplify_eq/=. split; [lia|done].
    + simplify_eq/=. split; [lia|done].
  - unfold runRequestHandler in H. rewrite Hi in H.
    assert (s'' = set_call s i (mkCall c sel Returned) [Lock (mkMsg c CONNACTION_PROCESS_FIN (finStatus e))]) as -> by by destruct sel; simplify_eq.
    cbn. rewrite sum_list_with_app. cbn.
    pose proof (count_insert finishing _ _ _ (mkCall c sel Returned) Hi) as Hc. cbn in Hc. split; [lia|].
    rewrite list_fmap_insert. apply list_insert_id. by rewrite list_lookup_fmap, Hi.
Qed.

(** Someone can always go on: the receiver, a goroutine that has handed over, the
    holder of the lock, or, without one, any sender. *)
Lemma stats_progress s : dispatch_inv s → no_more s ∨ ∃ s', stats_step s s'.
Proof.
  intros Hinv. destruct (receiver s) as [|m|a] eqn:Er.
  2:{ right. destruct (count_segment (segs_ s) (currentSegIndex s) m) as [a g] eqn:E.
      eexists. apply step_receive. unfold receiveStats_next. by rewrite Er, E. }
  2:{ right. eexists. apply step_receive. unfold receiveStats_next. by rewrite Er. }
  destruct (statsInChan s) as [|m ch] eqn:Ech.
  2:{ right. eexists. apply step_receive. unfold receiveStats_next. by rewrite Er, Ech. }
  destruct (decide (0 < count finishing (calls s))) as [Hf|Hf].
  { right. apply count_pos in Hf as (i & [c sel [| | |e|]] & Hi & Hx); try done.
    assert (∃ s', runRequestHandler s i None = Some s') as [s' Hs'] by (unfold runRequestHandler; rewrite Hi; by destruct sel; eexists).
    exists s'. by eapply step_finish. }
  assert (∀ j x, senders s !! j = Some x → holds x = true → ∃ s', stats_step s s') as Hholder.
  { intros j x Hj Hx. destruct x; try done; eexists; eapply (step_send s j); unfold sendStats; rewrite Hj; [|done].
    by rewrite Ech. }
  destruct (decide (Forall (eq Gone) (senders s))) as [Hg|Hg].
  { left. split_and!; [done..|lia]. }
  right. apply not_Forall_Exists, Exists_exists in Hg as (x & Hx & Hne); [|apply _].
  apply list_elem_of_lookup in Hx as [j Hj].
  destruct (statsInChanRWLock s) eqn:El.
  - destruct Hinv as (_ & _ & Hl & _). rewrite El in Hl. simpl in Hl.
    destruct (proj1 (count_pos holds (senders s))) as (k & y & Hk & Hy); [lia|]. eauto.
  - destruct x as [m|m| |]; [|by eapply Hholder..|done].
    eexists. eapply (step_send s j). unfold sendStats. by rewrite Hj, El.
Qed.

(** Returned is answered when nobody is about to return. *)
Lemma returned_handed c l :
  Forall call_ok l → count finishing l = 0 → count (returned c) l = count (handed c) l.
Proof.
  induction 1 as [|[c' sel r] l Hx _ IH]; [done|]. cbn [count]. intros Hf. rewrite IH by lia.
  assert (finishing (mkCall c' sel r) = false) as Hfin by (destruct (finishing _); [simpl in Hf; lia|done]).
  unfold returned, handed, call_ok, finishing in *. cbn in *. by destruct sel, r.
Qed.

Lemma handed_map c l l' : map handing l = map handing l' → count (handed c) l = count (handed c) l'.
Proof.
  revert l'. induction l as [|x l IH]; intros [|y l'] H; try done. cbn [map] in H.
  assert (handing x = handing y ∧ map handing l = map handing l') as [Hx Hl] by (split; congruence).
  cbn [count]. rewrite (IH l' Hl). f_equal. unfold handing in Hx. unfold handed.
  destruct x, y. cbn in *. by simplify_eq.
Qed.

Lemma no_more_total s c :
  dispatch_inv s → no_more s → in_segs c (objects (segs_ s)) = Z.of_nat (count (handed c) (calls s)).
Proof.
  intros (_ & Hc & _ & _ & Ht) (Hg & Hch & Hr & Hf). specialize (Ht c).
  assert (count (fin_sender c) (senders s) = 0) as Hz.
  { apply count_zero. eapply Forall_impl; [exact Hg|]. by intros ? <-. }
  rewrite Hch, Hr, Hz, (returned_handed c) in Ht by done. simpl in Ht. lia.
Qed.

Lemma drains s :
  dispatch_inv s → ∃ s', steps stats_step s s' ∧ no_more s' ∧ map handing (calls s') = map handing (calls s).
Proof.
  induction s as [s IH] using (induction_ltof1 _ work). intros Hinv.
  destruct (stats_progress s Hinv) as [Hno | [s1 H1]]; [by exists s; split; [constructor|]|].
  destruct (stats_step_work s s1 H1) as [Hlt Hcalls].
  destruct (IH s1) as (s' & Hs & Hno & Hc); [exact Hlt|by eapply inv_stats|].
  exists s'. split_and!; [by econstructor|done|congruence].
Qed.

Lemma stats_nsteps n s s' : relations.nsteps stats_step n s s' → n + work s' ≤ work s.
Proof.
  induction 1 as [s|n s s1 s' H1 _ IH]; [lia|]. apply stats_step_work in H1. lia.
Qed.

Lemma stats_calm s s' : stats_step s s' → calm_step s s'.
Proof.
  intros H. split; [by apply step_stats|]. destruct H as [j s3 Hs | s3 Hs | i c sel e s3 _ Hs].
  - unfold sendStats in Hs. repeat case_match; by simplify_eq.
  - unfold receiveStats_next in Hs. destruct (receiver s) as [|m|a].
    + by destruct (statsInChan s); simplify_eq.
    + destruct (count_segment _ _ _) as [a g] eqn:E. injection Hs as <-. cbn. by rewrite (proj1 (count_segment_spec _ _ _ _ _ E)).
    + injection Hs as <-. cbn. split; [done|]. intros k [b Hb].
      destruct (decide (currentSegIndex s = k)) as [<-|]; [by rewrite lookup_insert_eq|by rewrite lookup_insert_ne, Hb].
  - unfold runRequestHandler in Hs. repeat case_match; by simplify_eq.
Qed.

Lemma calm_reachable now s : steps calm_step (dispatcher_init now) s → one_each s.
Proof. intros H. by apply (steps_inv _ _ _ _ one_each_calm H). Qed.

(** ** The end of a request *)

Definition asked (c : str) (x : call) : bool := bool_decide (cmd_of x = c).
Definition timed_out (c : str) (x : call) : bool :=
  bool_decide (cmd_of x = c) && match select x with TimedOut => true | _ => false end.
Definition waits (x : call) : Prop :=
  select x = TimedOut ∧ match runner x with Begun | Handling | Sending _ => True | _ => False end.

Lemma returned_timed_out c l :
  Forall call_ok l → count (returned c) l + count (timed_out c) l ≤ count (asked c) l.
Proof.
  induction 1 as [|[c' sel r] l Hx _ IH]; [done|]. cbn [count].
  assert (b2n (returned c (mkCall c' sel r)) + b2n (timed_out c (mkCall c' sel r)) ≤ b2n (asked c (mkCall c' sel r)));
    [|lia].
  unfold returned, timed_out, asked. simpl. case_bool_decide; [|done]. destruct sel, r; (done || (simpl; lia)).
Qed.

Lemma replace_call s i x y new j :
  calls s !! i = Some x → calls (set_call s i y new) !! j = if decide (i = j) then Some y else calls s !! j.
Proof.
  intros Hi. cbn. case_decide as Hij; [subst j|by apply list_lookup_insert_ne].
  apply list_lookup_insert_eq. by eapply lookup_lt_Some.
Qed.

(** What a step leaves of a request that timed out. *)
Lemma waits_step s s' i x :
  dispatch_step s s' → calls s !! i = Some x → waits x →
  ∃ y, calls s' !! i = Some y ∧ waits y ∧ cmd_of y = cmd_of x ∧ ∀ e, runner x = Sending e → y = x.
Proof.
  intros Hstep Hi [Hsel Hr].
  assert (∀ s', calls s' !! i = Some x →
    ∃ y, calls s' !! i = Some y ∧ waits y ∧ cmd_of y = cmd_of x ∧ ∀ e, runner x = Sending e → y = x) as Hkeep
    by (intros t Ht; by exists x).
  assert (∀ j err s', runRequestHandler s j err = Some s' →
    ∃ y, calls s' !! i = Some y ∧ waits y ∧ cmd_of y = cmd_of x ∧ ∀ e, runner x = Sending e → y = x) as Hrun.
  { intros j err t H. unfold runRequestHandler in H. destruct (calls s !! j) as [[c sel r]|] eqn:Hj; [|done].
    destruct (decide (j = i)) as [-> |Hji].
    + rewrite Hi in Hj. simplify_eq/=.
      destruct r; simplify_eq; eexists; (split; [by rewrite (replace_call _ _ _ _ _ _ Hi), decide_True|]); done.
    + destruct sel, r; simplify_eq; apply Hkeep; by rewrite (replace_call _ _ _ _ _ _ Hj), decide_False. }
  destruct Hstep as [c | j err s'' H | j s'' H | now | | s'' [j s3 H | s3 H | j c sel e s3 _ H]].
  - apply Hkeep. cbn. by apply lookup_app_l_Some.
  - by eapply Hrun.
  - unfold pTimeout in H. destruct (calls s !! j) as [[c [ | |] r]|] eqn:Hj; simplify_eq.
    destruct (decide (j = i)) as [-> |Hji]; [rewrite Hi in Hj; by simplify_eq/=|].
    apply Hkeep. by rewrite (replace_call _ _ _ _ _ _ Hj), decide_False.
  - by apply Hkeep.
  - apply Hkeep. unfold gcStats_next. destruct (removing s) as [[d k]|]; [by destruct (0 <=? d - k)%Z|done].
  - apply Hkeep. unfold sendStats in H. repeat case_match; by simplify_eq.
  - apply Hkeep. unfold receiveStats_next in H. repeat case_match; by simplify_eq.
  - by eapply Hrun.
Qed.

(** ** Theorems *)

(** In every state the client can reach, no more requests of a command are counted
    than were answered: those that timed out are missing, at every moment and for
    every interleaving of the goroutines. *)
Theorem requests_counted (now : Z) (s : dispatcher) (c : str) (H : steps dispatch_step (dispatcher_init now) s) :
  (in_segs c (objects (segs_ s)) + Z.of_nat (count (timed_out c) (calls s)) <= Z.of_nat (count (asked c) (calls s)))%Z.
Proof.
  destruct (dispatch_reachable now s H) as (_ & Hc & _ & _ & Ht). specialize (Ht c).
  pose proof (returned_timed_out c (calls s) Hc). lia.
Qed.

(** C8.  The statistics settle: from every reachable state the goroutines of the
    statistics, and those that have handed over a result, reach a state in which
    nothing is on its way to the statistics, in a number of their steps that is
    bounded whatever their order.  Then the segments hold, for every command, exactly
    the number of requests whose result was handed over; and these are the numbers of
    the minutes if, on the way to that state, no minute ended while a message was
    between the two reads of it and [gcStats] removed none. *)
Theorem stats_drain (now : Z) (s : dispatcher) (H : steps dispatch_step (dispatcher_init now) s) :
  (∀ n s', relations.nsteps stats_step n s s' →
     n ≤ 7 * count finishing (calls s) + 6 * length (senders s) + 3 * length (statsInChan s) + 2)
  ∧ ∃ s', steps stats_step s s' ∧ no_more s' ∧ map handing (calls s') = map handing (calls s)
      ∧ (∀ c, in_segs c (objects (segs_ s')) = Z.of_nat (count (handed c) (calls s)))
      ∧ (steps calm_step (dispatcher_init now) s →
         ∀ c, total c (seg_values (segs_ s')) = Z.of_nat (count (handed c) (calls s))).
Proof.
  split.
  - intros n s' Hn%stats_nsteps. unfold work in Hn.
    assert (sum_list_with sender_work (senders s) ≤ 6 * length (senders s)).
    { clear; induction (senders s) as [|x l IH]; simpl; [lia|]. destruct x; simpl; lia. }
    assert (receiver_work (receiver s) ≤ 2) by (destruct (receiver s); simpl; lia). lia.
  - pose proof (dispatch_reachable now s H) as Hinv. destruct (drains s Hinv) as (s' & Hs & Hno & Hc).
    assert (∀ c, in_segs c (objects (segs_ s')) = Z.of_nat (count (handed c) (calls s))) as Hin.
    { intros c. rewrite (no_more_total s' c), (handed_map c _ _ Hc); [done| |done].
      by eapply (steps_inv stats_step dispatch_inv _ _ (fun a b Hab Ha => inv_stats a b Ha Hab) Hs). }
    exists s'. split_and!; [done..|]. intros Hcalm c. rewrite total_one_each; [done| |apply Hno].
    apply (steps_inv calm_step one_each s s' one_each_calm); [|by eapply calm_reachable].
    clear -Hs. induction Hs as [|a b d Hab _ IH]; [constructor|]. eapply steps_one; [by apply stats_calm|done].
Qed.

(** C9.  A request that timed out never hands over its result: whatever happens
    afterwards its goroutine is still there, and once it has the result it waits
    at the unbuffered channel for ever. *)
Theorem timed_out_leaks (now : Z) (s s' : dispatcher) (i : nat) (x : call)
    (H : steps dispatch_step (dispatcher_init now) s) (Hi : calls s !! i = Some x) (Hx : select x = TimedOut)
    (H' : steps dispatch_step s s') :
  ∃ y, calls s' !! i = Some y ∧ waits y ∧ cmd_of y = cmd_of x ∧ ∀ e, runner x = Sending e → y = x.
Proof.
  assert (waits x) as Hw.
  { split; [done|]. assert (call_ok x) as Hok by (by eapply Forall_lookup_1; [apply (dispatch_reachable now s H)|]).
    unfold call_ok in Hok. rewrite Hx in Hok. by destruct (runner x). }
  clear H Hx. revert x Hi Hw. induction H' as [s|s s1 s2 H1 _ IH]; intros x Hi Hw; [by exists x|].
  destruct (waits_step s s1 i x H1 Hi Hw) as (y & Hy & Hwy & Hc & He).
  destruct (IH y Hy Hwy) as (z & Hz & Hwz & Hcz & Hez). exists z. split_and!; [done..|congruence|].
  intros e Hxe. destruct (He e Hxe). eauto.
Qed.

(** ** Runs *)

Inductive move :=
| AMessage (c : str) | AHandler (i : nat) (err : option error) | ATimeout (i : nat) | ASend (j : nat) | AReceive | ATick (now : Z).

Definition dispatch_move (s : dispatcher) (m : move) : option dispatcher :=
  match m with
  | AMessage c => Some (processRequest_go s c)
  | AHandler i err => runRequestHandler s i err
  | ATimeout i => pTimeout s i
  | ASend j => sendStats s j
  | AReceive => receiveStats_next s
  | ATick now => Some (tick s now)
  end.

(** A run that passes over the moves nobody can make. *)
Definition run_dispatch (s : dispatcher) (l : list move) : dispatcher :=
  fold_left (fun s m => default s (dispatch_move s m)) l s.

Lemma dispatch_move_step s m s' : dispatch_move s m = Some s' → dispatch_step s s'.
Proof. intros H. destruct m; simplify_eq/=; eauto with dove. Qed.

Lemma run_dispatch_steps s l : steps dispatch_step s (run_dispatch s l).
Proof.
  revert s. induction l as [|m l IH]; intros s; [constructor|].
  change (steps dispatch_step s (run_dispatch (default s (dispatch_move s m)) l)).
  destruct (dispatch_move s m) as [s1|] eqn:E; [|apply IH].
  apply steps_one with s1; [by eapply dispatch_move_step|apply IH].
Qed.

(** Moves that leave the minutes alone are calm. *)
Lemma run_dispatch_calm s l :
  Forall (fun m => match m with ATick _ => False | _ => True end) l → steps calm_step s (run_dispatch s l).
Proof.
  intros Hl. revert s. induction Hl as [|m l Hm _ IH]; intros s; [constructor|].
  change (steps calm_step s (run_dispatch (default s (dispatch_move s m)) l)).
  destruct (dispatch_move s m) as [s1|] eqn:E; [|apply IH]. apply steps_one with s1; [|apply IH].
  destruct m; try done; try (apply stats_calm; by econstructor; simplify_eq/=).
  - split; [by eapply dispatch_move_step|]. by simplify_eq/=.
  - split; [by eapply dispatch_move_step|]. cbn in E. unfold runRequestHandler in E. repeat case_match; by simplify_eq.
  - split; [by eapply dispatch_move_step|]. cbn in E. unfold pTimeout in E. repeat case_match; by simplify_eq.
Qed.

(** Two requests: the first times out while its handler runs, the second is
    answered. *)
Definition two_requests_moves : list move :=
  [AMessage $"GetProjectConfig"; AMessage $"GetProjectConfig"; AHandler 0 None; AHandler 1 None; ATimeout 0;
   AHandler 0 (Some $"late"); AHandler 1 None; AHandler 1 None; AHandler 1 None; ASend 1].
Definition two_requests : dispatcher := run_dispatch (dispatcher_init 60) two_requests_moves.

Definition settle_moves (js : list nat) : list move :=
  flat_map (fun j => [ASend j; ASend j; ASend j; AReceive; AReceive; AReceive]) js.

(** The statistics of the two requests, once they have settled: one. *)
Example one_of_two :
  let s := run_dispatch two_requests (settle_moves [1; 0; 2]) in
  forallb (fun x => match x with Gone => true | _ => false end) (senders s) = true
  ∧ statsInChan s = [] ∧ total $"GetProjectConfig" (seg_values (segs_ s)) = 1%Z
  ∧ map runner (calls s) = [Sending (Some $"late"); Returned].
Proof. vm_compute. by split_and!. Qed.

(** The minute ends while the message of the second request is between the two reads:
    three requests are shown in both minutes. *)
Example minute_counted_twice :
  let req i := [AMessage $"Get"; AHandler i None; AHandler i None; AHandler i None; AHandler i None] in
  let s := run_dispatch (dispatcher_init 60)
             (req 0 ++ settle_moves [0; 1]
              ++ req 1 ++ settle_moves [2] ++ [ASend 3; ASend 3; ASend 3; AReceive; AReceive; ATick 120; AReceive]
              ++ req 2 ++ settle_moves [4; 5]) in
  in_segs $"Get" (objects (segs_ s)) = 3%Z
  ∧ map (fun k => TotalReq (stat_at (segs_ s) k $"Get")) [60; 120]%Z = [3; 3]%Z.
Proof. vm_compute. by split_and!. Qed.

Lemma requests_counted_witness :
  (in_segs $"GetProjectConfig" (objects (segs_ two_requests))
   + Z.of_nat (count (timed_out $"GetProjectConfig") (calls two_requests))
   <= Z.of_nat (count (asked $"GetProjectConfig") (calls two_requests)))%Z.
Proof. apply (requests_counted 60). apply run_dispatch_steps. Defined.

Lemma stats_drain_witness :
  (∀ n s', relations.nsteps stats_step n two_requests s' →
     n ≤ 7 * count finishing (calls two_requests) + 6 * length (senders two_requests) + 3 * length (statsInChan two_requests) + 2)
  ∧ ∃ s', steps stats_step two_requests s' ∧ no_more s' ∧ map handing (calls s') = map handing (calls two_requests)
      ∧ (∀ c, in_segs c (objects (segs_ s')) = Z.of_nat (count (handed c) (calls two_requests)))
      ∧ total $"GetProjectConfig" (seg_values (segs_ s')) = 1%Z.
Proof.
  destruct (stats_drain 60 two_requests (run_dispatch_steps _ _)) as (Hn & s' & Hs & Hno & Hc & Hin & Hcalm).
  split; [exact Hn|]. exists s'. split_and!; [exact Hs|exact Hno|exact Hc|exact Hin|].
  rewrite Hcalm by (apply run_dispatch_calm; repeat constructor). vm_compute. reflexivity.
Defined.

Lemma timed_out_leaks_witness :
  ∃ y, calls (run_dispatch two_requests [AReceive; AHandler 0 None]) !! 0 = Some y ∧ waits y
     ∧ cmd_of y = $"GetProjectConfig"
     ∧ ∀ e, Sending (Some $"late") = Sending e → y = mkCall $"GetProjectConfig" TimedOut (Sending (Some $"late")).
Proof.
  apply (timed_out_leaks 60 two_requests _ 0 (mkCall $"GetProjectConfig" TimedOut (Sending (Some $"late")))).
  - apply run_dispatch_steps.
  - by vm_compute.
  - done.
  - apply run_dispatch_steps.
Defined.
