(* ===== verification/UpdateLock.v ===== *)
(** * The update lock of configwatcher/zk_watcher.go

    [getUpdateLock] and [releaseUpdateLock] by any number of goroutines: each
    update task has the name it updates (a root node or a schema file).  The
    counter is protected by a mutex, so that counting, and releasing, are one
    step each; the channel [updateLock] of capacity one is the lock itself.

    [update_lock_safe]: one update at a time, at most one running and one waiting
    per name.  [update_not_lost]: a task is turned away only when another task of
    the same name has yet to start.  [update_lock_live]: no deadlock. *)

From S2P Require Import Prelude.

(** Where a goroutine is: before [getUpdateLock]; counted and waiting to send on
    [updateLock]; holding the lock; turned away; after [releaseUpdateLock]. *)
Inductive pc := Start | Waiting | Running | Refused | Finished.
#[export] Instance pc_eq_dec : EqDecision pc.
Proof. solve_decision. Defined.

Record lock_state := mkLock {
  counter : gmap str Z;
  updateLock : bool;
  tasks : list (str * pc) }.

(** The part of [getUpdateLock] under the mutex: [None] when it returns false. *)
Definition count_in (c : gmap str Z) (name : str) : option (gmap str Z) :=
  match c !! name with
  | Some n => if (1 <? n)%Z then None else Some (<[name := (n + 1)%Z]> c)
  | None => Some (<[name := 1%Z]> c)
  end.
(** The counter after [releaseUpdateLock]. *)
Definition count_out (c : gmap str Z) (name : str) : gmap str Z :=
  <[name := (default 0 (c !! name) - 1)%Z]> c.

(** One step of goroutine [t]; [None] when it cannot step now. *)
Definition getUpdateLock (s : lock_state) (t : nat) : option lock_state :=
  match tasks s !! t with
  | Some (name, Start) =>
      match count_in (counter s) name with
      | None => Some (mkLock (counter s) (updateLock s) (<[t := (name, Refused)]> (tasks s)))
      | Some c => Some (mkLock c (updateLock s) (<[t := (name, Waiting)]> (tasks s)))
      end
  | Some (name, Waiting) =>
      if updateLock s then None
      else Some (mkLock (counter s) true (<[t := (name, Running)]> (tasks s)))
  | _ => None
  end.

Definition releaseUpdateLock (s : lock_state) (t : nat) : option lock_state :=
  match tasks s !! t with
  | Some (name, Running) =>
      if updateLock s
      then Some (mkLock (count_out (counter s) name) false (<[t := (name, Finished)]> (tasks s)))
      else None
  | _ => None
  end.

Inductive step : lock_state → lock_state → Prop :=
| step_get s t s' : getUpdateLock s t = Some s' → step s s'
| step_release s t s' : releaseUpdateLock s t = Some s' → step s s'.

Definition init (names : list str) : lock_state :=
  mkLock ∅ false (map (fun n => (n, Start)) names).
Definition reachable (names : list str) (s : lock_state) : Prop := steps step (init names) s.

(** ** Invariant *)

Definition is_pc (q : pc) (x : str * pc) : bool := bool_decide (x.2 = q).
Definition of_name (name : str) (q : pc) (x : str * pc) : bool :=
  bool_decide (x.1 = name) && bool_decide (x.2 = q).

Definition running (s : lock_state) : nat := count (is_pc Running) (tasks s).
Definition active (s : lock_state) (name : str) : nat :=
  count (of_name name Waiting) (tasks s) + count (of_name name Running) (tasks s).

Definition inv (s : lock_state) : Prop :=
  running s = b2n (updateLock s)
  ∧ ∀ name, Z.of_nat (active s name) = default 0%Z (counter s !! name)
      ∧ (default 0 (counter s !! name) <= 2)%Z.

Lemma of_name_val name n q q' :
  b2n (of_name n q (name, q')) = if decide (q' = q) then b2n (bool_decide (name = n)) else 0.
Proof.
  unfold of_name. simpl. case_decide as H.
  - subst. rewrite (bool_decide_eq_true_2 (q = q)) by done. by rewrite andb_true_r.
  - rewrite (bool_decide_eq_false_2 (q' = q)) by done. by rewrite andb_false_r.
Qed.

Lemma active_replace s t name q q' c u n :
  tasks s !! t = Some (name, q) →
  active (mkLock c u (<[t := (name, q')]> (tasks s))) n
  + (if decide (q = Waiting ∨ q = Running) then b2n (bool_decide (name = n)) else 0)
  = active s n + (if decide (q' = Waiting ∨ q' = Running) then b2n (bool_decide (name = n)) else 0).
Proof.
  intros Ht. unfold active. simpl.
  pose proof (count_insert (of_name n Waiting) _ _ _ (name, q') Ht) as H1.
  pose proof (count_insert (of_name n Running) _ _ _ (name, q') Ht) as H2.
  rewrite !of_name_val in H1, H2.
  destruct q, q'; repeat (first [rewrite decide_True in * by tauto | rewrite decide_False in * by naive_solver]); lia.
Qed.

Lemma running_replace s t name q q' c u :
  tasks s !! t = Some (name, q) →
  running (mkLock c u (<[t := (name, q')]> (tasks s))) + b2n (bool_decide (q = Running))
  = running s + b2n (bool_decide (q' = Running)).
Proof. intros Ht. exact (count_insert (is_pc Running) _ _ _ (name, q') Ht). Qed.

Lemma lookup_insert_case (c : gmap str Z) name v n :
  default 0%Z (<[name := v]> c !! n) = if bool_decide (name = n) then v else default 0%Z (c !! n).
Proof.
  case_bool_decide as H; [subst; by rewrite lookup_insert_eq|by rewrite lookup_insert_ne].
Qed.

Lemma inv_get s t s' : inv s → getUpdateLock s t = Some s' → inv s'.
Proof.
  intros [Hr Hc] H. unfold getUpdateLock in H.
  destruct (tasks s !! t) as [[name q]|] eqn:Ht; [|done]. destruct q; try done.
  - unfold count_in in H. destruct (counter s !! name) as [k|] eqn:Ek; [destruct (Z.ltb_spec 1 k)|]; simplify_eq.
    all: split;
      [match goal with |- running (mkLock ?c ?u (<[_ := (_, ?q)]> _)) = _ =>
         pose proof (running_replace s t name Start q c u Ht) as H1; simpl in *; lia end|].
    all: intros n; match goal with |- context [active (mkLock ?c ?u (<[_ := (_, ?q)]> _)) _] =>
           pose proof (active_replace s t name Start q c u n Ht) as H1 end;
         specialize (Hc n); pose proof (Hc) as [Hc1 Hc2]; cbn [counter] in *; rewrite ?lookup_insert_case;
         simpl in H1; try case_bool_decide as Hn; subst; rewrite ?Ek in *; simpl in *; lia.
  - destruct (updateLock s) eqn:Hu; [done|]. simplify_eq. split.
    + pose proof (running_replace s t name Waiting Running (counter s) true Ht) as H1. simpl in *. lia.
    + intros n. pose proof (active_replace s t name Waiting Running (counter s) true n Ht) as H1.
      specialize (Hc n). simpl in *. lia.
Qed.

Lemma inv_release s t s' : inv s → releaseUpdateLock s t = Some s' → inv s'.
Proof.
  intros [Hr Hc] H. unfold releaseUpdateLock in H.
  destruct (tasks s !! t) as [[name q]|] eqn:Ht; [|done]. destruct q; try done.
  destruct (updateLock s) eqn:Hu; [|done]. simplify_eq.
  pose proof (running_replace s t name Running Finished (count_out (counter s) name) false Ht) as H1.
  split; [simpl in *; lia|]. intros n.
  pose proof (active_replace s t name Running Finished (count_out (counter s) name) false n Ht) as H2.
  specialize (Hc n). cbn [counter]. unfold count_out in *. rewrite lookup_insert_case. simpl in *.
  case_bool_decide; subst; simpl in *; lia.
Qed.

Lemma inv_reachable names s : reachable names s → inv s.
Proof.
  intros H. eapply (steps_inv step inv); [|exact H|].
  - intros a b [x t y Hg|x t y Hg] Ha; [by eapply inv_get|by eapply inv_release].
  - unfold init, inv, running, active. simpl. split.
    + apply count_zero, List.Forall_forall. intros x (n & <- & _)%in_map_iff. done.
    + intros name. rewrite lookup_empty. simpl. split; [|lia].
      rewrite !count_zero; [done|..]; apply List.Forall_forall; intros x (n & <- & _)%in_map_iff;
        unfold of_name; simpl; by rewrite andb_false_r.
Qed.

(** ** Theorems *)

(** C13.  At most one update runs at any time, over all names; and for each name
    at most two tasks are past the counter, one running and one waiting. *)
Theorem update_lock_safe (names : list str) (s : lock_state) :
  reachable names s →
  (∀ t t' n n', tasks s !! t = Some (n, Running) → tasks s !! t' = Some (n', Running) → t = t')
  ∧ ∀ name, active s name ≤ 2.
Proof.
  intros [Hr Hc]%inv_reachable. split.
  - intros t t' n n' H H'. destruct (decide (t = t')) as [|Hne]; [done|].
    pose proof (count_ge_two (is_pc Running) _ _ _ _ _ Hne H H' eq_refl eq_refl) as H2.
    unfold running in Hr. destruct (updateLock s); simpl in Hr; lia.
  - intros name. specialize (Hc name). lia.
Qed.

(** Two tasks of one name and one of another: the first one runs, the second
    waits, and the third is turned away. *)
Definition busy : lock_state :=
  mkLock (<[ $"db" := 2%Z ]> ∅) true [($"db", Running); ($"db", Waiting); ($"db", Start)].
Lemma busy_reachable : reachable [$"db"; $"db"; $"db"] busy.
Proof.
  unfold reachable. eapply steps_one; [by apply (step_get _ 0)|].
  eapply steps_one; [by apply (step_get _ 0)|]. eapply steps_one; [by apply (step_get _ 1)|].
  match goal with |- steps _ ?x _ => replace x with busy by reflexivity end. constructor.
Defined.

Lemma update_lock_safe_witness :
  (∀ t t' n n', tasks busy !! t = Some (n, Running) → tasks busy !! t' = Some (n', Running) → t = t')
  ∧ ∀ name, active busy name ≤ 2.
Proof. apply (update_lock_safe [$"db"; $"db"; $"db"]). exact busy_reachable. Defined.

(** C17.  No update is lost: a task is turned away only in a state where another
    task of the same name waits for the lock, and so starts its update later. *)
Theorem update_not_lost (names : list str) (s s' : lock_state) (t : nat) (name : str) :
  reachable names s → tasks s !! t = Some (name, Start) →
  getUpdateLock s t = Some s' → tasks s' !! t = Some (name, Refused) →
  ∃ t', t' ≠ t ∧ tasks s' !! t' = Some (name, Waiting).
Proof.
  intros [Hr Hc]%inv_reachable Ht Hg Ht'. unfold getUpdateLock in Hg. rewrite Ht in Hg.
  assert (t < length (tasks s)) as Hlt by by apply lookup_lt_Some in Ht.
  unfold count_in in Hg. destruct (counter s !! name) as [k|] eqn:Ek.
  2:{ simplify_eq/=. by rewrite list_lookup_insert_eq in Ht'. }
  destruct (Z.ltb_spec 1 k) as [Hk|Hk].
  2:{ simplify_eq/=. by rewrite list_lookup_insert_eq in Ht'. }
  simplify_eq. destruct (Hc name) as [Ha _]. rewrite Ek in Ha. simpl in Ha. unfold active in Ha.
  assert (count (of_name name Running) (tasks s) ≤ running s) as Hle.
  { unfold running. clear. induction (tasks s) as [|[n q] l IH]; simpl; [done|].
    unfold of_name, is_pc in *. simpl. destruct (bool_decide (n = name)); simpl; lia. }
  assert (0 < count (of_name name Waiting) (tasks s)) as Hw by (destruct (updateLock s); simpl in Hr; lia).
  apply count_pos in Hw as (t' & [n q] & Hl & Hp). unfold of_name in Hp. bool_to_prop. simplify_eq/=.
  exists t'. assert (t' ≠ t) by congruence. split; [done|]. by rewrite list_lookup_insert_ne.
Qed.

Lemma update_not_lost_witness :
  ∃ t', t' ≠ 2 ∧ tasks (mkLock (counter busy) true [($"db", Running); ($"db", Waiting); ($"db", Refused)]) !! t'
                 = Some ($"db", Waiting).
Proof.
  apply (update_not_lost [$"db"; $"db"; $"db"] busy _ 2 $"db").
  - exact busy_reachable.
  - reflexivity.
  - reflexivity.
  - reflexivity.
Defined.

(** C18.  No deadlock: in every reachable state where some task is not turned
    away or finished, some goroutine can step; in particular a task that holds
    the lock can always release it. *)
Theorem update_lock_live (names : list str) (s : lock_state) :
  reachable names s →
  (∀ t name, tasks s !! t = Some (name, Running) → is_Some (releaseUpdateLock s t))
  ∧ ((∃ t name q, tasks s !! t = Some (name, q) ∧ (q = Start ∨ q = Waiting ∨ q = Running)) → ∃ s', step s s').
Proof.
  intros [Hr Hc]%inv_reachable.
  assert (∀ t name, tasks s !! t = Some (name, Running) → is_Some (releaseUpdateLock s t)) as Hrel.
  { intros t name Ht. unfold releaseUpdateLock. rewrite Ht.
    assert (0 < running s) as Hp by (apply count_pos; exists t, (name, Running); done).
    destruct (updateLock s); [eauto|simpl in Hr; lia]. }
  split; [done|]. intros (t & name & q & Ht & Hq).
  destruct (updateLock s) eqn:Hu.
  - assert (0 < running s) as (t' & [n p] & Ht' & Hp)%count_pos by (simpl in Hr; lia).
    unfold is_pc in Hp. bool_to_prop. simpl in Hp. subst p.
    destruct (Hrel _ _ Ht') as [s' ?]. exists s'. by eapply step_release.
  - destruct Hq as [-> | [-> | ->]].
    + destruct (getUpdateLock s t) as [s'|] eqn:E; [exists s'; by eapply step_get|].
      unfold getUpdateLock in E. rewrite Ht in E. by destruct (count_in _ _).
    + eexists. eapply (step_get _ t). unfold getUpdateLock. by rewrite Ht, Hu.
    + destruct (Hrel _ _ Ht) as [s' ?]. exists s'. by eapply step_release.
Qed.

Lemma update_lock_live_witness : ∃ s', step busy s'.
Proof.
  apply (update_lock_live [$"db"; $"db"; $"db"] busy busy_reachable).
  exists 0, $"db", Running. split; [reflexivity|]. by right; right.
Defined.
