(* ===== verification/ProjConfig.v ===== *)
(** * projconfig: where a configuration comes from

    projconfig/projconfig.go and debugconfig.go over the interfaces of the
    storage components: [LocalDisk] for the local database (discharged by the
    leveldb connection), the etcd connection as the result of its [Get], process
    memory from [Storage.Mem].  Times and goroutines of [getLockOfSrv] are in
    [SrvLock].

    [SaveToDisk_GetFromDisk], [GetFromServer_published]: what is stored or
    published is what is read.  [GetConfig_remembers],
    [GetConfig_restart]: the order of the sources and what a successful call
    leaves behind. *)

From S2P Require Import Prelude GoLib GoFmt Util Base64 Json Encrypt Storage.

(** ** The local database *)

(** What the package relies on of the local database. *)
Class LocalDisk (D : Type) := {
  disk_Get : D → str → result str * D;
  disk_Put : D → str → str → option error * D;
  healthy : D → Prop;
  disk_Put_Get d k v d' : healthy d → disk_Put d k v = (None, d') →
    healthy d' ∧ disk_Get d' k = (inr v, d')
    ∧ ∀ k' x, k' ≠ k → disk_Get d k' = (inr x, d) → disk_Get d' k' = (inr x, d') }.

(** The leveldb connection is such a database while it is open and unlocked. *)
#[export] Instance leveldb_disk {W H} `{!LevelDB.GoLevelDB W H} (Dsn : str)
  : LocalDisk (W * LevelDB.Conn H).
Proof.
  refine {|
    disk_Get := fun '(w, c) k =>
      match LevelDB.Get Dsn w c [] k with
      | (inr v, w', c') => (inr v, (w', c'))
      | (inl e, w', c') => (inl (LevelDB.err_text e), (w', c'))
      end;
    disk_Put := fun '(w, c) k v =>
      match LevelDB.Put Dsn w c [] k v with (e, w', c') => (LevelDB.err_text <$> e, (w', c')) end;
    healthy := fun '(w, c) => LevelDB.is_open w (LevelDB.rconn c) = true ∧ LevelDB.locked c = false |}.
  intros [w c] k v [w' c'] [Ho Hl] Hp.
  destruct (LevelDB.Put_open Dsn w c [] k v Ho Hl) as [(e & w1 & _ & E)|(w1 & E & Ho1 & Hk)];
    rewrite E in Hp; simplify_eq/=.
  split_and!; [done|done| |].
  - destruct (LevelDB.Get_open Dsn w' c' [] k Ho1 Hl) as (e & _ & ->). by rewrite Hk, lookup_insert_eq.
  - intros k' x Hne Hg. destruct (LevelDB.Get_open Dsn w c' [] k' Ho Hl) as (e & _ & E1). rewrite E1 in Hg.
    destruct (LevelDB.contents w (LevelDB.rconn c') !! k') as [y|] eqn:Ey; simplify_eq/=.
    destruct (LevelDB.Get_open Dsn w' c' [] k' Ho1 Hl) as (e' & _ & ->).
    by rewrite Hk, lookup_insert_ne, Ey.
Defined.

(** ** Settings *)

Record Settings := mkSettings {
  ENCRYPT_ENABLE : bool;
  ENCRYPT_IV : str;
  ENCRYPT_KEY : str;
  (** a [float64], as [json_float] gives it *)
  ENCRYPT_VER : Z * Z;
  DEVMODE : bool }.

Definition GetEncryptor (cfg : Settings) : Encryptor := mkEncryptor (ENCRYPT_IV cfg) (ENCRYPT_KEY cfg) [] [].

(** ** Local storage *)

Section disk.
Context {D : Type} `{!LocalDisk D}.

(** [getLocalStorage]: the error of [GetDb], if any. *)
Definition GetFromDisk (cfg : Settings) (open_err : option error) (d : D) (name : str)
    : outcome (result str * D) :=
  match open_err with
  | Some err => Done (inl err, d)
  | None =>
      match disk_Get d name with
      | (inl err, d') => Done (inl ($"Failed to read config [" ++ name ++ $"] from db: " ++ err), d')
      | (inr re, d') =>
          if ENCRYPT_ENABLE cfg then
            r ← Decrypt (GetEncryptor cfg) re;
            match r with
            | inl err => Done (inl ($"Failed to decrypt config[" ++ name ++ $"]: " ++ err), d')
            | inr plain => Done (inr plain, d')
            end
          else Done (inr re, d')
      end
  end.

Definition SaveToDisk (cfg : Settings) (open_err : option error) (d : D) (name content : str)
    : outcome (option error * D) :=
  match open_err with
  | Some err => Done (Some err, d)
  | None =>
      if ENCRYPT_ENABLE cfg then
        r ← Encrypt (GetEncryptor cfg) content;
        match r with
        | inl err => Done (Some ($"Failed to enctypt config[" ++ name ++ $"] when saving to disk: " ++ err), d)
        | inr content => Done (disk_Put d name content)
        end
      else Done (disk_Put d name content)
  end.

End disk.

(** ** The configuration server *)

Definition assertion_panic {A} : outcome A := Panic $"interface conversion".

(** [x.(float64)] of a member; [None] is the nil interface. *)
Definition as_float (x : option json) : outcome (Z * Z) :=
  match x with Some (JNum lit) => Done (json_float lit) | _ => assertion_panic end.
Definition is_nil (x : option json) : bool :=
  match x with None | Some JNull => true | _ => false end.

(** [ENCRYPT_VER != metadata["encrypt_ver"]]: a comparison of interfaces. *)
Definition ver_differs (cfg : Settings) (x : option json) : bool :=
  match x with
  | Some (JNum lit) => negb (bool_decide (ENCRYPT_VER cfg = json_float lit))
  | _ => true
  end.

Section server.
(** The texts of errors and of [%v] and [%f] prints. *)
Context (json_error : str → error) (base64_error : str → error) (print_json : json → str)
        (print_float : Z * Z → str) (print_ver : option json → str).

(** [GetFromServer] after [GetConn]: the error, or a [Storage] whose [Conn] may be
    nil; [get] is the result of its [Get] for the path of the name. *)
Definition server_content (cfg : Settings) (name rawContent : str) : outcome (result str) :=
  let decode_error := Done (inl ($"Failed to decode config content from config server: " ++ json_error rawContent)) in
  match Unmarshal rawContent with
  | None => decode_error
  | Some (JObj rawConfig) =>
      match member $"metadata" rawConfig with
      | Some (JObj metadata) =>
          encrypted ← (if is_nil (member $"encrypted" metadata) then Done 0%Z
                       else f ← as_float (member $"encrypted" metadata); Done (float_int f));
          state ← as_float (member $"state" metadata);
          if negb (float_int state =? 1)%Z then
            Done (inl ($"config[" ++ name ++ $"] is marked as un-published on config server. Skipped this version of the content"))
          else if (encrypted =? 1)%Z then
            if negb (is_nil (member $"encrypt_ver" metadata)) && ver_differs cfg (member $"encrypt_ver" metadata) then
              Done (inl ($"config [" ++ name ++ $"] is an encrypted version on config server, but your encryption settings is ver("
                         ++ print_float (ENCRYPT_VER cfg) ++ $")  while the config server is ver("
                         ++ print_ver (member $"encrypt_ver" metadata) ++ $"). "))
            else
              match member $"content" rawConfig with
              | Some (JStr content) =>
                  match DecodeString content with
                  | None => Done (inl ($"Failed to decode content of [" ++ name ++ $"] config from server: " ++ base64_error content))
                  | Some re =>
                      r ← Decrypt (GetEncryptor cfg) re;
                      match r with
                      | inl err => Done (inl ($"Failed to decrypt of [" ++ name ++ $"] config from server: " ++ err))
                      | inr plain => Done (inr plain)
                      end
                  end
              | _ => assertion_panic
              end
          else
            match member $"content" rawConfig with
            | None | Some JNull => Done (inr [])
            | Some (JStr content) => Done (inr content)
            | Some other =>
                Done (inl ($"config content of [" ++ name ++ $"] on config server is broken: " ++ print_json other))
            end
      | _ => assertion_panic
      end
  | Some JNull => assertion_panic
  | Some _ => decode_error
  end.

Definition GetFromServer (cfg : Settings) (conn : result (option (str → result str))) (root name : str)
    : outcome (result str) :=
  match conn with
  | inl err => Done (inl ($"Failed to get remote storage engine: %s" ++ err))
  | inr None => Panic $"invalid memory address or nil pointer dereference"
  | inr (Some get) =>
      match get (Zk.CN2P root name) with
      | inl err => Done (inl err)
      | inr rawContent => server_content cfg name rawContent
      end
  end.

(** ** GetConfig *)

Context {D : Type} `{!LocalDisk D}.
(** [util.TomlConfigValueToJson]. *)
Context (TomlValueToJson : str → result (option str)).

Record world := mkWorld { mem : Mem.Mem; disk : D }.

(** The part of [GetConfig] after the memory: the disk, then the server, whose
    answer is saved to disk. *)
Definition load_config (cfg : Settings) (open_err : option error)
    (conn : result (option (str → result str))) (root : str) (w : world) (name : str)
    : outcome (result (option str) * world) :=
  fromDisk ← GetFromDisk cfg open_err (disk w) name;
  let '(r, d) := fromDisk in
  got ← (match r with
         | inr re => Done (inr re, d)
         | inl _ =>
             s ← GetFromServer cfg conn root name;
             match s with
             | inl err => Done (inl err, d)
             | inr re => saved ← SaveToDisk cfg open_err d name re; Done (inr re, saved.2)
             end
         end);
  let '(r, d) := got in
  match r with
  | inl _ => Done (inl ($"Failed to get config[" ++ name ++ $"] by any means!"), mkWorld (mem w) d)
  | inr re =>
      match TomlValueToJson re with
      | inl err => Done (inl err, mkWorld (mem w) d)
      | inr j => Done (inr j, mkWorld (Mem.StoreToMem (mem w) name j) d)
      end
  end.

(** [debug] is what [GetConfigBySchemafile] returns when there are debug
    configurations; [fetch] is what [getLockOfSrv] returned: [None] when the
    caller does not lock, [Some false] when another goroutine has fetched. *)
Definition GetConfig (cfg : Settings) (open_err : option error)
    (conn : result (option (str → result str))) (root : str)
    (debug : option str) (fetch : option bool) (w : world) (name : str)
    : outcome (result (option str) * world) :=
  match debug with
  | Some re => Done (inr (Some re), w)
  | None =>
      match Mem.GetFromMem (mem w) name with
      | Some re => Done (inr (Some re), w)
      | None =>
          match fetch with
          | Some false =>
              match Mem.GetFromMem (mem w) name with
              | None => Done (inl ($"Failed to get config[" ++ name ++ $"] by any means after a waiting!"), w)
              | Some re => Done (inr (Some re), w)
              end
          | _ => load_config cfg open_err conn root w name
          end
      end
  end.

End server.
Arguments world D : clear implicits.

(** ** Theorems *)

Definition encryptor_ok (cfg : Settings) : Prop := ENCRYPT_ENABLE cfg = true → usable (GetEncryptor cfg).

(** A text that survives the zero padding of the cipher. *)
Definition no_trailing_zero (s : str) : Prop := list.last s ≠ Some byte0.

Lemma SaveToDisk_spec {D} `{!LocalDisk D} cfg (d : D) name content :
  encryptor_ok cfg →
  ∃ stored r, SaveToDisk cfg None d name content = Done r ∧ r = disk_Put d name stored
    ∧ ∀ d', healthy d → r = (None, d') →
        GetFromDisk cfg None d' name =
          Done (inr (if ENCRYPT_ENABLE cfg then strip_zeros content else content), d').
Proof.
  intros He. unfold SaveToDisk, GetFromDisk, encryptor_ok in *. destruct (ENCRYPT_ENABLE cfg).
  - destruct (Encrypt_roundtrip (GetEncryptor cfg) content (He eq_refl)) as (e & -> & _ & HD & _).
    exists e, (disk_Put d name e). split_and!; [done|done|]. intros d' Hh Hp.
    destruct (disk_Put_Get _ _ _ _ Hh Hp) as (_ & -> & _). by rewrite HD.
  - exists content, (disk_Put d name content). split_and!; [done|done|]. intros d' Hh Hp.
    by destruct (disk_Put_Get _ _ _ _ Hh Hp) as (_ & -> & _).
Qed.

(** A configuration saved to the local database is read back, encrypted or
    not, when it does not end in a zero byte; without encryption always; other
    configurations are not touched. *)
Theorem SaveToDisk_GetFromDisk {D} `{!LocalDisk D} (cfg : Settings) (d d' : D) (name content : str) :
  encryptor_ok cfg → healthy d → SaveToDisk cfg None d name content = Done (None, d') →
  (no_trailing_zero content ∨ ENCRYPT_ENABLE cfg = false) →
  GetFromDisk cfg None d' name = Done (inr content, d')
  ∧ ∀ other x, other ≠ name → GetFromDisk cfg None d other = Done (inr x, d) →
      (∃ raw, disk_Get d other = (inr raw, d)) → GetFromDisk cfg None d' other = Done (inr x, d').
Proof.
  intros He Hh Hs Hz. destruct (SaveToDisk_spec cfg d name content He) as (stored & r & Hs' & -> & Hr).
  rewrite Hs' in Hs. injection Hs as Hp. split.
  - rewrite (Hr d' Hh Hp). destruct (ENCRYPT_ENABLE cfg); [|done].
    rewrite strip_zeros_id; [done|]. by destruct Hz.
  - intros other x Hne Hg (raw & Hraw). destruct (disk_Put_Get _ _ _ _ Hh Hp) as (_ & _ & Hk).
    unfold GetFromDisk in *. rewrite Hraw in Hg. rewrite (Hk other raw Hne Hraw).
    destruct (ENCRYPT_ENABLE cfg); [|by simplify_eq].
    destruct (Decrypt (GetEncryptor cfg) raw) as [[e|p]|]; by simplify_eq/=.
Qed.

(** A database in memory. *)
#[export] Instance map_disk : LocalDisk (gmap str str).
Proof.
  refine {| disk_Get := fun d k => (match d !! k with Some v => inr v | None => inl $"leveldb: not found" end, d);
            disk_Put := fun d k v => (None, <[k := v]> d);
            healthy := fun _ => True |}.
  intros d k v d' _ [= <-]. split; [done|]. rewrite lookup_insert_eq. split; [done|].
  intros k' x Hne Hg. rewrite lookup_insert_ne by done. destruct (d !! k'); by simplify_eq.
Defined.

Definition example_cfg : Settings := mkSettings true $"11111111" $"example-encrypt-key" (0, 0)%Z false.
Definition no_json_error : str → error := fun _ => $"invalid character".

Lemma example_cfg_ok : encryptor_ok example_cfg.
Proof. intros _. split; [vm_compute; lia|reflexivity]. Qed.

Lemma SaveToDisk_GetFromDisk_witness :
  let d' := match SaveToDisk example_cfg None (∅ : gmap str str) $"db.host" $"host=1" with
            | Done (_, d') => d' | Panic _ => ∅ end in
  GetFromDisk example_cfg None d' $"db.host" = Done (inr $"host=1", d').
Proof.
  intros d'. refine (proj1 (SaveToDisk_GetFromDisk example_cfg (∅ : gmap str str) d' $"db.host" $"host=1" _ _ _ _)).
  - exact example_cfg_ok.
  - exact I.
  - vm_compute. reflexivity.
  - left. vm_compute. discriminate.
Defined.

(** The document of a published configuration on the server: the metadata and
    the content, for an encrypted one in base64. *)
Definition published (encrypted content : str) : list (str * json) :=
  [($"metadata", JObj [($"state", JNum $"1"); ($"encrypted", JNum encrypted)]); ($"content", JStr content)].

Lemma server_content_encrypted json_error base64_error print_json print_float print_ver
    (cfg : Settings) (name raw content re : str) :
  Unmarshal raw = Some (JObj (published $"1" content)) → DecodeString content = Some re →
  server_content json_error base64_error print_json print_float print_ver cfg name raw =
    (r ← Decrypt (GetEncryptor cfg) re;
     match r with
     | inl err => Done (inl ($"Failed to decrypt of [" ++ name ++ $"] config from server: " ++ err))
     | inr plain => Done (inr plain)
     end).
Proof.
  intros Hr Hd. unfold server_content. rewrite Hr.
  change (match DecodeString content with
    | None => Done (inl ($"Failed to decode content of [" ++ name ++ $"] config from server: " ++ base64_error content))
    | Some re =>
        r ← Decrypt (GetEncryptor cfg) re;
        match r with
        | inl err => Done (inl ($"Failed to decrypt of [" ++ name ++ $"] config from server: " ++ err))
        | inr plain => Done (inr plain)
        end
    end = (r ← Decrypt (GetEncryptor cfg) re;
     match r with
     | inl err => Done (inl ($"Failed to decrypt of [" ++ name ++ $"] config from server: " ++ err))
     | inr plain => Done (inr plain)
     end)).
  by rewrite Hd.
Qed.

(** What the server publishes is what the client gets: for a published
    document [GetFromServer] returns the content of a plain configuration as it
    is, and of one that was encrypted with the client's key and IV and encoded in
    base64 the text without its trailing zero bytes. *)
Theorem GetFromServer_published (json_error base64_error : str → error) (print_json : json → str)
    (print_float : Z * Z → str) (print_ver : option json → str)
    (cfg : Settings) (get : str → result str) (root name raw text e : str) :
  usable (GetEncryptor cfg) → get (Zk.CN2P root name) = inr raw →
  let fetched := GetFromServer json_error base64_error print_json print_float print_ver cfg (inr (Some get)) root name in
  (Unmarshal raw = Some (JObj (published $"0" text)) → fetched = Done (inr text))
  ∧ (Encrypt (GetEncryptor cfg) text = Done (inr e) →
     Unmarshal raw = Some (JObj (published $"1" (encode e))) → fetched = Done (inr (strip_zeros text))).
Proof.
  intros Hu Hg fetched. unfold fetched, GetFromServer. rewrite Hg. split.
  - intros Hr. unfold server_content. rewrite Hr. reflexivity.
  - intros He Hr. rewrite (server_content_encrypted _ _ _ _ _ _ _ _ _ _ Hr (DecodeString_encode e)).
    destruct (Encrypt_roundtrip (GetEncryptor cfg) text Hu) as (e' & He' & _ & HD & _).
    rewrite He in He'. injection He' as <-. by rewrite HD.
Qed.

Definition example_raw : str :=
  let q s := dquote :: s ++ [dquote] in
  $"{" ++ q $"metadata" ++ $":{" ++ q $"state" ++ $":1," ++ q $"encrypted" ++ $":0}," ++ q $"content" ++ $":" ++ q $"x=1" ++ $"}".

Lemma GetFromServer_published_witness :
  GetFromServer no_json_error no_json_error (fun _ => []) (fun _ => []) (fun _ => [])
    example_cfg (inr (Some (fun _ => inr example_raw))) $"/dove" $"a.x" = Done (inr $"x=1").
Proof.
  refine (proj1 (GetFromServer_published no_json_error no_json_error (fun _ => []) (fun _ => []) (fun _ => [])
           example_cfg (fun _ => inr example_raw) $"/dove" $"a.x" example_raw $"x=1" [] _ _) _).
  - by apply example_cfg_ok.
  - reflexivity.
  - vm_compute. reflexivity.
Defined.

(** ** GetConfig *)

Section getconfig.
Context (json_error base64_error : str → error) (print_json : json → str)
        (print_float : Z * Z → str) (print_ver : option json → str).
Context {D : Type} `{!LocalDisk D} (TomlValueToJson : str → result (option str)).

Abbreviation get_config := (GetConfig json_error base64_error print_json print_float print_ver TomlValueToJson).
Abbreviation get_from_server := (GetFromServer json_error base64_error print_json print_float print_ver).

Lemma GetConfig_from_mem cfg oe conn root fetch (w : world D) name j :
  Mem.GetFromMem (mem w) name = Some j →
  get_config cfg oe conn root None fetch w name = Done (inr (Some j), w).
Proof. intros H. unfold GetConfig. by rewrite H. Qed.

Lemma GetFromMem_StoreToMem m name j : Mem.GetFromMem (Mem.StoreToMem m name j) name = j.
Proof. unfold Mem.GetFromMem, Mem.StoreToMem. simpl. by rewrite lookup_insert_eq. Qed.

Lemma load_config_success cfg oe conn root (w w' : world D) name j :
  load_config json_error base64_error print_json print_float print_ver TomlValueToJson cfg oe conn root w name
    = Done (inr (Some j), w') →
  Mem.GetFromMem (mem w') name = Some j.
Proof.
  unfold load_config. destruct (GetFromDisk cfg oe (disk w) name) as [[r d]|]; [|done].
  cbn [mbind outcome_bind].
  match goal with |- context [?X ≫= (fun got => let '(r, d) := got in _)] =>
    destruct X as [[[e|re] d2]|] end; [by intros [=]| |done].
  cbn [mbind outcome_bind]. destruct (TomlValueToJson re) as [e|j']; [by intros [=]|].
  intros [= -> <-]. simpl. apply GetFromMem_StoreToMem.
Qed.

Lemma GetConfig_success cfg oe conn root fetch (w w' : world D) name j :
  get_config cfg oe conn root None fetch w name = Done (inr (Some j), w') →
  Mem.GetFromMem (mem w') name = Some j.
Proof.
  unfold GetConfig. destruct (Mem.GetFromMem (mem w) name) as [re|] eqn:Em; [intros; by simplify_eq|].
  destruct fetch as [[]|]; [apply load_config_success|done|apply load_config_success].
Qed.

End getconfig.

(** A configuration that was found stays found: when [GetConfig] succeeds
    without a debug value, the value is in memory afterwards, and every later
    call returns it at once, whatever the disk, the server and the fetch lock say. *)
Theorem GetConfig_remembers (json_error base64_error : str → error) (print_json : json → str)
    (print_float : Z * Z → str) (print_ver : option json → str) {D} `{!LocalDisk D}
    (TomlValueToJson : str → result (option str)) (cfg : Settings) (oe : option error)
    (conn : result (option (str → result str))) (root : str) (fetch : option bool) (w w' : world D) (name j : str) :
  let get := GetConfig json_error base64_error print_json print_float print_ver TomlValueToJson in
  get cfg oe conn root None fetch w name = Done (inr (Some j), w') →
  ∀ cfg' oe' conn' root' fetch', get cfg' oe' conn' root' None fetch' w' name = Done (inr (Some j), w').
Proof.
  intros get Hg cfg' oe' conn' root' fetch'. apply GetConfig_from_mem. by eapply GetConfig_success.
Qed.

Definition plain_cfg : Settings := mkSettings false [] [] (0, 0)%Z false.
Definition example_world : world (gmap str str) := mkWorld (Mem.mkMem ∅ ∅) ∅.
Definition example_conn : result (option (str → result str)) := inr (Some (fun _ => inr example_raw)).
Definition example_get :=
  GetConfig (D := gmap str str) no_json_error no_json_error (fun _ => []) (fun _ => []) (fun _ => [])
    (fun s => inr (Some s)).

Lemma GetConfig_remembers_witness :
  let w' := mkWorld (Mem.StoreToMem (Mem.mkMem ∅ ∅) $"a.x" (Some $"x=1")) {[ $"a.x" := $"x=1" ]} in
  example_get plain_cfg None (inl $"down") $"/dove" None (Some true) w' $"a.x" = Done (inr (Some $"x=1"), w').
Proof.
  intros w'.
  apply (GetConfig_remembers no_json_error no_json_error (fun _ => []) (fun _ => []) (fun _ => [])
    (fun s => inr (Some s)) plain_cfg None example_conn $"/dove" None example_world w' $"a.x" $"x=1").
  vm_compute. reflexivity.
Defined.

(** C12.  A configuration fetched from the server survives a restart: it is saved
    to the local database, and a process that starts with an empty memory and
    cannot reach the server gets the same value from there. *)
Theorem GetConfig_restart (json_error base64_error : str → error) (print_json : json → str)
    (print_float : Z * Z → str) (print_ver : option json → str) {D} `{!LocalDisk D}
    (TomlValueToJson : str → result (option str)) (cfg : Settings)
    (conn : result (option (str → result str))) (root : str) (m : Mem.Mem) (d d' : D) (name text e j : str) :
  let get := GetConfig json_error base64_error print_json print_float print_ver TomlValueToJson in
  encryptor_ok cfg → healthy d → Mem.GetFromMem m name = None →
  GetFromDisk cfg None d name = Done (inl e, d) →
  GetFromServer json_error base64_error print_json print_float print_ver cfg conn root name = Done (inr text) →
  SaveToDisk cfg None d name text = Done (None, d') →
  TomlValueToJson text = inr (Some j) → (no_trailing_zero text ∨ ENCRYPT_ENABLE cfg = false) →
  get cfg None conn root None None (mkWorld m d) name
    = Done (inr (Some j), mkWorld (Mem.StoreToMem m name (Some j)) d')
  ∧ ∀ m' conn' root', Mem.GetFromMem m' name = None →
      get cfg None conn' root' None None (mkWorld m' d') name
        = Done (inr (Some j), mkWorld (Mem.StoreToMem m' name (Some j)) d').
Proof.
  intros get He Hh Hm Hd Hs Hsave Hj Hz.
  assert (GetFromDisk cfg None d' name = Done (inr text, d')) as Hread.
  { destruct (SaveToDisk_spec cfg d name text He) as (stored & r & Hs' & -> & Hr).
    rewrite Hs' in Hsave. injection Hsave as Hp. rewrite (Hr d' Hh Hp).
    destruct (ENCRYPT_ENABLE cfg); [|done]. rewrite strip_zeros_id; [done|]. by destruct Hz. }
  split.
  - unfold get, GetConfig, load_config. cbn [mem disk]. rewrite Hm, Hd. cbn [mbind outcome_bind].
    rewrite Hs. cbn [mbind outcome_bind]. rewrite Hsave. cbn [mbind outcome_bind snd]. by rewrite Hj.
  - intros m' conn' root' Hm'. unfold get, GetConfig, load_config. cbn [mem disk]. rewrite Hm', Hread.
    cbn [mbind outcome_bind]. by rewrite Hj.
Qed.

Lemma GetConfig_restart_witness :
  example_get plain_cfg None (inl $"down") $"/dove" None None
    (mkWorld (Mem.mkMem ∅ ∅) {[ $"a.x" := $"x=1" ]}) $"a.x"
  = Done (inr (Some $"x=1"), mkWorld (Mem.StoreToMem (Mem.mkMem ∅ ∅) $"a.x" (Some $"x=1")) {[ $"a.x" := $"x=1" ]}).
Proof.
  refine (proj2 (GetConfig_restart no_json_error no_json_error (fun _ => []) (fun _ => []) (fun _ => [])
    (fun s => inr (Some s)) plain_cfg example_conn $"/dove" (Mem.mkMem ∅ ∅) (∅ : gmap str str)
    {[ $"a.x" := $"x=1" ]} $"a.x" $"x=1" _ $"x=1" _ _ _ _ _ _ _ _) (Mem.mkMem ∅ ∅) _ _ _).
  - intros H. discriminate H.
  - exact I.
  - reflexivity.
  - vm_compute. reflexivity.
  - vm_compute. reflexivity.
  - vm_compute. reflexivity.
  - reflexivity.
  - by right.
  - reflexivity.
Defined.
