(* ===== verification/SrvLock.v ===== *)
(** * The fetch lock of projconfig/projconfig.go

    [getLockOfSrv] and [releaseLockOfSrv] for one configuration name, by any
    number of goroutines at any times.  The entry of the name has a channel of
    capacity one ([stateChan]) that carries one token; a goroutine fetches from
    the server when it created the entry, or when it took the token and the last
    fetch is too old.  The sections under [lockOfQueuedSrvCh] are one step each;
    the send in [releaseLockOfSrv] happens inside such a section, so that it must
    never block: [srv_lock_never_blocks]. *)

From S2P Require Import Prelude.

Definition MIN_INTTERVAL_OF_FETCH_FROM_SERVER : Z := 1.

(** Before the call; waiting to receive from [stateChan]; the token received;
    returned 1 (must fetch and release); returned 0; after the release. *)
Inductive pc := Start | AtChan | GotToken | Fetching | Reuse | Released.

(** [serverAccessStatusOfConfigItem]: whether the token is in the channel. *)
Record entry := mkEntry { stateChan : bool; lastUpdateTime : Z }.
Record srv := mkSrv { item : option entry; tasks : list pc }.

(** One step of goroutine [t] in [getLockOfSrv] at time [now]; [None] when it
    blocks. *)
Definition getLockOfSrv (now : Z) (s : srv) (t : nat) : option srv :=
  match tasks s !! t, item s with
  | Some Start, None => Some (mkSrv (Some (mkEntry false now)) (<[t := Fetching]> (tasks s)))
  | Some Start, Some e => Some (mkSrv (Some e) (<[t := AtChan]> (tasks s)))
  | Some AtChan, Some e =>
      if stateChan e
      then Some (mkSrv (Some (mkEntry false (lastUpdateTime e))) (<[t := GotToken]> (tasks s)))
      else None
  | Some GotToken, Some e =>
      if (MIN_INTTERVAL_OF_FETCH_FROM_SERVER <? now - lastUpdateTime e)%Z
      then Some (mkSrv (Some e) (<[t := Fetching]> (tasks s)))
      else if stateChan e then None
      else Some (mkSrv (Some (mkEntry true (lastUpdateTime e))) (<[t := Reuse]> (tasks s)))
  | _, _ => None
  end.

Definition releaseLockOfSrv (now : Z) (s : srv) (t : nat) : option srv :=
  match tasks s !! t, item s with
  | Some Fetching, Some e =>
      if stateChan e then None
      else Some (mkSrv (Some (mkEntry true (now + 3))) (<[t := Released]> (tasks s)))
  | _, _ => None
  end.

Inductive step : srv → srv → Prop :=
| step_get now s t s' : getLockOfSrv now s t = Some s' → step s s'
| step_release now s t s' : releaseLockOfSrv now s t = Some s' → step s s'.

Definition init (n : nat) : srv := mkSrv None (replicate n Start).
Definition reachable (n : nat) (s : srv) : Prop := steps step (init n) s.

(** ** Invariant: one token *)

Definition holds (p : pc) : bool := match p with GotToken | Fetching => true | _ => false end.
Definition not_start (p : pc) : bool := match p with Start => false | _ => true end.

Definition inv (s : srv) : Prop :=
  match item s with
  | None => count not_start (tasks s) = 0
  | Some e => b2n (stateChan e) + count holds (tasks s) = 1
  end.

Lemma holds_not_start l : count holds l ≤ count not_start l.
Proof. induction l as [|x l IH]; simpl; [done|]. destruct x; simpl; lia. Qed.

Lemma inv_step s s' : step s s' → inv s → inv s'.
Proof.
  unfold inv. intros [now a t b H|now a t b H] Hi;
    unfold getLockOfSrv, releaseLockOfSrv in H; destruct (tasks a !! t) as [p|] eqn:Ht; try done;
    destruct p; try done; destruct (item a) as [e|] eqn:He; try done.
  all: repeat match type of H with context [if ?c then _ else _] => destruct c eqn:? end; simplify_eq; simpl in *.
  all: match goal with |- context [<[_ := ?q]> _] =>
         pose proof (count_insert holds _ _ _ q Ht) as Hc; pose proof (holds_not_start (tasks a)); simpl in Hc end.
  all: try match goal with Hc : stateChan _ = _ |- _ => rewrite Hc in * end; simpl in *; lia.
Qed.

Lemma srv_inv_reachable n s : reachable n s → inv s.
Proof.
  intros H. eapply (steps_inv step inv); [apply inv_step|exact H|].
  unfold init, inv. simpl. apply count_zero. by apply Forall_replicate_p.
Qed.

(** ** Theorems *)

(** C37.  One fetch at a time among those that ask: of the goroutines that call
    [getLockOfSrv] for one configuration at most one is told to fetch and has not
    released at any moment.  (Other code fetches without asking: the new value of an
    update, and [GetConfig] for a schema file.) *)
Theorem srv_lock_exclusive (n : nat) (s : srv) :
  reachable n s → ∀ t t', tasks s !! t = Some Fetching → tasks s !! t' = Some Fetching → t = t'.
Proof.
  intros Hr%srv_inv_reachable t t' H H'. destruct (decide (t = t')) as [|Hne]; [done|].
  pose proof (count_ge_two holds _ _ _ _ _ Hne H H' eq_refl eq_refl) as H2.
  unfold inv in Hr. destruct (item s) as [e|]; [lia|]. pose proof (holds_not_start (tasks s)). lia.
Qed.

(** The first goroutine fetches, the second waits at the channel. *)
Definition one_fetching : srv := mkSrv (Some (mkEntry false 100)) [Fetching; AtChan].
Lemma one_fetching_reachable : reachable 2 one_fetching.
Proof.
  unfold reachable. eapply steps_one; [by apply (step_get 100 _ 0)|].
  eapply steps_one; [by apply (step_get 100 _ 1)|]. constructor.
Defined.

Lemma srv_lock_exclusive_witness :
  tasks one_fetching !! 0 = Some Fetching
  ∧ ∀ t', tasks one_fetching !! t' = Some Fetching → 0 = t'.
Proof.
  split; [reflexivity|]. intros t' H.
  apply (srv_lock_exclusive 2 one_fetching one_fetching_reachable); [reflexivity|exact H].
Defined.

(** The lock never blocks its holder and never deadlocks: a goroutine that
    fetched can release at any time, one that took the token can go on at any
    time, and as long as a call is under way some goroutine can step. *)
Theorem srv_lock_never_blocks (n : nat) (s : srv) :
  reachable n s →
  (∀ t now, tasks s !! t = Some Fetching → is_Some (releaseLockOfSrv now s t))
  ∧ (∀ t now, tasks s !! t = Some GotToken → is_Some (getLockOfSrv now s t))
  ∧ ((∃ t p, tasks s !! t = Some p ∧ p ≠ Reuse ∧ p ≠ Released) → ∃ s', step s s').
Proof.
  intros Hr%srv_inv_reachable.
  assert (∀ t p, tasks s !! t = Some p → holds p = true → ∃ e, item s = Some e ∧ stateChan e = false) as Hh.
  { intros t p Ht Hp. assert (0 < count holds (tasks s)) by (apply count_pos; eauto).
    unfold inv in Hr. pose proof (holds_not_start (tasks s)). destruct (item s) as [e|]; [|lia].
    exists e. split; [done|]. destruct (stateChan e); [simpl in Hr; lia|done]. }
  assert (∀ t now, tasks s !! t = Some Fetching → is_Some (releaseLockOfSrv now s t)) as H1.
  { intros t now Ht. destruct (Hh t _ Ht eq_refl) as (e & He & Hc). unfold releaseLockOfSrv. rewrite Ht, He, Hc. eauto. }
  assert (∀ t now, tasks s !! t = Some GotToken → is_Some (getLockOfSrv now s t)) as H2.
  { intros t now Ht. destruct (Hh t _ Ht eq_refl) as (e & He & Hc). unfold getLockOfSrv. rewrite Ht, He, Hc.
    destruct (_ <? _)%Z; eauto. }
  split_and!; [done|done|]. intros (t & p & Ht & Hp1 & Hp2). pose (now := 0%Z).
  destruct p; try done.
  - destruct (getLockOfSrv now s t) as [s'|] eqn:E; [exists s'; by eapply step_get|].
    unfold getLockOfSrv in E. rewrite Ht in E. by destruct (item s).
  - unfold inv in Hr. destruct (item s) as [e|] eqn:He.
    + destruct (stateChan e) eqn:Hc.
      * eexists. apply (step_get now _ t). unfold getLockOfSrv. by rewrite Ht, He, Hc.
      * simpl in Hr. assert (0 < count holds (tasks s)) as (t' & p & Ht' & Hp)%count_pos by lia.
        destruct p; try done.
        -- destruct (H2 t' now Ht') as [s' ?]. exists s'. by eapply step_get.
        -- destruct (H1 t' now Ht') as [s' ?]. exists s'. by eapply step_release.
    + assert (0 < count not_start (tasks s)) by (apply count_pos; eauto). lia.
  - destruct (H2 t now Ht) as [s' ?]. exists s'. by eapply step_get.
  - destruct (H1 t now Ht) as [s' ?]. exists s'. by eapply step_release.
Qed.

Lemma srv_lock_never_blocks_witness : is_Some (releaseLockOfSrv 101 one_fetching 0).
Proof.
  refine (proj1 (srv_lock_never_blocks 2 one_fetching one_fetching_reachable) 0 101%Z _). reflexivity.
Defined.
