(* ===== verification/DebugConfig.v ===== *)
(** * projconfig/debugconfig.go: values from the developers' debug files

    In DEV mode a configuration may come from a file [config.debug.toml]: the one
    in the directory of the schema file, or else the one whose path agrees
    longest with that path ([nearest_longest]).  The parsed files are a list of
    paths and trees, in the order the map is ranged over. *)

From S2P Require Import Prelude GoLib GoFmt Util.

Definition debugFilename : str := $"config.debug.toml".
Definition sep : str := ["/"%char].

Abbreviation DebugConfigs := (list (str * toml)).

(** [GetDebugFiles]: [exists_] is [util.FileExists]. *)
Definition GetDebugFiles (DEBUG_FILE : str) (CONFIG_DIR : list str) (exists_ : str → bool) : list str :=
  if negb (bool_decide (DEBUG_FILE = [])) && exists_ DEBUG_FILE then [DEBUG_FILE]
  else List.filter exists_ (map (fun dir => TrimRight dir sep ++ sep ++ debugFilename) CONFIG_DIR).

(** [GetDebugValuesByFile] and [LoadDebugConfigs]: the first file that cannot be
    parsed is the error. *)
Definition GetDebugValuesByFile (LoadFile : str → result toml) (path : str) : result toml :=
  match LoadFile path with
  | inl err => inl ($"Failed to parse config debug file: " ++ err)
  | inr t => inr t
  end.
Fixpoint LoadDebugConfigs (LoadFile : str → result toml) (files : list str) (configs : DebugConfigs)
    : result DebugConfigs :=
  match files with
  | [] => inr configs
  | f :: rest =>
      match GetDebugValuesByFile LoadFile f with
      | inl err => inl err
      | inr t => LoadDebugConfigs LoadFile rest (List.filter (fun kv => negb (bool_decide (kv.1 = f))) configs ++ [(f, t)])
      end
  end.

(** The position of the first byte of [dName] that is not the one of
    [expected]; [None] when there is none. *)
Fixpoint mismatch (dName expected : str) : option nat :=
  match dName, expected with
  | [], _ => None
  | _ :: _, [] => Some 0
  | x :: d, y :: e => if bool_decide (x = y) then S <$> mismatch d e else Some 0
  end.

Definition nearest_step (expected : str) (best : nat * str) (dName : str) : nat * str :=
  match mismatch dName expected with
  | Some pos => if Nat.leb best.1 pos then (pos, dName) else best
  | None => best
  end.
Definition nearest (expected : str) (names : list str) : str :=
  (fold_left (nearest_step expected) names (0, [])).2.

Definition expected_debug_file (schemaFile : str) : str :=
  let pathPortions := Split schemaFile sep in
  Join (take (length pathPortions - 1) pathPortions) sep ++ sep ++ debugFilename.

Section lookup.
Context `{U : UnicodeTables} (fmt_tables : list toml → str) (ToString : toml → str).

(** The text after [=] for a value of another type. *)
Definition toml_text (lastName : str) (v : toml) : str :=
  match v with
  | TTree _ _ => ToString v
  | TNil => []
  | TString s => lastName ++ "="%char :: Quote s
  | _ => lastName ++ "="%char :: fmt_v fmt_tables v
  end.

(** [GetConfigBySchemafile]: the JSON bytes (nil when there is no value) and the
    TOML text.  A nil tree is dereferenced when no file is nearest. *)
Definition GetConfigBySchemafile (d : DebugConfigs) (name schemaFile : str) (withToml : bool)
    : outcome (option str * str) :=
  match d with
  | [] => Done (None, [])
  | _ =>
      let expected := expected_debug_file schemaFile in
      let configs := match assoc expected d with
                     | Some t => Some t
                     | None => assoc (nearest expected (map fst d)) d
                     end in
      match configs with
      | None => Panic $"invalid memory address or nil pointer dereference"
      | Some t =>
          match TomlGet t name with
          | TNil => Done (None, [])
          | v =>
              match JsonEncode fmt_tables (S (toml_depth v)) v with
              | None => Panic $"stack overflow"
              | Some re =>
                  let lastName := default [] (list.last (Split name ["."%char])) in
                  Done (Some re, if withToml then toml_text lastName v else [])
              end
          end
      end
  end.

End lookup.

(** ** Lemmas *)

(** How many bytes two paths share at their front. *)
Fixpoint agree (a b : str) : nat :=
  match a, b with
  | x :: a', y :: b' => if bool_decide (x = y) then S (agree a' b') else 0
  | _, _ => 0
  end.

Lemma mismatch_agree d e :
  match mismatch d e with Some pos => pos = agree d e | None => d `prefix_of` e end.
Proof.
  revert e. induction d as [|x d IH]; intros [|y e]; simpl; try apply prefix_nil; [done|].
  case_bool_decide as H; [|done]. subst. specialize (IH e). destruct (mismatch d e); simpl; [by f_equal|].
  by apply prefix_cons.
Qed.

Lemma fold_nearest e names best :
  (∀ d, d ∈ names → mismatch d e ≠ None) →
  let r := fold_left (nearest_step e) names best in
  best.1 ≤ r.1 ∧ (r = best ∨ (r.2 ∈ names ∧ r.1 = agree r.2 e)) ∧ ∀ d, d ∈ names → agree d e ≤ r.1.
Proof.
  revert best. induction names as [|d names IH]; intros best Hm; simpl.
  { split_and!; [done|by left|]. intros d Hd. by apply elem_of_nil in Hd. }
  destruct (IH (nearest_step e best d)) as (H1 & H2 & H3); [intros; apply Hm; by right|].
  assert (best.1 ≤ (nearest_step e best d).1 ∧ agree d e ≤ (nearest_step e best d).1
    ∧ (nearest_step e best d = best ∨ nearest_step e best d = (agree d e, d))) as (Ha & Hb & Hc).
  { unfold nearest_step. pose proof (mismatch_agree d e) as Hma. pose proof (Hm d ltac:(left)) as Hne.
    destruct (mismatch d e) as [pos|]; [|done]. subst pos.
    destruct (Nat.leb_spec best.1 (agree d e)); simpl; split_and!; try lia; auto. }
  split_and!; [lia| |].
  - destruct H2 as [H2|[H2 H2']]; [|right; split; [by right|done]].
    rewrite H2. destruct Hc as [Hc|Hc]; rewrite Hc; [by left|]. right. simpl. split; [left|done].
  - intros d' [->|Hd']%elem_of_cons; [lia|by apply H3].
Qed.

(** When no debug file is in the directory of the schema file, the value is
    taken from a file whose path agrees with the expected one at least as long as
    that of every other debug file, provided none of the paths is a prefix of the
    expected path. *)
Theorem nearest_longest (schemaFile : str) (names : list str) :
  names ≠ [] → (∀ d, d ∈ names → ¬ d `prefix_of` expected_debug_file schemaFile) →
  let n := nearest (expected_debug_file schemaFile) names in
  n ∈ names ∧ ∀ d, d ∈ names → agree d (expected_debug_file schemaFile) ≤ agree n (expected_debug_file schemaFile).
Proof.
  intros Hne Hp n. unfold n, nearest. set (e := expected_debug_file schemaFile) in *.
  destruct (fold_nearest e names (0, [])) as (_ & H2 & H3).
  { intros d Hd Hm. apply (Hp d Hd). pose proof (mismatch_agree d e) as H. by rewrite Hm in H. }
  destruct H2 as [H2|[H2 H2']]; [|rewrite <- H2'; by split].
  exfalso. destruct names as [|d names] using rev_ind; [done|].
  rewrite fold_left_app in H2. cbn [fold_left] in H2. unfold nearest_step at 1 in H2.
  assert (mismatch d e ≠ None) as Hmd.
  { intros Hm. apply (Hp d); [set_solver|]. pose proof (mismatch_agree d e) as H. by rewrite Hm in H. }
  specialize (H3 d ltac:(set_solver)). rewrite fold_left_app in H3. cbn [fold_left] in H3.
  unfold nearest_step at 1 in H3. pose proof (mismatch_agree d e) as Hma.
  destruct (mismatch d e) as [pos|]; [|done]. subst pos.
  destruct (Nat.leb_spec (fold_left (nearest_step e) names (0, [])).1 (agree d e)).
  - injection H2 as H2a H2b. apply (Hp d); [set_solver|]. rewrite H2b. apply prefix_nil.
  - rewrite H2 in *. simpl in *. lia.
Qed.

Lemma nearest_longest_witness :
  let e := expected_debug_file $"/srv/app/conf/x.schema.php" in
  let names := [$"/srv/b/config.debug.toml"; $"/srv/app/dev/config.debug.toml"] in
  nearest e names ∈ names ∧ ∀ d, d ∈ names → agree d e ≤ agree (nearest e names) e.
Proof.
  intros e names. apply (nearest_longest $"/srv/app/conf/x.schema.php" names).
  - discriminate.
  - intros d Hd [k Hk]. unfold names in Hd.
    apply elem_of_cons in Hd as [-> |Hd]; [by vm_compute in Hk|].
    apply elem_of_cons in Hd as [-> |Hd]; [by vm_compute in Hk|by apply elem_of_nil in Hd].
Defined.
