(* ===== verification/Compile.v ===== *)
(** * Compiling schema files (configwatcher/zk_watcher.go)

    [compileSchemaFile] fills the placeholders of a PHP template with values
    that the [php] program converts from JSON; [compileTomlFile] does so line by
    line for TOML templates, from the raw TOML texts.  The sources of values, the
    [php] program and the result of writing a file are arguments.

    [compileSchemaFile_template]: on a template the output is the template with
    every placeholder that has a value replaced, below the notice that the file
    is generated. *)

From S2P Require Import Prelude GoLib GoFmt Util Regex Schema Callbacks.

(** ** PHP templates *)

(** The script given to [php] for a JSON value. *)
Definition backslash_str : str := ["\"%char].
Definition quote1 : str := ["'"%char].
Definition escape_json (jsonB : str) : str :=
  Replace (Replace jsonB backslash_str (backslash_str ++ backslash_str) (-1)) quote1 (backslash_str ++ quote1) (-1).
Definition php_script (jsonB : str) : str :=
  $"<?php" ++ nl ++ $"ini_set('serialize_precision', 14);$data=var_export(json_decode('" ++ escape_json jsonB
  ++ $"',true), true);" ++ $"file_put_contents(__FILE__, $data);".

(** What happens to the temporary file with the script of an item: it cannot be
    created, it cannot be written, or [php] is run on it, up to two times (the
    error and output of each attempt), and it is read back. *)
Inductive tool :=
| TempFails
| WriteFails (err : error)
| Ran (attempt1 attempt2 : option (error * str)) (read : result str).

(** The outcome of the retry loop. *)
Definition php_error (attempt1 attempt2 : option (error * str)) : option (error * str) :=
  match attempt1 with None => None | Some _ => attempt2 end.

(** The loop over the items: the content so far and the errors.  Without a
    temporary file [tempFile.Name()] dereferences nil. *)
Definition fill_item (value : str → result str) (run : str → str → tool)
    (acc : str * list error) (configItem : str) : outcome (str * list error) :=
  let '(fileContent, errMsg) := acc in
  match value configItem with
  | inl _ => Done (fileContent, errMsg ++ [$"Cannot find value for config[" ++ configItem ++ $"]."])
  | inr jsonB =>
      match run configItem (php_script jsonB) with
      | TempFails => Panic $"invalid memory address or nil pointer dereference"
      | WriteFails e =>
          Done (fileContent, errMsg ++ [$"Failed to write to temp file for deconding config content of ["
                                        ++ configItem ++ $"]: " ++ e])
      | Ran a1 a2 read =>
          match php_error a1 a2 with
          | Some (e, out) =>
              Done (fileContent, errMsg ++ [$"Failed to decode content for [" ++ configItem
                ++ $"]: PHP Json decode error: " ++ e ++ $": " ++ out ++ $", " ++ escape_json jsonB])
          | None =>
              match read with
              | inl e => Done (fileContent, errMsg ++ [$"Failed to read decoded content for [" ++ configItem ++ $"] : " ++ e])
              | inr phpV => Done (Replace fileContent (item_text configItem) phpV (-1), errMsg)
              end
          end
      end
  end.

Fixpoint fill_items (value : str → result str) (run : str → str → tool)
    (acc : str * list error) (configItems : list str) : outcome (str * list error) :=
  match configItems with
  | [] => Done acc
  | item :: rest => acc ← fill_item value run acc item; fill_items value run acc rest
  end.

Definition phpOpenTag : str := $"<?php".

(** Where the notice goes: after the first open tag, unless only white space
    precedes it. *)
Definition add_caution (fileContent : str) : str :=
  let pos := Index fileContent phpOpenTag in
  if (0 <=? pos)%Z then
    let beginingEmpty := (Index (TrimSpace fileContent) phpOpenTag =? 0)%Z && (0 <? pos)%Z in
    if beginingEmpty then GetCompilationCaution true ++ fileContent
    else take (Z.to_nat pos + 5) fileContent ++ GetCompilationCaution false ++ drop (Z.to_nat pos + 5) fileContent
  else GetCompilationCaution true ++ fileContent.

(** The path of the compiled file. *)
Definition php_target (filePath : str) : str := take (length filePath - 11) filePath ++ $".php".

(** [compileSchemaFile]: the error and what is written, if anything.  [value] is
    the new value or what [GetConfig] returns; [write] the error of opening or
    writing the target. *)
Definition report (errMsg : list error) : option error :=
  match errMsg with [] => None | _ => Some (Join errMsg ["|"%char]) end.

Definition compileSchemaFile (fs : FileSystem) (value : str → result str) (run : str → str → tool)
    (write : option error) (filePath : str) : outcome (option error * option (str * str)) :=
  match ParseItems fs filePath with
  | inl err => Done (Some err, None)
  | inr configItems =>
      match GetSchemaFileContent fs filePath with
      | inl err => Done (Some err, None)
      | inr fileContent =>
          filled ← fill_items value run (fileContent, []) configItems;
          let content := add_caution filled.1 in
          match write with
          | Some e => Done (report (filled.2 ++ [e]), None)
          | None => Done (report filled.2, Some (php_target filePath, content))
          end
      end
  end.

(** ** TOML templates *)

(** ["#{.+?}"], [^ *\[.+?\] *$]. *)
Definition configFinder : regex :=
  RSeq (RLit open_mark) (RSeq (RPlus false (RSet not_newline)) (RLit close_mark)).
Definition space_re : regex := RStar true (RSet (fun c => bool_decide (c = " "%char))).
Definition sectionFinder : regex :=
  RSeq RBegin (RSeq space_re (RSeq (RLit ["["%char])
    (RSeq (RPlus false (RSet not_newline)) (RSeq (RLit ["]"%char]) (RSeq space_re REnd))))).

(** [name=(?:("[^\n]*")|([^ #\[\t\n]+)|(\[(.|\n|\r)*\]))] for a name of word
    characters and hyphens. *)
Definition tab : ascii := byte_of_Z 9.
Definition value_re : regex :=
  RAlt (RSeq (RLit [dquote]) (RSeq (RStar true (RSet not_newline)) (RLit [dquote])))
  (RAlt (RPlus true (RSet (fun c => negb (bool_decide (c ∈ [" "%char; "#"%char; "["%char; tab; newline])))))
        (RSeq (RLit ["["%char]) (RSeq (RStar true (RSet (fun _ => true))) (RLit ["]"%char])))).
Definition baseMatcher (nodeLastName : str) : regex := RSeq (RLit (nodeLastName ++ $"=")) value_re.

(** The rows of a table, renamed to the section of the template. *)
Definition table_row (section nodeLastName nodeContent : str) (ir : nat * str) : str :=
  let '(index, row) := ir in
  let row := TrimSpace row in
  if (Nat.eqb index 0 && HasPrefix nodeContent ($"[" ++ nodeLastName ++ $"]"))
     || bool_decide (row = []) || HasPrefix row $"#" then []
  else
    let contentSection := FindString sectionFinder row in
    if negb (bool_decide (contentSection = [])) then
      let new := if bool_decide (section = []) then [] else section ++ $"." in
      $"[" ++ Trim (Replace contentSection (nodeLastName ++ $".") new 1) $"[] " ++ $"]" ++ nl
    else row ++ nl.

Fixpoint indexed {A} (i : nat) (l : list A) : list (nat * A) :=
  match l with [] => [] | x :: l' => (i, x) :: indexed (S i) l' end.

Definition node_data (section nodeName nodeContent : str) : str :=
  let nodeLastName := default [] (list.last (Split nodeName ["."%char])) in
  if HasPrefix nodeContent ($"[" ++ nodeLastName ++ $"]") || HasPrefix nodeContent ($"[" ++ nodeLastName ++ $".") then
    concat (map (table_row section nodeLastName nodeContent) (indexed 0 (Split nodeContent nl)))
  else
    let configContent := FindString (baseMatcher nodeLastName) nodeContent in
    if bool_decide (configContent = []) then nodeContent
    else Replace configContent (nodeLastName ++ $"=") [] 1.

Definition fill_node (raw : str → option str) (section : str) (acc : str * list error) (matched : str)
    : str * list error :=
  let '(lineStr, errMsg) := acc in
  let nodeName := Trim matched mark_cutset in
  match raw nodeName with
  | None => (lineStr, errMsg ++ [$"Cannot find value for config[" ++ nodeName ++ $"]."])
  | Some nodeContent =>
      (Replace lineStr (open_mark ++ nodeName ++ close_mark) (node_data section nodeName nodeContent) 1000, errMsg)
  end.

(** One line of the template: the section, the output and the errors so far. *)
Definition toml_line (raw : str → option str) (acc : str * str * list error) (line : str) : str * str * list error :=
  let '(section, content, errMsg) := acc in
  let line := TrimSpace line in
  if bool_decide (line = []) then acc
  else if negb (bool_decide (FindString sectionFinder line = [])) then
    (Trim line $"[] ", content ++ line ++ nl, errMsg)
  else
    let '(lineStr, errMsg) := fold_left (fill_node raw section) (FindAllStringN configFinder line 1000) (line, errMsg) in
    (section, content ++ lineStr ++ nl, errMsg).

(** [read.ReadBytes('\n')] until the end: the lines with their line feeds. *)
Definition lines_of (s : str) : list str :=
  match reverse (Split s nl) with
  | [] => []
  | final :: rest => map (fun l => l ++ nl) (reverse rest) ++ (if bool_decide (final = []) then [] else [final])
  end.

Definition toml_target (filePath : str) : str := Replace filePath $".schema." $"." 1.

(** [compileTomlFile]: [raw] is [GetRawToml], after [GetNewValueOfConfig] when
    the text is not there yet. *)
Definition compileTomlFile (fs : FileSystem) (raw : str → option str) (write : option error) (filePath : str)
    : option error * option (str * str) :=
  match ReadFile fs filePath with
  | inl err => (Some err, None)
  | inr text =>
      let '(_, content, errMsg) := fold_left (toml_line raw) (lines_of text) ([], [], []) in
      match write with
      | Some e => (report (errMsg ++ [e]), None)
      | None => (report errMsg, Some (toml_target filePath, content))
      end
  end.

(** ** By the type of the file *)

(** [compile]: a file of a known type is recorded as updated and compiled. *)
Definition compile (fs : FileSystem) (value : str → result str) (run : str → str → tool)
    (raw : str → option str) (write : option error) (u : Updated) (filePath : str)
    : outcome (option error * option (str * str) * Updated) :=
  if HasSuffix filePath $".schema.toml" then
    Done (compileTomlFile fs raw write filePath, AddUpdatedSchemafiles u filePath)
  else if HasSuffix filePath $".schema.php" then
    r ← compileSchemaFile fs value run write filePath; Done (r, AddUpdatedSchemafiles u filePath)
  else Done (Some $"Unknown schema file type", None, u).

(** ** Filling templates *)

(** The template with the placeholder [n] filled by [v]. *)
Definition subst (n v : str) (t : template) : template :=
  map (fun x : str + str => match x with inl l => inl l | inr m => if bool_decide (m = n) then inl v else inr m end) t.

Lemma replace_skip_drop old new n k s : replace_skip old new n k s = replace_skip old new n 0 (drop k s).
Proof. revert k. induction s as [|x s IH]; intros [|k]; try done. apply IH. Qed.

Lemma Replace_lit n v l rest :
  lit_ok l = true → Replace (l ++ rest) (item_text n) v (-1) = l ++ Replace rest (item_text n) v (-1).
Proof.
  unfold Replace. induction l as [|c l IH]; [done|]. cbn [lit_ok]. intros H. bool_to_prop.
  change ((c :: l) ++ rest) with (c :: (l ++ rest)). cbn [replace_skip].
  replace (HasPrefix (c :: l ++ rest) (item_text n)) with false.
  - rewrite andb_false_r, IH by done. done.
  - symmetry. apply not_true_is_false. intros [k Hk]%HasPrefix_spec.
    unfold item_text in Hk. rewrite <- !(assoc_L (++)) in Hk.
    injection Hk as -> Hk. rewrite bool_decide_eq_true_2 in H by done.
    destruct l as [|d l]; [done|]. injection Hk as -> _. by rewrite bool_decide_eq_true_2 in H.
Qed.

Lemma replace_negative old new n s :
  (n < 0)%Z → replace_skip old new n 0 s = replace_skip old new (-1) 0 s.
Proof.
  intros Hn. cut (∀ k n, (n < 0)%Z → replace_skip old new n k s = replace_skip old new (-1) k s); [auto|].
  clear n Hn. induction s as [|x s IH]; intros k n Hn; [done|]. destruct k as [|k]; cbn [replace_skip].
  - rewrite (proj2 (Z.eqb_neq n 0)) by lia. cbn [negb andb].
    change (negb (-1 =? 0)%Z) with true. cbn [andb].
    destruct (HasPrefix (x :: s) old); [|by rewrite IH].
    f_equal. rewrite (IH _ (n - 1)%Z), (IH _ (-1 - 1)%Z) by lia. done.
  - by apply IH.
Qed.

Lemma Replace_here n v rest :
  Replace (item_text n ++ rest) (item_text n) v (-1) = v ++ Replace rest (item_text n) v (-1).
Proof.
  unfold Replace. destruct (item_text n ++ rest) as [|c s] eqn:E; [done|].
  cbn [replace_skip]. change (negb (-1 =? 0)%Z) with true. cbn [andb].
  rewrite <- E, HasPrefix_app. f_equal. rewrite replace_skip_drop.
  rewrite replace_negative by lia. f_equal.
  change s with (drop 1 (c :: s)). rewrite <- E, drop_drop.
  pose proof (item_text_length n) as Hl.
  replace (1 + (length (item_text n) - 1)) with (length (item_text n)) by lia. apply drop_app_length.
Qed.

Lemma Replace_step n v c rest :
  HasPrefix (c :: rest) (item_text n) = false →
  Replace (c :: rest) (item_text n) v (-1) = c :: Replace rest (item_text n) v (-1).
Proof. intros H. unfold Replace. cbn [replace_skip]. by rewrite H, andb_false_r. Qed.

Lemma prefix_open n s : HasPrefix s (item_text n) = true → ∃ s', s = dquote :: "#"%char :: s'.
Proof. intros [k ->]%HasPrefix_spec. by eexists. Qed.

Lemma Replace_no_quote n v b rest :
  dquote ∉ b → Replace (b ++ rest) (item_text n) v (-1) = b ++ Replace rest (item_text n) v (-1).
Proof.
  induction b as [|c b IH]; intros Hb; [done|]. cbn [app].
  rewrite Replace_step; [rewrite IH; [done|set_solver]|].
  apply not_true_is_false. intros (s' & [= -> _])%prefix_open. set_solver.
Qed.

Lemma item_name_no_quote m : item_name m = true → dquote ∉ m.
Proof.
  intros (HF & _)%item_name_spec Hd. rewrite Forall_forall in HF. by apply HF in Hd.
Qed.

Lemma Replace_other n m v rest :
  item_name n = true → item_name m = true → m ≠ n → head rest ≠ Some "#"%char →
  Replace (item_text m ++ rest) (item_text n) v (-1) = item_text m ++ Replace rest (item_text n) v (-1).
Proof.
  intros Hn Hm Hne Hh. set (body := $"#{" ++ m ++ ["}"%char]).
  assert (item_text m ++ rest = dquote :: body ++ dquote :: rest) as E.
  { unfold item_text, body, open_mark, close_mark. simpl. by rewrite <- !(assoc_L (++)). }
  assert (∀ X, item_text m ++ X = dquote :: body ++ dquote :: X) as E'.
  { intros X. unfold item_text, body, open_mark, close_mark. simpl. by rewrite <- !(assoc_L (++)). }
  rewrite E. rewrite Replace_step, Replace_no_quote, Replace_step, E'; [done|..].
  - apply not_true_is_false. intros (s' & [= Hr])%prefix_open. by rewrite Hr in Hh.
  - unfold body. rewrite !not_elem_of_app. split_and!; [vm_compute; set_solver|by apply item_name_no_quote|vm_compute; set_solver].
  - apply not_true_is_false. rewrite <- E. intros [k Hk]%HasPrefix_spec. apply Hne.
    assert (scan_at (item_text m ++ rest) = Some m) as H1 by (apply scan_at_spec; eauto).
    assert (scan_at (item_text m ++ rest) = Some n) as H2 by (apply scan_at_spec; rewrite Hk; eauto).
    congruence.
Qed.

(** A template whose literals also do not start with a number sign. *)
Definition chunk_ok (l : str) : Prop := lit_ok l = true ∧ head l ≠ Some "#"%char.
Definition fillable (t : template) : Prop :=
  Forall (fun x : str + str => match x with inl l => chunk_ok l | inr n => item_name n = true end) t.

Lemma fillable_ok t : fillable t → template_ok t.
Proof. intros H. eapply Forall_impl; [exact H|]. intros [l|n]; [intros [? _]|]; done. Qed.

Lemma head_render t : fillable t → head (render t) ≠ Some "#"%char.
Proof.
  induction 1 as [|[l|n] t Hx _ IH]; [done| |done]. cbn [render flat_map].
  destruct l as [|c l]; [exact IH|]. by destruct Hx.
Qed.

Lemma Replace_render n v t :
  fillable t → item_name n = true → Replace (render t) (item_text n) v (-1) = render (subst n v t).
Proof.
  intros Ht Hn. unfold render. induction Ht as [|[l|m] t Hx Ht IH]; [done|..]; cbn [flat_map subst map].
  - destruct Hx as [Hl _]. rewrite Replace_lit by done. f_equal. exact IH.
  - case_bool_decide as Hm.
    + subst m. rewrite Replace_here. f_equal. exact IH.
    + rewrite Replace_other; [|done..|by apply head_render]. f_equal. exact IH.
Qed.

Lemma subst_fillable n v t : fillable t → chunk_ok v → fillable (subst n v t).
Proof.
  intros Ht Hv. induction Ht as [|[l|m] t Hx Ht IH]; [constructor|by constructor|].
  constructor; [|done]. by case_bool_decide.
Qed.

(** The template with every placeholder that has a value filled. *)
Definition fill_all (val : str → option str) (t : template) : template :=
  map (fun x : str + str => match x with
    | inl l => inl l
    | inr m => match val m with Some v => inl v | None => inr m end end) t.

Definition restrict (val : str → option str) (items : list str) (m : str) : option str :=
  if InArrayString items m then val m else None.

Lemma fill_all_subst val items n v t :
  val n = Some v →
  fill_all (restrict val items) (subst n v t) = fill_all (restrict val (n :: items)) t.
Proof.
  intros Hv. unfold fill_all, subst. rewrite map_map. apply map_ext. intros [l|m]; [done|].
  unfold restrict. cbn [InArrayString]. case_bool_decide as H1; [subst; by rewrite bool_decide_eq_true_2, Hv|].
  by rewrite bool_decide_eq_false_2.
Qed.

Lemma fill_all_skip val items n t :
  val n = None → fill_all (restrict val items) t = fill_all (restrict val (n :: items)) t.
Proof.
  intros Hv. unfold fill_all. apply map_ext. intros [l|m]; [done|]. unfold restrict. cbn [InArrayString].
  case_bool_decide as H1; [|done]. subst. rewrite Hv. by destruct (InArrayString items m).
Qed.

(** What the tools make of an item: [None] when there is no value or [php]
    fails. *)
Definition php_value (value : str → result str) (run : str → str → tool) (n : str) : option str :=
  match value n with
  | inl _ => None
  | inr j =>
      match run n (php_script j) with
      | Ran a1 a2 (inr v) => match php_error a1 a2 with None => Some v | Some _ => None end
      | _ => None
      end
  end.

Definition temp_files_work (run : str → str → tool) : Prop := ∀ n s, run n s ≠ TempFails.

Lemma fill_items_template value run items t errs :
  temp_files_work run → fillable t → Forall (fun n => item_name n = true) items →
  (∀ n v, php_value value run n = Some v → chunk_ok v) →
  ∃ errs', fill_items value run (render t, errs) items =
    Done (render (fill_all (restrict (php_value value run) items) t), errs')
    ∧ (errs' = [] ↔ errs = [] ∧ Forall (fun n => is_Some (php_value value run n)) items).
Proof.
  intros Hw Ht Hi Hv. revert t errs Ht. induction Hi as [|n items Hn Hi IH]; intros t errs Ht.
  { exists errs. cbn [fill_items]. split; [|naive_solver]. do 3 f_equal.
    unfold fill_all. rewrite <- (map_id t) at 1. apply map_ext. by intros [l|m]. }
  cbn [fill_items].
  destruct (php_value value run n) as [v|] eqn:Ev.
  - assert (fill_item value run (render t, errs) n = Done (render (subst n v t), errs)) as ->.
    { unfold php_value in Ev. unfold fill_item. destruct (value n) as [e|j]; [done|].
      destruct (run n (php_script j)) as [| |a1 a2 [e|v']]; try done.
      destruct (php_error a1 a2); [done|]. simplify_eq. by rewrite Replace_render. }
    cbn [mbind outcome_bind].
    destruct (IH (subst n v t) errs) as (errs' & -> & He); [apply subst_fillable; eauto|].
    exists errs'. rewrite (fill_all_subst _ _ _ _ _ Ev). split; [done|]. rewrite He, Forall_cons, Ev. naive_solver.
  - assert (∃ e, fill_item value run (render t, errs) n = Done (render t, errs ++ [e])) as [e ->].
    { unfold php_value in Ev. unfold fill_item. destruct (value n) as [e|j]; [by eexists|].
      specialize (Hw n (php_script j)).
      destruct (run n (php_script j)) as [|e|a1 a2 rd]; [done|by eexists|].
      destruct (php_error a1 a2) as [[e out]|]; [by eexists|]. destruct rd as [e|v']; [by eexists|done]. }
    cbn [mbind outcome_bind]. destruct (IH t (errs ++ [e]) Ht) as (errs' & -> & He).
    exists errs'. rewrite (fill_all_skip _ _ _ _ Ev). split; [done|].
    rewrite He, Forall_cons, Ev. split; [by intros [[_ [=]]%app_nil _]|by intros (_ & [? ?] & _)].
Qed.

Lemma InArrayString_first_occurrences l n : InArrayString (first_occurrences l) n = InArrayString l n.
Proof.
  apply eq_true_iff_eq. rewrite !InArrayString_spec, <- fold_append_unique_nil, fold_append_unique_elem.
  set_solver.
Qed.

Lemma fill_all_names val t : fill_all (restrict val (first_occurrences (names t))) t = fill_all val t.
Proof.
  unfold fill_all. apply map_ext_in. intros [l|m] Hin; [done|]. unfold restrict.
  rewrite InArrayString_first_occurrences, (proj2 (InArrayString_spec _ m)); [done|].
  unfold names. apply list_elem_of_omap. exists (inr m). split; [by apply list_elem_of_In|done].
Qed.

(** ** Theorems *)

(** C14.  Compiling a PHP template: the file written is the template with every
    placeholder whose value [php] could convert replaced by that value, and every
    other placeholder left in place, with the notice added; an error is reported
    exactly when some placeholder was left. *)
Theorem compileSchemaFile_template (fs : FileSystem) (value : str → result str) (run : str → str → tool)
    (filePath : str) (t : template) :
  temp_files_work run → fillable t → ReadFile fs filePath = inr (render t) →
  (∀ n v, php_value value run n = Some v → chunk_ok v) →
  ∃ err, compileSchemaFile fs value run None filePath =
    Done (err, Some (php_target filePath, add_caution (render (fill_all (php_value value run) t))))
    ∧ (err = None ↔ ∀ n, n ∈ names t → is_Some (php_value value run n)).
Proof.
  intros Hw Ht Hr Hv. unfold compileSchemaFile, GetSchemaFileContent.
  assert (ParseItems fs filePath = inr (first_occurrences (names t))) as ->.
  { unfold ParseItems, ParseItemPlaceholders. rewrite Hr. unfold FindAllString.
    rewrite find_all_scan, scan_render, unique_items_texts by auto using names_ok, fillable_ok. done. }
  rewrite Hr.
  destruct (fill_items_template value run (first_occurrences (names t)) t [] Hw Ht) as (errs & -> & He).
  { pose proof (names_ok t (fillable_ok t Ht)) as HF. rewrite Forall_forall in *.
    intros n Hn. apply HF. by rewrite <- InArrayString_spec, InArrayString_first_occurrences, InArrayString_spec in Hn. }
  { done. }
  cbn [mbind outcome_bind fst snd]. rewrite fill_all_names. eexists. split; [reflexivity|].
  assert (report errs = None ↔ errs = []) as -> by by destruct errs.
  rewrite He, Forall_forall. split.
  - intros [_ H] n Hn. apply H. by rewrite <- InArrayString_spec, InArrayString_first_occurrences, InArrayString_spec.
  - intros H. split; [done|]. intros n Hn. apply H.
    by rewrite <- InArrayString_spec, InArrayString_first_occurrences, InArrayString_spec in Hn.
Qed.

Definition example_value (n : str) : result str := if bool_decide (n = $"port") then inl $"missing" else inr $"1".

Lemma compileSchemaFile_template_witness :
  ∃ err, compileSchemaFile example_fs example_value (fun _ _ => Ran (Some ($"hangup", [])) None (inr $"'v'"))
           None $"/c/a.schema.php" =
    Done (err, Some ($"/c/a.php", add_caution (render
      (fill_all (php_value example_value (fun _ _ => Ran (Some ($"hangup", [])) None (inr $"'v'"))) example_template))))
    ∧ (err = None ↔ ∀ n, n ∈ names example_template →
         is_Some (php_value example_value (fun _ _ => Ran (Some ($"hangup", [])) None (inr $"'v'")) n)).
Proof.
  apply (compileSchemaFile_template example_fs example_value _ $"/c/a.schema.php" example_template).
  - intros n s. discriminate.
  - repeat constructor; simpl; try discriminate.
  - reflexivity.
  - intros n v H. unfold php_value in H. destruct (example_value n); [done|]. simpl in H.
    injection H as <-. split; [reflexivity|discriminate].
Defined.
