(* ===== verification/NewValue.v ===== *)
(** * GetNewValueOfConfig (configwatcher/zk_watcher.go)

    The newest value of a configuration, from a debug file, the server or the
    local copy.  The three sources are arguments: what [GetFromDisk],
    [GetConfigBySchemafile] and [GetFromServer] return at that moment.

    [new_value_available]: a good local copy makes the call succeed whatever the
    server does.  [update_settles]: when an update is reported,
    and that it is reported once. *)

From S2P Require Import Prelude GoLib Encrypt Storage ProjConfig.

Record NewValue := mkNewValue {
  valueEncrypted : str;
  valuePlain : str;
  valueSerialized : option str;
  newVersionChecked : bool;
  hasUpdate : bool;
  isDebugValue : bool;
  cErr : option error }.

Section new_value.
(** [util.TomlConfigValueToJson]. *)
Context (TomlValueToJson : str → result (option str)).

(** The choice of the source: the parsed content, whether the new version was
    checked, whether there is an update, whether it is a debug value, and the
    error. *)
Definition choose (old : result str) (debug : option (str * str)) (server : result str)
    : option str * bool * bool * bool * option error :=
  match debug with
  | Some (debugValue, _) => (Some debugValue, true, false, true, None)
  | None =>
      match server with
      | inl err =>
          match old with
          | inl _ => (None, false, false, false, Some err)
          | inr oldContent =>
              match TomlValueToJson oldContent with
              | inl e => (None, false, false, false, Some e)
              | inr j => (j, false, false, false, None)
              end
          end
      | inr newContent =>
          match TomlValueToJson newContent with
          | inl e =>
              match old with
              | inl _ => (None, false, false, false, Some e)
              | inr oldContent =>
                  match TomlValueToJson oldContent with
                  | inl e' => (None, false, false, false, Some e')
                  | inr j => (j, false, false, false, None)
                  end
              end
          | inr j =>
              let upd := match old with inl _ => true | inr oldContent => negb (bool_decide (oldContent = newContent)) end in
              (j, true, upd, false, None)
          end
      end
  end.

(** [GetNewValueOfConfig]: the sources are computed in the order of the code
    (the server is asked only without a debug value); the second result is the
    raw text kept in memory. *)
Definition GetNewValueOfConfig (cfg : Settings) (dItem : str) (old : outcome (result str))
    (debug : outcome (option (str * str))) (server : outcome (result str)) (m : Mem.Mem)
    : outcome (NewValue * Mem.Mem) :=
  oldContent ← old;
  dbg ← (if DEVMODE cfg then debug else Done None);
  newContent ← (match dbg with Some _ => Done (inl []) | None => server end);
  let '(parsed, checked, upd, isDebug, err) := choose oldContent dbg newContent in
  let old_text := match oldContent with inr x => x | inl _ => [] end in
  let new_text := match newContent with inr x => x | inl _ => [] end in
  let debug_text := match dbg with Some (_, x) => x | None => [] end in
  match err with
  | Some _ => Done (mkNewValue [] debug_text None checked upd isDebug err, m)
  | None =>
      let plain := if checked then if isDebug then debug_text else new_text else old_text in
      r ← Encrypt (GetEncryptor cfg) plain;
      let m := Mem.SaveRawConfig m dItem plain in
      match r with
      | inl e => Done (mkNewValue [] plain parsed checked upd isDebug (Some e), m)
      | inr enc => Done (mkNewValue enc plain parsed checked upd isDebug None, m)
      end
  end.

(** ** Lemmas *)

(** A text whose TOML can be decoded. *)
Definition parses (x : str) (j : option str) : Prop := TomlValueToJson x = inr j.

Lemma choose_old old_text j server :
  parses old_text j →
  match choose (inr old_text) None server with
  | (p, checked, upd, dbg, err) =>
      err = None ∧ dbg = false
      ∧ (checked = false → upd = false ∧ p = j)
      ∧ (checked = true → ∃ x, server = inr x ∧ TomlValueToJson x = inr p ∧ upd = negb (bool_decide (old_text = x)))
  end.
Proof.
  intros Hj. unfold choose, parses in *. destruct server as [e|x].
  - rewrite Hj. naive_solver.
  - destruct (TomlValueToJson x) as [e|j'] eqn:Ex; [rewrite Hj; naive_solver|].
    split_and!; try done. intros _. by exists x.
Qed.

Lemma choose_new old x p upd dbg err :
  choose old None (inr x) = (p, true, upd, dbg, err) →
  err = None ∧ dbg = false ∧ TomlValueToJson x = inr p
  ∧ upd = match old with inl _ => true | inr y => negb (bool_decide (y = x)) end.
Proof.
  unfold choose. destruct (TomlValueToJson x) as [e|j].
  - destruct old as [e'|y]; [done|]. by destruct (TomlValueToJson y).
  - intros. by simplify_eq.
Qed.

Lemma Encrypt_done cfg plain : usable (GetEncryptor cfg) → ∃ enc, Encrypt (GetEncryptor cfg) plain = Done (inr enc).
Proof. intros Hu. destruct (Encrypt_roundtrip _ plain Hu) as (e & He & _). eauto. Qed.

End new_value.

(** ** Theorems *)

(** A good local copy is enough: when the local copy can be read and
    decoded, [GetNewValueOfConfig] succeeds whatever the server answers (an error,
    a text that cannot be decoded, or a new text), with the value of the server
    when that could be decoded and the local one otherwise. *)
Theorem new_value_available (T : str → result (option str)) (cfg : Settings) (dItem old_text : str)
    (j : option str) (server : result str) (m : Mem.Mem) :
  usable (GetEncryptor cfg) → DEVMODE cfg = false → T old_text = inr j →
  ∃ v m', GetNewValueOfConfig T cfg dItem (Done (inr old_text)) (Done None) (Done server) m = Done (v, m')
    ∧ cErr v = None ∧ isDebugValue v = false
    ∧ (newVersionChecked v = false → valuePlain v = old_text ∧ valueSerialized v = j ∧ hasUpdate v = false)
    ∧ (newVersionChecked v = true → server = inr (valuePlain v) ∧ T (valuePlain v) = inr (valueSerialized v)).
Proof.
  intros Hu Hd Hj. unfold GetNewValueOfConfig. rewrite Hd. cbn [mbind outcome_bind].
  pose proof (choose_old T old_text j server Hj) as Hc.
  destruct (choose T (inr old_text) None server) as [[[[p checked] upd] dbg] err].
  destruct Hc as (-> & -> & Hold & Hnew).
  destruct (Encrypt_done cfg (if checked then match server with inr x => x | inl _ => [] end else old_text) Hu) as [enc He].
  rewrite He. cbn [mbind outcome_bind]. eexists _, _. split; [reflexivity|]. cbn.
  split_and!; [done|done| |]; intros ->.
  - destruct (Hold eq_refl). naive_solver.
  - destruct (Hnew eq_refl) as (x & -> & ? & ?). naive_solver.
Qed.

Definition example_toml_json (s : str) : result (option str) :=
  if bool_decide (s = $"bad") then inl $"parse error" else inr (Some s).

Lemma new_value_available_witness :
  ∃ v m', GetNewValueOfConfig example_toml_json example_cfg $"a" (Done (inr $"x=1")) (Done None) (Done (inr $"bad"))
            (Mem.mkMem ∅ ∅) = Done (v, m')
    ∧ cErr v = None ∧ isDebugValue v = false
    ∧ (newVersionChecked v = false → valuePlain v = $"x=1" ∧ valueSerialized v = Some $"x=1" ∧ hasUpdate v = false)
    ∧ (newVersionChecked v = true → (inr $"bad" : result str) = inr (valuePlain v) ∧ example_toml_json (valuePlain v) = inr (valueSerialized v)).
Proof.
  apply (new_value_available example_toml_json example_cfg $"a" $"x=1" (Some $"x=1") (inr $"bad") (Mem.mkMem ∅ ∅)).
  - by apply example_cfg_ok.
  - reflexivity.
  - reflexivity.
Defined.

(** C36.  Updates settle: when a call reports an update and its text is saved to
    the local database, the next call with the same answer of the server reports
    no update (for a text that survives the cipher's padding); and an update is
    reported only for a text of the server that could be decoded and is not the
    local one. *)
Theorem update_settles (T : str → result (option str)) {D} `{!LocalDisk D} (cfg : Settings) (dItem : str)
    (d d' : D) (old : result str) (server : result str) (m m' m2 : Mem.Mem) (v : NewValue) :
  encryptor_ok cfg → usable (GetEncryptor cfg) → DEVMODE cfg = false → healthy d →
  GetNewValueOfConfig T cfg dItem (Done old) (Done None) (Done server) m = Done (v, m') →
  cErr v = None → hasUpdate v = true →
  SaveToDisk cfg None d dItem (valuePlain v) = Done (None, d') →
  no_trailing_zero (valuePlain v) ∨ ENCRYPT_ENABLE cfg = false →
  server = inr (valuePlain v) ∧ old ≠ inr (valuePlain v)
  ∧ ∃ v2 m3, GetNewValueOfConfig T cfg dItem (fst <$> GetFromDisk cfg None d' dItem) (Done None) (Done server) m2
               = Done (v2, m3)
      ∧ hasUpdate v2 = false ∧ newVersionChecked v2 = true ∧ valueSerialized v2 = valueSerialized v.
Proof.
  intros He Hu Hdev Hh Hg Hc Hup Hs Hz. unfold GetNewValueOfConfig in Hg. rewrite Hdev in Hg.
  cbn [mbind outcome_bind] in Hg.
  destruct (choose T old None server) as [[[[p checked] upd] dbg] err] eqn:Ech.
  destruct err as [err|]; [injection Hg as <- _; done|].
  match type of Hg with (Encrypt _ ?x ≫= _) = _ => destruct (Encrypt_done cfg x Hu) as [enc Henc] end.
  rewrite Henc in Hg. cbn [mbind outcome_bind] in Hg. injection Hg as <- <-. cbn [valuePlain hasUpdate valueSerialized] in Hup, Hs, Hz |- *. subst upd.
  assert (checked = true ∧ ∃ x, server = inr x ∧ T x = inr p ∧ old ≠ inr x ∧ dbg = false) as (-> & x & -> & Hx & Hne & ->).
  { unfold choose in Ech. destruct server as [e|x].
    - destruct old as [e'|y]; [done|]. by destruct (T y).
    - destruct (T x) as [e|j] eqn:Ex.
      + destruct old as [e'|y]; [done|]. by destruct (T y).
      + simplify_eq. split; [done|]. exists x. split_and!; try done.
        destruct old as [e|y]; [done|]. bool_to_prop. congruence. }
  split_and!; [done|done|].
  destruct (SaveToDisk_spec cfg d dItem x He) as (stored & r & Hs' & -> & Hr).
  rewrite Hs' in Hs. injection Hs as Hp. rewrite (Hr d' Hh Hp). cbn [fmap outcome_fmap fst].
  assert ((if ENCRYPT_ENABLE cfg then strip_zeros x else x) = x) as ->.
  { destruct (ENCRYPT_ENABLE cfg); [|done]. apply strip_zeros_id. by destruct Hz. }
  unfold GetNewValueOfConfig. rewrite Hdev. cbn [mbind outcome_bind].
  assert (choose T (inr x) None (inr x) = (p, true, false, false, None)) as ->.
  { unfold choose. rewrite Hx. by rewrite bool_decide_eq_true_2. }
  rewrite Henc. cbn [mbind outcome_bind]. by eexists _, _.
Qed.

(** The default settings: a key and an IV, local encryption switched off. *)
Definition plain_key_cfg : Settings := mkSettings false $"11111111" $"example-encrypt-key" (0, 0)%Z false.

Lemma update_settles_witness :
  ∃ v2 m3, GetNewValueOfConfig example_toml_json plain_key_cfg $"a"
             (fst <$> GetFromDisk plain_key_cfg None ({[ $"a" := $"x=2" ]} : gmap str str) $"a")
             (Done None) (Done (inr $"x=2")) (Mem.mkMem ∅ ∅) = Done (v2, m3)
    ∧ hasUpdate v2 = false ∧ newVersionChecked v2 = true ∧ valueSerialized v2 = Some $"x=2".
Proof.
  assert (match GetNewValueOfConfig example_toml_json plain_key_cfg $"a" (Done (inr $"x=1")) (Done None)
                  (Done (inr $"x=2")) (Mem.mkMem ∅ ∅) with
          | Done (v, _) => bool_decide (valuePlain v = $"x=2") && bool_decide (valueSerialized v = Some $"x=2")
              && bool_decide (cErr v = None) && hasUpdate v
          | Panic _ => false
          end = true) as Hb by (vm_compute; reflexivity).
  destruct (GetNewValueOfConfig example_toml_json plain_key_cfg $"a" (Done (inr $"x=1")) (Done None)
              (Done (inr $"x=2")) (Mem.mkMem ∅ ∅)) as [[v m']|] eqn:E; [|discriminate Hb].
  bool_to_prop. rename H into Hp, H2 into Hv, H1 into Hc, H0 into Hu.
  rewrite <- Hv.
  refine (proj2 (proj2 (update_settles example_toml_json plain_key_cfg $"a" (∅ : gmap str str)
    {[ $"a" := $"x=2" ]} (inr $"x=1") (inr $"x=2") (Mem.mkMem ∅ ∅) m' (Mem.mkMem ∅ ∅) v _ _ _ _ E Hc Hu _ _))).
  - intros H. discriminate H.
  - split; [vm_compute; lia|reflexivity].
  - reflexivity.
  - exact I.
  - rewrite Hp. vm_compute. reflexivity.
  - by right.
Defined.
