(* ===== verification/Update.v ===== *)
(** * updateProjectConfigByRootNode (configwatcher/zk_watcher.go)

    One update, under the update lock: fetch the items of every schema file that
    belong to the root node, compile the files that changed, fetch the
    configurations registered through the API, save what was fetched, and queue a
    recheck when something failed.  [GetNewValueOfConfig] and [compile] are
    arguments that act on a world of any type.

    [update_covers]: without DEV mode no matching item is silently skipped.
    [update_only_below]: nothing else is fetched, so that a configuration whose
    name is the root node itself is not. *)

From S2P Require Import Prelude GoLib Util Schema Encrypt ProjConfig NewValue Callbacks.

Section update.
Context {M : Type} (fs : FileSystem).
(** [GetNewValueOfConfig] for an item and a schema file. *)
Context (gnv : str → str → M → outcome (NewValue * M)).
(** [compile] with the values fetched so far. *)
Context (compile : gmap str (option str) → str → M → outcome (option error * M)).
Context (DEVMODE : bool).

Record progress := mkProgress {
  newItemValuesEncrypted : gmap str str;
  newItemValuesPlain : gmap str str;
  newItemValuesSerialized : gmap str (option str);
  itemsHasUpdate : list str;
  failedConfigItems : list str;
  fetchedDebugValues : list str;
  hasUpdateOverall : bool;
  registeredNodesHasUpdate : bool;
  itemErr : option error;
  compileErr : option error;
  parseErr : option error;
  (** The files given to [compile], in order. *)
  compiledFiles : list str;
  world_ : M }.

Definition start (m : M) : progress := mkProgress ∅ ∅ ∅ [] [] [] false false None None None [] m.

(** [configRoot == "*" || strings.Index(dItem, configRoot+".") == 0]. *)
Definition matches (configRoot dItem : str) : bool :=
  bool_decide (configRoot = $"*") || (Index dItem (configRoot ++ $".") =? 0)%Z.

Definition fetched (p : progress) (dItem : str) : bool :=
  ExistsInMap (newItemValuesEncrypted p) dItem.

(** The results of one [GetNewValueOfConfig] recorded; [registered] for the
    second loop. *)
Definition record_value (registered : bool) (p : progress) (dItem : str) (v : NewValue) (m : M) : progress :=
  let ok := match cErr v with None => true | Some _ => false end in
  mkProgress
    (if ok then <[dItem := valueEncrypted v]> (newItemValuesEncrypted p) else newItemValuesEncrypted p)
    (if ok then <[dItem := valuePlain v]> (newItemValuesPlain p) else newItemValuesPlain p)
    (if ok then <[dItem := valueSerialized v]> (newItemValuesSerialized p) else newItemValuesSerialized p)
    (if ok && hasUpdate v && negb registered then append_unique (itemsHasUpdate p) dItem else itemsHasUpdate p)
    (if negb ok || negb (newVersionChecked v) then failedConfigItems p ++ [dItem] else failedConfigItems p)
    (if ok && isDebugValue v
     then if registered then fetchedDebugValues p ++ [dItem] else append_unique (fetchedDebugValues p) dItem
     else fetchedDebugValues p)
    (hasUpdateOverall p || (ok && hasUpdate v && negb registered))
    (registeredNodesHasUpdate p || (ok && hasUpdate v && registered))
    (cErr v) (compileErr p) (parseErr p) (compiledFiles p) m.

(** One item of a schema file; the flag is [schemaContainsUpdate]. *)
Definition fetch_item (configRoot path : str) (acc : progress * bool) (dItem : str) : outcome (progress * bool) :=
  let '(p, contains) := acc in
  if InArrayString (itemsHasUpdate p) dItem && negb DEVMODE then Done (p, true)
  else if DEVMODE || (matches configRoot dItem && negb (fetched p dItem)) then
    r ← gnv dItem path (world_ p);
    let p' := record_value false p dItem r.1 r.2 in
    Done (p', contains || (match cErr r.1 with None => hasUpdate r.1 | Some _ => false end))
  else Done (p, contains).

Fixpoint fetch_items (configRoot path : str) (acc : progress * bool) (items : list str) : outcome (progress * bool) :=
  match items with
  | [] => Done acc
  | i :: rest => acc ← fetch_item configRoot path acc i; fetch_items configRoot path acc rest
  end.

Definition set_errs (p : progress) (compile_ parse_ : option error) (files : list str) (m : M) : progress :=
  mkProgress (newItemValuesEncrypted p) (newItemValuesPlain p) (newItemValuesSerialized p) (itemsHasUpdate p)
    (failedConfigItems p) (fetchedDebugValues p) (hasUpdateOverall p) (registeredNodesHasUpdate p)
    (itemErr p) compile_ parse_ files m.

(** One schema file. *)
Definition update_schema (configRoot : str) (forceCompile : bool) (p : progress) (f : SchemaFile) : outcome progress :=
  match ParseItems fs (Path f) with
  | inl err =>
      Done (set_errs p (compileErr p) (Some (err ++ $":" ++ default $"<nil>" (parseErr p))) (compiledFiles p) (world_ p))
  | inr definedItems =>
      r ← fetch_items configRoot (Path f) (p, false) definedItems;
      let '(p, schemaContainsUpdate) := r in
      if forceCompile || schemaContainsUpdate then
        c ← compile (newItemValuesSerialized p) (Path f) (world_ p);
        Done (set_errs p c.1 (parseErr p) (compiledFiles p ++ [Path f]) c.2)
      else Done p
  end.

Fixpoint update_schemas (configRoot : str) (forceCompile : bool) (p : progress) (files : list SchemaFile)
    : outcome progress :=
  match files with
  | [] => Done p
  | f :: rest => p ← update_schema configRoot forceCompile p f; update_schemas configRoot forceCompile p rest
  end.

(** One configuration registered through the API. *)
Definition fetch_registered (configRoot : str) (p : progress) (dItem : str) : outcome progress :=
  if negb (matches configRoot dItem) then Done p
  else if fetched p dItem then Done p
  else r ← gnv dItem [] (world_ p); Done (record_value true p dItem r.1 r.2).

Fixpoint fetch_all_registered (configRoot : str) (p : progress) (nodes : list str) : outcome progress :=
  match nodes with
  | [] => Done p
  | n :: rest => p ← fetch_registered configRoot p n; fetch_all_registered configRoot p rest
  end.

(** What an update does besides compiling: the entries put into the local
    database and into memory, whether the root is queued for a recheck, the nodes
    passed to the callbacks and whether callbacks are invoked. *)
Record effects := mkEffects {
  to_disk : gmap str str;
  to_mem : gmap str (option str);
  recheck : bool;
  updated_nodes : list str;
  run_callbacks : bool;
  last : progress }.

Definition keep {A} (p : progress) (m : gmap str A) : gmap str A :=
  base.filter (fun kv => negb (DEVMODE && InArrayString (fetchedDebugValues p) kv.1) = true) m.

(** [updateProjectConfigByRootNode], with the lock held: [registered] are the
    names of the registered configurations in the order they are ranged over, and
    [db_ok] says whether the local database can be opened. *)
Definition updateProjectConfigByRootNode (ENCRYPT_ENABLE db_ok : bool) (dirs registered : list str)
    (configRoot : str) (forceCompile : bool) (m : M) : outcome effects :=
  p ← update_schemas configRoot forceCompile (start m) (LoadSchemaFiles fs dirs);
  p ← fetch_all_registered configRoot p registered;
  let save := hasUpdateOverall p || registeredNodesHasUpdate p in
  Done (mkEffects
    (if save && db_ok then keep p (if ENCRYPT_ENABLE then newItemValuesEncrypted p else newItemValuesPlain p) else ∅)
    (if save then keep p (newItemValuesSerialized p) else ∅)
    (negb (bool_decide (failedConfigItems p = [])))
    (itemsHasUpdate p)
    (hasUpdateOverall p || forceCompile)
    p).

(** ** Lemmas *)

(** The three maps have the same names, and an item with an update is in them. *)
Definition consistent (p : progress) : Prop :=
  (∀ n, is_Some (newItemValuesEncrypted p !! n) ↔ is_Some (newItemValuesSerialized p !! n))
  ∧ ∀ n, n ∈ itemsHasUpdate p → is_Some (newItemValuesSerialized p !! n).

(** An item is accounted for: it has a value or it failed. *)
Definition settled (p : progress) (n : str) : Prop :=
  is_Some (newItemValuesSerialized p !! n) ∨ n ∈ failedConfigItems p.

Definition grows (p q : progress) : Prop := ∀ n, settled p n → settled q n.

Definition only (P : str → Prop) (p : progress) : Prop := ∀ n, is_Some (newItemValuesSerialized p !! n) → P n.

Lemma lookup_insert_is_Some' {A} (m : gmap str A) i x n :
  is_Some (<[i := x]> m !! n) ↔ i = n ∨ is_Some (m !! n).
Proof.
  destruct (decide (i = n)) as [->|Hne]; [rewrite lookup_insert_eq; naive_solver|].
  rewrite lookup_insert_ne by done. naive_solver.
Qed.

Lemma record_value_facts reg p n v m :
  consistent p →
  consistent (record_value reg p n v m) ∧ settled (record_value reg p n v m) n ∧ grows p (record_value reg p n v m)
  ∧ ∀ P : str → Prop, only P p → P n → only P (record_value reg p n v m).
Proof.
  intros [Hc Hi]. unfold record_value, consistent, settled, grows, only. destruct (cErr v) as [e|]; simpl.
  - split; [by split|]. split; [right; set_solver|]. split; [|by auto].
    intros k [?|?]; [by left|right; set_solver].
  - split; [split|split; [|split]].
    + intros k. rewrite !lookup_insert_is_Some'. naive_solver.
    + intros k. rewrite lookup_insert_is_Some'.
      destruct (hasUpdate v && negb reg); [rewrite elem_of_append_unique|]; naive_solver.
    + left. apply lookup_insert_is_Some'. by left.
    + intros k [?|?]; [left; apply lookup_insert_is_Some'; by right|right].
      destruct (newVersionChecked v); simpl; [done|set_solver].
    + intros P Ho Hn k. rewrite lookup_insert_is_Some'. naive_solver.
Qed.

Lemma set_errs_facts p c e l m :
  (consistent p → consistent (set_errs p c e l m)) ∧ grows p (set_errs p c e l m) ∧ grows (set_errs p c e l m) p
  ∧ ∀ P, only P p → only P (set_errs p c e l m).
Proof. unfold consistent, grows, settled, only. naive_solver. Qed.

Lemma fetched_spec p n : consistent p → fetched p n = true ↔ is_Some (newItemValuesSerialized p !! n).
Proof. intros [Hc _]. rewrite <- Hc. apply ExistsInMap_spec. Qed.

Lemma fetch_item_facts root path p b n p' b' :
  DEVMODE = false → consistent p → fetch_item root path (p, b) n = Done (p', b') →
  consistent p' ∧ grows p p' ∧ (matches root n = true → settled p' n)
  ∧ ∀ P : str → Prop, (matches root n = true → P n) → only P p → only P p'.
Proof.
  intros Hd Hc. unfold fetch_item. rewrite Hd. cbn [orb negb]. rewrite andb_true_r.
  destruct (InArrayString (itemsHasUpdate p) n) eqn:Ei.
  { intros [= <- <-]. split_and!; [done|by intros k| |naive_solver].
    intros _. left. apply Hc. by apply InArrayString_spec. }
  destruct (matches root n && negb (fetched p n)) eqn:Em.
  - bool_to_prop. destruct (gnv n path (world_ p)) as [[v m]|]; [|done]. cbn [mbind outcome_bind fst snd].
    intros [= <- <-]. destruct (record_value_facts false p n v m Hc) as (? & ? & ? & Ho). split_and!; auto.
  - intros [= <- <-]. split_and!; [done|by intros k| |naive_solver].
    intros Hm. rewrite Hm in Em. cbn [andb] in Em. bool_to_prop. left. by apply fetched_spec.
Qed.

Lemma fetch_items_facts root path items p b p' b' :
  DEVMODE = false → consistent p → fetch_items root path (p, b) items = Done (p', b') →
  consistent p' ∧ grows p p' ∧ (∀ n, n ∈ items → matches root n = true → settled p' n)
  ∧ ∀ P : str → Prop, (∀ n, n ∈ items → matches root n = true → P n) → only P p → only P p'.
Proof.
  intros Hd. revert p b. induction items as [|i items IH]; intros p b Hc H; cbn [fetch_items] in H.
  { injection H as <- <-. split_and!; [done|by intros k|set_solver|naive_solver]. }
  destruct (fetch_item root path (p, b) i) as [[p1 b1]|] eqn:E; [|done]. cbn [mbind outcome_bind] in H.
  destruct (fetch_item_facts _ _ _ _ _ _ _ Hd Hc E) as (Hc1 & Hg1 & Hs1 & Ho1).
  destruct (IH _ _ Hc1 H) as (Hc2 & Hg2 & Hs2 & Ho2). split_and!; [done|by intros k Hk; apply Hg2, Hg1| |].
  - intros n [->|Hn]%elem_of_cons Hm; [apply Hg2; auto|auto].
  - intros P HP Hp. apply Ho2; [intros; apply HP; [by right|done]|].
    apply Ho1; [intros; apply HP; [left|done]|done].
Qed.

Lemma update_schema_facts root force f p p' :
  DEVMODE = false → consistent p → update_schema root force p f = Done p' →
  consistent p' ∧ grows p p'
  ∧ (∀ items n, ParseItems fs (Path f) = inr items → n ∈ items → matches root n = true → settled p' n)
  ∧ ∀ P : str → Prop, (∀ n, matches root n = true → P n) → only P p → only P p'.
Proof.
  intros Hd Hc H. unfold update_schema in H. destruct (ParseItems fs (Path f)) as [e|items].
  { injection H as <-. destruct (set_errs_facts p (compileErr p) (Some (e ++ $":" ++ default $"<nil>" (parseErr p))) (compiledFiles p) (world_ p))
      as (? & ? & _ & ?). split_and!; auto. done. }
  destruct (fetch_items root (Path f) (p, false) items) as [[p1 b1]|] eqn:E; [|done]. cbn [mbind outcome_bind] in H.
  destruct (fetch_items_facts _ _ _ _ _ _ _ Hd Hc E) as (Hc1 & Hg1 & Hs1 & Ho1).
  assert (consistent p' ∧ grows p1 p' ∧ ∀ P : str → Prop, only P p1 → only P p') as (Hc2 & Hg2 & Ho2).
  { destruct (force || b1).
    - destruct (compile _ _ _) as [[ce m]|]; [|done]. cbn [mbind outcome_bind fst snd] in H. injection H as <-.
      destruct (set_errs_facts p1 ce (parseErr p1) (compiledFiles p1 ++ [Path f]) m) as (? & ? & _ & ?). split_and!; auto.
    - injection H as <-. split_and!; [done|by intros k|done]. }
  split_and!; [done|by intros k Hk; apply Hg2, Hg1| |].
  - intros items' n [= <-] Hn Hm. apply Hg2. auto.
  - intros P HP Hp. apply Ho2, Ho1; auto.
Qed.

Lemma update_schemas_facts root force files p p' :
  DEVMODE = false → consistent p → update_schemas root force p files = Done p' →
  consistent p' ∧ grows p p'
  ∧ (∀ f items n, f ∈ files → ParseItems fs (Path f) = inr items → n ∈ items → matches root n = true → settled p' n)
  ∧ ∀ P : str → Prop, (∀ n, matches root n = true → P n) → only P p → only P p'.
Proof.
  intros Hd. revert p. induction files as [|f files IH]; intros p Hc H; cbn [update_schemas] in H.
  { injection H as <-. split_and!; [done|by intros k|set_solver|auto]. }
  destruct (update_schema root force p f) as [p1|] eqn:E; [|done]. cbn [mbind outcome_bind] in H.
  destruct (update_schema_facts _ _ _ _ _ Hd Hc E) as (Hc1 & Hg1 & Hs1 & Ho1).
  destruct (IH _ Hc1 H) as (Hc2 & Hg2 & Hs2 & Ho2). split_and!; [done|by intros k Hk; apply Hg2, Hg1| |auto].
  intros g items n [->|Hg]%elem_of_cons Hp Hn Hm; [apply Hg2|]; eauto.
Qed.

Lemma fetch_registered_facts root nodes p p' :
  consistent p → fetch_all_registered root p nodes = Done p' →
  consistent p' ∧ grows p p' ∧ (∀ n, n ∈ nodes → matches root n = true → settled p' n)
  ∧ ∀ P : str → Prop, (∀ n, matches root n = true → P n) → only P p → only P p'.
Proof.
  revert p. induction nodes as [|i nodes IH]; intros p Hc H; cbn [fetch_all_registered] in H.
  { injection H as <-. split_and!; [done|by intros k|set_solver|auto]. }
  destruct (fetch_registered root p i) as [p1|] eqn:E; [|done]. cbn [mbind outcome_bind] in H.
  assert (consistent p1 ∧ grows p p1 ∧ (matches root i = true → settled p1 i)
    ∧ ∀ P : str → Prop, (∀ n, matches root n = true → P n) → only P p → only P p1) as (Hc1 & Hg1 & Hs1 & Ho1).
  { unfold fetch_registered in E. destruct (matches root i) eqn:Em; cbn [negb] in E.
    2:{ injection E as <-. split_and!; [done|by intros k|done|auto]. }
    destruct (fetched p i) eqn:Ef.
    { injection E as <-. split_and!; [done|by intros k| |auto]. intros _. left. by apply fetched_spec. }
    destruct (gnv i [] (world_ p)) as [[v m]|]; [|done]. cbn [mbind outcome_bind fst snd] in E. injection E as <-.
    destruct (record_value_facts true p i v m Hc) as (? & ? & ? & Ho). split_and!; auto. }
  destruct (IH _ Hc1 H) as (Hc2 & Hg2 & Hs2 & Ho2). split_and!; [done|by intros k Hk; apply Hg2, Hg1| |auto].
  intros n [->|Hn]%elem_of_cons Hm; [apply Hg2|]; auto.
Qed.

Lemma start_consistent m : consistent (start m) ∧ ∀ P, only P (start m).
Proof.
  unfold consistent, only, start. simpl. setoid_rewrite lookup_empty.
  split_and!; [done|set_solver|]. intros P n [? ?]. done.
Qed.

(** ** Which files are compiled *)

(** One stretch of an update: nothing is forgotten, and an item newly reported as
    updated matches the root and had no value before. *)
Definition ext (root : str) (p q : progress) : Prop :=
  failedConfigItems p ⊆ failedConfigItems q
  ∧ compiledFiles p ⊆ compiledFiles q
  ∧ (∀ n, is_Some (newItemValuesSerialized p !! n) → is_Some (newItemValuesSerialized q !! n))
  ∧ itemsHasUpdate p ⊆ itemsHasUpdate q
  ∧ (∀ n, n ∈ itemsHasUpdate q →
       n ∈ itemsHasUpdate p ∨ (matches root n = true ∧ ¬ is_Some (newItemValuesSerialized p !! n))).

Lemma ext_refl root p : ext root p p.
Proof. unfold ext. naive_solver. Qed.

Lemma ext_trans root p q r : ext root p q → ext root q r → ext root p r.
Proof.
  unfold ext. intros (Ha & Hb & Hs & Hu & Hn) (Hc & Hd & Ht & Hv & Hk).
  split_and!; [set_solver|set_solver|auto|set_solver|].
  intros n [Hi|[Hm Hi]]%Hk; [auto|right]. auto.
Qed.

Lemma record_value_ext root reg p n v m :
  matches root n = true → ¬ is_Some (newItemValuesSerialized p !! n) → ext root p (record_value reg p n v m).
Proof.
  intros Hm Hn. unfold ext, record_value. destruct (cErr v) as [e|]; simpl.
  - split_and!; [set_solver|done|done|done|auto].
  - split; [destruct (newVersionChecked v); set_solver|]. split; [done|].
    split; [intros k Hk; apply lookup_insert_is_Some'; by right|].
    destruct (hasUpdate v && negb reg); [|split; [done|auto]].
    split; [intros k Hk; apply elem_of_append_unique; by left|].
    intros k [?| ->]%elem_of_append_unique; auto.
Qed.

Lemma record_value_updated p n v m k :
  k ∈ itemsHasUpdate (record_value false p n v m) →
  k ∈ itemsHasUpdate p ∨ match cErr v with None => hasUpdate v | Some _ => false end = true.
Proof.
  unfold record_value. destruct (cErr v); simpl; [auto|]. destruct (hasUpdate v); simpl; auto.
Qed.

Lemma record_value_reported p n v m :
  match cErr v with None => hasUpdate v | Some _ => false end = true →
  n ∈ itemsHasUpdate (record_value false p n v m).
Proof.
  unfold record_value. destruct (cErr v); [done|]. intros ->. simpl. apply elem_of_append_unique. by right.
Qed.

Lemma fetch_item_ext root path p b n p' b' :
  DEVMODE = false → consistent p → fetch_item root path (p, b) n = Done (p', b') →
  ext root p p' ∧ (b = true → b' = true) ∧ (n ∈ itemsHasUpdate p → b' = true)
  ∧ (∀ k, k ∈ itemsHasUpdate p' → k ∈ itemsHasUpdate p ∨ b' = true)
  ∧ (b' = true → b = true ∨ n ∈ itemsHasUpdate p').
Proof.
  intros Hd Hc. unfold fetch_item. rewrite Hd. cbn [orb negb]. rewrite andb_true_r.
  destruct (InArrayString (itemsHasUpdate p) n) eqn:Ei.
  { apply InArrayString_spec in Ei. intros [= <- <-]. split_and!; auto using ext_refl. }
  destruct (matches root n && negb (fetched p n)) eqn:Em.
  - destruct (matches root n) eqn:Emm; [|done]. destruct (gnv n path (world_ p)) as [[v m]|]; [|done].
    cbn [mbind outcome_bind fst snd]. intros [= <- <-]. split_and!.
    + apply record_value_ext; [done|]. rewrite <- fetched_spec by done. by destruct (fetched p n).
    + by intros ->.
    + intros Hn%InArrayString_spec. congruence.
    + intros k [?|Hk]%record_value_updated; [by left|right]. by rewrite Hk, orb_true_r.
    + intros [?|?]%orb_true_iff; [by left|right]. by apply record_value_reported.
  - intros [= <- <-]. split_and!; auto using ext_refl. intros Hn%InArrayString_spec. congruence.
Qed.

Lemma fetch_items_ext root path items p b p' b' :
  DEVMODE = false → consistent p → fetch_items root path (p, b) items = Done (p', b') →
  ext root p p' ∧ (b = true → b' = true)
  ∧ (∀ k, k ∈ itemsHasUpdate p' → k ∈ items ∨ k ∉ itemsHasUpdate p → b' = true)
  ∧ (b' = true → b = true ∨ ∃ n, n ∈ items ∧ n ∈ itemsHasUpdate p').
Proof.
  intros Hd. revert p b. induction items as [|i items IH]; intros p b Hc H; cbn [fetch_items] in H.
  { injection H as <- <-. split_and!; [apply ext_refl|done| |auto]. set_solver. }
  destruct (fetch_item root path (p, b) i) as [[p1 b1]|] eqn:E; [|done]. cbn [mbind outcome_bind] in H.
  destruct (fetch_item_facts _ _ _ _ _ _ _ Hd Hc E) as (Hc1 & _).
  destruct (fetch_item_ext _ _ _ _ _ _ _ Hd Hc E) as (He1 & Hb1 & Hi1 & Hk1 & Hr1).
  destruct (IH _ _ Hc1 H) as (He2 & Hb2 & Hk2 & Hr2). split_and!; [by eapply ext_trans|auto| |].
  - intros k Hk Hor. destruct (decide (k ∈ itemsHasUpdate p1)) as [Hp1|Hp1]; [|eauto].
    destruct (Hk1 k Hp1) as [Hp|Hp]; [|auto]. destruct Hor as [[->|Hin]%elem_of_cons|?]; [auto|eauto|done].
  - intros Hb'. destruct (Hr2 Hb') as [Hb|(n & Hn & Hu)]; [|right; exists n; split; [by right|done]].
    destruct (Hr1 Hb) as [?|Hu]; [by left|right]. exists i. split; [left|]. by apply He2.
Qed.

(** The files handled so far: every matching item is settled, and a file with an
    updated item was compiled unless fetching that item failed. *)
Definition files_ok (root : str) (done : list SchemaFile) (p : progress) : Prop :=
  ∀ f items n, f ∈ done → ParseItems fs (Path f) = inr items → n ∈ items →
    (matches root n = true → settled p n)
    ∧ (n ∈ itemsHasUpdate p → Path f ∈ compiledFiles p ∨ n ∈ failedConfigItems p).

(** Without the force option only files with an updated item are compiled. *)
Definition compiled_ok (p : progress) : Prop :=
  ∀ path, path ∈ compiledFiles p → ∃ items n, ParseItems fs path = inr items ∧ n ∈ items ∧ n ∈ itemsHasUpdate p.

Lemma files_ok_ext root done p q : consistent q → ext root p q → files_ok root done p → files_ok root done q.
Proof.
  intros Hc (Hf & Hcf & Hs & Hu & Hn) H f items n Hin Hp Hi. destruct (H f items n Hin Hp Hi) as [H1 H2]. split.
  - intros Hm. destruct (H1 Hm) as [?|?]; [left; auto|right; set_solver].
  - intros [Hold|[Hm Hno]]%Hn; [destruct (H2 Hold); [left|right]; set_solver|right].
    destruct (H1 Hm) as [?|?]; [done|set_solver].
Qed.

Lemma set_errs_ext root p c e l m : compiledFiles p ⊆ l → ext root p (set_errs p c e l m).
Proof. intros H. unfold ext. simpl. split_and!; auto. Qed.

Lemma fetch_items_compiled root path items p b p' b' :
  fetch_items root path (p, b) items = Done (p', b') → compiledFiles p' = compiledFiles p.
Proof.
  revert p b. induction items as [|i items IH]; intros p b H; cbn [fetch_items] in H; [by simplify_eq|].
  destruct (fetch_item root path (p, b) i) as [[p1 b1]|] eqn:E; [|done]. cbn [mbind outcome_bind] in H.
  rewrite (IH _ _ H). unfold fetch_item in E. repeat case_match; try (by simplify_eq).
  destruct (gnv i path (world_ p)) as [[v m]|]; [|done]. cbn [mbind outcome_bind] in E. by simplify_eq.
Qed.

Lemma update_schema_ext root force f p p' done :
  DEVMODE = false → consistent p → update_schema root force p f = Done p' →
  files_ok root done p → files_ok root (f :: done) p' ∧ (force = false → compiled_ok p → compiled_ok p').
Proof.
  intros Hd Hc H Hok. destruct (update_schema_facts _ _ _ _ _ Hd Hc H) as (Hc' & Hg & Hs & _).
  unfold update_schema in H. destruct (ParseItems fs (Path f)) as [e|items] eqn:Ep.
  { injection H as <-. split; [|by intros _].
    intros g items n [->|Hg']%elem_of_cons Hp Hi; [congruence|].
    exact (Hok g items n Hg' Hp Hi). }
  destruct (fetch_items root (Path f) (p, false) items) as [[p1 b1]|] eqn:E; [|done]. cbn [mbind outcome_bind] in H.
  destruct (fetch_items_ext _ _ _ _ _ _ _ Hd Hc E) as (He & _ & Hk & Hr).
  assert (ext root p1 p' ∧ itemsHasUpdate p' = itemsHasUpdate p1
          ∧ compiledFiles p' = compiledFiles p ++ (if force || b1 then [Path f] else [])) as (He2 & Hu2 & Hcf).
  { rewrite <- (fetch_items_compiled _ _ _ _ _ _ _ E). destruct (force || b1).
    - destruct (compile _ _ _) as [[ce m]|]; [|done]. cbn [mbind outcome_bind fst snd] in H. injection H as <-.
      split_and!; [|done|done]. apply set_errs_ext. set_solver.
    - injection H as <-. rewrite app_nil_r. split_and!; [apply ext_refl|done|done]. }
  split.
  - intros g its n [->|Hg']%elem_of_cons Hp Hi.
    + assert (its = items) as -> by congruence. split; [intros; by apply (Hs items)|]. intros Hn. left.
      rewrite Hu2 in Hn. rewrite Hcf, (Hk n Hn) by (by left). rewrite orb_true_r. set_solver.
    + eapply files_ok_ext; [done|exact (ext_trans _ _ _ _ He He2)|exact Hok|done|done|done].
  - intros -> Hco path. rewrite Hcf, elem_of_app. intros [Hin|Hin].
    + destruct (Hco path Hin) as (its & n & ? & ? & ?). exists its, n. rewrite Hu2. split_and!; [done|done|by apply He].
    + cbn [orb] in Hin. destruct b1; [|set_solver]. apply list_elem_of_singleton in Hin as ->.
      destruct (Hr eq_refl) as [?|(n & Hn & Hu)]; [done|]. exists items, n. by rewrite Hu2.
Qed.

Lemma update_schemas_ext root force files p p' done :
  DEVMODE = false → consistent p → update_schemas root force p files = Done p' →
  files_ok root done p →
  files_ok root (reverse files ++ done) p' ∧ (force = false → compiled_ok p → compiled_ok p').
Proof.
  intros Hd. revert p done. induction files as [|f files IH]; intros p done Hc H Hok; cbn [update_schemas] in H.
  { injection H as <-. by split. }
  destruct (update_schema root force p f) as [p1|] eqn:E; [|done]. cbn [mbind outcome_bind] in H.
  destruct (update_schema_facts _ _ _ _ _ Hd Hc E) as (Hc1 & _).
  destruct (update_schema_ext _ _ _ _ _ _ Hd Hc E Hok) as [Hok1 Hco1].
  destruct (IH _ _ Hc1 H Hok1) as [Hok2 Hco2]. rewrite reverse_cons, <- app_assoc. split; [done|auto].
Qed.

Lemma fetch_registered_keeps root nodes p p' :
  fetch_all_registered root p nodes = Done p' →
  compiledFiles p' = compiledFiles p ∧ itemsHasUpdate p' = itemsHasUpdate p
  ∧ failedConfigItems p ⊆ failedConfigItems p'.
Proof.
  revert p. induction nodes as [|i nodes IH]; intros p H; cbn [fetch_all_registered] in H; [by simplify_eq|].
  destruct (fetch_registered root p i) as [p1|] eqn:E; [|done]. cbn [mbind outcome_bind] in H.
  destruct (IH _ H) as (-> & -> & Hf). unfold fetch_registered in E. repeat case_match; try (by simplify_eq).
  destruct (gnv i [] (world_ p)) as [[v m]|]; [|done]. cbn [mbind outcome_bind] in E. injection E as <-.
  unfold record_value in *. simpl in *. rewrite andb_false_r in *. split_and!; [done|done|].
  etrans; [|exact Hf]. destruct (_ || _); set_solver.
Qed.

(** ** Totality, and the update as a whole *)

(** Neither argument panics. *)
Definition calls_return : Prop :=
  (∀ n path m, ∃ r, gnv n path m = Done r) ∧ ∀ vs path m, ∃ r, compile vs path m = Done r.

Lemma fetch_items_total root path items acc :
  calls_return → ∃ r, fetch_items root path acc items = Done r.
Proof.
  intros [Hg _]. revert acc. induction items as [|i items IH]; intros [p b]; cbn [fetch_items]; [eauto|].
  unfold fetch_item. destruct (InArrayString (itemsHasUpdate p) i && negb DEVMODE); [apply IH|].
  destruct (DEVMODE || _); [|apply IH]. destruct (Hg i path (world_ p)) as [r ->]. apply IH.
Qed.

Lemma update_schemas_total root force files p :
  calls_return → ∃ q, update_schemas root force p files = Done q.
Proof.
  intros Hr. revert p. induction files as [|f files IH]; intros p; cbn [update_schemas]; [eauto|].
  unfold update_schema. destruct (ParseItems fs (Path f)) as [e|items]; [apply IH|].
  destruct (fetch_items_total root (Path f) items (p, false) Hr) as [[q b] ->]. cbn [mbind outcome_bind].
  destruct (force || b); [|apply IH]. destruct (proj2 Hr (newItemValuesSerialized q) (Path f) (world_ q)) as [r ->].
  apply IH.
Qed.

Lemma fetch_registered_total root nodes p :
  calls_return → ∃ q, fetch_all_registered root p nodes = Done q.
Proof.
  intros Hr. revert p. induction nodes as [|n nodes IH]; intros p; cbn [fetch_all_registered]; [eauto|].
  unfold fetch_registered. destruct (negb (matches root n)); [apply IH|]. destruct (fetched p n); [apply IH|].
  destruct (proj1 Hr n [] (world_ p)) as [r ->]. apply IH.
Qed.

(** The two phases of an update, with what is known after each. *)
Lemma update_phases enc ok dirs registered root force m :
  DEVMODE = false → calls_return →
  ∃ p q e, updateProjectConfigByRootNode enc ok dirs registered root force m = Done e
    ∧ last e = q ∧ consistent p
    ∧ update_schemas root force (start m) (LoadSchemaFiles fs dirs) = Done p
    ∧ fetch_all_registered root p registered = Done q
    ∧ recheck e = negb (bool_decide (failedConfigItems q = []))
    ∧ updated_nodes e = itemsHasUpdate q
    ∧ to_mem e = (if hasUpdateOverall q || registeredNodesHasUpdate q then newItemValuesSerialized q else ∅).
Proof.
  intros Hd Hr. destruct (update_schemas_total root force (LoadSchemaFiles fs dirs) (start m) Hr) as [p Hp].
  destruct (fetch_registered_total root registered p Hr) as [q Hq].
  unfold updateProjectConfigByRootNode. rewrite Hp. cbn [mbind outcome_bind]. rewrite Hq. cbn [mbind outcome_bind].
  exists p, q. eexists. split; [reflexivity|]. cbn.
  split_and!; try done; [by destruct (update_schemas_facts _ _ _ _ _ Hd (proj1 (start_consistent m)) Hp)|].
  unfold keep. rewrite Hd. case_match; [|done]. apply map_filter_id. intros i x Hix. by cbn.
Qed.

(** C20.  An update skips nothing: without DEV mode, and if the calls it makes
    return, it returns; every item of a readable schema file and every registered
    configuration that belongs to the root has been given a value or is in the
    list of failures.  When the root is not queued for a recheck, all of them have
    values; when anything was updated, the values are the ones stored in memory. *)
Theorem update_covers (enc ok : bool) (dirs registered : list str) (root : str) (force : bool) (m : M) :
  DEVMODE = false → calls_return →
  ∃ e, updateProjectConfigByRootNode enc ok dirs registered root force m = Done e
    ∧ ∀ n, matches root n = true →
        n ∈ registered ∨ (∃ f items, f ∈ LoadSchemaFiles fs dirs ∧ ParseItems fs (Path f) = inr items ∧ n ∈ items) →
        (is_Some (newItemValuesSerialized (last e) !! n) ∨ n ∈ failedConfigItems (last e))
        ∧ (recheck e = false → is_Some (newItemValuesSerialized (last e) !! n))
        ∧ (recheck e = false → hasUpdateOverall (last e) || registeredNodesHasUpdate (last e) = true →
           to_mem e !! n = newItemValuesSerialized (last e) !! n ∧ is_Some (to_mem e !! n)).
Proof.
  intros Hd Hr. destruct (update_phases enc ok dirs registered root force m Hd Hr)
    as (p & q & e & He & <- & Hc & Hp & Hq & Hrc & _ & Hm). exists e. split; [done|]. intros n Hn Hin.
  destruct (update_schemas_facts _ _ _ _ _ Hd (proj1 (start_consistent m)) Hp) as (_ & _ & Hs & _).
  destruct (fetch_registered_facts _ _ _ _ Hc Hq) as (_ & Hg & Hs' & _).
  assert (settled (last e) n) as Hset.
  { destruct Hin as [?|(f & items & ? & ? & ?)]; [auto|apply Hg; eauto]. }
  assert (recheck e = false → is_Some (newItemValuesSerialized (last e) !! n)) as Hv.
  { rewrite Hrc. intros Hf. destruct Hset as [?|Hfail]; [done|]. bool_to_prop. rewrite Hf in Hfail. set_solver. }
  split_and!; [done|done|]. intros Hrf Hu. rewrite Hm, Hu. auto.
Qed.

(** A file that uses an updated item was compiled, or the item failed. *)
Lemma update_compiled enc ok dirs registered root force m e f items n :
  DEVMODE = false → updateProjectConfigByRootNode enc ok dirs registered root force m = Done e →
  f ∈ LoadSchemaFiles fs dirs → ParseItems fs (Path f) = inr items → n ∈ items → n ∈ updated_nodes e →
  Path f ∈ compiledFiles (last e) ∨ n ∈ failedConfigItems (last e).
Proof.
  intros Hd H Hin Hpi Hn Hup. unfold updateProjectConfigByRootNode in H.
  destruct (update_schemas root force (start m) _) as [p|] eqn:Ep; [|done]. cbn [mbind outcome_bind] in H.
  destruct (fetch_all_registered root p registered) as [q|] eqn:Eq; [|done]. cbn [mbind outcome_bind] in H.
  injection H as <-. cbn [last updated_nodes] in *.
  assert (files_ok root [] (start m)) as H0 by (intros ??? ?%elem_of_nil; done).
  destruct (update_schemas_ext _ _ _ _ _ _ Hd (proj1 (start_consistent m)) Ep H0) as [Hf _].
  destruct (fetch_registered_keeps _ _ _ _ Eq) as (Hcf & Hiu & Hfi). rewrite Hcf. rewrite Hiu in Hup.
  assert (f ∈ reverse (LoadSchemaFiles fs dirs) ++ []) as Hin' by by rewrite app_nil_r, elem_of_reverse.
  destruct (proj2 (Hf f items n Hin' Hpi Hn) Hup); [by left|right; auto].
Qed.

(** C19.  A changed configuration reaches the files: after an update without DEV
    mode, every readable schema file that uses an item reported as updated has
    been compiled, unless fetching that item failed at some point of the update;
    and without the force option only files that use an updated item are
    compiled. *)
Theorem update_compiles_changed (enc ok : bool) (dirs registered : list str) (root : str) (force : bool) (m : M) :
  DEVMODE = false → calls_return →
  ∃ e, updateProjectConfigByRootNode enc ok dirs registered root force m = Done e
    ∧ (∀ f items n, f ∈ LoadSchemaFiles fs dirs → ParseItems fs (Path f) = inr items → n ∈ items →
         n ∈ updated_nodes e → Path f ∈ compiledFiles (last e) ∨ n ∈ failedConfigItems (last e))
    ∧ (force = false → ∀ path, path ∈ compiledFiles (last e) →
         ∃ items n, ParseItems fs path = inr items ∧ n ∈ items ∧ n ∈ updated_nodes e).
Proof.
  intros Hd Hr. destruct (update_phases enc ok dirs registered root force m Hd Hr)
    as (p & q & e & He & <- & Hc & Hp & Hq & _ & Hu & _). exists e. split; [done|].
  split; [intros f items n; by eapply update_compiled|].
  assert (files_ok root [] (start m)) as H0 by (intros ??? ?%elem_of_nil; done).
  destruct (update_schemas_ext _ _ _ _ _ _ Hd (proj1 (start_consistent m)) Hp H0) as [_ Hco].
  destruct (fetch_registered_keeps _ _ _ _ Hq) as (Hcf & Hiu & _). rewrite Hu, Hcf, Hiu.
  intros -> path Hpath. apply Hco; [done| |done]. intros ? ?%elem_of_nil. done.
Qed.

Lemma matches_spec root n : matches root n = true ↔ root = $"*" ∨ (root ++ $".") `prefix_of` n.
Proof.
  unfold matches, Index. rewrite orb_true_iff, bool_decide_eq_true, Z.eqb_eq. f_equiv.
  assert (∀ s i, (0 < i)%Z → index_from (root ++ $".") s i ≠ 0%Z) as Hpos.
  { induction s as [|c s IH]; intros i Hi; simpl; case_match; try lia. apply IH. lia. }
  rewrite <- HasPrefix_spec. destruct n as [|c n]; simpl; destruct (HasPrefix _ _); try (split; done).
  split; [|done]. intros H. exfalso. revert H. apply Hpos. lia.
Qed.

(** An update of one root node fetches only configurations below it: names
    that begin with the root and a dot.  A configuration whose name is the root
    node itself is never fetched by such an update. *)
Theorem update_only_below (enc ok : bool) (dirs registered : list str) (root : str) (force : bool) (m : M) :
  DEVMODE = false → calls_return → root ≠ $"*" →
  ∃ e, updateProjectConfigByRootNode enc ok dirs registered root force m = Done e
    ∧ (∀ n, is_Some (newItemValuesSerialized (last e) !! n) → (root ++ $".") `prefix_of` n)
    ∧ newItemValuesSerialized (last e) !! root = None.
Proof.
  intros Hd Hr Hroot. destruct (update_phases enc ok dirs registered root force m Hd Hr)
    as (p & q & e & He & <- & Hc & Hp & Hq & _). exists e. split; [done|].
  destruct (start_consistent m) as [Hc0 Ho0].
  destruct (update_schemas_facts _ _ _ _ _ Hd Hc0 Hp) as (_ & _ & _ & Ho).
  destruct (fetch_registered_facts _ _ _ _ Hc Hq) as (_ & _ & _ & Ho').
  assert (only (λ n, (root ++ $".") `prefix_of` n) (last e)) as Hall.
  { assert (∀ n, matches root n = true → (root ++ $".") `prefix_of` n) as HP by (intros n [?|?]%matches_spec; done).
    apply Ho'; [done|]. by apply Ho. }
  split; [exact Hall|]. apply eq_None_not_Some. intros Hs. apply Hall, prefix_length in Hs.
  rewrite length_app in Hs. simpl in Hs. lia.
Qed.

(** ** What the values of an update come from *)

Section values.
(** A property of the world that the calls keep, and what it says of a new value. *)
Context (I : M → Prop) (Q : str → NewValue → Prop).
Hypothesis gnv_keeps : ∀ n path m v m', I m → gnv n path m = Done (v, m') → I m' ∧ Q n v.
Hypothesis compile_keeps : ∀ vs path m r m', I m → compile vs path m = Done (r, m') → I m'.

(** An entry of a map is a field of a value without an error, and such a value
    is recorded as an update when it is one; a failure has a value too. *)
Definition entry_of {A} (f : NewValue → A) (n : str) (x : A) : Prop := ∃ v, Q n v ∧ cErr v = None ∧ x = f v.

Definition values_from (p : progress) : Prop :=
  I (world_ p)
  ∧ map_Forall (entry_of valueEncrypted) (newItemValuesEncrypted p)
  ∧ map_Forall (entry_of valuePlain) (newItemValuesPlain p)
  ∧ map_Forall (λ n x, entry_of valueSerialized n x
      ∧ ((∀ v, Q n v → hasUpdate v = true) → hasUpdateOverall p || registeredNodesHasUpdate p = true))
      (newItemValuesSerialized p)
  ∧ ∀ n, n ∈ failedConfigItems p → ∃ v, Q n v ∧ (cErr v ≠ None ∨ newVersionChecked v = false).

Lemma record_value_from reg p n path v m :
  values_from p → gnv n path (world_ p) = Done (v, m) → values_from (record_value reg p n v m).
Proof.
  intros (Hi & He & Hp & Hs & Hf) Hg. destruct (gnv_keeps _ _ _ _ _ Hi Hg) as [Hi' Hv].
  unfold record_value, values_from. destruct (cErr v) as [e|] eqn:Ec; simpl.
  - split_and!; [done|done|done| |].
    + intros k x Hk. rewrite !orb_false_r. by apply Hs.
    + intros k [?|Hk]%elem_of_app; [auto|]. apply list_elem_of_singleton in Hk as ->. exists v. rewrite Ec. auto.
  - split_and!; [done| | | |].
    + apply map_Forall_insert_2; [by exists v|done].
    + apply map_Forall_insert_2; [by exists v|done].
    + apply map_Forall_insert_2.
      * split; [by exists v|]. intros Hu. rewrite (Hu v Hv). destruct reg; simpl; [by rewrite !orb_true_r|by rewrite orb_true_r].
      * intros k x Hk. destruct (Hs k x Hk) as [He' Hu]. split; [done|]. intros H. specialize (Hu H).
        apply orb_true_iff in Hu as [-> | ->]; cbn; [done|]. by rewrite orb_true_r.
    + intros k. destruct (newVersionChecked v) eqn:En; simpl; [auto|].
      intros [?|Hk]%elem_of_app; [auto|]. apply list_elem_of_singleton in Hk as ->. exists v. auto.
Qed.

Lemma set_errs_from p c e l m : I m → values_from p → values_from (set_errs p c e l m).
Proof. intros Hm (_ & H). by split. Qed.

Lemma fetch_items_from root path items p b p' b' :
  values_from p → fetch_items root path (p, b) items = Done (p', b') → values_from p'.
Proof.
  revert p b. induction items as [|i items IH]; intros p b Hv H; cbn [fetch_items] in H; [by simplify_eq|].
  destruct (fetch_item root path (p, b) i) as [[p1 b1]|] eqn:E; [|done]. cbn [mbind outcome_bind] in H.
  refine (IH _ _ _ H). unfold fetch_item in E. repeat case_match; try (by simplify_eq).
  destruct (gnv i path (world_ p)) as [[v m]|] eqn:Eg; [|done]. cbn [mbind outcome_bind fst snd] in E.
  injection E as <- _. by eapply record_value_from.
Qed.

Lemma update_schemas_from root force files p p' :
  values_from p → update_schemas root force p files = Done p' → values_from p'.
Proof.
  revert p. induction files as [|f files IH]; intros p Hv H; cbn [update_schemas] in H; [by simplify_eq|].
  destruct (update_schema root force p f) as [p1|] eqn:E; [|done]. cbn [mbind outcome_bind] in H.
  refine (IH _ _ H). unfold update_schema in E. destruct (ParseItems fs (Path f)) as [e|items].
  { injection E as <-. apply set_errs_from; [apply Hv|done]. }
  destruct (fetch_items root (Path f) (p, false) items) as [[p2 b2]|] eqn:E2; [|done]. cbn [mbind outcome_bind] in E.
  pose proof (fetch_items_from _ _ _ _ _ _ _ Hv E2) as Hv2. destruct (force || b2); [|by simplify_eq].
  destruct (compile _ _ _) as [[ce m]|] eqn:Ec; [|done]. cbn [mbind outcome_bind fst snd] in E. injection E as <-.
  apply set_errs_from; [|done]. eapply compile_keeps; [apply Hv2|exact Ec].
Qed.

Lemma fetch_registered_from root nodes p p' :
  values_from p → fetch_all_registered root p nodes = Done p' → values_from p'.
Proof.
  revert p. induction nodes as [|i nodes IH]; intros p Hv H; cbn [fetch_all_registered] in H; [by simplify_eq|].
  destruct (fetch_registered root p i) as [p1|] eqn:E; [|done]. cbn [mbind outcome_bind] in H.
  refine (IH _ _ H). unfold fetch_registered in E. repeat case_match; try (by simplify_eq).
  destruct (gnv i [] (world_ p)) as [[v m]|] eqn:Eg; [|done]. cbn [mbind outcome_bind fst snd] in E.
  injection E as <-. by eapply record_value_from.
Qed.

Lemma update_values_from enc ok dirs registered root force m e :
  I m → updateProjectConfigByRootNode enc ok dirs registered root force m = Done e → values_from (last e).
Proof.
  intros Hi H. unfold updateProjectConfigByRootNode in H.
  destruct (update_schemas root force (start m) _) as [p|] eqn:Ep; [|done]. cbn [mbind outcome_bind] in H.
  destruct (fetch_all_registered root p registered) as [q|] eqn:Eq; [|done]. cbn [mbind outcome_bind] in H.
  injection H as <-. cbn [last]. eapply fetch_registered_from; [|exact Eq]. eapply update_schemas_from; [|exact Ep].
  unfold values_from. cbn. split_and!; [done|apply map_Forall_empty..|]. by intros n ?%elem_of_nil.
Qed.

(** What an update stores comes from values its calls returned, and the calls
    leave the property of the world true. *)
Lemma update_values enc ok dirs registered root force m e :
  I m → updateProjectConfigByRootNode enc ok dirs registered root force m = Done e →
  I (world_ (last e))
  ∧ map_Forall (entry_of (if enc then valueEncrypted else valuePlain)) (to_disk e)
  ∧ map_Forall (entry_of valueSerialized) (to_mem e).
Proof.
  intros Hi H. destruct (update_values_from _ _ _ _ _ _ _ _ Hi H) as (Hw & He & Hp & Hs & _).
  unfold updateProjectConfigByRootNode in H.
  destruct (update_schemas root force (start m) _) as [p|]; [|done]. cbn [mbind outcome_bind] in H.
  destruct (fetch_all_registered root p registered) as [q|]; [|done]. cbn [mbind outcome_bind] in H.
  injection H as <-. cbn in *. split_and!; [done| |].
  - destruct (_ && ok); [|apply map_Forall_empty].
    intros n x [Hx _]%map_lookup_filter_Some. destruct enc; [by apply He|by apply Hp].
  - destruct (_ || _); [|apply map_Forall_empty].
    intros n x [Hx _]%map_lookup_filter_Some. by apply Hs.
Qed.

End values.

(** ** What an update leaves for the callbacks *)

Section noted.
(** A property of the items of the schema files, and a record of compiled files
    that [compile] makes in the world. *)
Context (P : str → Prop) (Rec : M → str → Prop).
Hypothesis items_P : ∀ path items n, ParseItems fs path = inr items → n ∈ items → P n.
Hypothesis gnv_rec : ∀ n path m v m' q, gnv n path m = Done (v, m') → Rec m q → Rec m' q.
Hypothesis compile_rec : ∀ vs path m r m', compile vs path m = Done (r, m') →
  (∀ q, Rec m q → Rec m' q) ∧ (IsSchemaFile path = true → Rec m' path).

Definition noted (p : progress) : Prop :=
  (∀ n, n ∈ itemsHasUpdate p → P n ∧ hasUpdateOverall p = true)
  ∧ ∀ q, q ∈ compiledFiles p → Rec (world_ p) q.

Lemma record_value_noted reg p n path v m :
  P n ∨ reg = true → noted p → gnv n path (world_ p) = Done (v, m) → noted (record_value reg p n v m).
Proof.
  intros Hn [Hi Hc] Hg. split; [|intros q Hq; eapply gnv_rec; eauto].
  intros k Hk. unfold record_value in *. simpl in *. destruct (_ && hasUpdate v && negb reg) eqn:E.
  - rewrite orb_true_r. split; [|done]. apply elem_of_append_unique in Hk as [Hk|<-]; [by apply Hi|].
    destruct Hn as [?| ->]; [done|]. by rewrite andb_false_r in E.
  - rewrite orb_false_r. auto.
Qed.

Lemma fetch_items_noted root path items p b p' b' :
  Forall P items → noted p → fetch_items root path (p, b) items = Done (p', b') → noted p'.
Proof.
  intros HP. revert p b. induction HP as [|i items Hi _ IH]; intros p b Hp H; cbn [fetch_items] in H; [by simplify_eq|].
  destruct (fetch_item root path (p, b) i) as [[p1 b1]|] eqn:E; [|done]. cbn [mbind outcome_bind] in H.
  refine (IH _ _ _ H). unfold fetch_item in E. repeat case_match; try (by simplify_eq).
  destruct (gnv i path (world_ p)) as [[v m]|] eqn:Eg; [|done]. cbn [mbind outcome_bind fst snd] in E.
  injection E as <- _. eapply record_value_noted; eauto.
Qed.

Lemma update_schemas_noted root force schemas p p' :
  Forall (fun f => IsSchemaFile (Path f) = true) schemas →
  noted p → update_schemas root force p schemas = Done p' → noted p'.
Proof.
  intros HS. revert p. induction HS as [|f schemas Hf _ IH]; intros p Hp H; cbn [update_schemas] in H; [by simplify_eq|].
  destruct (update_schema root force p f) as [p1|] eqn:E; [|done]. cbn [mbind outcome_bind] in H.
  refine (IH _ _ H). unfold update_schema in E. destruct (ParseItems fs (Path f)) as [e|items] eqn:Epi.
  { injection E as <-. exact Hp. }
  destruct (fetch_items root (Path f) (p, false) items) as [[p2 b2]|] eqn:E2; [|done]. cbn [mbind outcome_bind] in E.
  assert (noted p2) as Hp2.
  { eapply fetch_items_noted; [|exact Hp|exact E2]. apply Forall_forall. eauto. }
  destruct (force || b2); [|by simplify_eq].
  destruct (compile _ _ _) as [[ce m]|] eqn:Ec; [|done]. cbn [mbind outcome_bind fst snd] in E. injection E as <-.
  destruct (compile_rec _ _ _ _ _ Ec) as [Hk Hnew]. destruct Hp2 as [H1 H2]. split; [exact H1|].
  cbn. intros q [Hq| ->%list_elem_of_singleton]%elem_of_app; auto.
Qed.

Lemma fetch_registered_noted root nodes p p' :
  noted p → fetch_all_registered root p nodes = Done p' → noted p'.
Proof.
  revert p. induction nodes as [|i nodes IH]; intros p Hp H; cbn [fetch_all_registered] in H; [by simplify_eq|].
  destruct (fetch_registered root p i) as [p1|] eqn:E; [|done]. cbn [mbind outcome_bind] in H.
  refine (IH _ _ H). unfold fetch_registered in E. repeat case_match; try (by simplify_eq).
  destruct (gnv i [] (world_ p)) as [[v m]|] eqn:Eg; [|done]. cbn [mbind outcome_bind fst snd] in E.
  injection E as <-. eapply record_value_noted; eauto.
Qed.

Lemma schema_file_suffix dirs : Forall (fun f => IsSchemaFile (Path f) = true) (LoadSchemaFiles fs dirs).
Proof.
  apply List.Forall_flat_map, List.Forall_forall. intros dir _. unfold GetSchemaFilesByDir.
  destruct (ReadDir fs dir) as [e|entries]; [constructor|].
  apply List.Forall_flat_map, List.Forall_forall. intros [name isdir] _. unfold schema_file_of. cbn [fst snd].
  destruct isdir; [constructor|]. destruct (_ || _) eqn:E; [|constructor]. repeat constructor. cbn [Path].
  unfold IsSchemaFile. rewrite orb_true_iff, !HasSuffix_spec in *.
  destruct E as [[k ->]|[k ->]]; [left|right]; eexists; by rewrite !(assoc_L (++)).
Qed.

(** An update that returns: its updated nodes are items, its files are recorded. *)
Lemma update_noted enc ok dirs registered root force m e :
  updateProjectConfigByRootNode enc ok dirs registered root force m = Done e →
  noted (last e) ∧ updated_nodes e = itemsHasUpdate (last e).
Proof.
  intros H. unfold updateProjectConfigByRootNode in H.
  destruct (update_schemas root force (start m) _) as [p|] eqn:Ep; [|done]. cbn [mbind outcome_bind] in H.
  destruct (fetch_all_registered root p registered) as [q|] eqn:Eq; [|done]. cbn [mbind outcome_bind] in H.
  injection H as <-. cbn [last updated_nodes]. split; [|done].
  eapply fetch_registered_noted; [|exact Eq]. eapply update_schemas_noted; [apply schema_file_suffix| |exact Ep].
  split; cbn; [by intros ? ?%elem_of_nil|by intros ? ?%elem_of_nil].
Qed.
End noted.

(** Every configuration of the root has a value or failed, and what is stored
    when anything was updated are all values. *)
Lemma update_stored enc ok dirs registered root force m e n :
  DEVMODE = false → updateProjectConfigByRootNode enc ok dirs registered root force m = Done e →
  matches root n = true →
  n ∈ registered ∨ (∃ f items, f ∈ LoadSchemaFiles fs dirs ∧ ParseItems fs (Path f) = inr items ∧ n ∈ items) →
  (is_Some (newItemValuesSerialized (last e) !! n) ∨ n ∈ failedConfigItems (last e))
  ∧ to_mem e = if hasUpdateOverall (last e) || registeredNodesHasUpdate (last e)
               then newItemValuesSerialized (last e) else ∅.
Proof.
  intros Hd H Hn Hin. unfold updateProjectConfigByRootNode in H.
  destruct (update_schemas root force (start m) _) as [p|] eqn:Ep; [|done]. cbn [mbind outcome_bind] in H.
  destruct (fetch_all_registered root p registered) as [q|] eqn:Eq; [|done]. cbn [mbind outcome_bind] in H.
  injection H as <-. cbn. split.
  - destruct (update_schemas_facts _ _ _ _ _ Hd (proj1 (start_consistent m)) Ep) as (Hc & _ & Hs & _).
    destruct (fetch_registered_facts _ _ _ _ Hc Eq) as (_ & Hg & Hs' & _).
    change (settled q n). destruct Hin as [?|(f & items & ? & ? & ?)]; [auto|apply Hg; eauto].
  - case_match; [|done]. unfold keep. rewrite Hd. apply map_filter_id. intros i x Hix. by cbn.
Qed.

End update.

(** ** A concrete update

    Two schema files use the item [db.host]; the server answers the calls with a
    number in [up], where the world counts the calls. *)
Definition two_files : FileSystem :=
  mkFS (fun p => if bool_decide (p = $"/c/a.schema.php" ∨ p = $"/c/b.schema.php")
                 then inr (item_text $"db.host" ++ item_text $"db") else inl $"not found")
       (fun _ => inr [($"a.schema.php", false); ($"b.schema.php", false); ($"x.txt", false)]).

Definition answers (up : nat → bool) (n path : str) (k : nat) : outcome (NewValue * nat) :=
  Done (if up k then mkNewValue $"enc" $"plain" (Some $"json") true true false None
        else mkNewValue [] [] None false false false (Some $"timeout"), S k).

Definition no_compile (vs : gmap str (option str)) (path : str) (k : nat) : outcome (option error * nat) := Done (None, k).

Lemma answers_return up : calls_return (answers up) no_compile.
Proof. split; intros; by eexists. Qed.

Definition example_update (up : nat → bool) : outcome (effects (M:=nat)) :=
  updateProjectConfigByRootNode two_files (answers up) no_compile false false true [$"/c"] [$"db.port"; $"log.level"]
    $"db" false 0.

(** The first file stays behind when its item could not be fetched and the same
    item, fetched again for the second file, has an update: the recheck finds no
    change any more. *)
Example stale_first_file :
  match example_update (fun k => 0 <? k) with
  | Done e => updated_nodes e = [$"db.host"] ∧ compiledFiles (last e) = [$"/c/b.schema.php"]
              ∧ failedConfigItems (last e) = [$"db.host"]
  | Panic _ => False
  end.
Proof. vm_compute. done. Qed.

Lemma update_covers_witness :
  ∃ e, example_update (fun _ => true) = Done e
    ∧ ∀ n, matches $"db" n = true →
        n ∈ [$"db.port"; $"log.level"]
        ∨ (∃ f items, f ∈ LoadSchemaFiles two_files [$"/c"] ∧ ParseItems two_files (Path f) = inr items ∧ n ∈ items) →
        (is_Some (newItemValuesSerialized (last e) !! n) ∨ n ∈ failedConfigItems (last e))
        ∧ (recheck e = false → is_Some (newItemValuesSerialized (last e) !! n))
        ∧ (recheck e = false → hasUpdateOverall (last e) || registeredNodesHasUpdate (last e) = true →
           to_mem e !! n = newItemValuesSerialized (last e) !! n ∧ is_Some (to_mem e !! n)).
Proof. apply update_covers; [reflexivity|apply answers_return]. Defined.

Lemma update_compiles_changed_witness :
  ∃ e, example_update (fun _ => true) = Done e
    ∧ (∀ f items n, f ∈ LoadSchemaFiles two_files [$"/c"] → ParseItems two_files (Path f) = inr items → n ∈ items →
         n ∈ updated_nodes e → Path f ∈ compiledFiles (last e) ∨ n ∈ failedConfigItems (last e))
    ∧ (false = false → ∀ path, path ∈ compiledFiles (last e) →
         ∃ items n, ParseItems two_files path = inr items ∧ n ∈ items ∧ n ∈ updated_nodes e).
Proof. apply update_compiles_changed; [reflexivity|apply answers_return]. Defined.

Lemma update_only_below_witness :
  ∃ e, example_update (fun _ => true) = Done e
    ∧ (∀ n, is_Some (newItemValuesSerialized (last e) !! n) → ($"db" ++ $".") `prefix_of` n)
    ∧ newItemValuesSerialized (last e) !! $"db" = None.
Proof. apply update_only_below; [reflexivity|apply answers_return|discriminate]. Defined.
