(* ===== verification/Recheck.v ===== *)
(** * The recheck queues (configwatcher/zk_recheck.go)

    Updates that failed are queued and tried again after a delay.  Goroutines that
    call [addToRecheckQueue] and [addToSchemaRecheckQueue], the one that runs
    [receiveRecheck] and the timers it starts interleave; a block between taking
    and releasing a lock that cannot wait inside is one step.

    [recheck_kept]: what was queued stays pending until a timer for it fires.
    [recheck_timers]: at most one timer sleeps per name, exactly for the names
    marked as failed.  [recheck_deadlock]: the queue can block for good. *)

From S2P Require Import Prelude GoLib.

(** Root nodes with their queue of 10, schema files with their queue of 5. *)
Inductive kind := Roots | Schemas.
#[export] Instance kind_eq : EqDecision kind.
Proof. solve_decision. Defined.

Definition capacity (k : kind) : nat := match k with Roots => 10 | Schemas => 5 end.

Record side := mkSide {
  queued : list str;
  failed : gset str;
  rwlock : bool }.

(** [Sending]: the caller holds the lock and sends to the queue. *)
Inductive task :=
| Adding (k : kind) (name : str)
| Sending (k : kind) (name : str)
| Added (k : kind) (name : str)
| Sleeping (k : kind) (name : str)
| Fired (k : kind) (name : str).
#[export] Instance task_eq : EqDecision task.
Proof. solve_decision. Defined.

(** [receiver]: the name [receiveRecheck] took and has yet to handle. *)
Record recheck_state := mkRecheck {
  roots : side;
  schemas : side;
  receiver : option (kind * str);
  rtasks : list task }.

Definition side_of (s : recheck_state) (k : kind) : side :=
  match k with Roots => roots s | Schemas => schemas s end.
Definition set_side (s : recheck_state) (k : kind) (x : side) : recheck_state :=
  match k with
  | Roots => mkRecheck x (schemas s) (receiver s) (rtasks s)
  | Schemas => mkRecheck (roots s) x (receiver s) (rtasks s)
  end.
Definition set_task (s : recheck_state) (t : nat) (x : task) : recheck_state :=
  mkRecheck (roots s) (schemas s) (receiver s) (<[t := x]> (rtasks s)).

(** A name that need not be queued again. *)
Definition covered (k : kind) (f : gset str) (name : str) : bool :=
  match k with
  | Roots => bool_decide ($"*" ∈ f) || bool_decide (name ∈ f)
  | Schemas => bool_decide (name ∈ f)
  end.

(** The callers: [addToRecheckQueue] for [Roots], [addToSchemaRecheckQueue] for
    [Schemas]. *)
Definition addToRecheckQueue (s : recheck_state) (t : nat) : option recheck_state :=
  match rtasks s !! t with
  | Some (Adding k name) =>
      let x := side_of s k in
      if rwlock x then None
      else if covered k (failed x) name then Some (set_task s t (Added k name))
      else Some (set_task (set_side s k (mkSide (queued x) (failed x) true)) t (Sending k name))
  | Some (Sending k name) =>
      let x := side_of s k in
      if length (queued x) <? capacity k
      then Some (set_task (set_side s k (mkSide (queued x ++ [name]) (failed x) false)) t (Added k name))
      else None
  | _ => None
  end.

(** [receiveRecheck]: take a name from a queue, then handle it under the lock. *)
Definition receive_name (s : recheck_state) (k : kind) : option recheck_state :=
  match receiver s, queued (side_of s k) with
  | None, name :: rest =>
      let x := side_of s k in
      let s := set_side s k (mkSide rest (failed x) (rwlock x)) in
      Some (mkRecheck (roots s) (schemas s) (Some (k, name)) (rtasks s))
  | _, _ => None
  end.

Definition receive_handle (s : recheck_state) : option recheck_state :=
  match receiver s with
  | Some (k, name) =>
      let x := side_of s k in
      if rwlock x then None
      else
        let s := mkRecheck (roots s) (schemas s) None (rtasks s) in
        if bool_decide (name ∈ failed x) then Some s
        else
          let s := set_side s k (mkSide (queued x) ({[name]} ∪ failed x) false) in
          Some (mkRecheck (roots s) (schemas s) None (rtasks s ++ [Sleeping k name]))
  | None => None
  end.

(** A timer after its delay: the mark is deleted and the update runs. *)
Definition timer_fires (s : recheck_state) (t : nat) : option recheck_state :=
  match rtasks s !! t with
  | Some (Sleeping k name) =>
      let x := side_of s k in
      if rwlock x then None
      else Some (set_task (set_side s k (mkSide (queued x) (failed x ∖ {[name]}) false)) t (Fired k name))
  | _ => None
  end.

Inductive move := MAdd (t : nat) | MReceive (k : kind) | MHandle | MFire (t : nat) | MCall (k : kind) (name : str).

(** One step; [MCall] is a new call of one of the two functions. *)
Definition do_move (s : recheck_state) (m : move) : option recheck_state :=
  match m with
  | MAdd t => addToRecheckQueue s t
  | MReceive k => receive_name s k
  | MHandle => receive_handle s
  | MFire t => timer_fires s t
  | MCall k name => Some (mkRecheck (roots s) (schemas s) (receiver s) (rtasks s ++ [Adding k name]))
  end.

Definition rstep (s s' : recheck_state) : Prop := ∃ m, do_move s m = Some s'.

Definition idle_side : side := mkSide [] ∅ false.
Definition rinit : recheck_state := mkRecheck idle_side idle_side None [].
Definition rreachable (s : recheck_state) : Prop := steps rstep rinit s.

(** ** Invariant *)

Definition is_sending (k : kind) (x : task) : bool :=
  match x with Sending k' _ => bool_decide (k' = k) | _ => false end.
Definition is_sleeping (k : kind) (name : str) (x : task) : bool := bool_decide (x = Sleeping k name).

Definition rinv (s : recheck_state) : Prop :=
  ∀ k, count (is_sending k) (rtasks s) = b2n (rwlock (side_of s k))
    ∧ ∀ name, count (is_sleeping k name) (rtasks s) = b2n (bool_decide (name ∈ failed (side_of s k))).

Lemma side_set s k x k' : side_of (set_side s k x) k' = if bool_decide (k = k') then x else side_of s k'.
Proof. by destruct k, k'. Qed.
Lemma tasks_set s k x : rtasks (set_side s k x) = rtasks s.
Proof. by destruct k. Qed.
Lemma receiver_set s k x : receiver (set_side s k x) = receiver s.
Proof. by destruct k. Qed.
Lemma side_eta s k r l : side_of (mkRecheck (roots s) (schemas s) r l) k = side_of s k.
Proof. by destruct k. Qed.
Lemma side_task s t x k : side_of (set_task s t x) k = side_of s k.
Proof. by destruct k. Qed.

Create Rewrite HintDb recheck.
#[local] Hint Rewrite side_set tasks_set receiver_set side_eta side_task @count_snoc : recheck.

(** Replacing task [x] by [y] changes the counts of a state. *)
Lemma rinv_replace s s' t x y :
  rinv s → rtasks s !! t = Some x → rtasks s' = <[t := y]> (rtasks s) →
  (∀ k, b2n (rwlock (side_of s' k)) + b2n (is_sending k x) = b2n (rwlock (side_of s k)) + b2n (is_sending k y)
    ∧ ∀ n, b2n (bool_decide (n ∈ failed (side_of s' k))) + b2n (is_sleeping k n x)
           = b2n (bool_decide (n ∈ failed (side_of s k))) + b2n (is_sleeping k n y)) →
  rinv s'.
Proof.
  intros H Ht Hs' Hk k. rewrite Hs'. destruct (H k) as [H1 H2], (Hk k) as [H3 H4]. split.
  - pose proof (count_insert (is_sending k) _ _ _ y Ht). lia.
  - intros n. pose proof (count_insert (is_sleeping k n) _ _ _ y Ht). specialize (H2 n). specialize (H4 n). lia.
Qed.

Lemma sleeping_val k n k' n' : b2n (is_sleeping k n (Sleeping k' n')) = b2n (bool_decide (k' = k ∧ n' = n)).
Proof. unfold is_sleeping. f_equal. apply bool_decide_ext. naive_solver. Qed.

Lemma rinv_add s t s' : rinv s → addToRecheckQueue s t = Some s' → rinv s'.
Proof.
  intros Hi H. unfold addToRecheckQueue in H. destruct (rtasks s !! t) as [[k n|k n| | |]|] eqn:Ht; try done.
  - destruct (rwlock (side_of s k)) eqn:El; [done|]. destruct (covered k (failed (side_of s k)) n); simplify_eq.
    + apply (rinv_replace s _ t _ (Added k n) Hi Ht); [done|]. intros k'. autorewrite with recheck. done.
    + apply (rinv_replace s _ t _ (Sending k n) Hi Ht); [cbn; by autorewrite with recheck|].
      intros k'. autorewrite with recheck. cbn [is_sending]. case_bool_decide as E; subst; simpl; rewrite ?El; auto.
  - destruct (length _ <? _); simplify_eq.
    apply (rinv_replace s _ t _ (Added k n) Hi Ht); [cbn; by autorewrite with recheck|].
    assert (rwlock (side_of s k) = true) as El.
    { destruct (Hi k) as [H1 _]. assert (0 < count (is_sending k) (rtasks s)) as Hc.
      { apply count_pos. exists t, (Sending k n). split; [done|]. by apply bool_decide_eq_true. }
      by destruct (rwlock (side_of s k)); simpl in H1; [|lia]. }
    intros k'. autorewrite with recheck. cbn [is_sending]. case_bool_decide as E; subst; simpl; rewrite ?El; auto.
Qed.

Lemma rinv_fire s t s' : rinv s → timer_fires s t = Some s' → rinv s'.
Proof.
  intros Hi H. unfold timer_fires in H. destruct (rtasks s !! t) as [[| | |k n|]|] eqn:Ht; try done.
  destruct (rwlock (side_of s k)) eqn:El; simplify_eq.
  assert (n ∈ failed (side_of s k)) as Hn.
  { destruct (Hi k) as [_ H2]. specialize (H2 n). assert (0 < count (is_sleeping k n) (rtasks s)) as Hc.
    { apply count_pos. exists t, (Sleeping k n). split; [done|]. by apply bool_decide_eq_true. }
    by case_bool_decide; [|simpl in H2; lia]. }
  apply (rinv_replace s _ t _ (Fired k n) Hi Ht); [cbn; by autorewrite with recheck|].
  intros k'. autorewrite with recheck. case_bool_decide as E; [subst k'|].
  - cbn [rwlock failed]. rewrite El. split; [done|]. intros n'. rewrite sleeping_val. cbn [is_sleeping].
    repeat case_bool_decide; simpl; try lia; set_solver.
  - split; [done|]. intros n'. rewrite sleeping_val. cbn [is_sleeping].
    rewrite (bool_decide_eq_false_2 (k = k' ∧ _)) by naive_solver. done.
Qed.

Lemma rinv_receive s k s' : rinv s → receive_name s k = Some s' → rinv s'.
Proof.
  intros Hi H. unfold receive_name in H. destruct (receiver s); [done|].
  destruct (queued (side_of s k)); simplify_eq. intros k'. rewrite side_eta. cbn [rtasks].
  autorewrite with recheck. case_bool_decide; subst; apply Hi.
Qed.

Lemma rinv_handle s s' : rinv s → receive_handle s = Some s' → rinv s'.
Proof.
  intros Hi H. unfold receive_handle in H. destruct (receiver s) as [[k n]|]; [|done].
  destruct (rwlock (side_of s k)) eqn:El; [done|].
  destruct (bool_decide (n ∈ failed (side_of s k))) eqn:En; injection H as <-.
  - intros k'. rewrite side_eta. apply Hi.
  - bool_to_prop. intros k'. rewrite side_eta. cbn [rtasks]. autorewrite with recheck. destruct (Hi k') as [H1 H2].
    cbn [rtasks]. split.
    + rewrite H1. case_bool_decide; subst; simpl; [by rewrite El|lia].
    + intros n'. rewrite count_snoc, H2, sleeping_val. destruct (decide (k = k')) as [<-|E].
      * rewrite (bool_decide_eq_true_2 (k = k)) by done. cbn [failed]. repeat case_bool_decide; simpl; try lia; set_solver.
      * rewrite (bool_decide_eq_false_2 (k = k' ∧ _)) by naive_solver. rewrite (bool_decide_eq_false_2 (k = k')) by done.
        simpl. lia.
Qed.

Lemma rinv_step s s' : rstep s s' → rinv s → rinv s'.
Proof.
  intros [m H] Hi. destruct m as [t|k| |t|k n]; cbn [do_move] in H;
    eauto using rinv_add, rinv_receive, rinv_handle, rinv_fire.
  injection H as <-. intros k'. destruct (Hi k') as [H1 H2]. rewrite side_eta. cbn [rtasks].
  rewrite count_snoc. split; [rewrite H1; simpl; lia|]. intros n'. rewrite count_snoc, H2. simpl. lia.
Qed.

Lemma rinv_reachable s : rreachable s → rinv s.
Proof.
  intros H. eapply (steps_inv rstep rinv); [apply rinv_step|exact H|]. intros k. by destruct k.
Qed.

(** ** Pending names *)

(** The name is queued, in the hands of the receiver, or marked as failed (for
    itself or for all roots); in every reachable state a timer sleeps for each mark:
    [pending_awaited]. *)
Definition pending (k : kind) (name : str) (s : recheck_state) : Prop :=
  name ∈ queued (side_of s k) ∨ receiver s = Some (k, name) ∨ covered k (failed (side_of s k)) name = true.

(** An update that includes the name will follow: the name is on its way to the
    receiver, or a timer for it or for all roots sleeps. *)
Definition awaited (k : kind) (name : str) (s : recheck_state) : Prop :=
  name ∈ queued (side_of s k) ∨ receiver s = Some (k, name)
  ∨ ∃ t n, rtasks s !! t = Some (Sleeping k n) ∧ (n = name ∨ (k = Roots ∧ n = $"*")).

Lemma failed_sleeps k n s : rinv s → n ∈ failed (side_of s k) → ∃ t, rtasks s !! t = Some (Sleeping k n).
Proof.
  intros Hi Hn. destruct (Hi k) as [_ H2]. specialize (H2 n). rewrite bool_decide_eq_true_2 in H2 by done. simpl in H2.
  assert (0 < count (is_sleeping k n) (rtasks s)) as (t & x & Ht & Hx)%count_pos by lia.
  exists t. unfold is_sleeping in Hx. bool_to_prop. by subst.
Qed.

Lemma pending_awaited k name s : rinv s → pending k name s → awaited k name s.
Proof.
  intros Hi [H|[H|H]]; [by left|by right; left|right; right]. unfold covered in H.
  assert (name ∈ failed (side_of s k) ∨ (k = Roots ∧ $"*" ∈ failed (side_of s k))) as [Hn|[-> Hn]]
    by (destruct k; [apply orb_true_iff in H as [H|H]|]; apply bool_decide_eq_true in H; auto).
  - destruct (failed_sleeps _ _ _ Hi Hn) as [t Ht]. eauto.
  - destruct (failed_sleeps _ _ _ Hi Hn) as [t Ht]. eauto 6.
Qed.

(** The timer of one of the names that stand for [name] fires. *)
Definition fires_for (k : kind) (name : str) (s : recheck_state) (m : move) : Prop :=
  ∃ t n, m = MFire t ∧ rtasks s !! t = Some (Sleeping k n) ∧ (n = name ∨ (k = Roots ∧ n = $"*")).

Lemma covered_mono k f g name : f ⊆ g → covered k f name = true → covered k g name = true.
Proof.
  intros Hs. unfold covered. destruct k; rewrite ?orb_true_iff, !bool_decide_eq_true; set_solver.
Qed.

Lemma covered_self k f name : name ∈ f → covered k f name = true.
Proof. intros H. unfold covered. destruct k; rewrite ?orb_true_iff, ?bool_decide_eq_true; auto. Qed.

Lemma pending_mono k name s s' :
  queued (side_of s k) ⊆ queued (side_of s' k) → receiver s' = receiver s →
  failed (side_of s k) ⊆ failed (side_of s' k) → pending k name s → pending k name s'.
Proof. intros Hq Hr Hf [H|[H|H]]; [left; auto|right; left; congruence|right; right]. by eapply covered_mono. Qed.

Lemma pending_add k name s t s' : pending k name s → addToRecheckQueue s t = Some s' → pending k name s'.
Proof.
  intros Hp H. unfold addToRecheckQueue in H. destruct (rtasks s !! t) as [[k' n|k' n| | |]|] eqn:Ht; try done.
  - destruct (rwlock _); [done|]. destruct (covered k' _ n); simplify_eq.
    all: eapply pending_mono; [..|exact Hp]; autorewrite with recheck; cbn [receiver set_task];
         autorewrite with recheck; try case_bool_decide; subst; done.
  - destruct (length _ <? _); simplify_eq. eapply pending_mono; [..|exact Hp]; autorewrite with recheck;
      cbn [receiver set_task]; autorewrite with recheck; try case_bool_decide; subst; cbn; set_solver.
Qed.

Lemma pending_receive k name s k' s' : pending k name s → receive_name s k' = Some s' → pending k name s'.
Proof.
  intros Hp H. unfold receive_name in H. destruct (receiver s) eqn:Er; [done|].
  destruct (queued (side_of s k')) as [|n rest] eqn:Eq; simplify_eq.
  unfold pending. rewrite side_eta, side_set. cbn [receiver]. unfold pending in Hp. rewrite Er in Hp.
  case_bool_decide as E; [subst k'|naive_solver]. rewrite Eq in Hp. cbn [queued failed].
  destruct Hp as [[->|?]%elem_of_cons|[?|?]]; auto. done.
Qed.

Lemma pending_handle k name s s' : pending k name s → receive_handle s = Some s' → pending k name s'.
Proof.
  intros Hp H. unfold receive_handle in H. destruct (receiver s) as [[k' n]|] eqn:Er; [|done].
  destruct (rwlock _); [done|]. unfold pending in *. rewrite Er in Hp.
  destruct (bool_decide (n ∈ failed (side_of s k'))) eqn:En; injection H as <-; rewrite side_eta; cbn [receiver].
  - bool_to_prop. destruct Hp as [?|[[= <- <-]|?]]; [by left|right; right; by apply covered_self|by right; right].
  - clear En. autorewrite with recheck. destruct (decide (k' = k)) as [->|E].
    2:{ rewrite (bool_decide_eq_false_2 (k' = k)) by done. naive_solver. }
    rewrite (bool_decide_eq_true_2 (k = k)) by done. cbn [queued failed].
    destruct Hp as [?|[[= <-]|?]]; [by left|right; right; apply covered_self; set_solver|].
    right; right. eapply covered_mono; [|done]. set_solver.
Qed.

Lemma pending_fire k name s t s' :
  pending k name s → timer_fires s t = Some s' → pending k name s' ∨ fires_for k name s (MFire t).
Proof.
  intros Hp H. unfold timer_fires in H. destruct (rtasks s !! t) as [[| | |k' n|]|] eqn:Ht; try done.
  destruct (rwlock _); simplify_eq. destruct (decide (k' = k ∧ (n = name ∨ (k = Roots ∧ n = $"*")))) as [[-> Hn]|Hno].
  { right. exists t, n. auto. }
  left. unfold pending in *. autorewrite with recheck. cbn [receiver set_task]. autorewrite with recheck.
  destruct (decide (k' = k)) as [->|E]; [|by rewrite (bool_decide_eq_false_2 (k' = k)) by done].
  rewrite (bool_decide_eq_true_2 (k = k)) by done. cbn [queued failed].
  destruct Hp as [?|[?|Hc]]; [auto|auto|right; right]. unfold covered in *.
  destruct k; rewrite ?orb_true_iff, ?bool_decide_eq_true in *; set_solver.
Qed.

(** C35.  No recheck is lost: when [addToRecheckQueue] or
    [addToSchemaRecheckQueue] returns, the name is pending (queued, taken by the
    receiver, or covered by a mark); a pending name stays pending until a timer that
    covers it fires, which runs the update; and in every reachable state a timer that
    covers it sleeps for a pending name that is not on its way to the receiver. *)
Theorem recheck_kept (s s' : recheck_state) (m : move) (k : kind) (name : str) :
  do_move s m = Some s' →
  (∀ t, m = MAdd t → rtasks s' !! t = Some (Added k name) → pending k name s')
  ∧ (pending k name s → pending k name s' ∨ fires_for k name s m)
  ∧ (rreachable s' → pending k name s' → awaited k name s').
Proof.
  intros H. split; [|split; [|intros Hr%rinv_reachable; by apply pending_awaited]].
  - intros t -> Ht. cbn [do_move] in H. unfold addToRecheckQueue in H.
    destruct (rtasks s !! t) as [[k' n|k' n| | |]|] eqn:E; try done; destruct (decide (t < length (rtasks s))) as [Hlt|Hge];
      try (apply lookup_lt_Some in E; lia).
    + destruct (rwlock _); [done|]. destruct (covered k' (failed (side_of s k')) n) eqn:Ec; simplify_eq; cbn in Ht;
        autorewrite with recheck in Ht; rewrite list_lookup_insert_eq in Ht by done; simplify_eq.
      right; right. by rewrite side_task.
    + destruct (length _ <? _); simplify_eq. cbn in Ht. autorewrite with recheck in Ht.
      rewrite list_lookup_insert_eq in Ht by done. simplify_eq. left. autorewrite with recheck.
      rewrite bool_decide_eq_true_2 by done. cbn. set_solver.
  - intros Hp. destruct m as [t|k'| |t|k' n]; cbn [do_move] in H;
      eauto using pending_add, pending_receive, pending_handle, pending_fire.
    left. injection H as <-. eapply pending_mono; [..|exact Hp]; by rewrite ?side_eta.
Qed.

(** In every reachable state a timer sleeps exactly for the names marked as
    failed, one for each, and at most one caller holds each lock. *)
Theorem recheck_timers (s : recheck_state) (k : kind) (name : str) :
  rreachable s →
  count (is_sleeping k name) (rtasks s) ≤ 1
  ∧ (count (is_sleeping k name) (rtasks s) = 1 ↔ name ∈ failed (side_of s k))
  ∧ count (is_sending k) (rtasks s) ≤ 1.
Proof.
  intros H%rinv_reachable. destruct (H k) as [H1 H2]. rewrite H1, H2.
  destruct (rwlock (side_of s k)); case_bool_decide; simpl; split_and!; naive_solver lia.
Qed.

(** ** The deadlock *)

(** The receiver waits for the lock of a full queue, whose holder waits for
    room. *)
Definition stuck (k : kind) (s : recheck_state) : Prop :=
  rwlock (side_of s k) = true ∧ capacity k ≤ length (queued (side_of s k))
  ∧ ∃ name, receiver s = Some (k, name).

Lemma stuck_step k s s' : rstep s s' → stuck k s → stuck k s' ∧ queued (side_of s' k) = queued (side_of s k).
Proof.
  intros [m H] (Hl & Hq & name & Hr). unfold stuck. destruct m as [t|k'| |t|k' n]; cbn [do_move] in H.
  - unfold addToRecheckQueue in H. destruct (rtasks s !! t) as [[k' n|k' n| | |]|]; try done.
    + destruct (rwlock (side_of s k')) eqn:El; [done|]. assert (k' ≠ k) by congruence.
      destruct (covered _ _ _); simplify_eq; autorewrite with recheck; cbn [receiver set_task]; autorewrite with recheck.
      * eauto.
      * rewrite bool_decide_eq_false_2 by done. eauto.
    + destruct (Nat.ltb_spec (length (queued (side_of s k'))) (capacity k')); simplify_eq.
      assert (k' ≠ k) by (intros ->; lia). autorewrite with recheck; cbn [receiver set_task]; autorewrite with recheck.
      rewrite bool_decide_eq_false_2 by done. eauto.
  - unfold receive_name in H. by rewrite Hr in H.
  - unfold receive_handle in H. by rewrite Hr, Hl in H.
  - unfold timer_fires in H. destruct (rtasks s !! t) as [[| | |k' n|]|]; try done.
    destruct (rwlock (side_of s k')) eqn:El; simplify_eq. assert (k' ≠ k) by congruence.
    autorewrite with recheck; cbn [receiver set_task]; autorewrite with recheck.
    rewrite bool_decide_eq_false_2 by done. eauto.
  - injection H as <-. rewrite side_eta. cbn [receiver]. eauto.
Qed.

Lemma stuck_forever k s s' :
  steps rstep s s' → stuck k s → stuck k s' ∧ queued (side_of s' k) = queued (side_of s k).
Proof.
  induction 1 as [|s1 s2 s3 H12 _ IH]; [done|]. intros Hs.
  destruct (stuck_step _ _ _ H12 Hs) as [Hs2 Hq]. destruct (IH Hs2) as [? ->]. done.
Qed.

Fixpoint run_moves (s : recheck_state) (ms : list move) : option recheck_state :=
  match ms with
  | [] => Some s
  | m :: rest => s' ← do_move s m; run_moves s' rest
  end.

Lemma run_moves_steps s ms s' : run_moves s ms = Some s' → steps rstep s s'.
Proof.
  revert s. induction ms as [|m ms IH]; intros s H; cbn [run_moves] in H; [simplify_eq; constructor|].
  destruct (do_move s m) as [s1|] eqn:E; [|done]. eapply steps_one; [by exists m|by apply IH].
Qed.

(** A call that queues its name: the [t]-th task. *)
Definition full_call (t : nat) : list move := [MCall Roots $"db"; MAdd t; MAdd t].

(** The first name is taken by the receiver, ten calls fill the queue, and the
    next one takes the lock. *)
Definition deadlock_run : list move :=
  full_call 0 ++ [MReceive Roots] ++ flat_map full_call (seq 1 10) ++ [MCall Roots $"log"; MAdd 11].

(** The recheck queue can block for good: there is a reachable state in
    which the receiver waits for a lock whose holder waits for room in the full
    queue, and whatever happens after it no name is taken from the queue, no timer
    of that kind fires and the caller does not return. *)
Theorem recheck_deadlock :
  ∃ s, rreachable s ∧ stuck Roots s
    ∧ ∀ s', steps rstep s s' → stuck Roots s' ∧ queued (side_of s' Roots) = queued (side_of s Roots).
Proof.
  destruct (run_moves rinit deadlock_run) as [s|] eqn:E; [|vm_compute in E; discriminate].
  assert (stuck Roots s) as Hs.
  { vm_compute in E. injection E as <-. split_and!; [done|simpl; lia|by eexists]. }
  exists s. split; [exact (run_moves_steps _ _ _ E)|]. split; [exact Hs|]. intros s' H. exact (stuck_forever _ _ _ H Hs).
Qed.

Lemma recheck_kept_witness :
  let s := set_task (set_side (mkRecheck idle_side idle_side None [Adding Roots $"db"]) Roots (mkSide [] ∅ true)) 0
             (Sending Roots $"db") in
  let s' := mkRecheck (mkSide [$"db"] ∅ false) idle_side None [Added Roots $"db"] in
  do_move s (MAdd 0) = Some s' ∧
  (∀ t, MAdd 0 = MAdd t → rtasks s' !! t = Some (Added Roots $"db") → pending Roots $"db" s')
  ∧ (pending Roots $"db" s → pending Roots $"db" s' ∨ fires_for Roots $"db" s (MAdd 0)).
Proof.
  intros s s'. split; [reflexivity|]. destruct (recheck_kept s s' (MAdd 0) Roots $"db" eq_refl) as (H1 & H2 & _). by split.
Defined.

Lemma recheck_timers_witness :
  count (is_sleeping Roots $"db") (rtasks rinit) ≤ 1
  ∧ (count (is_sleeping Roots $"db") (rtasks rinit) = 1 ↔ $"db" ∈ failed (side_of rinit Roots))
  ∧ count (is_sending Roots) (rtasks rinit) ≤ 1.
Proof. apply recheck_timers. constructor. Defined.
