(* ===== verification/Marshal.v ===== *)
(** * json.Marshal of the values the client writes

    The compact encoding of objects, strings and integers, and its round trip
    through the decoder of [Json]: [Unmarshal_Marshal].  [float_int_Itoa]: an
    integer below 2^53 survives the trip through float64. *)

From S2P Require Import Prelude GoLib GoFmt Regex Json.

Fixpoint Marshal (j : json) : str :=
  match j with
  | JNull => $"null"
  | JBool true => $"true"
  | JBool false => $"false"
  | JNum lit => lit
  | JStr s => MarshalString s
  | JArr l => "["%char :: Join (map Marshal l) [","%char] ++ ["]"%char]
  | JObj l => "{"%char :: Join (map (fun '(k, v) => MarshalString k ++ ":"%char :: Marshal v) l) [","%char] ++ ["}"%char]
  end.

(** A decimal integer without leading zeros. *)
Definition int_literal (s : str) : bool :=
  match s with
  | [] => false
  | c :: s' => is_digit_char c && forallb is_digit_char s' && (negb (bool_decide (c = "0"%char)) || bool_decide (s' = []))
  end.

(** Strings in UTF-8 and integer literals throughout. *)
Fixpoint encodable (j : json) : bool :=
  match j with
  | JNull | JBool _ => true
  | JNum lit => int_literal lit
  | JStr s => valid_utf8 0 s
  | JArr l => forallb encodable l
  | JObj l => forallb (fun '(k, v) => valid_utf8 0 k && encodable v) l
  end.

(** ** Induction over nested values *)

Section json_induction.
Context (P : json → Prop) (Hnull : P JNull) (Hbool : ∀ b, P (JBool b)) (Hnum : ∀ l, P (JNum l)) (Hstr : ∀ s, P (JStr s))
  (Harr : ∀ l, Forall P l → P (JArr l)) (Hobj : ∀ l, Forall (fun kv => P kv.2) l → P (JObj l)).
Fixpoint json_nested_ind (j : json) : P j :=
  match j with
  | JNull => Hnull
  | JBool b => Hbool b
  | JNum l => Hnum l
  | JStr s => Hstr s
  | JArr l => Harr l ((fix go l : Forall P l := match l with [] => Forall_nil_2 _ | x :: l' => Forall_cons_2 _ _ _ (json_nested_ind x) (go l') end) l)
  | JObj l => Hobj l ((fix go l : Forall (fun kv => P kv.2) l := match l with [] => Forall_nil_2 _ | kv :: l' => Forall_cons_2 _ _ _ (json_nested_ind kv.2) (go l') end) l)
  end.
End json_induction.

(** ** Numbers *)

(** What follows a value inside an encoded text. *)
Definition stops (rest : str) : Prop :=
  match rest with [] => True | c :: _ => c = ","%char ∨ c = "]"%char ∨ c = "}"%char end.

Lemma digits_stop s rest :
  forallb is_digit_char s = true → stops rest →
  take_while is_digit_char (s ++ rest) = s ∧ drop_while is_digit_char (s ++ rest) = rest.
Proof.
  intros Hs Hr. assert (take_while is_digit_char rest = [] ∧ drop_while is_digit_char rest = rest) as [H1 H2].
  { destruct rest as [|c rest]; [done|]. destruct Hr as [->|[->| ->]]; done. }
  induction s as [|c s IH]; [done|]. simpl in *. apply andb_true_iff in Hs as [-> Hs].
  destruct (IH Hs) as [-> ->]. done.
Qed.

Lemma number_prefix_int lit rest :
  int_literal lit = true → stops rest → number_prefix (lit ++ rest) = Some (lit, rest).
Proof.
  intros Hl Hr. destruct lit as [|c s]; [done|]. simpl in Hl. apply andb_true_iff in Hl as [Hl Hz].
  apply andb_true_iff in Hl as [Hc Hs].
  assert (eat_digits ((c :: s) ++ rest) = (c :: s, rest)) as He.
  { unfold eat_digits. destruct (digits_stop (c :: s) rest) as [-> ->]; [by simpl; rewrite Hc|done|done]. }
  unfold number_prefix. cbn [app].
  destruct (decide (c = "0"%char)) as [->|Hn0].
  - rewrite bool_decide_eq_true_2 in Hz by done. cbn [negb orb] in Hz. apply bool_decide_eq_true in Hz as ->. cbn [app].
    destruct rest as [|e rest]; [done|]. destruct Hr as [->|[->| ->]]; reflexivity.
  - destruct c as [[] [] [] [] [] [] [] []]; try discriminate Hc; try (by destruct Hn0).
    all: cbn [app] in He; rewrite Hc, He; cbn [mbind option_bind].
    all: destruct rest as [|e rest]; [|destruct Hr as [->|[->| ->]]]; simpl; rewrite ?app_nil_r; try done.
Qed.

(** ** Values *)

Lemma Join_cons x l sep : l ≠ [] → Join (x :: l) sep = x ++ sep ++ Join l sep.
Proof. by destruct l. Qed.

Lemma MarshalString_unquote s rest :
  valid_utf8 0 s = true →
  unquote (length (marshal_body 0 s ++ dquote :: rest)) (marshal_body 0 s ++ dquote :: rest) = Some (s, rest).
Proof.
  intros Hv. apply unquote_marshal; [done|]. pose proof (marshal_length s Hv). rewrite length_app. simpl. lia.
Qed.

Lemma MarshalString_app s rest : MarshalString s ++ rest = dquote :: marshal_body 0 s ++ dquote :: rest.
Proof. unfold MarshalString. simpl. by rewrite <- app_assoc. Qed.

(** The first byte of an encoded value. *)
Definition value_start (c : ascii) : Prop :=
  is_json_space c = false ∧ c ≠ "]"%char ∧ c ≠ "}"%char.

Lemma digit_start c : is_digit_char c = true → value_start c.
Proof.
  intros H. unfold value_start. destruct c as [[] [] [] [] [] [] [] []]; try discriminate H; done.
Qed.

Lemma Marshal_start j : encodable j = true → ∃ c s, Marshal j = c :: s ∧ value_start c.
Proof.
  destruct j as [|[]|lit|s|l|l]; intros H; cbn [Marshal]; try (eexists _, _; split; [reflexivity|by split_and!]).
  destruct lit as [|c s]; [done|]. exists c, s. split; [done|]. simpl in H. apply andb_true_iff in H as [H _].
  apply andb_true_iff in H as [H _]. by apply digit_start.
Qed.

Definition parses_back (j : json) : Prop :=
  encodable j = true → ∀ f rest, length (Marshal j) ≤ f → stops rest → parse_value f (Marshal j ++ rest) = Some (j, rest).

Lemma skip_start c s : value_start c → skip_space (c :: s) = c :: s.
Proof. intros [H _]. unfold skip_space. simpl. by rewrite H. Qed.

Definition member_text (kv : str * json) : str := MarshalString kv.1 ++ ":"%char :: Marshal kv.2.

Lemma parse_members_back l f rest :
  l ≠ [] → Forall (fun kv => parses_back kv.2) l → forallb (fun '(k, v) => valid_utf8 0 k && encodable v) l = true →
  length (Join (map member_text l) [","%char]) < f →
  parse_members f (Join (map member_text l) [","%char] ++ "}"%char :: rest) = Some (l, rest).
Proof.
  intros Hne Hp. revert f. induction Hp as [|[k v] l Hv Hp IH]; [done|]. intros f He Hf. clear Hne.
  cbn [forallb] in He. apply andb_true_iff in He as [He1 He]. apply andb_true_iff in He1 as [Hk Hev].
  destruct f as [|f]; [lia|]. cbn [parse_members].
  assert (∀ tail, stops tail → length (Marshal v) ≤ f →
    parse_value f (Marshal v ++ tail) = Some (v, tail)) as Hval by (intros; by apply Hv).
  destruct (decide (l = [])) as [->|Hl].
  - cbn [map Join]. unfold member_text at 1. cbn [fst snd]. rewrite <- app_assoc, MarshalString_app.
    change (skip_space (dquote :: ?x)) with (dquote :: x). cbv iota. rewrite bool_decide_eq_true_2 by done.
    rewrite MarshalString_unquote by done. cbn [mbind option_bind app].
    change (skip_space (":"%char :: ?x)) with (":"%char :: x). cbv iota.
    rewrite Hval; [done|by right; right|]. cbn [map Join] in Hf. unfold member_text in Hf.
    rewrite length_app in Hf. simpl in Hf. lia.
  - cbn [map] in Hf |- *. rewrite Join_cons in Hf |- * by (by destruct l).
    assert (map member_text l ≠ []) as Hml by by destruct l.
    unfold member_text at 1. cbn [fst snd]. rewrite <- !app_assoc, MarshalString_app.
    change (skip_space (dquote :: ?x)) with (dquote :: x). cbv iota. rewrite bool_decide_eq_true_2 by done.
    rewrite MarshalString_unquote by done. cbn [mbind option_bind app].
    change (skip_space (":"%char :: ?x)) with (":"%char :: x). cbv iota.
    unfold member_text at 1 in Hf. cbn [fst snd] in Hf. rewrite !length_app in Hf. simpl in Hf.
    rewrite Hval; [|by left|lia]. cbn [mbind option_bind app].
    change (skip_space (","%char :: ?x)) with (","%char :: x). cbv iota.
    rewrite IH; [done|done|done|lia].
Qed.

Lemma parse_items_back l f rest :
  l ≠ [] → Forall parses_back l → forallb encodable l = true →
  length (Join (map Marshal l) [","%char]) < f →
  parse_items f (Join (map Marshal l) [","%char] ++ "]"%char :: rest) = Some (l, rest).
Proof.
  intros Hne Hp. revert f. induction Hp as [|v l Hv Hp IH]; [done|]. intros f He Hf. clear Hne.
  cbn [forallb] in He. apply andb_true_iff in He as [Hev He]. destruct f as [|f]; [lia|]. cbn [parse_items].
  destruct (decide (l = [])) as [->|Hl].
  - cbn [map Join] in Hf |- *. rewrite Hv; [done|done|lia|by right; left].
  - cbn [map] in Hf |- *. rewrite Join_cons in Hf |- * by (by destruct l). rewrite !length_app in Hf. simpl in Hf.
    rewrite <- !app_assoc. rewrite Hv; [|done|lia|by left]. cbn [mbind option_bind app].
    change (skip_space (","%char :: ?x)) with (","%char :: x). cbv iota.
    rewrite IH; [done|done|done|lia].
Qed.

Lemma parse_value_back j : parses_back j.
Proof.
  induction j as [|b|lit|s|l IH|l IH] using json_nested_ind; intros He f rest Hf Hs.
  - destruct f; [simpl in Hf; lia|]. reflexivity.
  - destruct f; [destruct b; simpl in Hf; lia|]. by destruct b.
  - cbn [Marshal encodable] in *. destruct lit as [|c lit]; [done|]. destruct f as [|f]; [simpl in Hf; lia|].
    pose proof (number_prefix_int _ _ He Hs) as Hn. simpl in He. apply andb_true_iff in He as [He _].
    apply andb_true_iff in He as [Hc _]. cbn [parse_value app]. rewrite skip_start by by apply digit_start.
    cbv iota. cbn [app] in Hn.
    assert (∀ p, head p ≠ Some c → p ≠ [] → HasPrefix (c :: lit ++ rest) p = false) as Hpre.
    { intros p Hh Hp. apply not_true_is_false. intros [k Hk]%HasPrefix_spec. destruct p; [done|]. simpl in *. congruence. }
    rewrite !bool_decide_eq_false_2, !Hpre, Hn; try done; intros E; injection E || idtac; intros; subst; discriminate Hc.
  - cbn [Marshal encodable] in *. destruct f as [|f]; [simpl in Hf; lia|]. rewrite MarshalString_app. cbn [parse_value].
    change (skip_space (dquote :: ?x)) with (dquote :: x). cbv iota. rewrite bool_decide_eq_true_2 by done.
    by rewrite MarshalString_unquote.
  - cbn [Marshal encodable] in *. destruct f as [|f]; [simpl in Hf; lia|]. cbn [app parse_value length] in *.
    change (skip_space ("["%char :: ?x)) with ("["%char :: x). cbv iota.
    rewrite !bool_decide_eq_false_2, bool_decide_eq_true_2 by done. rewrite length_app in Hf. simpl in Hf.
    rewrite <- app_assoc. destruct l as [|v l]; [done|].
    assert (∃ c s, Join (map Marshal (v :: l)) [","%char] = c :: s ∧ value_start c) as (c & s & Ej & Hst).
    { simpl in He. apply andb_true_iff in He as [He _]. destruct (Marshal_start v He) as (c & s & E & ?).
      cbn [map]. destruct (map Marshal l); cbn [Join]; rewrite E; by eexists _, _. }
    pose proof (parse_items_back (v :: l) f rest ltac:(done) IH He ltac:(lia)) as Hb. cbn [app].
    rewrite Ej in Hb |- *. cbn [app] in Hb |- *. rewrite skip_start by done.
    destruct Hst as (_ & Hst & _). rewrite Hb.
    destruct c as [[] [] [] [] [] [] [] []]; try done; by destruct Hst.
  - cbn [Marshal encodable] in *. destruct f as [|f]; [simpl in Hf; lia|]. cbn [app parse_value length] in *.
    change (skip_space ("{"%char :: ?x)) with ("{"%char :: x). cbv iota.
    rewrite !bool_decide_eq_false_2, bool_decide_eq_true_2 by done. rewrite length_app in Hf. simpl in Hf.
    rewrite <- app_assoc. destruct l as [|[k v] l]; [done|].
    change (map _ ((k, v) :: l)) with (map (fun '(k, v) => MarshalString k ++ ":"%char :: Marshal v) ((k, v) :: l)) in *.
    assert (map (fun '(k, v) => MarshalString k ++ ":"%char :: Marshal v) ((k, v) :: l) = map member_text ((k, v) :: l)) as Em.
    { apply map_ext. by intros []. }
    rewrite Em in *.
    assert (∃ s, Join (map member_text ((k, v) :: l)) [","%char] = dquote :: s) as (s & Ej).
    { cbn [map]. destruct (map member_text l); cbn [Join]; by eexists. }
    pose proof (parse_members_back ((k, v) :: l) f rest ltac:(done) IH He ltac:(lia)) as Hb. cbn [app].
    rewrite Ej in Hb |- *. cbn [app] in Hb |- *. change (skip_space (dquote :: ?x)) with (dquote :: x).
    by rewrite Hb.
Qed.

(** A value of UTF-8 strings and integers that are not too large for float64 is
    decoded to itself. *)
Theorem Unmarshal_Marshal (j : json) :
  encodable j = true → has_overflow j = false → Unmarshal (Marshal j) = Some j.
Proof.
  intros He Ho. unfold Unmarshal.
  pose proof (parse_value_back j He (S (length (Marshal j))) [] ltac:(lia) I) as H. rewrite app_nil_r in H.
  rewrite H. cbn [mbind option_bind]. change (skip_space []) with (@nil ascii). by rewrite Ho.
Qed.

(** ** Integers through float64 *)

Lemma is_digit_char_spec c : is_digit_char c = is_digit c.
Proof. by destruct c as [[] [] [] [] [] [] [] []]. Qed.

Lemma forallb_digit_char s : forallb is_digit_char s = forallb is_digit s.
Proof. induction s as [|c s IH]; [done|]. simpl. by rewrite IH, is_digit_char_spec. Qed.

Lemma itoa_fuel_head f n :
  (0 < n < 2 ^ Z.of_nat f)%Z → ∃ c s, itoa_fuel f n = c :: s ∧ c ≠ "0"%char.
Proof.
  revert n. induction f as [|f IH]; intros n Hn; [simpl in Hn; lia|]. cbn [itoa_fuel].
  destruct (Z.ltb_spec n 10) as [Hlt|Hge].
  - eexists _, []. split; [done|]. intros E. apply (f_equal Z_of_byte) in E. rewrite Z_of_digit in E by lia.
    change (Z_of_byte "0") with 48%Z in E. lia.
  - destruct (IH (n / 10)%Z) as (c & s & -> & Hc); [|by exists c, (s ++ [digit (n mod 10)])].
    rewrite Nat2Z.inj_succ, Z.pow_succ_r in Hn by lia.
    split; [apply Z.div_str_pos; lia|apply Z.div_lt_upper_bound; lia].
Qed.

Lemma int_literal_Itoa n : (0 <= n)%Z → int_literal (Itoa n) = true.
Proof.
  intros Hn. destruct (decide (n = 0)%Z) as [->|Hne]; [done|].
  destruct (Itoa_spec n Hn) as (_ & Hd & _). rewrite <- forallb_digit_char in Hd. rewrite Itoa_nonneg in * by done.
  destruct (itoa_fuel_head (S (Z.to_nat (Z.log2 n))) n) as (c & s & E & Hc).
  { split; [lia|]. by apply log2_fuel. }
  rewrite E in *. unfold int_literal. cbn [forallb] in Hd. rewrite Hd. by rewrite bool_decide_eq_false_2.
Qed.

Lemma digits_value_dec s : forallb is_digit s = true → digits_value s = dec_value s.
Proof.
  intros Hd. unfold digits_value, dec_value.
  assert (List.filter is_digit_char s = s) as ->.
  { induction s as [|c s IH]; [done|]. simpl in *. apply andb_true_iff in Hd as [Hc Hs].
    by rewrite is_digit_char_spec, Hc, IH. }
  done.
Qed.

(** The parts of an integer literal. *)
Lemma lit_parts_digits s : s ≠ [] → forallb is_digit s = true → lit_parts s = (false, dec_value s, 0%Z).
Proof.
  intros Hne Hd. unfold lit_parts.
  assert (take_while (λ c, negb (bool_decide (c = "e"%char) || bool_decide (c = "E"%char))) s = s) as Ht.
  { apply take_while_all. apply List.Forall_forall. intros c Hc. rewrite forallb_forall in Hd. specialize (Hd c Hc).
    by destruct c as [[] [] [] [] [] [] [] []]. }
  assert (take_while is_digit_char s = s) as Ht2.
  { apply take_while_all. apply List.Forall_forall. intros c Hc. rewrite forallb_forall in Hd.
    rewrite is_digit_char_spec. auto. }
  assert (match s with "-"%char :: _ => true | _ => false end = false) as ->.
  { destruct s as [|c s]; [done|]. simpl in Hd. apply andb_true_iff in Hd as [Hc _].
    by destruct c as [[] [] [] [] [] [] [] []]. }
  rewrite Ht, Ht2, digits_value_dec by done. rewrite drop_ge by lia. done.
Qed.

Lemma round_ratio_int n : (0 <= n < 2 ^ 53)%Z → float_int (round_ratio n 1) = n.
Proof.
  intros Hn. unfold round_ratio. destruct (Z.eqb_spec n 0) as [->|Hne]; [done|].
  change (Z.log2 1) with 0%Z. rewrite Z.sub_0_r. pose proof (Z.log2_nonneg n) as Hl0.
  destruct (Z.log2_spec n ltac:(lia)) as [Hlo Hhi].
  assert (Z.log2 n < 53)%Z as Hl by (apply Z.log2_lt_pow2; lia).
  rewrite (proj2 (Z.leb_le 0 (Z.log2 n)) Hl0). rewrite (proj2 (Z.leb_le (1 * 2 ^ Z.log2 n) n)) by lia.
  rewrite Z.max_l by lia. destruct (Z.leb_spec 0 (Z.log2 n - 52)) as [Hge|Hlt].
  - replace (Z.log2 n - 52)%Z with 0%Z by lia. rewrite Z.pow_0_r, Z.mul_1_r, Z.div_1_r, Z.mod_1_r.
    change ((1 <? 2 * 0)%Z || ((1 =? 2 * 0)%Z && Z.odd n)) with false. cbv iota.
    destruct (Z.eqb_spec n (2 ^ 53)); [lia|]. unfold float_int. rewrite (proj2 (Z.leb_le 0 0)) by lia. lia.
  - rewrite Z.div_1_r, Z.mod_1_r.
    change ((1 <? 2 * 0)%Z || ((1 =? 2 * 0)%Z && Z.odd (n * 2 ^ (- (Z.log2 n - 52))))) with false. cbv iota.
    assert (n * 2 ^ (- (Z.log2 n - 52)) < 2 ^ 53)%Z as Hb.
    { replace 53%Z with (Z.succ (Z.log2 n) + - (Z.log2 n - 52))%Z by lia. rewrite Z.pow_add_r by lia.
      apply Z.mul_lt_mono_pos_r; [apply Z.pow_pos_nonneg; lia|done]. }
    destruct (Z.eqb_spec (n * 2 ^ (- (Z.log2 n - 52))) (2 ^ 53)); [lia|]. unfold float_int.
    rewrite (proj2 (Z.leb_gt 0 (Z.log2 n - 52))) by lia. rewrite Z.quot_mul; [done|].
    apply Z.pow_nonzero; lia.
Qed.

Lemma float_int_Itoa n : (0 <= n < 2 ^ 53)%Z → float_int (json_float (Itoa n)) = n.
Proof.
  intros Hn. destruct (Itoa_spec n) as (Hv & Hd & Hne); [lia|]. unfold json_float.
  rewrite lit_parts_digits, Hv by done. rewrite (proj2 (Z.leb_le 0 0)) by lia.
  rewrite Z.pow_0_r, Z.mul_1_r. pose proof (round_ratio_int n Hn) as H. destruct (round_ratio n 1). exact H.
Qed.

Lemma overflows_Itoa n : (0 <= n < 2 ^ 63)%Z → overflows (Itoa n) = false.
Proof.
  intros Hn. destruct (Itoa_spec n) as (Hv & Hd & Hne); [lia|].
  pose proof (lit_parts_digits _ Hne Hd) as Hp. unfold lit_parts in Hp.
  assert (match Itoa n with "-"%char :: _ => true | _ => false end = false) as Hm.
  { destruct (Itoa n) as [|c s]; [done|]. simpl in Hd. apply andb_true_iff in Hd as [Hc _].
    by destruct c as [[] [] [] [] [] [] [] []]. }
  rewrite Hm in Hp. injection Hp as Hp1 Hp2. unfold overflows.
  assert (match Itoa n with "-"%char :: s' => s' | _ => Itoa n end = Itoa n) as ->.
  { destruct (Itoa n) as [|c s]; [done|]. simpl in Hd. apply andb_true_iff in Hd as [Hc _].
    by destruct c as [[] [] [] [] [] [] [] []]. }
  rewrite Hp2, Hp1, Hv. rewrite (proj2 (Z.leb_le 0 0)) by lia. apply Z.leb_gt. rewrite Z.pow_0_r, Z.mul_1_r.
  transitivity (2 ^ 63)%Z; [lia|]. vm_compute. reflexivity.
Qed.
