(* ===== verification/Watcher.v ===== *)
(** * Registered configurations and watches (configwatcher/zk_watcher.go, gc_watcher.go)

    The configurations registered through the API, the watch list, the goroutines
    of [watchItem] and the rounds of [gcWatcher].  A watch is a goroutine with a
    channel of one place for the un-watch signal; goroutines that were started
    and have not run yet are in [spawned].

    [gc_round_spec]: which watches a round of [gcWatcher] signals.
    [registered_roots_watched]: every registered configuration has a watch until it
    is signalled.
    [unwatched_for_good], [gc_blocks]: what follows from the un-watch branch of
    [watchItem], which never returns.  [registry_restart]: the registered
    configurations survive a restart. *)

From S2P Require Import Prelude GoLib GoFmt Util Schema Json Marshal Storage ProjConfig Stats.

Record registeredNodeInfo := mkNode {
  nName : str;
  LastAccessTime : Z;
  RegTime : Z }.

Record WatchInfo := mkWatch {
  wName : str;
  wRegTime : Z;
  wState : Z;
  (** the goroutine that reads the channel, by its number *)
  wChan : nat }.

(** [Syncing]: in the endless loop of [syncRegisteredNodesToDisk]. *)
Inductive phase := Watching | Syncing.
#[export] Instance phase_eq : EqDecision phase.
Proof. solve_decision. Defined.

Record watcher := mkWatcher {
  wt_name : str;
  wt_signals : nat;
  wt_phase : phase }.

Record watch_state := mkWS {
  watchList : gmap str WatchInfo;
  registeredNodes : gmap str registeredNodeInfo;
  spawned : list str;
  watchers : list watcher;
  (** the roots the running round of [gcWatcher] has yet to signal *)
  kicks : list str }.

Definition being_watched (s : watch_state) (name : str) : bool :=
  match watchList s !! name with Some info => (wState info =? 1)%Z | None => false end.

Definition AddToWatchList (s : watch_state) (name : str) : bool * watch_state :=
  if being_watched s name then (true, s)
  else (false, mkWS (watchList s) (registeredNodes s) (spawned s ++ [name]) (watchers s) (kicks s)).

Definition setRegisterdNodeInfo (s : watch_state) (name : str) (info : registeredNodeInfo) : watch_state :=
  mkWS (watchList s) (<[name := info]> (registeredNodes s)) (spawned s) (watchers s) (kicks s).

(** [TouchDynamicNode] up to the save: whether the root was watched, the state,
    and whether the registered names are saved. *)
Definition touch (RunAsBi : bool) (s : watch_state) (name : str) (now : Z) : bool * watch_state * bool :=
  if RunAsBi then (true, s, false)
  else match registeredNodes s !! name with
       | None =>
           let s := setRegisterdNodeInfo s name (mkNode name now now) in
           let hasBeenWatching := being_watched s name in
           (hasBeenWatching, (AddToWatchList s (root_of name)).2, true)
       | Some temp =>
           (true, setRegisterdNodeInfo s name (mkNode (nName temp) now (RegTime temp)), false)
       end.

(** The beginning of [watchItem], when the goroutine runs. *)
Definition watchItem_start (s : watch_state) (i : nat) (now : Z) : option watch_state :=
  match spawned s !! i with
  | Some name =>
      Some (mkWS (<[name := mkWatch name now 1 (length (watchers s))]> (watchList s)) (registeredNodes s)
                 (delete i (spawned s)) (watchers s ++ [mkWatcher name 0 Watching]) (kicks s))
  | None => None
  end.

(** The un-watch branch of [watchItem]: it deletes the registered configurations
    of the root and then calls [syncRegisteredNodesToDisk]. *)
Definition watchItem_unwatch (s : watch_state) (i : nat) : option watch_state :=
  match watchers s !! i with
  | Some (mkWatcher name (S k) Watching) =>
      Some (mkWS (watchList s) (base.filter (fun kv => root_of kv.1 ≠ name) (registeredNodes s)) (spawned s)
                 (<[i := mkWatcher name k Syncing]> (watchers s)) (kicks s))
  | _ => None
  end.

(** ** gcWatcher *)

Definition THRESHOLD_GC_ITEM : Z := 600.

Definition last_access (m : gmap str Z) (kv : str * registeredNodeInfo) : gmap str Z :=
  let dRoot := root_of (nName kv.2) in
  match m !! dRoot with
  | Some t => if (t <? LastAccessTime kv.2)%Z then <[dRoot := LastAccessTime kv.2]> m else m
  | None => <[dRoot := LastAccessTime kv.2]> m
  end.
Definition rootsLastAccessTime (s : watch_state) : gmap str Z :=
  fold_left last_access (map_to_list (registeredNodes s)) ∅.

Definition expired (s : watch_state) (schemaConfigItems : list str) (t : Z) (kv : str * Z) : bool :=
  being_watched s kv.1 && (THRESHOLD_GC_ITEM <=? t - kv.2)%Z && negb (InArrayString schemaConfigItems kv.1).
Definition unused (s : watch_state) (schemaConfigItems : list str) (last : gmap str Z) (kicked : list str) (dRoot : str) : bool :=
  being_watched s dRoot && bool_decide (last !! dRoot = None) && negb (InArrayString kicked dRoot)
  && negb (InArrayString schemaConfigItems dRoot).

(** A round of [gcWatcher] up to the signals: the roots to be kicked. *)
Definition gc_round (s : watch_state) (schemaConfigItems : list str) (t : Z) : option watch_state :=
  match kicks s with
  | [] =>
      let last := rootsLastAccessTime s in
      let kicked := map fst (List.filter (expired s schemaConfigItems t) (map_to_list last)) in
      let more := List.filter (unused s schemaConfigItems last kicked) (map fst (map_to_list (watchList s))) in
      Some (mkWS (watchList s) (registeredNodes s) (spawned s) (watchers s) (kicked ++ more))
  | _ => None
  end.

(** One signal: the send waits while the channel is full. *)
Definition gc_kick (s : watch_state) : option watch_state :=
  match kicks s with
  | dRoot :: rest =>
      info ← watchList s !! dRoot;
      w ← watchers s !! wChan info;
      if wt_signals w <? 1
      then Some (mkWS (watchList s) (registeredNodes s) (spawned s)
                      (<[wChan info := mkWatcher (wt_name w) (S (wt_signals w)) (wt_phase w)]> (watchers s)) rest)
      else None
  | [] => None
  end.

Inductive wmove :=
| WTouch (name : str) (now : Z)
| WAdd (root : str)
| WStart (i : nat) (now : Z)
| WUnwatch (i : nat)
| WGc (schemaRoots : list str) (now : Z)
| WKick.

Definition wdo (s : watch_state) (m : wmove) : option watch_state :=
  match m with
  | WTouch name now => Some (touch false s name now).1.2
  | WAdd root => Some (AddToWatchList s root).2
  | WStart i now => watchItem_start s i now
  | WUnwatch i => watchItem_unwatch s i
  | WGc schemaRoots now => gc_round s schemaRoots now
  | WKick => gc_kick s
  end.

Definition wstep (s s' : watch_state) : Prop := ∃ m, wdo s m = Some s'.
Definition no_watches : watch_state := mkWS ∅ ∅ [] [] [].
Definition wreachable (s : watch_state) : Prop := steps wstep no_watches s.

(** ** Which watches are removed *)

Lemma last_access_lookup m kv r :
  last_access m kv !! r =
    if bool_decide (root_of (nName kv.2) = r)
    then Some (match m !! r with Some t => Z.max t (LastAccessTime kv.2) | None => LastAccessTime kv.2 end)
    else m !! r.
Proof.
  unfold last_access. case_bool_decide as E; [subst r|].
  - destruct (m !! root_of (nName kv.2)) as [t|] eqn:Em.
    + destruct (Z.ltb_spec t (LastAccessTime kv.2)); [rewrite lookup_insert_eq; f_equal; lia|rewrite Em; f_equal; lia].
    + by rewrite lookup_insert_eq.
  - destruct (m !! root_of (nName kv.2)); [case_match; [by rewrite lookup_insert_ne|done]|by rewrite lookup_insert_ne].
Qed.

(** The times of a root: none when no configuration of it is in the list, else at
    least each of them and equal to one. *)
Lemma fold_last_access l m r :
  (fold_left last_access l m !! r = None ↔ m !! r = None ∧ ∀ kv, kv ∈ l → root_of (nName kv.2) ≠ r)
  ∧ ∀ t, fold_left last_access l m !! r = Some t →
      (∀ t0, m !! r = Some t0 → (t0 <= t)%Z)
      ∧ (∀ kv, kv ∈ l → root_of (nName kv.2) = r → (LastAccessTime kv.2 <= t)%Z)
      ∧ (m !! r = Some t ∨ ∃ kv, kv ∈ l ∧ root_of (nName kv.2) = r ∧ LastAccessTime kv.2 = t).
Proof.
  revert m. induction l as [|kv l IH]; intros m; cbn [fold_left].
  { split; [set_solver|]. intros t Ht. split_and!; [|set_solver|by left].
    intros t0 H0. rewrite Ht in H0. simplify_eq. lia. }
  destruct (IH (last_access m kv)) as [IH1 IH2]. rewrite last_access_lookup in IH1, IH2. split.
  - rewrite IH1. case_bool_decide as E; [split; [naive_solver|]|]; [|set_solver].
    intros [_ H]. destruct (H kv); [left|done].
  - intros t Ht. destruct (IH2 t Ht) as (H1 & H2 & H3). case_bool_decide as E.
    + specialize (H1 _ eq_refl). split_and!.
      * intros t0 H0. rewrite H0 in H1. lia.
      * intros kv' [->|Hin]%elem_of_cons Hr; [destruct (m !! r); lia|auto].
      * destruct H3 as [H3|(kv' & ? & ? & ?)]; [|right; exists kv'; split; [by right|done]].
        destruct (m !! r) as [t0|] eqn:Em; simplify_eq.
        -- destruct (Z.max_spec t0 (LastAccessTime kv.2)) as [[? ->]|[? ->]]; [right; exists kv; split; [left|done]|by left].
        -- right. exists kv. split; [left|done].
    + split_and!; [done| |].
      * intros kv' [->|Hin]%elem_of_cons Hr; [done|auto].
      * destruct H3 as [?|(kv' & ? & ? & ?)]; [by left|right; exists kv'; split; [by right|done]].
Qed.

Lemma NoDup_map_filter {A B} (g : A → B) (P : A → bool) l : NoDup (map g l) → NoDup (map g (List.filter P l)).
Proof.
  induction l as [|x l IH]; [done|]. cbn [map]. intros [Hx Hl]%NoDup_cons. cbn [List.filter].
  destruct (P x); [|by apply IH]. cbn [map]. apply NoDup_cons. split; [|by apply IH].
  intros Hin. apply Hx. apply list_elem_of_fmap in Hin as (y & -> & Hy). apply list_elem_of_fmap. exists y. split; [done|].
  apply list_elem_of_In, filter_In in Hy as [Hy _]. by apply list_elem_of_In.
Qed.

(** A round signals a root once. *)
Lemma gc_round_once s roots now s' : gc_round s roots now = Some s' → NoDup (kicks s').
Proof.
  unfold gc_round. destruct (kicks s); [|done]. intros [= <-]. cbn [kicks]. set (kicked := map fst _).
  apply NoDup_app. split_and!.
  - apply (NoDup_map_filter fst), NoDup_fst_map_to_list.
  - intros r Hr Hu. apply list_elem_of_In, filter_In in Hu as [_ Hu]. unfold unused in Hu.
    rewrite !andb_true_iff, !negb_true_iff, InArrayString_false in Hu. tauto.
  - rewrite <- (map_id (List.filter _ _)). apply (NoDup_map_filter id). rewrite map_id. apply NoDup_fst_map_to_list.
Qed.

(** C33.  A round of the collector decides to signal exactly the watches that are not
    needed, each once: a root is to be signalled iff it is on the list as watched, no
    schema file uses it, and no registered configuration of it was accessed within
    the last 600 seconds.  What becomes of a signalled watch: [unwatched_for_good],
    [gc_blocks]. *)
Theorem gc_round_spec (s s' : watch_state) (schemaRoots : list str) (now : Z) (r : str) :
  gc_round s schemaRoots now = Some s' →
  NoDup (kicks s')
  ∧ (r ∈ kicks s' ↔ being_watched s r = true ∧ (r ∉ schemaRoots)
     ∧ (∀ n info, registeredNodes s !! n = Some info → root_of (nName info) = r →
          (THRESHOLD_GC_ITEM <= now - LastAccessTime info)%Z)).
Proof.
  intros Hg. split; [by eapply gc_round_once|]. revert Hg. unfold gc_round. destruct (kicks s) eqn:Ek; [|done]. intros [= <-]. cbn [kicks].
  set (last := rootsLastAccessTime s).
  destruct (fold_last_access (map_to_list (registeredNodes s)) ∅ r) as [Hnone Hsome].
  fold (rootsLastAccessTime s) in Hnone, Hsome. fold last in Hnone, Hsome.
  assert (r ∈ map fst (List.filter (expired s schemaRoots now) (map_to_list last))
          ↔ (∃ t, last !! r = Some t ∧ being_watched s r = true ∧ (THRESHOLD_GC_ITEM <= now - t)%Z ∧ r ∉ schemaRoots)) as H1.
  { rewrite list_elem_of_In, in_map_iff. setoid_rewrite filter_In. unfold expired. split.
    - intros ([r' t] & <- & Hin & He). rewrite <- list_elem_of_In, elem_of_map_to_list in Hin. bool_to_prop.
      exists t. by rewrite <- InArrayString_false.
    - intros (t & Ht & Hw & Hx & Hs). exists (r, t). rewrite <- list_elem_of_In, elem_of_map_to_list.
      split_and!; [done|done|]. simpl. rewrite Hw. rewrite (proj2 (Z.leb_le _ _) Hx).
      by rewrite (proj2 (InArrayString_false _ _) Hs). }
  rewrite elem_of_app, H1. rewrite (list_elem_of_In (List.filter _ _) r), filter_In, <- list_elem_of_In. split.
  - intros [(t & Ht & Hw & Hx & Hs)|[_ Hu]].
    + split_and!; [done|done|]. intros n info Hn Hr. destruct (Hsome t Ht) as (_ & Hle & _).
      specialize (Hle (n, info)). rewrite elem_of_map_to_list in Hle. specialize (Hle Hn Hr). simpl in Hle. lia.
    + unfold unused in Hu. rewrite !andb_true_iff, !negb_true_iff, bool_decide_eq_true in Hu.
      destruct Hu as [[[Hw Hl] _] Hs]. split_and!; [done| |].
      * by rewrite <- InArrayString_false.
      * intros n info Hn Hr. apply Hnone in Hl as [_ Hl]. destruct (Hl (n, info)); [by apply elem_of_map_to_list|done].
  - intros (Hw & Hs & Hold). destruct (last !! r) as [t|] eqn:Ht.
    + left. exists t. split_and!; [done|done| |done]. destruct (Hsome t eq_refl) as (_ & _ & [H0|(kv & Hin & Hr & <-)]).
      { by rewrite lookup_empty in H0. }
      destruct kv as [n info]. apply elem_of_map_to_list in Hin. by apply (Hold n).
    + right. split.
      * apply list_elem_of_fmap. unfold being_watched in Hw. destruct (watchList s !! r) as [info|] eqn:Ei; [|done].
        exists (r, info). split; [done|]. by apply elem_of_map_to_list.
      * unfold unused. rewrite Hw, bool_decide_eq_true_2 by done. rewrite (proj2 (InArrayString_false _ _) Hs).
        rewrite andb_true_r. simpl.
        apply negb_true_iff, not_true_is_false. rewrite InArrayString_spec, H1. naive_solver.
Qed.

(** ** Invariant of the watches *)

Definition winv (s : watch_state) : Prop :=
  (∀ r info, watchList s !! r = Some info →
     wState info = 1%Z ∧ ∃ w, watchers s !! wChan info = Some w ∧ wt_name w = r)
  ∧ (∀ n info, registeredNodes s !! n = Some info →
       nName info = n ∧ (being_watched s (root_of n) = true ∨ root_of n ∈ spawned s))
  ∧ (∀ r, r ∈ kicks s → is_Some (watchList s !! r))
  ∧ (∀ i w, watchers s !! i = Some w → is_Some (watchList s !! wt_name w)).

Lemma being_watched_spec s r : winv s → being_watched s r = true ↔ is_Some (watchList s !! r).
Proof.
  intros (H & _). unfold being_watched. destruct (watchList s !! r) as [info|] eqn:E; [|naive_solver].
  destruct (H _ _ E) as [-> _]. naive_solver.
Qed.

Lemma winv_add s r :
  winv s → winv (AddToWatchList s r).2
  ∧ (being_watched (AddToWatchList s r).2 r = true ∨ r ∈ spawned (AddToWatchList s r).2).
Proof.
  intros (H1 & H2 & H3). unfold AddToWatchList. destruct (being_watched s r) eqn:E; [by split; [|left]|].
  split; [|right; simpl; set_solver]. split; [done|split; [|done]]. intros n info Hn. cbn in *.
  destruct (H2 n info Hn) as (? & [?|?]); split; auto. right. set_solver.
Qed.

Lemma winv_register s n info :
  winv s → nName info = n → being_watched s (root_of n) = true ∨ root_of n ∈ spawned s →
  winv (setRegisterdNodeInfo s n info).
Proof.
  intros (H1 & H2 & H3) Hname Hw. split; [done|split; [|done]]. intros k i. cbn.
  destruct (decide (n = k)) as [<-|Hne]; [rewrite lookup_insert_eq; intros; by simplify_eq|].
  rewrite lookup_insert_ne by done. apply H2.
Qed.

Lemma add_register s n info r :
  (AddToWatchList (setRegisterdNodeInfo s n info) r).2 = setRegisterdNodeInfo (AddToWatchList s r).2 n info.
Proof.
  unfold AddToWatchList.
  change (being_watched (setRegisterdNodeInfo s n info) r) with (being_watched s r).
  by destruct (being_watched s r).
Qed.

Lemma winv_touch s n now : winv s → winv (touch false s n now).1.2.
Proof.
  intros Hi. unfold touch. destruct (registeredNodes s !! n) as [temp|] eqn:E; cbn [fst snd].
  - destruct (proj1 (proj2 Hi) n temp E) as [Hn Hw]. by apply winv_register.
  - rewrite add_register. destruct (winv_add s (root_of n) Hi) as [Hi' Hw]. by apply winv_register.
Qed.

Lemma lookup_insert_some {A} (m : gmap str A) i x n : is_Some (<[i := x]> m !! n) ↔ i = n ∨ is_Some (m !! n).
Proof. rewrite lookup_insert_is_Some. destruct (decide (i = n)); naive_solver. Qed.

Lemma winv_start s i now s' : winv s → watchItem_start s i now = Some s' → winv s'.
Proof.
  intros (H1 & H2 & H3 & H4) H. unfold watchItem_start in H. destruct (spawned s !! i) as [name|] eqn:E; [|done].
  injection H as <-. split_and!.
  - intros r info. cbn. destruct (decide (name = r)) as [->|Hne].
    + rewrite lookup_insert_eq. intros [= <-]. split; [done|]. cbn. exists (mkWatcher r 0 Watching). split; [|done].
      by rewrite lookup_app_r, Nat.sub_diag by done.
    + rewrite lookup_insert_ne by done. intros Hr. destruct (H1 _ _ Hr) as [? (w & Hw & ?)]. split; [done|].
      exists w. split; [|done]. by apply lookup_app_l_Some.
  - intros n info Hn. cbn in Hn. destruct (H2 _ _ Hn) as [? Hor]. split; [done|].
    unfold being_watched. cbn. destruct (decide (name = root_of n)) as [<-|Hne].
    + left. by rewrite lookup_insert_eq.
    + rewrite lookup_insert_ne by done. destruct Hor as [?|Hin]; [by left|right].
      rewrite delete_take_drop. rewrite <- (take_drop_middle _ _ _ E) in Hin. set_solver.
  - intros r Hr. cbn in *. destruct (decide (name = r)) as [->|Hne]; [rewrite lookup_insert_eq; eauto|].
    rewrite lookup_insert_ne by done. auto.
  - cbn. intros j w Hj. apply lookup_insert_some. apply lookup_app_Some in Hj as [Hj|[_ Hj]]; [right; eauto|].
    apply list_lookup_singleton_Some in Hj as [_ <-]. by left.
Qed.

Lemma winv_watchers s l :
  (∀ i w, watchers s !! i = Some w → ∃ w', l !! i = Some w' ∧ wt_name w' = wt_name w) →
  (∀ i w, l !! i = Some w → ∃ w0, watchers s !! i = Some w0 ∧ wt_name w0 = wt_name w) →
  ∀ nodes ks, (∀ n info, nodes !! n = Some info → registeredNodes s !! n = Some info) →
  (∀ r, r ∈ ks → is_Some (watchList s !! r)) →
  winv s → winv (mkWS (watchList s) nodes (spawned s) l ks).
Proof.
  intros Hl Hb nodes ks Hn Hk (H1 & H2 & H3 & H4). split_and!; cbn; [|naive_solver|done|].
  2:{ intros i w Hw. destruct (Hb i w Hw) as (w0 & Hw0 & <-). eauto. }
  intros r info Hr. destruct (H1 r info Hr) as [? (w & Hw & Hnm)]. split; [done|].
  destruct (Hl _ _ Hw) as (w' & ? & ?). exists w'. split; [done|congruence].
Qed.

Lemma insert_same_name (l : list watcher) i x y :
  l !! i = Some x → wt_name y = wt_name x →
  (∀ j w, l !! j = Some w → ∃ w', <[i := y]> l !! j = Some w' ∧ wt_name w' = wt_name w)
  ∧ ∀ j w, <[i := y]> l !! j = Some w → ∃ w0, l !! j = Some w0 ∧ wt_name w0 = wt_name w.
Proof.
  intros Hi Hn. split; intros j w Hj; destruct (decide (i = j)) as [<-|Hne].
  - exists y. rewrite list_lookup_insert_eq by (by eapply lookup_lt_Some). split; [done|congruence].
  - exists w. by rewrite list_lookup_insert_ne.
  - rewrite list_lookup_insert_eq in Hj by (by eapply lookup_lt_Some). simplify_eq. by exists x.
  - rewrite list_lookup_insert_ne in Hj by done. by exists w.
Qed.

Lemma winv_step s s' : wstep s s' → winv s → winv s'.
Proof.
  intros [m H] Hi. pose proof Hi as (H1 & H2 & H3 & H4). destruct m as [n now|r|i now|i|roots now|]; cbn [wdo] in H.
  - injection H as <-. by apply winv_touch.
  - injection H as <-. by apply winv_add.
  - by eapply winv_start.
  - unfold watchItem_unwatch in H. destruct (watchers s !! i) as [[name [|k] []]|] eqn:E; try done. injection H as <-.
    destruct (insert_same_name _ _ _ (mkWatcher name k Syncing) E eq_refl) as [Ha Hb].
    apply winv_watchers; [exact Ha|exact Hb| |done|done].
    intros n info [? _]%map_lookup_filter_Some. done.
  - destruct (kicks s) eqn:Ek; [|unfold gc_round in H; by rewrite Ek in H].
    assert (∀ r, r ∈ kicks s' → is_Some (watchList s !! r)) as Hk.
    { intros r Hr. unfold gc_round in H. rewrite Ek in H. injection H as <-. cbn [kicks] in Hr.
      apply being_watched_spec; [done|]. apply elem_of_app in Hr as [Hr|Hr].
      - apply list_elem_of_In, in_map_iff in Hr as ([r' t] & <- & [_ Hx]%filter_In). unfold expired in Hx. by bool_to_prop.
      - apply list_elem_of_In, filter_In in Hr as [_ Hx]. unfold unused in Hx. by bool_to_prop. }
    unfold gc_round in H. rewrite Ek in H. injection H as <-. apply winv_watchers; [eauto|eauto|done|exact Hk|done].
  - unfold gc_kick in H. destruct (kicks s) as [|r rest] eqn:Ek; [done|].
    destruct (watchList s !! r) as [info|] eqn:Er; [|done]. cbn [mbind option_bind] in H.
    destruct (watchers s !! wChan info) as [w|] eqn:Ew; [|done]. cbn [mbind option_bind] in H.
    destruct (wt_signals w <? 1); [|done]. injection H as <-.
    destruct (insert_same_name _ _ _ (mkWatcher (wt_name w) (S (wt_signals w)) (wt_phase w)) Ew eq_refl) as [Ha Hb].
    apply winv_watchers; [exact Ha|exact Hb|done| |done]. intros; apply H3. by right.
Qed.

Lemma winv_reachable s : wreachable s → winv s.
Proof.
  intros H. eapply (steps_inv wstep winv); [apply winv_step|exact H|].
  split_and!; cbn; [intros ? ?; by rewrite lookup_empty..|set_solver|done].
Qed.

Fixpoint wrun (s : watch_state) (ms : list wmove) : option watch_state :=
  match ms with
  | [] => Some s
  | m :: rest => s' ← wdo s m; wrun s' rest
  end.

Lemma wrun_steps s ms s' : wrun s ms = Some s' → steps wstep s s'.
Proof.
  revert s. induction ms as [|m ms IH]; intros s H; cbn [wrun] in H; [simplify_eq; constructor|].
  destruct (wdo s m) as [s1|] eqn:E; [|done]. eapply steps_one; [by exists m|by apply IH].
Qed.

(** Only its own un-watch branch takes a goroutine out of its loop. *)
Lemma syncing_step m s s' i w :
  wdo s m = Some s' → watchers s' !! i = Some w → wt_phase w = Syncing →
  m = WUnwatch i ∨ ∃ w0, watchers s !! i = Some w0 ∧ wt_phase w0 = Syncing.
Proof.
  intros H Hi Hw. destruct m as [n now|r|j now|j|roots now|]; cbn [wdo] in H.
  - injection H as <-. right. unfold touch in Hi. destruct (registeredNodes s !! n); cbn [fst snd] in Hi; [eauto|].
    unfold AddToWatchList in Hi. destruct (being_watched _ _); eauto.
  - injection H as <-. right. unfold AddToWatchList in Hi. destruct (being_watched s r); eauto.
  - unfold watchItem_start in H. destruct (spawned s !! j); [|done]. injection H as <-. right.
    apply lookup_app_Some in Hi as [Hi|[_ Hi]]; [eauto|]. apply list_lookup_singleton_Some in Hi as [_ <-]. done.
  - unfold watchItem_unwatch in H. destruct (watchers s !! j) as [[name [|k] []]|] eqn:E; try done. injection H as <-.
    cbn [watchers] in Hi. destruct (decide (j = i)) as [->|Hne]; [by left|]. rewrite list_lookup_insert_ne in Hi by done. eauto.
  - unfold gc_round in H. destruct (kicks s); [|done]. injection H as <-. eauto.
  - unfold gc_kick in H. destruct (kicks s) as [|r rest]; [done|].
    destruct (watchList s !! r) as [info|]; [|done]. cbn [mbind option_bind] in H.
    destruct (watchers s !! wChan info) as [x|] eqn:Ex; [|done]. cbn [mbind option_bind] in H.
    destruct (wt_signals x <? 1); [|done]. injection H as <-. cbn [watchers] in Hi. right.
    apply list_lookup_insert_Some in Hi as [(<- & <- & _)|[_ Hi]]; eauto.
Qed.

Lemma syncing_unwatched ms : ∀ s s' i w,
  wrun s ms = Some s' → watchers s' !! i = Some w → wt_phase w = Syncing →
  WUnwatch i ∈ ms ∨ ∃ w0, watchers s !! i = Some w0 ∧ wt_phase w0 = Syncing.
Proof.
  induction ms as [|m ms IH]; intros s s' i w H Hi Hw; cbn [wrun] in H; [simplify_eq; eauto|].
  destruct (wdo s m) as [s1|] eqn:E; [|done]. destruct (IH _ _ _ _ H Hi Hw) as [?|(w1 & H1 & Hw1)]; [left; by right|].
  destruct (syncing_step _ _ _ _ _ E H1 Hw1) as [->|?]; [left; left|by right].
Qed.

(** C34.  Every configuration registered through the API has a watch, until the
    collector takes it away: after any run, either the goroutine that will watch the
    root of its name has been started, or the root is on the list as watched with a
    goroutine for it, and that goroutine is in its loop unless it took the un-watch
    signal in this run (then the root stays unwatched: [unwatched_for_good]).  And
    every root the collector is about to signal has a channel. *)
Theorem registered_roots_watched (ms : list wmove) (s : watch_state) :
  wrun no_watches ms = Some s →
  (∀ n, is_Some (registeredNodes s !! n) →
     root_of n ∈ spawned s
     ∨ ∃ info w, watchList s !! root_of n = Some info ∧ wState info = 1%Z ∧ watchers s !! wChan info = Some w
         ∧ wt_name w = root_of n ∧ (wt_phase w = Watching ∨ WUnwatch (wChan info) ∈ ms))
  ∧ ∀ r, r ∈ kicks s → ∃ info w, watchList s !! r = Some info ∧ watchers s !! wChan info = Some w ∧ wt_name w = r.
Proof.
  intros Hr. pose proof (winv_reachable s (wrun_steps _ _ _ Hr)) as Hi. pose proof Hi as (H1 & H2 & H3 & _). split.
  - intros n [info Hn]. destruct (proj2 (H2 n info Hn)) as [Hb|Hs]; [right|by left].
    apply (being_watched_spec _ _ Hi) in Hb as [wi Hw]. destruct (H1 _ _ Hw) as [Hst (w & Hwt & Hname)].
    exists wi, w. split_and!; [done..|]. destruct (wt_phase w) eqn:Ep; [by left|right].
    destruct (syncing_unwatched _ _ _ _ _ Hr Hwt Ep) as [?|(w0 & H0 & _)]; [done|by destruct (wChan wi)].
  - intros r Hk. destruct (H3 r Hk) as [info Hf]. destruct (H1 r info Hf) as [_ (w & ? & ?)]. by exists info, w.
Qed.

(** ** What the un-watch branch leaves behind *)

(** The root is on the list as watched, but the goroutine of its channel and every
    other one for it has left its loop, and none is about to start. *)
Definition lost (r : str) (s : watch_state) : Prop :=
  (r ∉ spawned s)
  ∧ (∃ info w, watchList s !! r = Some info ∧ wState info = 1%Z ∧ watchers s !! wChan info = Some w)
  ∧ ∀ i w, watchers s !! i = Some w → wt_name w = r → wt_phase w = Syncing.

Lemma lost_watched r s : lost r s → being_watched s r = true.
Proof. intros (_ & (info & w & Hi & Hs & _) & _). unfold being_watched. by rewrite Hi, Hs. Qed.

Lemma lost_add r s r' : lost r s → lost r (AddToWatchList s r').2.
Proof.
  intros Hl. unfold AddToWatchList. destruct (being_watched s r') eqn:E; [done|].
  assert (r' ≠ r) by (intros ->; by rewrite lost_watched in E). destruct Hl as (Hs & Hw & Hp).
  split_and!; cbn; [set_solver|done|done].
Qed.

Lemma lost_start r s i now s' : lost r s → watchItem_start s i now = Some s' → lost r s'.
Proof.
  intros (Hs & (info & w & Hi & Hst & Hw) & Hp) H. unfold watchItem_start in H.
  destruct (spawned s !! i) as [name|] eqn:E; [|done]. injection H as <-.
  assert (name ≠ r) as Hne by (intros ->; apply list_elem_of_lookup_2 in E; done). split_and!; cbn.
  - intros Hin. apply Hs. rewrite delete_take_drop in Hin. rewrite <- (take_drop_middle _ _ _ E). set_solver.
  - exists info, w. rewrite lookup_insert_ne by done. split_and!; [done|done|]. by apply lookup_app_l_Some.
  - intros j x [Hx|[_ Hx]]%lookup_app_Some Hn; [eauto|].
    apply list_lookup_singleton_Some in Hx as [_ <-]. done.
Qed.

Lemma lost_watchers r s l nodes ks :
  (∀ i w, watchers s !! i = Some w → is_Some (l !! i)) →
  (∀ i w, l !! i = Some w → ∃ w0, watchers s !! i = Some w0 ∧ wt_name w0 = wt_name w
     ∧ (wt_phase w0 = Syncing → wt_phase w = Syncing)) →
  lost r s → lost r (mkWS (watchList s) nodes (spawned s) l ks).
Proof.
  intros Hf Hb (Hs & (info & w & Hi & Hst & Hw) & Hp). split_and!; cbn; [done| |].
  - destruct (Hf _ _ Hw) as [w' Hw']. by exists info, w'.
  - intros i x Hx Hn. destruct (Hb _ _ Hx) as (w0 & H0 & Hn0 & Hph). apply Hph, (Hp i w0 H0). congruence.
Qed.

Lemma insert_phase (l : list watcher) i x y :
  l !! i = Some x → wt_name y = wt_name x → (wt_phase x = Syncing → wt_phase y = Syncing) →
  (∀ j w, l !! j = Some w → is_Some (<[i := y]> l !! j))
  ∧ ∀ j w, <[i := y]> l !! j = Some w →
      ∃ w0, l !! j = Some w0 ∧ wt_name w0 = wt_name w ∧ (wt_phase w0 = Syncing → wt_phase w = Syncing).
Proof.
  intros Hi Hn Hp. split; intros j w Hj.
  - destruct (proj1 (insert_same_name l i x y Hi Hn) j w Hj) as (w' & -> & _). eauto.
  - destruct (decide (i = j)) as [<-|Hne].
    + rewrite list_lookup_insert_eq in Hj by (by eapply lookup_lt_Some). simplify_eq. by exists x.
    + rewrite list_lookup_insert_ne in Hj by done. by exists w.
Qed.

Lemma lost_step r s s' : wstep s s' → lost r s → lost r s'.
Proof.
  intros [m H] Hl. destruct m as [n now|r'|i now|i|roots now|]; cbn [wdo] in H.
  - injection H as <-. unfold touch. destruct (registeredNodes s !! n) as [temp|]; cbn [fst snd]; [done|].
    rewrite add_register. exact (lost_add r s (root_of n) Hl).
  - injection H as <-. by apply lost_add.
  - by eapply lost_start.
  - unfold watchItem_unwatch in H. destruct (watchers s !! i) as [[name [|k] []]|] eqn:E; try done. injection H as <-.
    destruct (insert_phase _ _ _ (mkWatcher name k Syncing) E eq_refl ltac:(done)). by apply lost_watchers.
  - unfold gc_round in H. destruct (kicks s); [|done]. injection H as <-. apply lost_watchers; [eauto|eauto|done].
  - unfold gc_kick in H. destruct (kicks s) as [|r' rest]; [done|].
    destruct (watchList s !! r') as [info|]; [|done]. cbn [mbind option_bind] in H.
    destruct (watchers s !! wChan info) as [w|] eqn:Ew; [|done]. cbn [mbind option_bind] in H.
    destruct (wt_signals w <? 1); [|done]. injection H as <-.
    destruct (insert_phase _ _ _ (mkWatcher (wt_name w) (S (wt_signals w)) (wt_phase w)) Ew eq_refl ltac:(done)).
    by apply lost_watchers.
Qed.

(** C40.  A watch that was removed never comes back: when the only goroutine that
    watches a root takes the un-watch signal, then in every later state the root
    counts as watched, [AddToWatchList] starts nothing for it, and no goroutine
    watches it, even if its configurations are registered again. *)
Theorem unwatched_for_good (s s1 s2 : watch_state) (i : nat) (r : str) :
  wreachable s → watchItem_unwatch s i = Some s1 →
  (∃ k, watchers s !! i = Some (mkWatcher r k Watching)) → r ∉ spawned s →
  (∀ j w, j ≠ i → watchers s !! j = Some w → wt_name w = r → wt_phase w = Syncing) →
  steps wstep s1 s2 →
  being_watched s2 r = true ∧ AddToWatchList s2 r = (true, s2)
  ∧ ∀ j w, watchers s2 !! j = Some w → wt_name w = r → wt_phase w = Syncing.
Proof.
  intros Hr H (k & Hk) Hs Hother Hsteps.
  assert (winv s1) as Hi1 by (apply (winv_step s); [by exists (WUnwatch i)|by apply winv_reachable]).
  assert (lost r s1) as Hl.
  { destruct (proj2 (proj2 (proj2 (winv_reachable s Hr))) _ _ Hk) as [info Hinfo]. cbn in Hinfo.
    unfold watchItem_unwatch in H. rewrite Hk in H. destruct k as [|k]; [done|]. injection H as <-.
    destruct (proj1 Hi1 r info Hinfo) as [Hst (w & Hw & _)]. cbn in Hw. split_and!; cbn; [done|exists info, w; auto|].
    intros j x Hj Hn. destruct (decide (i = j)) as [<-|Hne].
    - rewrite list_lookup_insert_eq in Hj by (by eapply lookup_lt_Some). injection Hj as <-. reflexivity.
    - rewrite list_lookup_insert_ne in Hj by done. by eapply Hother. }
  assert (lost r s2) as Hl2 by (eapply (steps_inv wstep (lost r)); [apply lost_step|done|done]).
  split; [by apply lost_watched|]. split; [|by destruct Hl2 as (_ & _ & ?)].
  unfold AddToWatchList. by rewrite lost_watched.
Qed.

(** The collector waits for room in the channel of a watch that is lost. *)
Definition gc_waiting (r : str) (rest : list str) (s : watch_state) : Prop :=
  lost r s ∧ kicks s = r :: rest
  ∧ ∃ info w, watchList s !! r = Some info ∧ watchers s !! wChan info = Some w ∧ wt_name w = r ∧ 1 ≤ wt_signals w.

Lemma gc_waiting_kick r rest s : gc_waiting r rest s → gc_kick s = None.
Proof.
  intros (_ & Hk & info & w & Hi & Hw & _ & Hs). unfold gc_kick. rewrite Hk, Hi. cbn [mbind option_bind]. rewrite Hw.
  cbn [mbind option_bind]. by destruct (Nat.ltb_spec (wt_signals w) 1); [lia|].
Qed.

Lemma gc_waiting_step r rest s s' : wstep s s' → gc_waiting r rest s → gc_waiting r rest s'.
Proof.
  intros Hst Hg. pose proof (gc_waiting_kick _ _ _ Hg) as Hnk.
  destruct Hg as (Hl & Hk & info & w & Hi & Hw & Hn & Hs). split; [by eapply lost_step|].
  assert (∀ i x, watchers s !! i = Some x → wt_phase x = Watching → i ≠ wChan info) as Hother.
  { intros i x Hx Hp ->. rewrite Hw in Hx. simplify_eq. destruct Hl as (_ & _ & Hl). rewrite (Hl _ _ Hw eq_refl) in Hp. done. }
  destruct Hst as [m H]. destruct m as [n now|r'|i now|i|roots now|]; cbn [wdo] in H.
  - injection H as <-. unfold touch. destruct (registeredNodes s !! n); cbn [fst snd]; [by eauto 10|].
    rewrite add_register. unfold AddToWatchList. destruct (being_watched s _); cbn; eauto 10.
  - injection H as <-. unfold AddToWatchList. destruct (being_watched s r'); cbn; eauto 10.
  - unfold watchItem_start in H. destruct (spawned s !! i) as [name|] eqn:E; [|done]. injection H as <-.
    assert (name ≠ r) by (intros ->; apply list_elem_of_lookup_2 in E; by destruct Hl as [? _]). cbn. split; [done|].
    exists info, w. rewrite lookup_insert_ne by done. split_and!; [done| |done|done]. by apply lookup_app_l_Some.
  - unfold watchItem_unwatch in H. destruct (watchers s !! i) as [[name [|k] []]|] eqn:E; try done. injection H as <-.
    cbn. split; [done|]. exists info, w. rewrite list_lookup_insert_ne by by eapply Hother. done.
  - unfold gc_round in H. by rewrite Hk in H.
  - congruence.
Qed.

Lemma gc_waiting_forever r rest s s' : steps wstep s s' → gc_waiting r rest s → gc_waiting r rest s'.
Proof. intros H. eapply steps_inv; [apply gc_waiting_step|done]. Qed.

(** A configuration is read once, its watch is removed after 600 seconds, and two
    more rounds of the collector follow. *)
Definition idle_run : list wmove :=
  [WTouch $"db.host" 0; WStart 0 0; WGc [] 1000; WKick; WUnwatch 0; WGc [] 2000; WKick; WGc [] 3000].

Lemma idle_run_waits : ∃ s, wrun no_watches idle_run = Some s ∧ gc_waiting $"db" [] s.
Proof.
  eexists. split; [vm_compute; reflexivity|]. unfold gc_waiting, lost. cbn [spawned watchList watchers kicks].
  split; [|split; [done|]].
  - split; [set_solver|]. split; [eexists _, _; split_and!; vm_compute; reflexivity|].
    intros [|i] w; cbn; [intros [= <-]; done|intros H; by destruct i].
  - eexists _, _. split_and!; [vm_compute; reflexivity|vm_compute; reflexivity|done|simpl; lia].
Qed.

(** The collector blocks for good: there is a reachable state from which, in
    every later state, the collector is waiting to signal a root that nothing
    watches, and neither its send nor a new round is possible. *)
Theorem gc_blocks :
  ∃ s, wreachable s ∧ ∀ s', steps wstep s s' →
    kicks s' = [$"db"] ∧ gc_kick s' = None ∧ ∀ roots now, gc_round s' roots now = None.
Proof.
  destruct idle_run_waits as (s & Hr & Hw). exists s. split; [exact (wrun_steps _ _ _ Hr)|].
  intros s' H. pose proof (gc_waiting_forever _ _ _ _ H Hw) as Hg. pose proof (gc_waiting_kick _ _ _ Hg).
  destruct Hg as (_ & Hk & _). split_and!; [done|done|]. intros. unfold gc_round. by rewrite Hk.
Qed.

(** Two registrations of one root before its goroutine runs start two watches. *)
Example double_watch :
  match wrun no_watches [WTouch $"db.host" 0; WTouch $"db.port" 0; WStart 0 0; WStart 0 0] with
  | Some s => map wt_name (watchers s) = [$"db"; $"db"]
  | None => False
  end.
Proof. reflexivity. Qed.

Lemma gc_round_spec_witness :
  let s := mkWS {[ $"db" := mkWatch $"db" 0 1 0 ]} {[ $"db.host" := mkNode $"db.host" 5 0 ]} []
             [mkWatcher $"db" 0 Watching] [] in
  match gc_round s [$"web"] 700 with
  | Some s' => ($"db" ∈ kicks s' ↔ being_watched s $"db" = true ∧ ($"db" ∉ [$"web"])
      ∧ (∀ n info, registeredNodes s !! n = Some info → root_of (nName info) = $"db" →
           (THRESHOLD_GC_ITEM <= 700 - LastAccessTime info)%Z))
  | None => False
  end.
Proof.
  intros s. destruct (gc_round s [$"web"] 700) as [s'|] eqn:E; [|vm_compute in E; discriminate].
  exact (proj2 (gc_round_spec s s' [$"web"] 700 $"db" E)).
Defined.

Lemma registered_roots_watched_witness :
  match wrun no_watches [WTouch $"db.host" 0; WStart 0 0] with
  | Some s => $"db" ∈ spawned s
      ∨ ∃ info w, watchList s !! $"db" = Some info ∧ wState info = 1%Z ∧ watchers s !! wChan info = Some w
          ∧ wt_name w = $"db" ∧ (wt_phase w = Watching ∨ WUnwatch (wChan info) ∈ [WTouch $"db.host" 0; WStart 0 0])
  | None => False
  end.
Proof.
  destruct (wrun no_watches [WTouch $"db.host" 0; WStart 0 0]) as [s|] eqn:E; [|vm_compute in E; discriminate].
  apply (proj1 (registered_roots_watched _ s E) $"db.host"). vm_compute in E. injection E as <-. vm_compute. eauto.
Defined.

Lemma unwatched_for_good_witness :
  match wrun no_watches [WTouch $"db.host" 0; WStart 0 0; WGc [] 1000; WKick] with
  | Some s =>
      match watchItem_unwatch s 0 with
      | Some s1 => being_watched s1 $"db" = true ∧ AddToWatchList s1 $"db" = (true, s1)
          ∧ ∀ j w, watchers s1 !! j = Some w → wt_name w = $"db" → wt_phase w = Syncing
      | None => False
      end
  | None => False
  end.
Proof.
  destruct (wrun no_watches [WTouch $"db.host" 0; WStart 0 0; WGc [] 1000; WKick]) as [s|] eqn:E;
    [|vm_compute in E; discriminate].
  destruct (watchItem_unwatch s 0) as [s1|] eqn:E1; [|vm_compute in E; injection E as <-; vm_compute in E1; discriminate].
  assert (watchers s = [mkWatcher $"db" 1 Watching] ∧ spawned s = []) as [Hw Hs]
    by (vm_compute in E; injection E as <-; split; reflexivity).
  pose proof (wrun_steps _ _ _ E) as Hr. clear E.
  apply (unwatched_for_good s s1 s1 0 $"db"); [exact Hr|exact E1|exists 1; rewrite Hw; reflexivity
    |rewrite Hs; apply not_elem_of_nil| |constructor].
  intros [|j] w Hj; rewrite Hw; [done|]. intros H. by destruct j.
Defined.
