(* ===== verification/Registry.v ===== *)
(** * Registered configurations on disk (configwatcher/zk_watcher.go)

    [SaveRegisteredNodesToDisk] writes the registered configurations as one JSON
    text under a key of the local database, [LoadRegisteredNodesFromDisk] reads
    them at the next start.  [registry_restart]: they survive a restart, except
    for the time of registration. *)

From S2P Require Import Prelude GoLib GoFmt Util Schema Json Marshal Storage ProjConfig Stats Watcher.

Definition KEY_NAME_OF_STORE_DYNAMIC_REG_CONF_NODES : str := $":dynamically_registered_config_nodes".

(** [json.Marshal] of the map: keys in order, the fields of a struct as
    declared. *)
Definition node_json (info : registeredNodeInfo) : json :=
  JObj [($"Name", JStr (nName info)); ($"LastAccessTime", JNum (Itoa (LastAccessTime info)));
        ($"RegTime", JNum (Itoa (RegTime info)))].
Definition registry_json (nodes : gmap str registeredNodeInfo) : json :=
  JObj (map (fun kv => (kv.1, node_json kv.2)) (sort_by (fun a b => str_leb a.1 b.1) (map_to_list nodes))).

(** The entries of a decoded Go map: of equal keys the last one counts. *)
Fixpoint go_map (l : list (str * json)) : list (str * json) :=
  match l with
  | [] => []
  | (k, v) :: l' => if existsb (fun kv => bool_decide (kv.1 = k)) l' then go_map l' else (k, v) :: go_map l'
  end.

Definition as_string (x : option json) : outcome str :=
  match x with Some (JStr s) => Done s | _ => assertion_panic end.

(** One entry of the stored text. *)
Definition load_node (s : watch_state) (kv : str * json) : outcome watch_state :=
  match kv.2 with
  | JObj info =>
      name ← as_string (member $"Name" info);
      t ← as_float (member $"LastAccessTime" info);
      let node := mkNode name (float_int t) (float_int t) in
      let node := match registeredNodes s !! kv.1 with
                  | Some oNode => if (LastAccessTime node <? LastAccessTime oNode)%Z
                                  then mkNode (nName node) (LastAccessTime oNode) (RegTime node) else node
                  | None => node
                  end in
      Done (AddToWatchList (setRegisterdNodeInfo s kv.1 node) (root_of kv.1)).2
  | _ => assertion_panic
  end.

Fixpoint load_nodes (s : watch_state) (l : list (str * json)) : outcome watch_state :=
  match l with
  | [] => Done s
  | kv :: rest => s ← load_node s kv; load_nodes s rest
  end.

Section registry.
Context {D : Type} `{!LocalDisk D}.

(** The [err] of [Put] is not the one that is tested. *)
Definition SaveRegisteredNodesToDisk (open_err : option error) (d : D) (nodes : gmap str registeredNodeInfo) : bool * D :=
  match open_err with
  | Some _ => (false, d)
  | None => (true, (disk_Put d KEY_NAME_OF_STORE_DYNAMIC_REG_CONF_NODES (Marshal (registry_json nodes))).2)
  end.

Definition LoadRegisteredNodesFromDisk (open_err : option error) (d : D) (s : watch_state)
    : outcome (bool * watch_state * D) :=
  match open_err with
  | Some _ => Done (false, s, d)
  | None =>
      match disk_Get d KEY_NAME_OF_STORE_DYNAMIC_REG_CONF_NODES with
      | (inl _, d) => Done (false, s, d)
      | (inr nodesB, d) =>
          match Unmarshal nodesB with
          | Some (JObj nodes) => s ← load_nodes s (go_map nodes); Done (true, s, d)
          | Some JNull => Done (true, s, d)
          | _ => Done (false, s, d)
          end
      end
  end.

(** [TouchDynamicNode] with the save of a new name. *)
Definition TouchDynamicNode (RunAsBi : bool) (open_err : option error) (d : D) (s : watch_state) (name : str) (now : Z)
    : bool * watch_state * D :=
  let '(hasBeenWatching, s, save) := touch RunAsBi s name now in
  (hasBeenWatching, s, if save then (SaveRegisteredNodesToDisk open_err d (registeredNodes s)).2 else d).

(** ** Lemmas *)

Lemma insert_by_perm {A} (le : A → A → bool) x l : insert_by le x l ≡ₚ x :: l.
Proof.
  induction l as [|y l IH]; simpl; [done|]. destruct (le x y); [done|]. rewrite IH. by constructor.
Qed.
Lemma sort_by_perm {A} (le : A → A → bool) l : sort_by le l ≡ₚ l.
Proof. induction l as [|x l IH]; simpl; [done|]. by rewrite insert_by_perm, IH. Qed.

Lemma go_map_nodup l : NoDup (map fst l) → go_map l = l.
Proof.
  induction l as [|[k v] l IH]; [done|]. intros [Hk Hl]%NoDup_cons. cbn [go_map].
  assert (existsb (λ kv, bool_decide (kv.1 = k)) l = false) as ->; [|by rewrite IH].
  apply not_true_is_false. intros ([k' v'] & Hin & Hb)%existsb_exists. bool_to_prop. simpl in Hb. subst.
  apply Hk, list_elem_of_In, in_map_iff. by exists (k, v').
Qed.

(** A node that survives: its name is its key and in UTF-8, its times fit. *)
Definition storable (n : str) (info : registeredNodeInfo) : Prop :=
  nName info = n ∧ valid_utf8 0 n = true ∧ (0 <= LastAccessTime info < 2 ^ 53)%Z ∧ (0 <= RegTime info < 2 ^ 63)%Z.

Definition restored (n : str) (info : registeredNodeInfo) : registeredNodeInfo :=
  mkNode n (LastAccessTime info) (LastAccessTime info).

Lemma node_json_ok n info :
  storable n info → encodable (node_json info) = true ∧ has_overflow (node_json info) = false.
Proof.
  intros (<- & Hv & Hl & Hr). cbn [node_json encodable forallb has_overflow existsb snd]. split.
  - rewrite Hv, !int_literal_Itoa by lia. done.
  - rewrite !overflows_Itoa by lia. done.
Qed.

Lemma registry_json_ok nodes :
  (∀ n info, nodes !! n = Some info → storable n info) →
  encodable (registry_json nodes) = true ∧ has_overflow (registry_json nodes) = false.
Proof.
  intros H.
  assert (∀ kv, kv ∈ sort_by (fun a b => str_leb a.1 b.1) (map_to_list nodes) → storable kv.1 kv.2) as Hs.
  { intros [n info] Hin. rewrite sort_by_perm in Hin. by apply H, elem_of_map_to_list. }
  unfold registry_json. cbn [encodable has_overflow].
  induction (sort_by _ (map_to_list nodes)) as [|kv l IH]; [done|]. cbn [map forallb existsb snd].
  destruct IH as [-> ->]; [intros; apply Hs; by right|].
  destruct (node_json_ok kv.1 kv.2) as [-> ->]; [apply Hs; left|].
  destruct (Hs kv) as (_ & -> & _); [left|]. done.
Qed.

Lemma load_node_ok s n info :
  storable n info → registeredNodes s !! n = None → winv s →
  ∃ s', load_node s (n, node_json info) = Done s' ∧ registeredNodes s' = <[n := restored n info]> (registeredNodes s)
    ∧ winv s'.
Proof.
  intros (Hn & _ & Hl & _) Hno Hi. unfold load_node, node_json. cbn [snd fst member].
  change (bool_decide ($"Name" = $"Name")) with true.
  change (bool_decide ($"RegTime" = $"Name")) with false. change (bool_decide ($"LastAccessTime" = $"Name")) with false.
  change (bool_decide ($"RegTime" = $"LastAccessTime")) with false.
  change (bool_decide ($"LastAccessTime" = $"LastAccessTime")) with true.
  cbn [as_string as_float mbind outcome_bind]. rewrite float_int_Itoa by done. rewrite Hno, Hn.
  eexists. split; [reflexivity|]. rewrite add_register. split.
  - cbn. unfold restored. unfold AddToWatchList. by destruct (being_watched s _).
  - destruct (winv_add s (root_of n) Hi) as [Hi' Hw]. by apply winv_register.
Qed.

Lemma load_nodes_ok l s :
  Forall (fun kv => storable kv.1 kv.2) l → NoDup (map fst l) → (∀ kv, kv ∈ l → registeredNodes s !! kv.1 = None) → winv s →
  ∃ s', load_nodes s (map (fun kv => (kv.1, node_json kv.2)) l) = Done s' ∧ winv s'
    ∧ ∀ n, registeredNodes s' !! n =
        match (list_to_map l : gmap str registeredNodeInfo) !! n with
        | Some info => Some (restored n info)
        | None => registeredNodes s !! n
        end.
Proof.
  intros Hs. revert s. induction Hs as [|[n info] l Hn Hs IH]; intros s Hnd Hno Hi; cbn [map load_nodes].
  { exists s. split_and!; [done|done|]. intros n. cbn. by rewrite lookup_empty. }
  apply NoDup_cons in Hnd as [Hn1 Hnd]. cbn [fst snd] in *.
  destruct (load_node_ok s n info Hn (Hno (n, info) ltac:(left)) Hi) as (s1 & -> & Hr1 & Hi1). cbn [mbind outcome_bind].
  destruct (IH s1 Hnd) as (s' & -> & Hi' & Hr'); [|done|].
  { intros kv Hkv. rewrite Hr1, lookup_insert_ne; [apply Hno; by right|]. intros ->. apply Hn1. by apply list_elem_of_fmap_2. }
  exists s'. split_and!; [done|done|]. intros k. rewrite Hr', Hr1. cbn [list_to_map foldr].
  destruct (decide (n = k)) as [<-|Hne].
  - rewrite lookup_insert_eq. assert ((list_to_map l : gmap str registeredNodeInfo) !! n = None) as ->.
    { by apply not_elem_of_list_to_map_1. }
    cbn. by rewrite lookup_insert_eq.
  - cbn. by rewrite !lookup_insert_ne.
Qed.

(** C27.  Registered configurations survive a restart: what [SaveRegisteredNodesToDisk]
    stored is loaded into the fresh process by [LoadRegisteredNodesFromDisk], with
    the names and the times of the last access (the time of registration becomes
    the time of the last access), and the root of every one is watched or about to
    be. *)
Theorem registry_restart (d : D) (nodes : gmap str registeredNodeInfo) :
  healthy d → (disk_Put d KEY_NAME_OF_STORE_DYNAMIC_REG_CONF_NODES (Marshal (registry_json nodes))).1 = None →
  (∀ n info, nodes !! n = Some info → storable n info) →
  let d' := (SaveRegisteredNodesToDisk None d nodes).2 in
  ∃ s, LoadRegisteredNodesFromDisk None d' no_watches = Done (true, s, d')
    ∧ (∀ n, registeredNodes s !! n = restored n <$> nodes !! n)
    ∧ ∀ n, is_Some (nodes !! n) → being_watched s (root_of n) = true ∨ root_of n ∈ spawned s.
Proof.
  intros Hh Hp Hs d'. unfold SaveRegisteredNodesToDisk in d'. cbn [snd] in d'.
  destruct (disk_Put d _ _) as [e d1] eqn:E; cbn in Hp, d'; subst e d'.
  destruct (disk_Put_Get _ _ _ _ Hh E) as (_ & Hg & _). unfold LoadRegisteredNodesFromDisk. rewrite Hg.
  destruct (registry_json_ok nodes Hs) as [He Ho]. rewrite Unmarshal_Marshal by done. unfold registry_json.
  set (l := sort_by (fun a b => str_leb a.1 b.1) (map_to_list nodes)).
  assert (l ≡ₚ map_to_list nodes) as Hl by apply sort_by_perm.
  assert (NoDup (map fst l)) as Hnd by (rewrite Hl; apply NoDup_fst_map_to_list).
  rewrite go_map_nodup by by rewrite map_map.
  destruct (load_nodes_ok l no_watches) as (s & -> & Hi & Hr); [|done|done|by apply winv_reachable; constructor|].
  { apply Forall_forall. intros [n info] Hin. rewrite Hl in Hin. by apply Hs, elem_of_map_to_list. }
  cbn [mbind outcome_bind]. exists s. split; [done|].
  assert (∀ n, registeredNodes s !! n = restored n <$> nodes !! n) as Hall.
  { intros n. rewrite Hr. rewrite (list_to_map_proper l (map_to_list nodes)) by done. rewrite list_to_map_to_list.
    by destruct (nodes !! n). }
  split; [done|]. intros n [info Hn]. apply (proj1 (proj2 Hi) n (restored n info)). by rewrite Hall, Hn.
Qed.

End registry.

Lemma registry_restart_witness :
  let nodes := {[ $"db.host" := mkNode $"db.host" 1700000000 1600000000; $"web" := mkNode $"web" 7 7 ]} in
  let d' := (SaveRegisteredNodesToDisk None (∅ : gmap str str) nodes).2 in
  ∃ s, LoadRegisteredNodesFromDisk None d' no_watches = Done (true, s, d')
    ∧ (∀ n, registeredNodes s !! n = restored n <$> nodes !! n)
    ∧ ∀ n, is_Some (nodes !! n) → being_watched s (root_of n) = true ∨ root_of n ∈ spawned s.
Proof.
  intros nodes d'. apply (registry_restart (∅ : gmap str str) nodes); [exact I|reflexivity|].
  intros n info. unfold nodes. rewrite lookup_insert_Some, lookup_singleton_Some.
  intros [[<- <-]|[_ [<- <-]]]; (split; [reflexivity|split; [reflexivity|cbn; lia]]).
Defined.
