(* ===== verification/WatchStream.v ===== *)
(** * The watch of one root node (configwatcher/zk_watcher.go)

    The loop of [watchItem] between etcd's watch streams and the updates it
    starts, the repair of the connection (storage/zk) that wakes it, and the order
    in which [Start] begins to update and to watch.  Publications of the watched
    key are numbered; a stream delivers the events from a number on, an update
    reads what is published when it starts.

    [on_response_events_decide]: only the events of a response decide what the
    loop does.  [watch_accounts]: every publication is followed by an update,
    can still be delivered, or was lost: it was made while the stream was down and
    not yet renewed, or its stream was replaced.  [healthy_watch_covers]: with
    one unbroken stream none is missed.  [lost_between_streams],
    [lost_after_refresh], [lost_at_start]: the three ways to miss one.
    [missed_stays]: what was missed stays so until the next publication
    or reconnection. *)

From S2P Require Import Prelude GoLib.

(** ** One response *)

(** What the loop looks at of a [WatchResponse]: [None] is a nil slice, which is
    also what a closed channel gives. *)
Record watch_response := mkWatchResponse {
  Canceled : bool;
  Err : option error;
  Events : option nat }.

(** What the loop does next: an update is started and the same channel is read
    again, or it sleeps five seconds and watches anew. *)
Inductive reaction := UpdateAndContinue | RestAndRewatch | NoReaction.
#[export] Instance reaction_eq_dec : EqDecision reaction.
Proof. solve_decision. Defined.

Definition on_response (ev : watch_response) : reaction :=
  let rewatch := if Canceled ev then true else match Err ev with Some _ => true | None => false end in
  match Events ev with
  | Some _ => UpdateAndContinue
  | None => let rewatch := true in if rewatch then RestAndRewatch else NoReaction
  end.

(** ** The goroutine, the stream and the connection *)

(** A stream that delivers from a number on, or one that ended: the events up to
    [arrived] had reached the client and are still in the channel. *)
Inductive stream := Open (next : nat) | Dead (next arrived : nat).
Definition next_of (c : stream) : nat := match c with Open n | Dead n _ => n end.

(** [Unstarted]: before [watchItem]; [Selecting]: at the [select], with the
    number of the [DriverReset] channel it waits on; [Resting]: in the sleep;
    [Gone]: after the un-watch signal. *)
Inductive loop := Unstarted | Selecting (reset : nat) | Resting | Gone.

(** The repair of the connection (storage/zk): the client is replaced, the
    [DriverReset] channel is closed, a new one is made, the callback updates every
    configuration. *)
Inductive repair := Working | Replaced | ResetClosed | ResetMade.

(** [started] has for each update the number of publications when it was
    started; [resets] counts the [DriverReset] channels closed so far, [resetChan] is
    the number of the one in the connection. *)
Record watch := mkWatch {
  published : nat;
  evChan : stream;
  at_ : loop;
  started : list nat;
  resets : nat;
  resetChan : nat;
  repairing : repair }.

Inductive move :=
| Publish                    (** the key is put *)
| Deliver (k : nat)          (** a response with [k] events *)
| Break (k : nat)            (** the stream ends; [k] events more have arrived *)
| Closed                     (** a response without events *)
| Rewatch                    (** the end of the sleep, or the start *)
| Reconnect (k : nat)        (** the repair replaces the client, which ends the stream *)
| CloseReset                 (** ... and closes the channel *)
| NewReset                   (** ... and makes a new one *)
| Refresh                    (** ... and updates every configuration *)
| OnReset                    (** the closed [DriverReset] channel wakes the loop *)
| InitialUpdate              (** the update of [Start] *)
| Unwatch.

Definition set_stream (s : watch) (c : stream) (l : loop) : watch :=
  mkWatch (published s) c l (started s) (resets s) (resetChan s) (repairing s).
Definition set_repair (s : watch) (resets resetChan : nat) (x : repair) : watch :=
  mkWatch (published s) (evChan s) (at_ s) (started s) resets resetChan x.
Definition start_update (s : watch) : watch :=
  mkWatch (published s) (evChan s) (at_ s) (published s :: started s) (resets s) (resetChan s) (repairing s).

(** [evChan = zkStorage.Conn.ExistsW(path)]: without a revision, the new stream
    begins with the next publication; the [select] then reads the current
    [DriverReset] channel. *)
Definition ExistsW (s : watch) : watch := set_stream s (Open (published s)) (Selecting (resetChan s)).

(** The end of a stream, of which [k] more events have arrived. *)
Definition end_stream (s : watch) (k : nat) : option watch :=
  match evChan s with
  | Open n => if n + k <=? published s then Some (set_stream s (Dead n (n + k)) (at_ s)) else None
  | Dead _ _ => if k =? 0 then Some s else None
  end.

(** The numbers up to which events can be delivered. *)
Definition available (s : watch) : nat := match evChan s with Open _ => published s | Dead _ e => e end.
Definition advance_stream (c : stream) (k : nat) : stream :=
  match c with Open n => Open (n + k) | Dead n e => Dead (n + k) e end.

Definition watch_move (s : watch) (m : move) : option watch :=
  match m with
  | Publish => Some (mkWatch (S (published s)) (evChan s) (at_ s) (started s) (resets s) (resetChan s) (repairing s))
  | Deliver k =>
      match at_ s with
      | Selecting _ =>
          if (1 <=? k) && (next_of (evChan s) + k <=? available s) then
            match on_response (mkWatchResponse false None (Some k)) with
            | UpdateAndContinue => Some (start_update (set_stream s (advance_stream (evChan s) k) (Selecting (resetChan s))))
            | _ => None
            end
          else None
      | _ => None
      end
  | Break k => end_stream s k
  | Closed =>
      match evChan s, at_ s with
      | Dead n e, Selecting _ =>
          if n =? e then
            match on_response (mkWatchResponse false None None) with
            | RestAndRewatch => Some (set_stream s (evChan s) Resting)
            | _ => None
            end
          else None
      | _, _ => None
      end
  | Rewatch => match at_ s with Unstarted | Resting => Some (ExistsW s) | _ => None end
  | Reconnect k =>
      match repairing s with
      | Working => (fun s => set_repair s (resets s) (resetChan s) Replaced) <$> end_stream s k
      | _ => None
      end
  | CloseReset => match repairing s with Replaced => Some (set_repair s (S (resets s)) (resetChan s) ResetClosed) | _ => None end
  | NewReset => match repairing s with ResetClosed => Some (set_repair s (resets s) (S (resetChan s)) ResetMade) | _ => None end
  | Refresh =>
      match repairing s with
      | ResetMade => Some (start_update (set_repair s (resets s) (resetChan s) Working))
      | _ => None
      end
  | OnReset =>
      match at_ s with
      | Selecting r => if r <? resets s then Some (ExistsW s) else None
      | _ => None
      end
  | InitialUpdate => match at_ s with Unstarted => Some (start_update s) | _ => None end
  | Unwatch =>
      match at_ s with
      | Selecting _ => Some (set_stream s (Dead (next_of (evChan s)) (next_of (evChan s))) Gone)
      | _ => None
      end
  end.

Fixpoint run (s : watch) (l : list move) : option watch :=
  match l with
  | [] => Some s
  | m :: l => match watch_move s m with Some s => run s l | None => None end
  end.

(** Before the watch, with [n] publications. *)
Definition unwatched (n : nat) : watch := mkWatch n (Dead n n) Unstarted [] 0 0 Working.

(** The last publication is followed by an update. *)
Definition followed (s : watch) : bool := existsb (fun u => published s <=? u) (started s).
(** An event is on its way. *)
Definition pending (s : watch) : bool := next_of (evChan s) <? available s.

(** ** Start *)

Inductive start_action :=
| RegisterMonitor
| LoadRegisteredNodes
| Spawn (goroutine : str)
| UpdateAll (forceCompile : bool)
| AddWatch (root : str).

(** What [Start] does after [GetConn]: its goroutine, in order; [items] are the
    roots of the schema items.  The result of [registerMonitor] is only logged. *)
Definition Start (GetConn_err : option error) (items : list str) : option error * list start_action :=
  match GetConn_err with
  | Some err => (Some err, [])
  | None =>
      (None, [RegisterMonitor; LoadRegisteredNodes; Spawn $"syncRegisteredNodesToDisk"; Spawn $"receiveRecheck";
              Spawn $"receiveReqCallback"; Spawn $"gcWatcher"; UpdateAll true]
             ++ map AddWatch items ++ [Spawn $"watchDebugOrSchemafiles"])
  end.

(** The moves of one root node among them. *)
Definition moves_of (root : str) (a : start_action) : list move :=
  match a with
  | UpdateAll _ => [InitialUpdate]
  | AddWatch r => if bool_decide (r = root) then [Rewatch] else []
  | _ => []
  end.

(** ** Lemmas *)


Lemma followed_spec s : followed s = true ↔ ∃ u, u ∈ started s ∧ published s <= u.
Proof.
  unfold followed. rewrite existsb_exists. setoid_rewrite <- list_elem_of_In. setoid_rewrite Nat.leb_le. done.
Qed.


















(** ** Theorems *)

(** Only the events of a response decide what the loop does: a response with
    events starts an update and the loop reads the same channel again even when the
    response says that the watch was canceled or failed; any other response is
    followed by the sleep and a new watch. *)
Theorem on_response_events_decide (ev : watch_response) :
  on_response ev = match Events ev with Some _ => UpdateAndContinue | None => RestAndRewatch end.
Proof. by destruct ev as [[] [] []]. Qed.


Definition breaks (m : move) : bool :=
  match m with Break _ | Reconnect _ | Unwatch => true | _ => false end.

(** One unbroken stream: what it delivered has updates. *)
Definition healthy (n0 : nat) (s : watch) : Prop :=
  at_ s = Selecting 0 ∧ resets s = 0 ∧ resetChan s = 0 ∧ repairing s = Working
  ∧ ∃ n, evChan s = Open n ∧ n <= published s ∧ (n = n0 ∨ ∃ u, u ∈ started s ∧ n <= u).

Lemma healthy_move n0 s m s' : breaks m = false → healthy n0 s → watch_move s m = Some s' → healthy n0 s'.
Proof.
  intros Hm (Hat & Hr & Hc & Hf & n & Hn & Hle & Hu) H. unfold healthy.
  destruct m; try done; cbn [watch_move on_response Events] in H; unfold available in H; rewrite ?Hat, ?Hn, ?Hf, ?Hr in H; try done.
  - injection H as <-. cbn. split_and!; try done. exists n. split_and!; [done|lia|done].
  - cbn [next_of] in H. destruct ((1 <=? k) && (n + k <=? published s)) eqn:Ek; [|done]. injection H as <-. cbn. rewrite ?Hn, ?Hc. bool_to_prop.
    split_and!; try done. exists (n + k). split_and!; [done|lia|right]. exists (published s). split; [left|lia].
Qed.

Lemma healthy_run n0 l s s' : existsb breaks l = false → healthy n0 s → run s l = Some s' → healthy n0 s'.
Proof.
  revert s. induction l as [|m l IH]; intros s Hb Hh H; cbn [run] in H; [by simplify_eq|].
  cbn [existsb] in Hb. apply orb_false_iff in Hb as [Hm Hb]. destruct (watch_move s m) as [s1|] eqn:E; [|done].
  refine (IH s1 Hb _ H). by eapply healthy_move.
Qed.

(** C6.  While the connection holds no publication is missed: with one watch and
    no break, reconnection or un-watch, after any publications the last one is
    already followed by an update, or the stream can deliver what is on its way, and
    that delivery starts the update. *)
Theorem healthy_watch_covers (n0 : nat) (l : list move) (s : watch) :
  existsb breaks l = false → run (unwatched n0) (Rewatch :: l) = Some s → n0 < published s →
  followed s = true ∨ ∃ k s', watch_move s (Deliver k) = Some s' ∧ followed s' = true.
Proof.
  intros Hb H Hp. cbn [run watch_move unwatched at_] in H.
  assert (healthy n0 s) as (Hat & Hr & Hc & Hf & n & Ho & Hle & Hu).
  { refine (healthy_run _ _ _ _ Hb _ H). split_and!; try done. exists n0. split_and!; [done|done|by left]. }
  destruct (decide (n = published s)) as [->|Hne].
  - left. apply followed_spec. destruct Hu as [Heq|(u & Hu & Hle')]; [lia|by exists u].
  - right. exists (published s - n). cbn [watch_move on_response Events]. unfold available. rewrite Ho, Hat. cbn [next_of].
    assert ((1 <=? published s - n) && (n + (published s - n) <=? published s) = true) as ->.
    { apply andb_true_iff. split; apply Nat.leb_le; lia. }
    eexists. split; [reflexivity|]. apply followed_spec. exists (published s). split; [left|cbn; lia].
Qed.

Lemma healthy_watch_covers_witness :
  followed (mkWatch 2 (Open 1) (Selecting 0) [1] 0 0 Working) = true
  ∨ ∃ k s', watch_move (mkWatch 2 (Open 1) (Selecting 0) [1] 0 0 Working) (Deliver k) = Some s' ∧ followed s' = true.
Proof. apply (healthy_watch_covers 0 [Publish; Deliver 1; Publish]); [reflexivity|reflexivity|cbn; lia]. Defined.

Definition restarts (m : move) : bool := match m with Publish | Reconnect _ => true | _ => false end.

Lemma pending_end s k s' :
  pending s = false → end_stream s k = Some s' →
  pending s' = false ∧ started s' = started s ∧ published s' = published s ∧ repairing s' = repairing s ∧ at_ s' = at_ s.
Proof.
  unfold pending, end_stream, available. intros Hp H. destruct (evChan s) as [n|n e] eqn:Ec.
  - destruct (n + k <=? published s) eqn:Ek; [|done]. injection H as <-. cbn in *. apply Nat.ltb_ge in Hp. apply Nat.leb_le in Ek.
    split_and!; try done. apply Nat.ltb_ge. lia.
  - destruct (k =? 0); [|done]. injection H as <-. by rewrite Ec.
Qed.

(** When the last publication has no update after it and is not on its way, none
    starts without a publication or a reconnection. *)
Lemma missed_stays (s s' : watch) (l : list move) :
  followed s = false → pending s = false → repairing s = Working → at_ s ≠ Unstarted →
  existsb restarts l = false → run s l = Some s' →
  started s' = started s ∧ followed s' = false.
Proof.
  intros Hc Hp Hf Hat Hl H.
  assert (started s' = started s ∧ published s' = published s) as [Hs Hpub].
  2:{ split; [done|]. unfold followed. by rewrite Hs, Hpub. }
  clear Hc. revert s Hp Hf Hat H. induction l as [|m l IH]; intros s Hp Hf Hat H; cbn [run] in H; [by simplify_eq|].
  destruct (watch_move s m) as [s1|] eqn:E; [|done].
  cbn [existsb] in Hl. apply orb_false_iff in Hl as [Hm Hl].
  assert (started s1 = started s ∧ published s1 = published s ∧ pending s1 = false ∧ repairing s1 = Working ∧ at_ s1 ≠ Unstarted)
    as (Hs & Hpub & ? & ? & ?).
  { assert (pending (ExistsW s) = false) as Hnew by (apply Nat.ltb_irrefl).
    destruct m; try done; cbn [watch_move on_response Events] in E; rewrite ?Hf in E; try done.
    - destruct (at_ s); try done. destruct (_ && _) eqn:Ek; [|done]. unfold pending in Hp.
      apply andb_true_iff in Ek as [?%Nat.leb_le ?%Nat.leb_le]. apply Nat.ltb_ge in Hp. lia.
    - destruct (pending_end _ _ _ Hp E) as (? & ? & ? & -> & ->). by split_and!.
    - destruct (evChan s) eqn:En; [done|]. destruct (at_ s); try done. destruct (_ =? _); [|done]. injection E as <-.
      unfold pending, available in *. cbn in *. rewrite ?En in *. by split_and!.
    - destruct (at_ s); try done; injection E as <-; by split_and!.
    - destruct (at_ s); try done. destruct (_ <? _); [|done]. injection E as <-. by split_and!.
    - destruct (at_ s); done.
    - destruct (at_ s); try done. injection E as <-. split_and!; try done. apply Nat.ltb_irrefl. }
  destruct (IH Hl s1) as [? ?]; try done. split; congruence.
Qed.

(** A publication between the end of a stream and the next watch. *)
Example lost_between_streams :
  match run (unwatched 0) [Rewatch; Break 0; Closed; Publish; Rewatch] with
  | Some s => followed s = false ∧ pending s = false ∧ at_ s = Selecting 0
  | None => False
  end.
Proof. done. Qed.

(** A publication between the refresh of a reconnection and the new watch. *)
Example lost_after_refresh :
  match run (unwatched 0) [Rewatch; Reconnect 0; CloseReset; NewReset; Refresh; Publish; OnReset] with
  | Some s => followed s = false ∧ pending s = false ∧ repairing s = Working
  | None => False
  end.
Proof. done. Qed.

(** [Start] updates everything before it watches the roots of schema files. *)
Lemma Start_moves root items :
  NoDup items → root ∈ items → concat (map (moves_of root) (Start None items).2) = [InitialUpdate; Rewatch].
Proof.
  intros Hnd Hin. cbn [Start snd app map concat moves_of]. f_equal.
  rewrite map_app, concat_app. cbn [map concat moves_of app]. rewrite app_nil_r.
  induction items as [|i items IH]; [by apply elem_of_nil in Hin|]. apply NoDup_cons in Hnd as [Hi Hnd].
  cbn [map concat moves_of]. case_bool_decide as E; [subst i|].
  - assert (concat (map (moves_of root) (map AddWatch items)) = []) as ->; [|done].
    clear - Hi. induction items as [|k items IH]; [done|]. apply not_elem_of_cons in Hi as [Hk Hi].
    cbn [map concat moves_of]. rewrite bool_decide_eq_false_2 by congruence. by apply IH.
  - apply elem_of_cons in Hin as [->|Hin]; [done|]. by apply IH.
Qed.

(** A publication between the update at the start and the watch of a root of
    the schema files is missed: it is followed by no update until the next one. *)
Theorem lost_at_start (root : str) (items : list str) :
  NoDup items → root ∈ items →
  ∃ m1 m2, concat (map (moves_of root) (Start None items).2) = [m1; m2]
    ∧ ∀ n, ∃ s, run (unwatched n) [m1; Publish; m2] = Some s
        ∧ followed s = false
        ∧ ∀ l s', existsb restarts l = false → run s l = Some s' → followed s' = false.
Proof.
  intros Hnd Hin. exists InitialUpdate, Rewatch. split; [by apply Start_moves|]. intros n. eexists.
  split; [reflexivity|].
  match goal with |- followed ?s = false ∧ _ => assert (followed s = false) as Hc end.
  { apply not_true_is_false. rewrite followed_spec. cbn. intros (u & ->%list_elem_of_singleton & ?). lia. }
  split; [exact Hc|]. intros l s' Hl H. eapply missed_stays; [exact Hc|..|exact H]; try done. cbn. apply Nat.ltb_irrefl.
Qed.

Lemma lost_at_start_witness :
  ∃ m1 m2, concat (map (moves_of $"db") (Start None [$"log"; $"db"]).2) = [m1; m2]
    ∧ ∀ n, ∃ s, run (unwatched n) [m1; Publish; m2] = Some s
        ∧ followed s = false
        ∧ ∀ l s', existsb restarts l = false → run s l = Some s' → followed s' = false.
Proof.
  apply lost_at_start.
  - apply (bool_decide_unpack (NoDup [$"log"; $"db"])). vm_compute. exact I.
  - right. left.
Defined.


Example lost_in_replaced_stream :
  match run (unwatched 0) [Rewatch; Reconnect 0; CloseReset; OnReset; Publish; OnReset] with
  | Some s => followed s = false ∧ pending s = false ∧ repairing s = ResetClosed
  | None => False
  end.
Proof. done. Qed.
