(* ===== verification/SharedMap.v ===== *)
(** * Go maps shared by goroutines (configwatcher/zk_watcher.go, storage/mem.go)

    The accessors of [registeredNodes], [watchList], [memCachedProjectConfigs] and
    [rawConfig] as the statements they consist of: sends and receives on a channel of
    one place, which is the lock of a map, and accesses of the map.  A write has a
    beginning and an end, and Go's runtime ends the process when it finds a write
    in progress.

    [locked_linearizable]: the accessors of the first three maps refine one map
    changed by one operation at a time.  [range_crashes], [raw_writes_crash]: a range
    over [getAllRegisteredNodeInfo] beside a registration, and two first requests
    that save raw texts, can end the process. *)

From S2P Require Import Prelude GoLib Watcher.

(** ** Statements and goroutines *)

Inductive stmt (V : Type) :=
| Lock
| Unlock
| Read (k : str)
| Write (k : str) (v : V)
| Delete (k : str)
| Take
| Next.
Arguments Lock {V}.
Arguments Unlock {V}.
Arguments Read {V} k.
Arguments Write {V} k v.
Arguments Delete {V} k.
(** [m := theMap], which copies the reference, and one iteration of a range. *)
Arguments Take {V}.
Arguments Next {V}.

(** What is left to do, whether the write at its head has begun, and the result of
    the last read. *)
Record thread (V : Type) := mkThread { todo : list (stmt V); midWrite : bool; result : option V }.
Arguments mkThread {V} todo midWrite result.
Arguments todo {V} t.
Arguments midWrite {V} t.
Arguments result {V} t.

(** [writing] is the runtime's mark on the map, [crashed] the end of the process;
    [log] lists the goroutines in the order in which their accesses took effect, with
    the results. *)
Record shared (V : Type) := mkShared {
  contents : gmap str V;
  lock : bool;
  writing : bool;
  crashed : bool;
  threads : list (thread V);
  log : list (nat * option V) }.
Arguments mkShared {V} contents lock writing crashed threads log.
Arguments contents {V} s.
Arguments lock {V} s.
Arguments writing {V} s.
Arguments crashed {V} s.
Arguments threads {V} s.
Arguments log {V} s.

Section shared.
Context {V : Type}.
Implicit Types (s : shared V) (m : gmap str V) (st : stmt V) (t : thread V).

(** The contents and the result of an access. *)
Definition effect st m : gmap str V * option V :=
  match st with
  | Read k => (m, m !! k)
  | Write k v => (<[k := v]> m, None)
  | Delete k => (delete k m, None)
  | _ => (m, None)
  end.
Definition writes st : bool := match st with Write _ _ | Delete _ => true | _ => false end.
Definition accesses st : bool := match st with Read _ | Write _ _ | Delete _ => true | _ => false end.

Definition goto s (i : nat) (t : thread V) (lk wr : bool) : shared V :=
  mkShared (contents s) lk wr (crashed s) (<[i := t]> (threads s)) (log s).
Definition crash s : shared V := mkShared (contents s) (lock s) (writing s) true (threads s) (log s).

(** The access at the head takes effect. *)
Definition perform s (i : nat) (st : stmt V) (rest : list (stmt V)) : shared V :=
  let '(m, r) := effect st (contents s) in
  mkShared m (lock s) false (crashed s) (<[i := mkThread rest false r]> (threads s)) (log s ++ [(i, r)]).

(** One step of goroutine [i]; [None] when it waits, is done, or the process has
    ended. *)
Definition access s (i : nat) : option (shared V) :=
  if crashed s then None
  else
    match threads s !! i with
    | None | Some (mkThread [] _ _) => None
    | Some (mkThread (st :: rest) mid r) =>
        match st with
        | Lock => if lock s then None else Some (goto s i (mkThread rest false r) true (writing s))
        | Unlock => if lock s then Some (goto s i (mkThread rest false r) false (writing s)) else None
        | Take => Some (goto s i (mkThread rest false r) (lock s) (writing s))
        | Next => Some (if writing s then crash s else goto s i (mkThread rest false r) (lock s) (writing s))
        | Read _ => Some (if writing s then crash s else perform s i st rest)
        | Write _ _ | Delete _ =>
            Some (if mid then perform s i st rest
                  else if writing s then crash s
                  else goto s i (mkThread (st :: rest) true r) (lock s) true)
        end
    end.

Definition astep s s' : Prop := ∃ i, access s i = Some s'.

Definition shared_init m (programs : list (list (stmt V))) : shared V :=
  mkShared m false false false (map (fun p => mkThread p false None) programs) [].

Fixpoint schedule s (l : list nat) : option (shared V) :=
  match l with [] => Some s | i :: l => s' ← access s i; schedule s' l end.

Lemma schedule_steps s s' (l : list nat) : schedule s l = Some s' → steps astep s s'.
Proof.
  revert s. induction l as [|i l IH]; intros s H; cbn [schedule] in H; [injection H as <-; constructor|].
  destruct (access s i) as [s1|] eqn:E; [|done]. eapply steps_one; [by exists i|by apply IH].
Qed.
End shared.

(** ** The specification *)

(** The accessors of a map: what a goroutine executes for a call, and what the call
    means on a map that nobody else uses. *)
Class Accessor (A V : Type) := {
  code : A → list (stmt V);
  meaning_of : A → gmap str V → gmap str V * option V }.

(** A lock around one access that means what the call means. *)
Class Locked (A V : Type) `{!Accessor A V} :=
  locked (a : A) : ∃ st : stmt V, code a = [Lock; st; Unlock] ∧ accesses st = true ∧ ∀ m, meaning_of a m = effect st m.

Section linearizable.
Context {A V : Type} `{Acc : !Accessor A V}.
Implicit Types (s : shared V) (m : gmap str V) (calls : list A).

(** The calls of a log, one after the other on one map. *)
Definition call_effect calls m (x : nat * option V) : gmap str V :=
  match calls !! x.1 with Some a => (meaning_of a m).1 | None => m end.
Definition replay calls m (l : list (nat * option V)) : gmap str V := fold_left (call_effect calls) l m.
Definition replays calls m (l : list (nat * option V)) : Prop :=
  ∀ l1 i r l2, l = l1 ++ (i, r) :: l2 → ∃ a, calls !! i = Some a ∧ r = (meaning_of a (replay calls m l1)).2.

(** The log is one order of the calls that have taken effect, each once and not
    before it began; the map and the results are those of that order, and a call that
    has returned is in it with its result. *)
Definition linearized calls m0 s : Prop :=
  crashed s = false ∧ NoDup (log s).*1
  ∧ contents s = replay calls m0 (log s) ∧ replays calls m0 (log s)
  ∧ ∀ i a t, calls !! i = Some a → threads s !! i = Some t →
      (t = mkThread (code a) false None → i ∉ (log s).*1) ∧ (todo t = [] → (i, result t) ∈ log s).

(** ** The invariant *)

Definition holds (t : thread V) : bool := match todo t with [_] | [_; _] => true | _ => false end.
Definition logged (t : thread V) : bool := match todo t with [_] | [] => true | _ => false end.

Definition thread_ok (a : A) (t : thread V) : Prop :=
  ∃ st, code a = [Lock; st; Unlock] ∧ accesses st = true ∧ (∀ m, meaning_of a m = effect st m)
    ∧ (t = mkThread [Lock; st; Unlock] false None
       ∨ (∃ mid, t = mkThread [st; Unlock] mid None ∧ (mid = true → writes st = true))
       ∨ ∃ r, t = mkThread [Unlock] false r ∨ t = mkThread [] false r).

Definition linv calls m0 s : Prop :=
  crashed s = false
  ∧ count holds (threads s) = b2n (lock s)
  ∧ count midWrite (threads s) = b2n (writing s)
  ∧ Forall2 thread_ok calls (threads s)
  ∧ (NoDup (log s).*1 ∧ contents s = replay calls m0 (log s) ∧ replays calls m0 (log s))
  ∧ ∀ i t, threads s !! i = Some t → if logged t then (i, result t) ∈ log s else i ∉ (log s).*1.

Lemma mid_holds calls l : Forall2 thread_ok calls l → Forall (fun t => midWrite t = true → holds t = true) l.
Proof.
  induction 1 as [|a t calls l (st & _ & _ & _ & Ht) _ IH]; constructor; [|done].
  by destruct Ht as [-> |[(mid & -> & _)|(r & [-> | ->])]].
Qed.

(** The holder of the lock finds no write in progress but its own. *)
Lemma holder_alone calls m0 s i t :
  linv calls m0 s → threads s !! i = Some t → holds t = true → lock s = true ∧ writing s = midWrite t.
Proof.
  intros (_ & Hh & Hi & Hok & _) Ht Hho. apply mid_holds in Hok.
  pose proof (count_insert holds _ _ _ (mkThread [] false None) Ht) as H1.
  pose proof (count_insert midWrite _ _ _ (mkThread [] false None) Ht) as H2.
  pose proof (count_imp midWrite holds (<[i := mkThread [] false None]> (threads s))) as Hle.
  assert (Forall (fun t => midWrite t = true → holds t = true) (<[i := mkThread [] false None]> (threads s))) as Hf
    by by apply Forall_insert.
  specialize (Hle Hf). rewrite Hho in H1. cbn in H1, H2.
  destruct (lock s), (writing s), (midWrite t); cbn in *; (done || lia).
Qed.

(** A step of a goroutine that leaves the map alone. *)
Lemma linv_goto calls m0 s i a t t' lk wr :
  linv calls m0 s → calls !! i = Some a → threads s !! i = Some t → thread_ok a t' →
  b2n lk + b2n (holds t) = b2n (lock s) + b2n (holds t') →
  b2n wr + b2n (midWrite t) = b2n (writing s) + b2n (midWrite t') →
  logged t' = logged t → result t' = result t → linv calls m0 (goto s i t' lk wr).
Proof.
  intros (Hc & Hh & Hi & Hok & Hlin & Hlog) Ha Ht Hok' H1 H2 Hl Hr.
  pose proof (count_insert holds _ _ _ t' Ht) as E1. pose proof (count_insert midWrite _ _ _ t' Ht) as E2.
  destruct Hlin as (L1 & L2 & L3). split_and!; cbn; [done|lia|lia| |done|done|done|].
  - rewrite <- (list_insert_id calls i a Ha). by apply Forall2_insert.
  - intros j x Hx. destruct (decide (i = j)) as [<-|Hne].
    + rewrite list_lookup_insert_eq in Hx by by eapply lookup_lt_Some. injection Hx as <-.
      rewrite Hl, Hr. by apply Hlog.
    + rewrite list_lookup_insert_ne in Hx by done. by apply Hlog.
Qed.

(** An access takes effect. *)
Lemma linv_perform calls m0 s i a st mid :
  linv calls m0 s → calls !! i = Some a → threads s !! i = Some (mkThread [st; Unlock] mid None) →
  code a = [Lock; st; Unlock] → accesses st = true → (∀ m, meaning_of a m = effect st m) →
  linv calls m0 (perform s i st [Unlock]).
Proof.
  intros Hinv Ha Ht Hcode Hacc Hm. destruct (holder_alone _ _ _ _ _ Hinv Ht eq_refl) as [Hlk Hwr].
  destruct Hinv as (Hc & Hh & Hi & Hok & (Hnd & Hco & Hr) & Hlog). unfold perform.
  destruct (effect st (contents s)) as [m' r] eqn:E.
  pose proof (count_insert holds _ _ _ (mkThread [Unlock] false r) Ht) as E1.
  pose proof (count_insert midWrite _ _ _ (mkThread [Unlock] false r) Ht) as E2. cbn in E1, E2, Hwr.
  rewrite Hwr in Hi. split_and!; cbn; [done|lia|lia| | | | |].
  - rewrite <- (list_insert_id calls i a Ha). apply Forall2_insert; [done|].
    exists st. split_and!; [done..|]. right; right. exists r. by left.
  - rewrite fmap_app. apply NoDup_app. split_and!; [done| |apply NoDup_singleton].
    intros x Hx ->%list_elem_of_singleton. by apply (Hlog _ _ Ht) in Hx.
  - unfold replay. rewrite fold_left_app. fold (replay calls m0 (log s)). rewrite <- Hco. cbn.
    unfold call_effect. cbn [fst]. by rewrite Ha, Hm, E.
  - intros l1 j r' l2 El. destruct l2 as [|x l2 _] using rev_ind.
    + apply app_inj_tail in El as [<- [= <- <-]]. exists a. split; [done|]. by rewrite <- Hco, Hm, E.
    + rewrite app_comm_cons, app_assoc in El. apply app_inj_tail in El as [El _]. by eapply Hr.
  - intros j x Hx. destruct (decide (i = j)) as [<-|Hne].
    + rewrite list_lookup_insert_eq in Hx by by eapply lookup_lt_Some. injection Hx as <-.
      cbn. apply elem_of_app. right. by left.
    + rewrite list_lookup_insert_ne in Hx by done. specialize (Hlog j x Hx).
      destruct (logged x); [apply elem_of_app; by left|]. rewrite fmap_app. intros [?|Hj]%elem_of_app; [done|].
      cbn in Hj. apply list_elem_of_singleton in Hj. congruence.
Qed.

Lemma linv_step calls m0 s s' : astep s s' → linv calls m0 s → linv calls m0 s'.
Proof.
  intros [i H] Hi. unfold access in H. rewrite (proj1 Hi) in H.
  destruct (threads s !! i) as [t|] eqn:Ht; [|done].
  destruct (Forall2_lookup_r _ _ _ _ _ (proj1 (proj2 (proj2 (proj2 Hi)))) Ht) as (a & Ha & st & Hcode & Hacc & Hm & Hcase).
  assert (∀ t', (∃ mid, t' = mkThread [st; Unlock] mid None ∧ (mid = true → writes st = true))
                ∨ (∃ r, t' = mkThread [Unlock] false r ∨ t' = mkThread [] false r) → thread_ok a t') as Hok'
    by (intros t' ?; exists st; split_and!; [done..|by right]).
  destruct Hcase as [-> |[(mid & -> & Hmid)|(r & [-> | ->])]].
  - destruct (lock s) eqn:El; [done|]. injection H as <-.
    eapply linv_goto; [done|done|done| |by rewrite El|done|done|done]. apply Hok'. left. by exists false.
  - destruct (holder_alone _ _ _ _ _ Hi Ht eq_refl) as [Hlk Hwr]. cbn in Hwr.
    pose proof (linv_perform _ _ _ _ _ _ _ Hi Ha Ht Hcode Hacc Hm) as Hp.
    destruct st as [| |k|k v|k| |]; try discriminate Hacc; destruct mid; rewrite ?Hwr in H;
      try (specialize (Hmid eq_refl); discriminate Hmid); injection H as <-; try exact Hp;
      (eapply linv_goto; [done|done|done| |by rewrite Hlk|by rewrite Hwr|done|done]; apply Hok'; left; by exists true).
  - destruct (holder_alone _ _ _ _ _ Hi Ht eq_refl) as [Hlk Hwr]. cbn in H. rewrite Hlk in H. injection H as <-.
    eapply linv_goto; [done|done|done| |by rewrite Hlk|done|done|done]. apply Hok'. right. exists r. by right.
  - done.
Qed.

Context `{Lk : !Locked A V}.

Lemma linv_init calls m0 : linv calls m0 (shared_init m0 (map code calls)).
Proof.
  split_and!; cbn; [done| | | |constructor|done|by intros [|? ?] ? ? ?|].
  - apply count_zero. rewrite map_map. apply Forall_fmap, Forall_true. intros a. destruct (locked a) as (st & Hc & _).
    cbn. by rewrite Hc.
  - apply count_zero. rewrite map_map. by apply Forall_fmap, Forall_true.
  - rewrite map_map. apply Forall2_fmap_r, Forall_Forall2_diag, Forall_true. intros a.
    destruct (locked a) as (st & Hc & Hacc & Hm). exists st. rewrite Hc. split_and!; [done..|by left].
  - intros i t Ht. rewrite map_map in Ht. apply list_lookup_fmap_Some in Ht as (a & -> & _).
    destruct (locked a) as (st & Hc & _). cbn. rewrite Hc. cbn. apply not_elem_of_nil.
Qed.

(** The lock of a map makes its accessors one map. *)
Lemma locked_linearized calls m0 s : steps astep (shared_init m0 (map code calls)) s → linearized calls m0 s.
Proof.
  intros Hs. destruct (steps_inv _ _ _ _ (linv_step calls m0) Hs (linv_init calls m0)) as (Hc & _ & _ & Hok & (Hnd & Hco & Hr) & Hlog).
  split_and!; [done..|]. intros i a t Ha Ht. pose proof (Hlog i t Ht) as Hl. split.
  - intros ->. destruct (locked a) as (st & Hcode & _). unfold logged in Hl. cbn in Hl. by rewrite Hcode in Hl.
  - intros Htodo. unfold logged in Hl. by rewrite Htodo in Hl.
Qed.
End linearizable.

Lemma access_log {V} (s s' : shared V) i : access s i = Some s' → log s `prefix_of` log s'.
Proof.
  unfold access. destruct (crashed s); [done|]. destruct (threads s !! i) as [[[|st rest] mid r]|]; [done| |done].
  assert (log s `prefix_of` log (perform s i st rest)) as Hp
    by (unfold perform; destruct (effect st (contents s)); by eexists).
  destruct st; repeat case_match; intros; simplify_eq/=; done.
Qed.

Lemma steps_log {V} (s s' : shared V) : steps astep s s' → log s `prefix_of` log s'.
Proof. induction 1 as [|s s1 s2 [i H] _ IH]; [done|]. etrans; [by eapply access_log|done]. Qed.

(** ** The accessors of the client *)

(** [registeredNodes], under [registeredNodesRWLock]. *)
Definition getRegisteredNodeInfo (name : str) : list (stmt registeredNodeInfo) := [Lock; Read name; Unlock].
Definition setRegisterdNodeInfo (name : str) (nodeInfo : registeredNodeInfo) : list (stmt registeredNodeInfo) :=
  [Lock; Write name nodeInfo; Unlock].
Definition deleteRegisteredNodeInfo (name : str) : list (stmt registeredNodeInfo) := [Lock; Delete name; Unlock].
(** What it returns is the map itself; its callers range over it. *)
Definition getAllRegisteredNodeInfo : list (stmt registeredNodeInfo) := [Lock; Take; Unlock].

(** [watchList], under [watchListWRLock]; the writes are those at the start and at the
    end of [watchItem]. *)
Definition getWatchNodeFromWatchList (name : str) : list (stmt WatchInfo) := [Lock; Read name; Unlock].
Definition watchItem_puts (name : str) (info : WatchInfo) : list (stmt WatchInfo) := [Lock; Write name info; Unlock].
(** The collector's range over the list. *)
Definition gcWatcher_ranges (entries : nat) : list (stmt WatchInfo) := replicate entries Next.

(** [memCachedProjectConfigs], under [memUpdateLock], and [rawConfig]. *)
Definition GetFromMem (name : str) : list (stmt (option str)) := [Lock; Read name; Unlock].
Definition StoreToMem (name : str) (data : option str) : list (stmt (option str)) := [Lock; Write name data; Unlock].
Definition SaveRawConfig (name value : str) : list (stmt str) := [Write name value].
Definition GetRawConfig (name : str) : list (stmt str) := [Read name].

(** Calls of the accessors of one map, and what they mean. *)
Inductive registered_call :=
| CGetInfo (name : str)
| CSetInfo (name : str) (info : registeredNodeInfo)
| CDeleteInfo (name : str).
Inductive watch_call :=
| CGetWatch (name : str)
| CPutWatch (name : str) (info : WatchInfo).
Inductive mem_call :=
| CGetFromMem (name : str)
| CStoreToMem (name : str) (data : option str).

#[export] Instance registered_accessor : Accessor registered_call registeredNodeInfo := {
  code c := match c with
            | CGetInfo n => getRegisteredNodeInfo n
            | CSetInfo n i => setRegisterdNodeInfo n i
            | CDeleteInfo n => deleteRegisteredNodeInfo n
            end;
  meaning_of c m := match c with
                    | CGetInfo n => (m, m !! n)
                    | CSetInfo n i => (<[n := i]> m, None)
                    | CDeleteInfo n => (delete n m, None)
                    end }.
#[export] Instance watch_accessor : Accessor watch_call WatchInfo := {
  code c := match c with CGetWatch n => getWatchNodeFromWatchList n | CPutWatch n i => watchItem_puts n i end;
  meaning_of c m := match c with CGetWatch n => (m, m !! n) | CPutWatch n i => (<[n := i]> m, None) end }.
#[export] Instance mem_accessor : Accessor mem_call (option str) := {
  code c := match c with CGetFromMem n => GetFromMem n | CStoreToMem n d => StoreToMem n d end;
  meaning_of c m := match c with CGetFromMem n => (m, m !! n) | CStoreToMem n d => (<[n := d]> m, None) end }.

#[export] Instance registered_locked : Locked registered_call registeredNodeInfo.
Proof. intros []; by eexists. Qed.
#[export] Instance watch_locked : Locked watch_call WatchInfo.
Proof. intros []; by eexists. Qed.
#[export] Instance mem_locked : Locked mem_call (option str).
Proof. intros []; by eexists. Qed.

(** Any number of goroutines that call accessors of one map, in any interleaving. *)
Definition refines_one_map (A V : Type) `{!Accessor A V} : Prop :=
  ∀ (m0 : gmap str V) (calls : list A) (s : shared V),
    steps astep (shared_init m0 (map code calls)) s →
    linearized calls m0 s ∧ ∀ s', steps astep s s' → log s `prefix_of` log s'.

(** C10.  The accessors of the registered configurations, of the watch list and of
    the configurations in memory each refine one map changed by one call at a time:
    in every interleaving of any number of calls the process does not end, there is
    one order of the calls that have taken effect such that the map and every result
    are those of the calls made one after the other in that order, a call has its
    place in it between its beginning and its return, and the order only grows. *)
Theorem locked_linearizable :
  refines_one_map registered_call registeredNodeInfo
  ∧ refines_one_map watch_call WatchInfo
  ∧ refines_one_map mem_call (option str).
Proof.
  split_and!; intros m0 calls s Hs; (split; [by apply locked_linearized|intros s'; apply steps_log]).
Qed.

Definition three_calls : list mem_call :=
  [CStoreToMem $"a" (Some $"1"); CGetFromMem $"a"; CStoreToMem $"a" (Some $"2")].

Lemma locked_linearizable_witness :
  ∃ s, schedule (shared_init ∅ (map code three_calls)) [0; 0; 0; 0; 1; 1; 1; 2; 2] = Some s
    ∧ linearized three_calls ∅ s ∧ log s = [(0, None); (1, Some (Some $"1"))].
Proof.
  destruct (schedule (shared_init ∅ (map code three_calls)) [0; 0; 0; 0; 1; 1; 1; 2; 2]) as [s|] eqn:E;
    [|vm_compute in E; discriminate E].
  exists s. split; [reflexivity|]. split.
  - exact (proj1 (proj2 (proj2 locked_linearizable) ∅ three_calls s (schedule_steps _ _ _ E))).
  - vm_compute in E. injection E as <-. reflexivity.
Defined.

(** An update ranges over the registered configurations while a request
    registers one: the next entry is read during the write. *)
Example range_crashes (info : registeredNodeInfo) :
  match schedule (shared_init {[ $"a" := info ]} [getAllRegisteredNodeInfo ++ [Next; Next]; setRegisterdNodeInfo $"b" info])
          [0; 0; 0; 0; 1; 1; 0] with
  | Some s => crashed s = true
  | None => False
  end.
Proof. vm_compute. reflexivity. Qed.

(** The collector ranges over the watch list without its lock while a new watch
    begins. *)
Example gc_range_crashes (info : WatchInfo) :
  match schedule (shared_init {[ $"a" := info ]} [gcWatcher_ranges 2; watchItem_puts $"b" info]) [0; 1; 1; 0] with
  | Some s => crashed s = true
  | None => False
  end.
Proof. vm_compute. reflexivity. Qed.

(** Two first requests save the raw texts they fetched. *)
Example raw_writes_crash :
  match schedule (shared_init ∅ [SaveRawConfig $"a" $"1"; SaveRawConfig $"b" $"2"]) [0; 1] with
  | Some s => crashed s = true
  | None => False
  end.
Proof. vm_compute. reflexivity. Qed.
