(* ===== verification/Handler.v ===== *)
(** * The GetProjectConfig request (handler/project_config.go)

    [Process] registers the configuration and answers from the memory, the disk or
    the server; the goroutine it starts to store a new value is returned as a
    value and run by [store_later].

    [Process_then_cached]: a configuration that was answered once is answered the
    same way without the server. *)

From S2P Require Import Prelude GoLib Util Schema Json Encrypt Storage ProjConfig NewValue Watcher Registry.

Section handler.
Context (json_error base64_error : str → error) (print_json : json → str)
  (print_float : Z * Z → str) (print_ver : option json → str).
Context {D : Type} `{!LocalDisk D}.
Context (TomlValueToJson : str → result (option str)).

Abbreviation get_config := (GetConfig json_error base64_error print_json print_float print_ver TomlValueToJson).
Abbreviation from_server := (GetFromServer json_error base64_error print_json print_float print_ver).

(** The process: memory and local database, and the registered configurations. *)
Record process := mkProcess {
  store : world D;
  watches : watch_state }.

(** What is the same for one request: settings, the opening of the local
    database, the server, the debug values and the fetch lock, the time. *)
Record environment := mkEnv {
  settings : Settings;
  RunAsBi : bool;
  open_err : option error;
  conn : result (option (str → result str));
  root : str;
  debug : option (str * str);
  (** what [getLockOfSrv] returns *)
  fetch : bool;
  now : Z }.

(** The goroutine of a first request: the name, the value and the text to store. *)
Definition later := option (str * option str * str).

Definition Process (e : environment) (p : process) (args : list (str * json))
    : outcome (result (option str) * process * later) :=
  name ← as_string (member $"name" args);
  let cfg := settings e in
  match TouchDynamicNode (RunAsBi e) (open_err e) (disk (store p)) (watches p) name (now e) with
  | (hasBeenWatching, ws, d) =>
      let w := mkWorld (mem (store p)) d in
      if hasBeenWatching then
        r ← get_config cfg (open_err e) (conn e) (root e) (if DEVMODE cfg then fst <$> debug e else None) (Some (fetch e)) w name;
        Done (r.1, mkProcess r.2 ws, None)
      else
        old ← GetFromDisk cfg (open_err e) d name;
        r ← GetNewValueOfConfig TomlValueToJson cfg name (Done old.1) (Done (debug e))
              (from_server cfg (conn e) (root e) name) (mem w);
        let v := r.1 in
        let p := mkProcess (mkWorld r.2 old.2) ws in
        match cErr v with
        | Some err => Done (inl err, p, None)
        | None =>
            Done (inr (valueSerialized v), p,
                  if negb (isDebugValue v) && hasUpdate v then Some (name, valueSerialized v, valuePlain v) else None)
        end
  end.

Definition store_later (e : environment) (p : process) (l : later) : outcome process :=
  match l with
  | Some (name, re, plain) =>
      r ← SaveToDisk (settings e) (open_err e) (disk (store p)) name plain;
      Done (mkProcess (mkWorld (Mem.StoreToMem (mem (store p)) name re) r.2) (watches p))
  | None => Done p
  end.

Definition name_args (name : str) : list (str * json) := [($"name", JStr name)].

(** ** Lemmas *)

Lemma Process_args_panic e p args :
  (∀ s, member $"name" args ≠ Some (JStr s)) → ∃ why, Process e p args = Panic why.
Proof.
  intros H. unfold Process. destruct (member $"name" args) as [[| | |s| |]|]; try (by eexists).
  by destruct (H s).
Qed.

Lemma touch_registered RunAsBi s name now :
  RunAsBi = false → is_Some (registeredNodes (touch RunAsBi s name now).1.2 !! name).
Proof.
  intros ->. unfold touch. destruct (registeredNodes s !! name); cbn [fst snd].
  - cbn. rewrite lookup_insert_eq. eauto.
  - rewrite add_register. cbn. rewrite lookup_insert_eq. eauto.
Qed.

(** A request for a registered configuration. *)
Lemma Process_registered e p name :
  is_Some (registeredNodes (watches p) !! name) → DEVMODE (settings e) = false →
  ∃ ws, Process e p (name_args name) =
    (r ← get_config (settings e) (open_err e) (conn e) (root e) None (Some (fetch e)) (store p) name;
     Done (r.1, mkProcess r.2 ws, None)).
Proof.
  intros [info Hr] Hd. unfold Process, name_args. cbn [member].
  rewrite bool_decide_eq_true_2 by done. cbn [as_string mbind outcome_bind]. unfold TouchDynamicNode, touch.
  rewrite Hr, Hd. destruct (RunAsBi e); cbv iota; destruct p as [[m d] ws0]; cbn [disk store mem watches]; by eexists.
Qed.

(** C21.  A first answer stays: when the first request for a configuration that is
    not registered and not in memory is answered with the text of the server, then,
    once the goroutine it started has stored the value, a request in any other
    environment of the same settings (the server may be gone) returns the same
    value. *)
Theorem Process_then_cached (e e' : environment) (p : process) (name text j : str) (old : result str) (d1 : D) :
  RunAsBi e = false → settings e' = settings e → open_err e' = open_err e → fetch e' = true →
  DEVMODE (settings e) = false → usable (GetEncryptor (settings e)) →
  registeredNodes (watches p) !! name = None → being_watched (watches p) name = false →
  Mem.GetFromMem (mem (store p)) name = None →
  (TouchDynamicNode false (open_err e) (disk (store p)) (watches p) name (now e)).2 = d1 →
  GetFromDisk (settings e) (open_err e) d1 name = Done (old, d1) →
  from_server (settings e) (conn e) (root e) name = Done (inr text) → TomlValueToJson text = inr (Some j) →
  ∃ p1 l p2 p3, Process e p (name_args name) = Done (inr (Some j), p1, l)
    ∧ store_later e p1 l = Done p2
    ∧ Process e' p2 (name_args name) = Done (inr (Some j), p3, None).
Proof.
  intros Hbi Hset Hoe Hf Hdev Hu Hreg Hw Hmem Hd1 Hdisk Hsrv Hj.
  destruct (TouchDynamicNode false (open_err e) (disk (store p)) (watches p) name (now e)) as [[hbw ws] d] eqn:Et.
  cbn in Hd1. subst d.
  assert (hbw = false ∧ is_Some (registeredNodes ws !! name)) as [-> Hws].
  { unfold TouchDynamicNode in Et. destruct (touch false (watches p) name (now e)) as [[h w] s] eqn:Ett.
    injection Et as <- <- _. pose proof (touch_registered false (watches p) name (now e) eq_refl) as Hr.
    rewrite Ett in Hr. split; [|done]. unfold touch in Ett. rewrite Hreg in Ett. by injection Ett as <- _ _. }
  assert (∃ v m1, GetNewValueOfConfig TomlValueToJson (settings e) name (Done old) (Done (debug e)) (Done (inr text))
      (mem (store p)) = Done (v, m1) ∧ cErr v = None ∧ isDebugValue v = false ∧ valueSerialized v = Some j
      ∧ valuePlain v = text ∧ hasUpdate v = match old with inr y => negb (bool_decide (y = text)) | inl _ => true end
      ∧ Mem.GetFromMem m1 name = None) as (v & m1 & Hg & Hc & Hdbg & Hval & Hpl & Hup & Hm1).
  { unfold GetNewValueOfConfig. rewrite Hdev. cbn [mbind outcome_bind]. unfold choose. rewrite Hj.
    destruct (Encrypt_done (settings e) text Hu) as [enc He]. rewrite He. cbn [mbind outcome_bind].
    eexists _, _. split; [reflexivity|]. cbn. by destruct old. }
  assert (Process e p (name_args name) = Done (inr (Some j), mkProcess (mkWorld m1 d1) ws,
    if hasUpdate v then Some (name, Some j, text) else None)) as Hfirst.
  { unfold Process, name_args. cbn [member]. rewrite bool_decide_eq_true_2 by done.
    cbn [as_string mbind outcome_bind]. rewrite Hbi, Et. rewrite Hdisk. cbn [mbind outcome_bind fst snd].
    rewrite Hsrv. cbn [mem]. rewrite Hg. cbn [mbind outcome_bind fst snd]. rewrite Hc, Hdbg, Hval, Hpl. done. }
  destruct (hasUpdate v) eqn:Ehu.
  - assert (∃ r, SaveToDisk (settings e) (open_err e) d1 name text = Done r) as [r Hs].
    { unfold SaveToDisk. destruct (open_err e); [eauto|]. destruct (ENCRYPT_ENABLE _); [|eauto].
      destruct (Encrypt_done (settings e) text Hu) as [enc He]. rewrite He. cbn. eauto. }
    destruct (Process_registered e' (mkProcess (mkWorld (Mem.StoreToMem m1 name (Some j)) r.2) ws) name Hws) as [ws' Hp2].
    { by rewrite Hset. }
    eexists _, _, _, _. split; [exact Hfirst|]. split; [cbn; rewrite Hs; reflexivity|]. rewrite Hp2. unfold GetConfig.
    cbn [store mem]. rewrite GetFromMem_StoreToMem. reflexivity.
  - destruct old as [err|y]; [done|]. symmetry in Hup. bool_to_prop. subst y.
    destruct (Process_registered e' (mkProcess (mkWorld m1 d1) ws) name Hws) as [ws' Hp2]; [by rewrite Hset|].
    eexists _, _, _, _. split; [exact Hfirst|]. split; [reflexivity|]. rewrite Hp2. unfold GetConfig. cbn [store mem].
    rewrite Hm1, Hf. unfold load_config. cbn [disk]. rewrite Hset, Hoe, Hdisk. cbn [mbind outcome_bind].
    rewrite Hj. reflexivity.
Qed.

End handler.

Definition example_env (c : result (option (str → result str))) (t : Z) : environment :=
  mkEnv plain_key_cfg false None c $"/dove" None true t.

Lemma GetFromDisk_absent (d : gmap str str) name :
  d !! name = None →
  GetFromDisk plain_key_cfg None d name =
    Done (inl ($"Failed to read config [" ++ name ++ $"] from db: " ++ $"leveldb: not found"), d).
Proof. intros H. unfold GetFromDisk. cbn [disk_Get map_disk]. by rewrite H. Qed.

Lemma TouchDynamicNode_other (d : gmap str str) s name now k :
  k ≠ KEY_NAME_OF_STORE_DYNAMIC_REG_CONF_NODES → (TouchDynamicNode false None d s name now).2 !! k = d !! k.
Proof.
  intros Hk. unfold TouchDynamicNode. destruct (touch false s name now) as [[h ws] []]; [|done]. cbn.
  by rewrite lookup_insert_ne.
Qed.

Lemma Process_then_cached_witness :
  ∃ p1 l p2 p3,
    Process no_json_error no_json_error (fun _ => []) (fun _ => []) (fun _ => []) (fun s => inr (Some s))
      (example_env example_conn 5) (mkProcess example_world no_watches) (name_args $"a.x") = Done (inr (Some $"x=1"), p1, l)
    ∧ store_later (example_env example_conn 5) p1 l = Done p2
    ∧ Process no_json_error no_json_error (fun _ => []) (fun _ => []) (fun _ => []) (fun s => inr (Some s))
        (example_env (inl $"down") 9) p2 (name_args $"a.x") = Done (inr (Some $"x=1"), p3, None).
Proof.
  eapply (Process_then_cached no_json_error no_json_error (fun _ => []) (fun _ => []) (fun _ => []) (fun s => inr (Some s))
    (example_env example_conn 5) (example_env (inl $"down") 9) (mkProcess example_world no_watches) $"a.x" $"x=1" $"x=1").
  10: reflexivity.
  10:{ apply GetFromDisk_absent. rewrite TouchDynamicNode_other by discriminate. apply lookup_empty. }
  all: try reflexivity.
  split; [cbn; lia|reflexivity].
Defined.
