(* ===== verification/PostUpdate.v ===== *)
(** * After an update (configwatcher/zk_watcher.go)

    The callbacks and scripts that run after an update ([invokeCallbacks],
    [invokeCallbackScripts]), the goroutine [updateProjectConfigByRootNode] starts
    for them, and the whole of [updateProjectConfigBySchemafile], the update of one
    schema file that was edited.  The built-in callbacks, [exec.Command], the
    sources of values and [compile] are arguments that act on a world of any type.

    [scripts_run]: which commands run, in which order and with which arguments.
    [callbacks_not_throttled]: the callbacks of a root update run whether or not
    the lock was granted.  [schema_update_nodes]: what an update of a schema file
    stores, compiles and hands to the scripts.  [schema_update_recheck]: when it is
    queued for a recheck. *)

From S2P Require Import Prelude GoLib Util Schema NewValue Callbacks Compile Watcher.

Section post_update.
Context {M : Type}.
(** The [Run] of a built-in callback. *)
Context (run_callback : str → M → outcome (str * option error * M)).
(** [exec.Command(name, args...).Run()]: its output and its error. *)
Context (exec_command : str → list str → M → str * option error * M).

(** ** Callbacks and scripts *)

Definition valid_callbacks : list str := [$"ClearApc"; $"ReloadPHPServer"].

(** [valid_text]: what [%v] prints for the map of the callbacks. *)
Definition invoke_one (valid_text : str) (acc : gmap str str * M) (callback : str) : outcome (gmap str str * M) :=
  let '(result, m) := acc in
  if InArrayString valid_callbacks callback then
    r ← run_callback callback m;
    let '(re, err, m) := r in
    Done (<[callback := re ++ nl ++ default [] err]> result, m)
  else Done (<[callback := $"Invalid callback[" ++ callback ++ $"], available callbacks are[" ++ valid_text
                          ++ $"], please check your client configs."]> result, m).

Fixpoint invoke_all (valid_text : str) (acc : gmap str str * M) (l : list str) : outcome (gmap str str * M) :=
  match l with
  | [] => Done acc
  | c :: rest => acc ← invoke_one valid_text acc c; invoke_all valid_text acc rest
  end.

Definition invokeCallbacks (valid_text : str) (POST_UPDATE_CALLBACKS : list str) (m : M) : outcome (gmap str str * M) :=
  invoke_all valid_text (∅, m) POST_UPDATE_CALLBACKS.

(** One script: its first field is the program. *)
Definition run_script (acc : gmap str str * M) (script : str) : outcome (gmap str str * M) :=
  let '(result, m) := acc in
  match Fields script with
  | [] => index_panic
  | name :: args =>
      let '(out, err, m) := exec_command name args m in
      Done (<[script := script ++ $":" ++ nl ++ out ++ nl ++ $"ERR:" ++ default [] err]> result, m)
  end.

Fixpoint run_scripts (acc : gmap str str * M) (l : list str) : outcome (gmap str str * M) :=
  match l with
  | [] => Done acc
  | s :: rest => acc ← run_script acc s; run_scripts acc rest
  end.

(** The command lines, and the record of updates emptied.  The map of results is
    nil without scripts. *)
Definition callback_scripts (POST_UPDATE_SCRIPTS : list str) (rules : list (list str)) (u : Updated) : list str * Updated :=
  let scripts := map (fun script => script ++ $" " ++ Join (GetUpdatedNodes u) $",") POST_UPDATE_SCRIPTS in
  let '(custom, u) := GetCustomizeCallbacks rules u in
  (scripts ++ custom, u).

Definition invokeCallbackScripts (POST_UPDATE_SCRIPTS : list str) (rules : list (list str)) (u : Updated) (m : M)
    : outcome (option (gmap str str) * Updated * M) :=
  let '(scripts, u) := callback_scripts POST_UPDATE_SCRIPTS rules u in
  r ← run_scripts (∅, m) scripts;
  Done (if bool_decide (scripts = []) then None else Some r.1, u, r.2).

(** ** After the update of a root node *)

Record settings := mkSettings_ {
  callbacks : list str;
  scripts : list str;
  rules : list (list str);
  valid_text : str }.

Definition invoke (cfg : settings) (u : Updated) (m : M) : outcome (gmap str str * option (gmap str str) * Updated * M) :=
  r ← invokeCallbacks (valid_text cfg) (callbacks cfg) m;
  s ← invokeCallbackScripts (scripts cfg) (rules cfg) u r.2;
  Done (r.1, s.1.1, s.1.2, s.2).

(** The goroutine: [granted] is what [getLockOfExecCallback] returns; only the log
    depends on it.  The results are not saved: the code returns before. *)
Definition after_root_update (granted : bool) (cfg : settings) (hasUpdateOverall forceCompile : bool) (u : Updated) (m : M)
    : outcome (Updated * M) :=
  if hasUpdateOverall || forceCompile then r ← invoke cfg u m; Done (r.1.2, r.2) else Done (u, m).

(** ** The update of a schema file *)

(** [AddToWatchList], [projconfig.GetConfig], [GetNewValueOfConfig], and
    [StoreToMem] with [SaveToDisk]; [compile] with the values fetched. *)
Context (add_watch : str → M → bool * M).
Context (get_config : str → str → M → outcome (result (option str) * M)).
Context (gnv : str → str → M → outcome (NewValue * M)).
Context (save : str → option str → str → M → outcome M).
Context (compile : gmap str (option str) → str → Updated → M → outcome (option error * Updated * M)).

Record schema_progress := mkSchemaProgress {
  itemValues : gmap str (option str);
  newNodes : list str;
  itemErr : option error;
  spWorld : M }.

(** An item whose root is watched comes from [GetConfig]; a new value of another
    one is stored. *)
Definition schema_item (schemafile : str) (p : schema_progress) (name : str) : outcome schema_progress :=
  let '(hasBeenWatching, m) := add_watch (root_of name) (spWorld p) in
  if hasBeenWatching then
    r ← get_config name schemafile m;
    Done (match r.1 with
          | inr v => mkSchemaProgress (<[name := v]> (itemValues p)) (newNodes p) None r.2
          | inl e => mkSchemaProgress (itemValues p) (newNodes p) (Some e) r.2
          end)
  else
    r ← gnv name schemafile m;
    let v := r.1 in
    match cErr v with
    | Some e => Done (mkSchemaProgress (itemValues p) (newNodes p) (Some e) r.2)
    | None =>
        let p' := mkSchemaProgress (<[name := valueSerialized v]> (itemValues p)) in
        if hasUpdate v && negb (isDebugValue v) then
          m ← save name (valueSerialized v) (valuePlain v) r.2;
          Done (p' (newNodes p ++ [name]) None m)
        else Done (p' (newNodes p) None r.2)
    end.

Fixpoint schema_items (schemafile : str) (p : schema_progress) (items : list str) : outcome schema_progress :=
  match items with
  | [] => Done p
  | name :: rest => p ← schema_item schemafile p name; schema_items schemafile p rest
  end.

(** The part under the update lock: [err], [cErr], the record of updates and the
    world. *)
Definition updateProjectConfigBySchemafile (fs : FileSystem) (schemafile : str) (u : Updated) (m : M)
    : outcome (option error * option error * Updated * M) :=
  match ParseItems fs schemafile with
  | inl e => Done (Some e, None, u, m)
  | inr definedItems =>
      let '(newNodes0, u) := UpdateSchemaNodesAndDiff u schemafile definedItems in
      p ← schema_items schemafile (mkSchemaProgress ∅ newNodes0 None m) definedItems;
      c ← compile (itemValues p) schemafile u (spWorld p);
      Done (c.1.1, itemErr p, AddUpdatedNodes c.1.2 (newNodes p), c.2)
  end.

(** What the goroutine does: the files queued for a recheck, and the error and the
    results that are saved. *)
Record schema_report := mkReport {
  queued : list str;
  saved : option (option error * option (gmap str str) * option (gmap str str));
  rUpdated : Updated;
  rWorld : M }.

(** [%v] of the list of messages. *)
Definition list_text (l : list str) : str := $"[" ++ Join l $" " ++ $"]".
Definition err_list (err cErr : option error) : list error :=
  match err with Some e => [e] | None => [] end ++ match cErr with Some e => [e] | None => [] end.

Definition after_schema_update (granted : bool) (cfg : settings) (schemafile : str) (err cErr : option error) (u : Updated) (m : M)
    : outcome schema_report :=
  if negb granted then Done (mkReport [] None u m)
  else
    r ← (match err with
         | None => r ← invoke cfg u m; Done (Some r.1.1.1, r.1.1.2, r.1.2, r.2)
         | Some _ => Done (None, None, u, m)
         end);
    let '(callbackResults, callbackScriptResults, u, m) := r in
    let errMsg := err_list err cErr in
    let sErr := match errMsg with [] => None | _ => Some (list_text errMsg) end in
    Done (mkReport (match sErr with None => [] | Some _ => [schemafile] end)
            (Some (sErr, callbackResults, callbackScriptResults)) u m).

End post_update.

(** ** Lemmas *)

Section run_lemmas.
Context {M : Type} (exec_command : str → list str → M → str * option str * M).

Definition run_argv (m : M) (argv : list str) : M :=
  match argv with [] => m | name :: args => (exec_command name args m).2 end.

Lemma run_scripts_run l result m :
  Forall (fun s => Fields s ≠ []) l →
  ∃ result', run_scripts exec_command (result, m) l = Done (result', fold_left run_argv (map Fields l) m)
    ∧ ∀ s, is_Some (result' !! s) ↔ s ∈ l ∨ is_Some (result !! s).
Proof.
  intros H. revert result m. induction H as [|s l Hs _ IH]; intros result m.
  - exists result. split; [done|]. intros s. set_solver.
  - cbn [run_scripts map fold_left]. unfold run_script at 1. destruct (Fields s) as [|name args] eqn:E; [done|].
    cbn [run_argv]. destruct (exec_command name args m) as [[out err] m1]. cbn [snd mbind outcome_bind].
    destruct (IH (<[s:=s ++ $":" ++ nl ++ out ++ nl ++ $"ERR:" ++ default [] err]> result) m1) as (result' & -> & Hr).
    exists result'. split; [done|]. intros s'. rewrite Hr, lookup_insert_is_Some, elem_of_cons.
    destruct (decide (s = s')); naive_solver.
Qed.

Lemma run_scripts_blank l result m s :
  s ∈ l → Fields s = [] → ∃ why, run_scripts exec_command (result, m) l = Panic why.
Proof.
  intros Hs Hb. revert result m. induction Hs as [s l|s s' l Hs IH]; intros result m; cbn [run_scripts].
  - unfold run_script. rewrite Hb. by eexists.
  - destruct (run_script exec_command (result, m) s') as [[r1 m1]|why]; cbn [mbind outcome_bind]; [by apply IH|by eexists].
Qed.

End run_lemmas.

(** *** The fields of a command line *)

Definition ascii_text (s : str) : Prop := Forall (fun c => (Z_of_byte c < 128)%Z) s.

Definition is_blank (c : ascii) : bool := bool_decide (c ∈ map byte_of_Z [9; 10; 11; 12; 13; 32]%Z).

Lemma space_width_ascii c s : (Z_of_byte c < 128)%Z → space_width (c :: s) = if is_blank c then 1 else 0.
Proof.
  intros Hc. unfold space_width.
  assert (∀ r rest, (128 <= Z_of_byte r)%Z → HasPrefix (c :: s) (r :: rest) = false) as Hno.
  { intros r rest Hr. apply bool_decide_eq_false_2. intros [k Hk]. injection Hk as -> _. lia. }
  assert (∀ r, HasPrefix (c :: s) [r] = bool_decide (c = r)) as Hone.
  { intros r. unfold HasPrefix. apply bool_decide_ext. split.
    - intros [k Hk]. by injection Hk.
    - intros ->. by exists s. }
  unfold space_runes. cbn [map first_match]. rewrite !Hone, !Hno by (vm_compute; discriminate).
  unfold is_blank. cbn [map length]. destruct (decide (c ∈ map byte_of_Z [9; 10; 11; 12; 13; 32]%Z)) as [Hin|Hin].
  - rewrite (bool_decide_eq_true_2 (c ∈ _)) by done. cbn [map] in Hin.
    repeat (apply elem_of_cons in Hin as [->|Hin]; [vm_compute; reflexivity|]). by apply not_elem_of_nil in Hin.
  - rewrite (bool_decide_eq_false_2 (c ∈ _)) by done. cbn [map] in Hin.
    rewrite !bool_decide_eq_false_2 by (intros ->; apply Hin; set_solver). done.
Qed.

Lemma fields_skip_app cur s t :
  ascii_text s → fields_skip cur 0 (s ++ $" " ++ t) = fields_skip cur 0 s ++ Fields t.
Proof.
  intros Hs. revert cur. induction Hs as [|c s Hc Hs IH]; intros cur.
  - change ([] ++ $" " ++ t) with (" "%char :: t). cbn [fields_skip]. rewrite (space_width_ascii " "%char) by (vm_compute; reflexivity). cbn. done.
  - cbn [app fields_skip]. rewrite !space_width_ascii by done. destruct (is_blank c).
    + rewrite IH. by rewrite app_assoc.
    + apply IH.
Qed.

Lemma Fields_app s t : ascii_text s → Fields (s ++ $" " ++ t) = Fields s ++ Fields t.
Proof. apply fields_skip_app. Qed.

(** A word: no blanks. *)
Definition word (s : str) : Prop := s ≠ [] ∧ Forall (fun c => (Z_of_byte c < 128)%Z ∧ is_blank c = false) s.

Lemma fields_skip_word cur s :
  Forall (fun c => (Z_of_byte c < 128)%Z ∧ is_blank c = false) s →
  fields_skip cur 0 s = if decide (reverse s ++ cur = []) then [] else [reverse (reverse s ++ cur)].
Proof.
  intros Hs. revert cur. induction Hs as [|c s [Hc Hb] _ IH]; intros cur; [done|].
  cbn [fields_skip]. rewrite space_width_ascii, Hb, IH by done. by rewrite reverse_cons, <- app_assoc.
Qed.

Lemma Fields_word s : word s → Fields s = [s].
Proof.
  intros [Hne Hs]. unfold Fields. rewrite fields_skip_word, app_nil_r, reverse_involutive by done.
  rewrite decide_False; [done|]. intros H. apply Hne. by rewrite <- (reverse_involutive s), H.
Qed.

Lemma Join_word l : l ≠ [] → Forall word l → word (Join l $",").
Proof.
  intros Hne H. induction H as [|s l Hs Hl IH]; [done|]. destruct l as [|s' l]; [done|].
  destruct Hs as [Hs1 Hs2]. destruct IH as [_ IH]; [done|].
  split; [by destruct s|]. apply Forall_app; split; [done|]. constructor; [|exact IH]. split; [vm_compute; reflexivity|].
  apply bool_decide_eq_false_2. vm_compute. set_solver.
Qed.

(** *** The items of a schema file *)

Section schema_items.
Context {M : Type}.
Context (add_watch : str → M → bool * M).
Context (get_config : str → str → M → outcome (result (option str) * M)).
Context (gnv : str → str → M → outcome (NewValue * M)).
Context (save : str → option str → str → M → outcome M).

Abbreviation item := (schema_item add_watch get_config gnv save).
Abbreviation items_ := (schema_items add_watch get_config gnv save).

(** What an item adds: its value, its name among the new nodes, its error. *)
Definition item_adds (name : str) (p p' : schema_progress (M:=M)) : Prop :=
  (newNodes p' = newNodes p ∨ newNodes p' = newNodes p ++ [name])
  ∧ ((itemValues p' = itemValues p ∧ itemErr p' ≠ None)
     ∨ (∃ v, itemValues p' = <[name := v]> (itemValues p)) ∧ itemErr p' = None).

Lemma schema_item_adds f name p p' : item f p name = Done p' → item_adds name p p'.
Proof.
  unfold schema_item, item_adds. destruct (add_watch _ _) as [[] m].
  - destruct (get_config name f m) as [[[e|v] m']|]; [| |done]; intros [= <-]; cbn; [|eauto 6].
    split; [by left|by left].
  - destruct (gnv name f m) as [[v m']|]; [|done]. cbn [mbind outcome_bind fst snd].
    destruct (cErr v); [intros [= <-]; cbn; split; [by left|by left]|].
    destruct (_ && _); [|intros [= <-]; cbn; eauto 6].
    destruct (save _ _ _ _) as [m2|]; [|done]. intros [= <-]; cbn; eauto 6.
Qed.

Lemma schema_items_adds f items p p' :
  items_ f p items = Done p' →
  (∀ n, n ∈ newNodes p → n ∈ newNodes p') ∧ (∀ n, n ∈ newNodes p' → n ∈ newNodes p ∨ n ∈ items)
  ∧ (∀ n, is_Some (itemValues p !! n) → is_Some (itemValues p' !! n))
  ∧ (∀ n, is_Some (itemValues p' !! n) → is_Some (itemValues p !! n) ∨ n ∈ items)
  ∧ (∀ n, list.last items = Some n → itemErr p' = None → is_Some (itemValues p' !! n)).
Proof.
  revert p. induction items as [|name items IH]; intros p H; cbn [schema_items] in H.
  - injection H as <-. split_and!; [done|by left|done|by left|done].
  - destruct (item f p name) as [p1|] eqn:E; [|done]. cbn [mbind outcome_bind] in H.
    destruct (schema_item_adds _ _ _ _ E) as [Hn Hv]. destruct (IH _ H) as (I1 & I2 & I3 & I4 & I5).
    assert (∀ n, is_Some (itemValues p1 !! n) ↔ is_Some (itemValues p !! n) ∨ n = name ∧ itemErr p1 = None) as Hs.
    { intros n. destruct Hv as [[-> He]|[[v ->] He]]; [naive_solver|]. rewrite lookup_insert_is_Some.
      destruct (decide (name = n)); naive_solver. }
    split_and!.
    + intros n Hin. apply I1. destruct Hn as [-> | ->]; [done|apply elem_of_app; by left].
    + intros n [Hin|Hin]%I2; [|right; by right].
      destruct Hn as [Hn|Hn]; rewrite Hn in Hin; [by left|]. apply elem_of_app in Hin as [Hin|Hin]; [by left|].
      apply list_elem_of_singleton in Hin as ->. right; left.
    + intros n Hin. apply I3, Hs. by left.
    + intros n [Hin|Hin]%I4; [|right; by right]. apply Hs in Hin as [Hin|[-> _]]; [by left|right; left].
    + intros n Hl He. destruct items as [|n' items'].
      * injection Hl as <-. cbn [schema_items] in H. injection H as ->. apply Hs. by right.
      * by apply I5.
Qed.

(** What the four callees keep, [save] on a value that [gnv] returned, collecting the
    values keeps. *)
Definition keeps (P : M → Prop) : Prop :=
  (∀ root m, P m → P (add_watch root m).2)
  ∧ (∀ n f m r m', P m → get_config n f m = Done (r, m') → P m')
  ∧ (∀ n f m v m', P m → gnv n f m = Done (v, m') → P m'
       ∧ ∀ m2, cErr v = None → save n (valueSerialized v) (valuePlain v) m' = Done m2 → P m2).

Lemma schema_items_keep P f items p p' :
  keeps P → P (spWorld p) → items_ f p items = Done p' → P (spWorld p').
Proof.
  intros (Hw & Hg & Hn). revert p. induction items as [|name items IH]; intros p Hp H; cbn [schema_items] in H; [by injection H as <-|].
  destruct (item f p name) as [p1|] eqn:E; [|done]. cbn [mbind outcome_bind] in H. refine (IH _ _ H). clear IH H.
  unfold schema_item in E. apply (Hw (root_of name)) in Hp. revert E.
  destruct (add_watch _ _) as [[] m] eqn:Ea; cbn [snd] in Hp.
  - destruct (get_config name f m) as [[r m']|] eqn:Eg; [|done]. cbn [mbind outcome_bind fst snd].
    apply (Hg _ _ _ _ _ Hp) in Eg. by destruct r; intros [= <-].
  - destruct (gnv name f m) as [[v m']|] eqn:En; [|done]. cbn [mbind outcome_bind fst snd].
    destruct (Hn _ _ _ _ _ Hp En) as [Hp' Hs]. destruct (cErr v) eqn:Ec; [by intros [= <-]|]. destruct (_ && _); [|by intros [= <-]].
    destruct (save _ _ _ _) as [m2|] eqn:Es; [|done]. intros [= <-]. exact (Hs _ eq_refl eq_refl).
Qed.

(** A count of something that none of the callees does. *)
Definition leaves (compiled : M → nat) : Prop :=
  (∀ root m, compiled (add_watch root m).2 = compiled m)
  ∧ (∀ n f m r m', get_config n f m = Done (r, m') → compiled m' = compiled m)
  ∧ (∀ n f m r m', gnv n f m = Done (r, m') → compiled m' = compiled m)
  ∧ (∀ n j t m m', save n j t m = Done m' → compiled m' = compiled m).

Lemma schema_items_leave compiled f items p p' :
  leaves compiled → items_ f p items = Done p' → compiled (spWorld p') = compiled (spWorld p).
Proof.
  intros (Hw & Hg & Hn & Hs). apply (schema_items_keep (λ m, compiled m = compiled (spWorld p))); [|done]. split_and!.
  - intros root m <-. apply Hw.
  - intros n f' m r m' <-. apply Hg.
  - intros n f' m v m' <- H. apply Hn in H. split; [done|]. intros m2 _ H2. by rewrite (Hs _ _ _ _ _ H2).
Qed.

(** Sources that answer. *)
Definition item_answers (f name : str) : Prop :=
  (∀ m, ∃ v m', get_config name f m = Done (inr v, m'))
  ∧ (∀ m, ∃ v m', gnv name f m = Done (v, m') ∧ cErr v = None)
  ∧ (∀ j t m, ∃ m', save name j t m = Done m').

Lemma schema_items_answer f items p :
  Forall (item_answers f) items → itemErr p = None →
  ∃ p', items_ f p items = Done p' ∧ itemErr p' = None ∧ ∀ n, n ∈ items → is_Some (itemValues p' !! n).
Proof.
  intros H. revert p. induction H as [|name items (Hg & Hn & Hs) _ IH]; intros p Hp.
  - exists p. split_and!; [done|done|]. by intros n ?%not_elem_of_nil.
  - assert (∃ p1, item f p name = Done p1 ∧ itemErr p1 = None) as (p1 & E & He).
    { unfold schema_item. destruct (add_watch _ _) as [[] m].
      - destruct (Hg m) as (v & m' & ->). by eexists.
      - destruct (Hn m) as (v & m' & -> & Hv). cbn [mbind outcome_bind fst snd]. rewrite Hv.
        destruct (_ && _); [|by eexists]. destruct (Hs (valueSerialized v) (valuePlain v) m') as [m2 ->]. by eexists. }
    destruct (IH p1 He) as (p' & E' & He' & Hall). exists p'. cbn [schema_items]. rewrite E. split_and!; [done|done|].
    intros n [->|Hin]%elem_of_cons; [|by apply Hall].
    destruct (schema_items_adds _ _ _ _ E') as (_ & _ & Hmono & _). apply Hmono.
    destruct (schema_item_adds _ _ _ _ E) as [_ [[_ Hne]|[[v ->] _]]]; [done|]. rewrite lookup_insert_eq. eauto.
Qed.

(** An invariant of the callees is one of the whole update. *)
Lemma schema_update_keeps P compile (fs : FileSystem) f u m err cErr u' m' :
  keeps P → (∀ vs u m e u' m', P m → compile vs f u m = Done (e, u', m') → P m') → P m →
  updateProjectConfigBySchemafile add_watch get_config gnv save compile fs f u m = Done (err, cErr, u', m') → P m'.
Proof.
  intros Hk Hc Hm. unfold updateProjectConfigBySchemafile. destruct (ParseItems fs f) as [e|items]; [by intros [= _ _ _ <-]|].
  destruct (UpdateSchemaNodesAndDiff u f items) as [nodes u1]. destruct (items_ f _ items) as [p|] eqn:Ep; [|done].
  cbn [mbind outcome_bind]. destruct (compile _ _ _ _) as [[[e u2] m2]|] eqn:E2; [|done]. cbn [mbind outcome_bind fst snd].
  intros [= _ _ _ <-]. refine (Hc _ _ _ _ _ _ _ E2). exact (schema_items_keep P f items (mkSchemaProgress ∅ nodes None m) p Hk Hm Ep).
Qed.
End schema_items.

Lemma AddUpdatedNodes_elem u nodes n :
  n ∈ updatedNodes (AddUpdatedNodes u nodes) ↔ n ∈ updatedNodes u ∨ n ∈ nodes.
Proof.
  unfold AddUpdatedNodes. destruct nodes as [|x nodes]; [set_solver|]. cbn [updatedNodes].
  by rewrite fold_append_unique_elem.
Qed.

Lemma UpdateSchemaNodes_old u f nodes :
  updatedNodes (UpdateSchemaNodesAndDiff u f nodes).2 = updatedNodes u
  ∧ updatedSchemaFiles (UpdateSchemaNodesAndDiff u f nodes).2 = updatedSchemaFiles u
  ∧ (∀ n, n ∈ (UpdateSchemaNodesAndDiff u f nodes).1 ↔ n ∈ nodes ∧ n ∉ default [] (schemaToNodes u !! f)).
Proof.
  unfold UpdateSchemaNodesAndDiff. destruct (schemaToNodes u !! f) as [old|]; cbn [fst snd updatedNodes updatedSchemaFiles default].
  - split_and!; [done|done|]. intros n. rewrite diff_nodes_eq, <- fold_append_unique_nil, fold_append_unique_elem.
    rewrite elem_of_nil, (list_elem_of_In (List.filter _ _) n), filter_In, <- list_elem_of_In, negb_true_iff, InArrayString_false.
    naive_solver.
  - split_and!; [done|done|]. intros n. rewrite elem_of_nil. naive_solver.
Qed.

(** The commands of one call, with updated nodes. *)
Lemma scripts_commands {M} (exec_command : str → list str → M → str * option str * M)
    (scripts : list str) (rules : list (list str)) (u : Updated) (m : M) :
  let custom := first_occurrences (map rule_script (List.filter (due (updatedSchemaFiles u)) rules)) in
  updatedNodes u ≠ [] → Forall word (updatedNodes u) → Forall ascii_text (scripts ++ custom) →
  ∃ results, invokeCallbackScripts exec_command scripts rules u m =
    Done (results, mkUpdated [] [] (schemaToNodes u),
          fold_left (run_argv exec_command)
            (map (fun s => Fields s ++ [Join (updatedNodes u) $","]) (scripts ++ custom)) m).
Proof.
  intros custom Hne Hw Ha. unfold invokeCallbackScripts, callback_scripts, GetCustomizeCallbacks, GetUpdatedNodes.
  rewrite fold_add_rule, fold_append_unique_nil. fold custom. cbn [fst snd].
  change (map (λ v, v ++ [" "%char] ++ Join (updatedNodes u) [","%char]) custom)
    with (map (λ s, s ++ $" " ++ Join (updatedNodes u) $",") custom).
  rewrite <- map_app. set (lines := map _ _).
  assert (∀ s, s ∈ scripts ++ custom → Fields (s ++ $" " ++ Join (updatedNodes u) $",") = Fields s ++ [Join (updatedNodes u) $","]) as Hf.
  { intros s Hs. rewrite Fields_app by exact (proj1 (List.Forall_forall _ _) Ha s (proj1 (list_elem_of_In _ _) Hs)).
    by rewrite (Fields_word (Join _ _)) by (by apply Join_word). }
  destruct (run_scripts_run exec_command lines ∅ m) as (results & -> & _).
  { unfold lines. apply List.Forall_map, List.Forall_forall. intros s Hs%list_elem_of_In. rewrite (Hf s Hs). by destruct (Fields s). }
  assert (map Fields lines = map (λ s, Fields s ++ [Join (updatedNodes u) $","]) (scripts ++ custom)) as ->.
  { unfold lines. rewrite map_map. apply map_ext_in. intros s Hs%list_elem_of_In. by apply Hf. }
  cbn [mbind outcome_bind fst snd]. by eexists.
Qed.

(** ** Theorems *)

(** The commands that run after an update: with updated nodes, every
    configured script and every script of a due rule runs once, in this order,
    with its own words as program and arguments and the nodes, joined by commas, as
    one more argument; the record of updates is empty afterwards. *)
Theorem scripts_run {M} (exec_command : str → list str → M → str * option str * M)
    (scripts : list str) (rules : list (list str)) (u : Updated) (m : M) :
  let custom := first_occurrences (map rule_script (List.filter (due (updatedSchemaFiles u)) rules)) in
  updatedNodes u ≠ [] → Forall word (updatedNodes u) → Forall ascii_text (scripts ++ custom) →
  ∃ results, invokeCallbackScripts exec_command scripts rules u m =
    Done (results, mkUpdated [] [] (schemaToNodes u),
          fold_left (run_argv exec_command)
            (map (fun s => Fields s ++ [Join (updatedNodes u) $","]) (scripts ++ custom)) m).
Proof. intros custom. apply scripts_commands. Qed.

(** C22.  The update of an edited schema file that can be parsed.  It compiles the
    file exactly once: whatever counts the compilations has grown by one, and the
    state, the error and the record of updates at its end are those of that call,
    with the new nodes added.  The values it compiles with are of items of the file
    only, and when the sources answer for every item there is one for each.  The
    record of updated nodes keeps its nodes and gains the items the file did not
    have when it was last updated, and no node that is not an item of the file. *)
Theorem schema_update_nodes {M} add_watch get_config gnv save compile (fs : FileSystem)
    (f : str) (items : list str) (u u' : Updated) (m m' : M) (err cErr : option error) :
  ParseItems fs f = inr items →
  (∀ vs v m e v' m', compile vs f v m = Done (e, v', m') → v' = v ∨ v' = AddUpdatedSchemafiles v f) →
  updateProjectConfigBySchemafile add_watch get_config gnv save compile fs f u m = Done (err, cErr, u', m') →
  (∀ compiled : M → nat, leaves add_watch get_config gnv save compiled →
     (∀ vs v m e v' m', compile vs f v m = Done (e, v', m') → compiled m' = S (compiled m)) → compiled m' = S (compiled m))
  ∧ (∃ vs v m1 v' nodes, compile vs f v m1 = Done (err, v', m') ∧ u' = AddUpdatedNodes v' nodes
     ∧ (∀ n, is_Some (vs !! n) → n ∈ items)
     ∧ (cErr = None → ∀ n, list.last items = Some n → is_Some (vs !! n))
     ∧ (Forall (item_answers get_config gnv save f) items → cErr = None ∧ ∀ n, n ∈ items → is_Some (vs !! n)))
  ∧ (∀ n, n ∈ updatedNodes u ∨ (n ∈ items ∧ n ∉ default [] (schemaToNodes u !! f)) → n ∈ updatedNodes u')
  ∧ (∀ n, n ∈ updatedNodes u' → n ∈ updatedNodes u ∨ n ∈ items).
Proof.
  intros Hp Hc H. unfold updateProjectConfigBySchemafile in H. rewrite Hp in H.
  destruct (UpdateSchemaNodes_old u f items) as (Hu & _ & Hn).
  destruct (UpdateSchemaNodesAndDiff u f items) as [newNodes0 u1]. cbn [fst snd] in *.
  destruct (schema_items _ _ _ _ _ _ _) as [p|] eqn:Ei; [|done]. cbn [mbind outcome_bind] in H.
  destruct (compile _ _ _ _) as [[[e u2] m2]|] eqn:Ec; [|done]. cbn [mbind outcome_bind fst snd] in H. injection H as <- <- <- <-.
  destruct (schema_items_adds _ _ _ _ _ _ _ _ Ei) as (I1 & I2 & _ & I4 & I5). cbn [newNodes itemValues] in *.
  assert (updatedNodes u2 = updatedNodes u) as Hu2.
  { rewrite <- Hu. by destruct (Hc _ _ _ _ _ _ Ec) as [-> | ->]. }
  split_and!.
  - intros compiled Hl Hone. rewrite (Hone _ _ _ _ _ _ Ec). f_equal. exact (schema_items_leave _ _ _ _ _ _ _ _ _ Hl Ei).
  - exists (itemValues p), u1, (spWorld p), u2, (newNodes p). split_and!; [done|done| |by intros He n Hl; apply I5|].
    + intros n [Hs|Hs]%I4; [|done]. rewrite lookup_empty in Hs. by destruct Hs.
    + intros Ha. destruct (schema_items_answer add_watch get_config gnv save f items (mkSchemaProgress ∅ newNodes0 None m) Ha eq_refl)
        as (p2 & E2 & He & Hall). rewrite Ei in E2. by injection E2 as <-.
  - intros n Hin. rewrite AddUpdatedNodes_elem, Hu2. destruct Hin as [Hin|Hin]; [by left|]. right. apply I1. by apply Hn.
  - intros n. rewrite AddUpdatedNodes_elem, Hu2. intros [Hin|[Hin|Hin]%I2]; [by left| |by right]. right. by apply Hn in Hin as [Hin _].
Qed.

(** When an edited schema file is tried again: a goroutine whose request was
    not the last one leaves no trace, even of a failed update; otherwise the file is
    queued for a recheck exactly when an error is reported, which a file that cannot
    be parsed or compiled always has and an update whose sources all answer has
    not. *)
Theorem schema_update_recheck {M} run_callback exec_command add_watch get_config gnv save compile (fs : FileSystem) (cfg : settings)
    (granted : bool) (f : str) (u u' : Updated) (m m' : M) (err cErr : option error) (rep : schema_report) :
  updateProjectConfigBySchemafile add_watch get_config gnv save compile fs f u m = Done (err, cErr, u', m') →
  after_schema_update run_callback exec_command granted cfg f err cErr u' m' = Done rep →
  (granted = false → queued rep = [] ∧ saved rep = None ∧ rUpdated rep = u' ∧ rWorld rep = m')
  ∧ (granted = true → ∃ sErr cbs scs, saved rep = Some (sErr, cbs, scs)
       ∧ (queued rep = [f] ↔ sErr ≠ None)
       ∧ (err ≠ None → sErr ≠ None ∧ cbs = None ∧ scs = None)
       ∧ (∀ e, ParseItems fs f = inl e → sErr ≠ None)
       ∧ (∀ items, ParseItems fs f = inr items → Forall (item_answers get_config gnv save f) items →
            (∀ vs v m, ∃ v' m', compile vs f v m = Done (None, v', m')) → sErr = None ∧ queued rep = [])).
Proof.
  intros Hu Ha. unfold after_schema_update in Ha. destruct granted; cbn [negb] in Ha; [|by injection Ha as <-].
  split; [done|]. intros _.
  destruct (match err with None => _ | Some _ => _ end) as [[[[cbs scs] u2] m2]|] eqn:Er; [|done].
  cbn [mbind outcome_bind] in Ha. injection Ha as <-. cbn [saved queued].
  exists (match err_list err cErr with [] => None | _ => Some (list_text (err_list err cErr)) end), cbs, scs.
  split; [done|]. split; [by destruct (err_list err cErr)|]. split; [|split].
  - intros He. destruct err as [e|]; [|done]. by injection Er as <- <- _ _.
  - intros e He. unfold updateProjectConfigBySchemafile in Hu. rewrite He in Hu. by injection Hu as <- <- _ _.
  - intros items Hi Hall Hc. unfold updateProjectConfigBySchemafile in Hu. rewrite Hi in Hu.
    destruct (UpdateSchemaNodesAndDiff u f items) as [newNodes0 u1].
    destruct (schema_items_answer add_watch get_config gnv save f items (mkSchemaProgress ∅ newNodes0 None m) Hall eq_refl) as (p & Ep & He & _).
    rewrite Ep in Hu. cbn [mbind outcome_bind] in Hu. destruct (Hc (itemValues p) u1 (spWorld p)) as (v' & m1 & Ec).
    rewrite Ec in Hu. cbn [mbind outcome_bind fst snd] in Hu. injection Hu as <- <- _ _. by rewrite He.
Qed.

(** The client's own [compile] changes the record of updates in no other way than
    [schema_update_nodes] allows. *)
Lemma compile_records fs value run raw write u f r :
  Compile.compile fs value run raw write u f = Done r → r.2 = u ∨ r.2 = AddUpdatedSchemafiles u f.
Proof.
  unfold Compile.compile. destruct (HasSuffix f $".schema.toml"); [intros [= <-]; by right|].
  destruct (HasSuffix f $".schema.php"); [|intros [= <-]; by left].
  destruct (compileSchemaFile _ _ _ _ _) as [x|]; [|done]. intros [= <-]. by right.
Qed.

(** ** Runs *)

(** A world that records the watched roots and the commands that were run. *)
Record demo := mkDemo { dWatched : list str; dRun : list (list str) }.

Definition demo_exec (name : str) (args : list str) (d : demo) : str * option str * demo :=
  ($"ok", None, mkDemo (dWatched d) (dRun d ++ [name :: args])).
Definition demo_callback (name : str) (d : demo) : outcome (str * option error * demo) :=
  Done ($"done", None, mkDemo (dWatched d) (dRun d ++ [[name]])).
Definition demo_watch (root : str) (d : demo) : bool * demo :=
  if InArrayString (dWatched d) root then (true, d) else (false, mkDemo (dWatched d ++ [root]) (dRun d)).
(** A local copy that is older than the server's value. *)
Definition demo_config (name f : str) (d : demo) : outcome (result (option str) * demo) := Done (inr (Some $"old"), d).
Definition demo_gnv (name f : str) (d : demo) : outcome (NewValue * demo) :=
  Done (if bool_decide (name = $"mq.host") then mkNewValue [] [] None false false false (Some $"timeout")
        else mkNewValue $"enc" $"plain" (Some $"new") true true false None, d).
Definition demo_save (name : str) (j : option str) (text : str) (d : demo) : outcome demo :=
  Done (mkDemo (dWatched d) (dRun d ++ [[$"save"; name]])).
Definition demo_compile (vs : gmap str (option str)) (f : str) (u : Updated) (d : demo) : outcome (option error * Updated * demo) :=
  Done (None, AddUpdatedSchemafiles u f, mkDemo (dWatched d) (dRun d ++ [map (fun kv => kv.1 ++ $"=" ++ default [] kv.2) (map_to_list vs)])).

Definition demo_fs (text : str) : FileSystem := mkFS (fun _ => inr text) (fun _ => inr []).
Definition demo_cfg : settings := mkSettings_ [$"ClearApc"] [$"/bin/notify -v"] [[$"reload"; $"/c/a.schema.php"]] [].
Definition nothing_updated : Updated := mkUpdated [] [] ∅.

Definition demo_update (text : str) : outcome (option error * option error * Updated * demo) :=
  updateProjectConfigBySchemafile demo_watch demo_config demo_gnv demo_save demo_compile (demo_fs text)
    $"/c/a.schema.php" nothing_updated (mkDemo [] []).

(** The second item of a root that was not watched is compiled from the local
    copy: the first one started the watch. *)
Example second_item_old :
  option_map (fun r => dRun r.2) (match demo_update (item_text $"db.a" ++ item_text $"db.b") with Done r => Some r | _ => None end)
  = Some [[$"save"; $"db.a"]; [$"db.b=old"; $"db.a=new"]].
Proof. vm_compute. reflexivity. Qed.

(** The error of an item is forgotten when a later item is found. *)
Example item_error_forgotten :
  match demo_update (item_text $"mq.host" ++ item_text $"db.a") with Done (err, cErr, _, _) => (err, cErr) | _ => (Some [], None) end
  = (None, None).
Proof. vm_compute. reflexivity. Qed.

(** The callbacks of a root update run although the request was refused. *)
Example callbacks_not_throttled :
  match after_root_update demo_callback demo_exec false demo_cfg true false (mkUpdated [$"/c/a.schema.php"] [$"db.a"; $"db.b"] ∅) (mkDemo [] [])
  with Done r => dRun r.2 | _ => [] end
  = [[$"ClearApc"]; [$"/bin/notify"; $"-v"; $"db.a,db.b"]; [$"reload"; $"db.a,db.b"]].
Proof. vm_compute. reflexivity. Qed.

(** A blank script: without updated nodes the process ends, with nodes it runs
    their names as a program. *)
Example blank_script :
  match invokeCallbackScripts demo_exec [[]] [] nothing_updated (mkDemo [] []) with Panic _ => true | _ => false end = true
  ∧ match invokeCallbackScripts demo_exec [[]] [] (mkUpdated [] [$"db.a"] ∅) (mkDemo [] []) with Done r => dRun r.2 | _ => [] end
    = [[$"db.a"]].
Proof. vm_compute. done. Qed.

Lemma scripts_run_witness :
  ∃ results, invokeCallbackScripts demo_exec [$"/bin/notify -v"] [[$"reload"; $"/c/a.schema.php"]; [$"other"; $"x"]]
      (mkUpdated [$"/c/a.schema.php"] [$"db.a"; $"db.b"] ∅) (mkDemo [] [])
    = Done (results, mkUpdated [] [] ∅, mkDemo [] [[$"/bin/notify"; $"-v"; $"db.a,db.b"]; [$"reload"; $"db.a,db.b"]]).
Proof.
  apply (scripts_run demo_exec [$"/bin/notify -v"] [[$"reload"; $"/c/a.schema.php"]; [$"other"; $"x"]]
           (mkUpdated [$"/c/a.schema.php"] [$"db.a"; $"db.b"] ∅) (mkDemo [] [])).
  - discriminate.
  - repeat constructor; discriminate.
  - repeat (apply Forall_cons; split; [|]) || idtac. all: repeat constructor.
Defined.

Definition demo_result : option error * option error * Updated * demo :=
  match demo_update (item_text $"db.a" ++ item_text $"db.b") with Done r => r | Panic _ => (None, None, nothing_updated, mkDemo [] []) end.

Lemma demo_answers n : n ∈ [$"db.a"; $"db.b"] → item_answers demo_config demo_gnv demo_save $"/c/a.schema.php" n.
Proof.
  intros Hn. split_and!; [by intros m; eexists _, _| |by intros j t m; eexists].
  intros m. eexists _, _. split; [reflexivity|].
  apply elem_of_cons in Hn as [->|[->|[]%not_elem_of_nil]%elem_of_cons]; reflexivity.
Qed.

Lemma schema_update_nodes_witness :
  ParseItems (demo_fs (item_text $"db.a" ++ item_text $"db.b")) $"/c/a.schema.php" = inr [$"db.a"; $"db.b"]
  ∧ $"db.b" ∈ updatedNodes demo_result.1.2.
Proof.
  split; [vm_compute; reflexivity|].
  refine (proj1 (proj2 (proj2 (schema_update_nodes demo_watch demo_config demo_gnv demo_save demo_compile
    (demo_fs (item_text $"db.a" ++ item_text $"db.b")) $"/c/a.schema.php" [$"db.a"; $"db.b"] nothing_updated demo_result.1.2
    (mkDemo [] []) demo_result.2 demo_result.1.1.1 demo_result.1.1.2 _ _ _))) $"db.b" _).
  - vm_compute. reflexivity.
  - intros vs v m e v' m' H. right. injection H as _ <- _. reflexivity.
  - vm_compute. reflexivity.
  - right. split; [right; left|apply not_elem_of_nil].
Defined.

Lemma schema_update_recheck_witness :
  match after_schema_update demo_callback demo_exec true demo_cfg $"/c/a.schema.php" None None demo_result.1.2 demo_result.2 with
  | Done rep => queued rep = [] ∧ length (dRun (rWorld rep)) = 5
  | Panic _ => False
  end.
Proof.
  assert (match after_schema_update demo_callback demo_exec true demo_cfg $"/c/a.schema.php" None None demo_result.1.2 demo_result.2
          with Done rep => length (dRun (rWorld rep)) | Panic _ => 0 end = 5) as Hl by (vm_compute; reflexivity).
  destruct (after_schema_update _ _ _ _ _ _ _ _ _) as [rep|] eqn:E; [|discriminate Hl]. split; [|exact Hl].
  destruct (schema_update_recheck demo_callback demo_exec demo_watch demo_config demo_gnv demo_save demo_compile
    (demo_fs (item_text $"db.a" ++ item_text $"db.b")) demo_cfg true $"/c/a.schema.php" nothing_updated demo_result.1.2
    (mkDemo [] []) demo_result.2 None None rep ltac:(vm_compute; reflexivity) E) as [_ H].
  destruct (H eq_refl) as (sErr & cbs & scs & _ & _ & _ & _ & Hok).
  apply (Hok [$"db.a"; $"db.b"]).
  - vm_compute. reflexivity.
  - apply List.Forall_forall. intros n Hn%list_elem_of_In. by apply demo_answers.
  - intros vs v m. eexists _, _. reflexivity.
Defined.
