(* ===== verification/System.v ===== *)
(** * The running client: requests, updates and restarts together

    Composes [Handler], [ProjConfig], [NewValue], [Update] and [Compile] into one
    process: threads that have read their sources and still have writes to do are
    interleaved with each other, with publications on the server and with
    restarts.

    [system_refines]: whatever the interleaving, the client answers only what was
    published for the name (the specification [spec_step]).  [GetConfig_split],
    [Process_answer]: reads followed by writes are the functions of the other
    files.  [update_then_answer]: when nothing else runs, a request after an
    update is answered with what the server holds.  [stale_after_race]: a request
    that overlaps an update can leave the old value in memory, where later updates
    do not replace it. *)

From S2P Require Import Prelude GoLib GoFmt Util Regex Schema Json Encrypt Storage ProjConfig NewValue Callbacks Watcher Registry Compile Update PostUpdate Handler.

(** ** Writes *)

(** [db.Conn.Put] of an update, [SaveToDisk] and [StoreToMem]. *)
Inductive write :=
| ToDisk (name stored : str)
| Save (name plain : str)
| ToMem (name : str) (v : option str).

Section system.
Context (json_error base64_error : str → error) (print_json : json → str)
  (print_float : Z * Z → str) (print_ver : option json → str).
Context {D : Type} `{!LocalDisk D}.
Context (TomlValueToJson : str → result (option str)).

Abbreviation from_server := (GetFromServer json_error base64_error print_json print_float print_ver).
Abbreviation get_config := (GetConfig json_error base64_error print_json print_float print_ver TomlValueToJson).
Abbreviation handle := (Process json_error base64_error print_json print_float print_ver TomlValueToJson).
Abbreviation World := (world D).

Definition run_write (cfg : Settings) (open_err : option error) (w : World) (x : write) : outcome World :=
  match x with
  | ToDisk name stored =>
      match open_err with
      | Some _ => Done w
      | None => Done (mkWorld (mem w) (disk_Put (disk w) name stored).2)
      end
  | Save name plain => r ← SaveToDisk cfg open_err (disk w) name plain; Done (mkWorld (mem w) r.2)
  | ToMem name v => Done (mkWorld (Mem.StoreToMem (mem w) name v) (disk w))
  end.

Fixpoint run_writes (cfg : Settings) (open_err : option error) (w : World) (l : list write) : outcome World :=
  match l with
  | [] => Done w
  | x :: l => w ← run_write cfg open_err w x; run_writes cfg open_err w l
  end.

(** ** Reads: a request and an update up to their writes *)

(** [GetConfig] without a debug value: the answer, the writes that precede it,
    and the world after the reads. *)
Definition config_reads (e : environment) (w : World) (name : str)
    : outcome (result (option str) * list write * World) :=
  match Mem.GetFromMem (mem w) name with
  | Some re => Done (inr (Some re), [], w)
  | None =>
      if fetch e then
        fromDisk ← GetFromDisk (settings e) (open_err e) (disk w) name;
        let w := mkWorld (mem w) fromDisk.2 in
        got ← (match fromDisk.1 with
               | inr re => Done (inr re, [])
               | inl _ =>
                   s ← from_server (settings e) (conn e) (root e) name;
                   Done (s, match s with inl _ => [] | inr re => [Save name re] end)
               end);
        let '(r, saves) := got in
        match r with
        | inl _ => Done (inl ($"Failed to get config[" ++ name ++ $"] by any means!"), saves, w)
        | inr re =>
            match TomlValueToJson re with
            | inl err => Done (inl err, saves, w)
            | inr j => Done (inr j, saves ++ [ToMem name j], w)
            end
        end
      else Done (inl ($"Failed to get config[" ++ name ++ $"] by any means after a waiting!"), [], w)
  end.

(** [GetNewValueOfConfig] with its sources. *)
Definition new_value_now (e : environment) (name : str) (w : World) : outcome (NewValue * World) :=
  old ← GetFromDisk (settings e) (open_err e) (disk w) name;
  r ← GetNewValueOfConfig TomlValueToJson (settings e) name (Done old.1) (Done (debug e))
        (from_server (settings e) (conn e) (root e) name) (mem w);
  Done (r.1, mkWorld r.2 old.2).

(** [Process] of a request for [name] outside DEV mode: the answer, the writes before it and the
    writes of the goroutine it starts. *)
Definition request (e : environment) (p : process) (name : str)
    : outcome (result (option str) * list write * list write * process) :=
  match TouchDynamicNode (RunAsBi e) (open_err e) (disk (store p)) (watches p) name (now e) with
  | (hasBeenWatching, ws, d) =>
      let w := mkWorld (mem (store p)) d in
      if hasBeenWatching then
        r ← config_reads e w name;
        let '(re, own, w) := r in Done (re, own, [], mkProcess w ws)
      else
        r ← new_value_now e name w;
        let v := r.1 in
        let p := mkProcess r.2 ws in
        match cErr v with
        | Some err => Done (inl err, [], [], p)
        | None =>
            Done (inr (valueSerialized v), [],
              if negb (isDebugValue v) && hasUpdate v then [ToMem name (valueSerialized v); Save name (valuePlain v)] else [], p)
        end
  end.

(** ** The files a compilation reads and writes *)

(** What an update uses besides: the files, the [php] program, the errors of
    writing targets and the directories of schema files. *)
Record site := mkSite {
  env : environment;
  site_fs : FileSystem;
  php : str → str → tool;
  write_err : str → option error;
  site_dirs : list str }.

(** The process with the compiled files and the updated schema files of
    callbacks. *)
Record host := mkHost {
  proc_world : World;
  files : gmap str str;
  callbacks_state : Updated }.

(** The values of the items of a PHP template: new ones, or [GetConfig]. *)
Fixpoint item_values (e : environment) (vs : gmap str (option str)) (w : World) (items : list str)
    : outcome (gmap str (result str) * World) :=
  match items with
  | [] => Done (∅, w)
  | i :: rest =>
      match vs !! i with
      | Some v => r ← item_values e vs w rest; Done (<[i := inr (default [] v)]> r.1, r.2)
      | None =>
          c ← get_config (settings e) (open_err e) (conn e) (root e) None (Some (fetch e)) w i;
          r ← item_values e vs c.2 rest;
          Done (<[i := (match c.1 with inl err => inl err | inr v => inr (default [] v) end)]> r.1, r.2)
      end
  end.

(** The raw texts of the nodes of a TOML template: [GetNewValueOfConfig] puts
    those that are not there into memory. *)
Fixpoint fetch_raw (e : environment) (w : World) (nodes : list str) : outcome World :=
  match nodes with
  | [] => Done w
  | n :: rest =>
      match Mem.GetRawConfig (mem w) n with
      | inr _ => fetch_raw e w rest
      | inl _ => r ← new_value_now e n w; fetch_raw e r.2 rest
      end
  end.

(** The nodes of the lines that are not sections, in order. *)
Definition toml_nodes (text : str) : list str :=
  concat (map (fun line =>
    let line := TrimSpace line in
    if negb (bool_decide (FindString sectionFinder line = [])) then []
    else map (fun m => Trim m mark_cutset) (FindAllStringN configFinder line 1000)) (lines_of text)).

Definition raw_text (m : Mem.Mem) (n : str) : option str :=
  match Mem.GetRawConfig m n with inr x => Some x | inl _ => None end.

Definition compile_now (t : site) (vs : gmap str (option str)) (path : str) (h : host)
    : outcome (option error * host) :=
  let e := env t in
  items ← (if HasSuffix path $".schema.php" then
             match ParseItems (site_fs t) path with
             | inl _ => Done (∅, proc_world h)
             | inr items => item_values e vs (proc_world h) items
             end
           else Done (∅, proc_world h));
  w ← (if HasSuffix path $".schema.toml" then
         match ReadFile (site_fs t) path with
         | inl _ => Done items.2
         | inr text => fetch_raw e items.2 (toml_nodes text)
         end
       else Done items.2);
  r ← compile (site_fs t) (fun i => default (inl []) (items.1 !! i)) (php t) (raw_text (mem w)) (write_err t path)
        (callbacks_state h) path;
  let '(err, out, u) := r in
  Done (err, mkHost w (match out with Some (f, x) => <[f := x]> (files h) | None => files h end) u).

(** [updateProjectConfigByRootNode] up to its writes to the database and memory. *)
Definition update_reads (t : site) (registered : list str) (configRoot : str) (forceCompile : bool) (h : host)
    : outcome (effects (M := host)) :=
  let e := env t in
  updateProjectConfigByRootNode (site_fs t)
    (fun n _ h => r ← new_value_now e n (proc_world h); Done (r.1, mkHost r.2 (files h) (callbacks_state h)))
    (compile_now t) (DEVMODE (settings e)) (ENCRYPT_ENABLE (settings e))
    (match open_err e with None => true | Some _ => false end) (site_dirs t) registered configRoot forceCompile h.

Definition disk_writes (l : list (str * str)) : list write := map (fun kv => ToDisk kv.1 kv.2) l.
Definition mem_writes (l : list (str * option str)) : list write := map (fun kv => ToMem kv.1 kv.2) l.

(** ** The client over time *)

(** A request that has read its sources and its answer; one that waits in
    [getLockOfSrv] while another goroutine fetches the name; the goroutine of a first
    request; an update with the names it found changed, which holds the update
    lock until it is finished. *)
Inductive thread :=
| Answering (ws : list write) (name : str) (r : result (option str))
| Waiting (name : str)
| Storing (ws : list write)
| Updating (ws : list write) (nodes : list str).

(** [history] holds the documents published on the server, by path. *)
Record sys := mkSys {
  client : process (D := D);
  compiled : gmap str str;
  callback_nodes : Updated;
  threads : list thread;
  history : list (str * str) }.

Inductive event :=
| Published (path raw : str)
| Answered (name : str) (r : result (option str)).

(** [Write]: the first write of a thread.  [Wake]: a waiting request looks into memory
    again.  [UpdateSchema]: the whole update of a schema file.  [StartUpdate] has the names of the
    registered configurations and the entries of the two maps in the orders they
    are ranged over.  [Restart] is also the end of a process that panics. *)
Inductive move :=
| Publish (path raw : str)
| Request (e : environment) (name : str)
| Write (e : environment) (i : nat)
| Finish (i : nat)
| Wake (i : nat)
| UpdateSchema (t : site) (schemafile : str)
| StartUpdate (t : site) (registered : list str) (configRoot : str) (forceCompile : bool)
    (dw : list (str * str)) (mw : list (str * option str))
| Restart.

Definition is_updating (t : thread) : bool := match t with Updating _ _ => true | _ => false end.

Definition next_write (t : thread) : option (write * thread) :=
  match t with
  | Answering (x :: ws) name r => Some (x, Answering ws name r)
  | Storing (x :: ws) => Some (x, Storing ws)
  | Updating (x :: ws) nodes => Some (x, Updating ws nodes)
  | _ => None
  end.

Definition host_of (s : sys) : host := mkHost (store (client s)) (compiled s) (callback_nodes s).

(** The request has found nothing in memory, and another goroutine is fetching the
    name ([fetch e] is false). *)
Definition waits (e : environment) (p : process) (name : str) : bool :=
  negb (fetch e) && (TouchDynamicNode (RunAsBi e) (open_err e) (disk (store p)) (watches p) name (now e)).1.1
  && bool_decide (Mem.GetFromMem (mem (store p)) name = None).

(** [updateProjectConfigBySchemafile] on the client: what [AddToWatchList],
    [GetConfig] without the lock of the server, [GetNewValueOfConfig], the two saves
    and [compile] do to the process and the compiled files. *)
Definition update_schema_now (t : site) (schemafile : str) (u : Updated) (m : process * gmap str str)
    : outcome (option error * option error * Updated * (process * gmap str str)) :=
  let e := env t in
  updateProjectConfigBySchemafile
    (fun root m => let '(b, ws) := AddToWatchList (watches m.1) root in (b, (mkProcess (store m.1) ws, m.2)))
    (fun n _ m => r ← get_config (settings e) (open_err e) (conn e) (root e) None None (store m.1) n;
                  Done (r.1, (mkProcess r.2 (watches m.1), m.2)))
    (fun n _ m => r ← new_value_now e n (store m.1); Done (r.1, (mkProcess r.2 (watches m.1), m.2)))
    (fun n j text m => w ← run_writes (settings e) (open_err e) (store m.1) [ToMem n j; Save n text];
                       Done (mkProcess w (watches m.1), m.2))
    (fun vs f u m => r ← compile_now t vs f (mkHost (store m.1) m.2 u);
                     Done (r.1, callbacks_state r.2, (mkProcess (proc_world r.2) (watches m.1), files r.2)))
    (site_fs t) schemafile u m.

Definition exec (s : sys) (m : move) : option (sys * list event) :=
  match m with
  | Publish path raw =>
      Some (mkSys (client s) (compiled s) (callback_nodes s) (threads s) ((path, raw) :: history s), [Published path raw])
  | Request e name =>
      match request e (client s) name with
      | Done (r, own, later, p) =>
          Some (mkSys p (compiled s) (callback_nodes s)
                  (threads s ++ (if waits e (client s) name then Waiting name else Answering own name r)
                               :: match later with [] => [] | _ => [Storing later] end) (history s), [])
      | Panic _ => None
      end
  | Wake i =>
      match threads s !! i with
      | Some (Waiting name) =>
          let r := match Mem.GetFromMem (mem (store (client s))) name with
                   | Some re => inr (Some re)
                   | None => inl ($"Failed to get config[" ++ name ++ $"] by any means after a waiting!")
                   end in
          Some (mkSys (client s) (compiled s) (callback_nodes s) (<[i := Answering [] name r]> (threads s)) (history s), [])
      | _ => None
      end
  | UpdateSchema t schemafile =>
      if existsb is_updating (threads s) then None
      else
        match update_schema_now t schemafile (callback_nodes s) (client s, compiled s) with
        | Done (_, _, u, (p, files)) => Some (mkSys p files u (threads s) (history s), [])
        | Panic _ => None
        end
  | Write e i =>
      match threads s !! i with
      | Some t =>
          match next_write t with
          | Some (x, t) =>
              match run_write (settings e) (open_err e) (store (client s)) x with
              | Done w =>
                  Some (mkSys (mkProcess w (watches (client s))) (compiled s) (callback_nodes s)
                          (<[i := t]> (threads s)) (history s), [])
              | Panic _ => None
              end
          | None => None
          end
      | None => None
      end
  | Finish i =>
      let rest u := mkSys (client s) (compiled s) u (delete i (threads s)) (history s) in
      match threads s !! i with
      | Some (Answering [] name r) => Some (rest (callback_nodes s), [Answered name r])
      | Some (Storing []) => Some (rest (callback_nodes s), [])
      | Some (Updating [] nodes) => Some (rest (AddUpdatedNodes (callback_nodes s) nodes), [])
      | _ => None
      end
  | StartUpdate t registered configRoot forceCompile dw mw =>
      if existsb is_updating (threads s)
         || negb (bool_decide (registered ≡ₚ map fst (map_to_list (registeredNodes (watches (client s)))))) then None
      else
        match update_reads t registered configRoot forceCompile (host_of s) with
        | Done eff =>
            if bool_decide (dw ≡ₚ map_to_list (to_disk eff)) && bool_decide (mw ≡ₚ map_to_list (to_mem eff)) then
              let h := world_ (last eff) in
              Some (mkSys (mkProcess (proc_world h) (watches (client s))) (files h) (callbacks_state h)
                      (threads s ++ [Updating (disk_writes dw ++ mem_writes mw) (updated_nodes eff)]) (history s), [])
            else None
        | Panic _ => None
        end
  | Restart =>
      Some (mkSys (mkProcess (mkWorld (Mem.mkMem ∅ ∅) (disk (store (client s)))) no_watches) (compiled s)
              (mkUpdated [] [] ∅) [] (history s), [])
  end.

(** ** Reads and writes are the functions of the other files *)

(** [GetConfig] is its reads followed by its writes. *)
Lemma GetConfig_split (e : environment) (w : World) (name : str) :
  get_config (settings e) (open_err e) (conn e) (root e) None (Some (fetch e)) w name =
    (r ← config_reads e w name;
     let '(re, own, w) := r in w ← run_writes (settings e) (open_err e) w own; Done (re, w)).
Proof.
  unfold GetConfig, config_reads. destruct (Mem.GetFromMem (mem w) name); [done|].
  destruct (fetch e); [|done]. unfold load_config.
  destruct (GetFromDisk _ _ _ _) as [[[err|re] d]|]; cbn [mbind outcome_bind fst snd mem disk];
    [|by destruct (TomlValueToJson re) as [?|j]; cbn [mbind outcome_bind app run_writes run_write mem disk]|done].
  destruct (from_server _ _ _ _) as [[err2|re]|]; cbn [mbind outcome_bind]; [done| |done].
  destruct (SaveToDisk (settings e) (open_err e) d name re) as [saved|] eqn:Es; cbn [mbind outcome_bind];
    destruct (TomlValueToJson re) as [err3|j];
    cbn [mbind outcome_bind run_writes run_write app mem disk]; rewrite Es; by cbn [mbind outcome_bind mem disk].
Qed.

(** Without the lock of the server [GetConfig] is that of a goroutine that fetches. *)
Definition fetching (e : environment) : environment :=
  mkEnv (settings e) (RunAsBi e) (open_err e) (conn e) (root e) (debug e) true (now e).

Lemma GetConfig_no_lock (e : environment) (w : World) (name : str) :
  get_config (settings e) (open_err e) (conn e) (root e) None None w name =
    (r ← config_reads (fetching e) w name;
     let '(re, own, w) := r in w ← run_writes (settings e) (open_err e) w own; Done (re, w)).
Proof. exact (GetConfig_split (fetching e) w name). Qed.

Lemma Process_answer (e : environment) (p : process) (name : str) :
  DEVMODE (settings e) = false →
  handle e p (name_args name) =
    (r ← request e p name;
     let '(re, own, later, p') := r in
     w ← run_writes (settings e) (open_err e) (store p') own;
     Done (re, mkProcess w (watches p'),
       match later with ToMem _ v :: Save _ plain :: _ => Some (name, v, plain) | _ => None end)).
Proof.
  intros Hdev. unfold Process, request, name_args. cbn [member]. rewrite bool_decide_eq_true_2 by done.
  cbn [as_string mbind outcome_bind]. destruct (TouchDynamicNode _ _ _ _ _ _) as [[[] ws] d].
  - rewrite Hdev, GetConfig_split. destruct (config_reads _ _ _) as [[[re own] w]|]; [|done].
    cbn [mbind outcome_bind store watches]. by destruct (run_writes _ _ _ _) as [w'|].
  - unfold new_value_now. cbn [disk mem]. destruct (GetFromDisk _ _ _ _) as [old|]; [|done].
    cbn [mbind outcome_bind]. destruct (GetNewValueOfConfig _ _ _ _ _ _ _) as [[v m]|]; [|done].
    cbn [mbind outcome_bind fst snd]. destruct (cErr v); [done|]. by destruct (negb _ && _).
Qed.

(** ** The specification: only what was published is answered *)

Section spec.
Context (cfg : Settings) (rt : str).

Abbreviation content := (server_content json_error base64_error print_json print_float print_ver cfg).

(** A text of the name in a document published for it, possibly without the
    trailing zero bytes that local encryption drops. *)
Definition published_text (h : list (str * str)) (name t : str) : Prop :=
  ∃ raw text, (Zk.CN2P rt name, raw) ∈ h ∧ content name raw = Done (inr text) ∧ (t = text ∨ t = strip_zeros text).

Definition published_value (h : list (str * str)) (name : str) (j : option str) : Prop :=
  ∃ t, published_text h name t ∧ TomlValueToJson t = inr j.

(** The name is not the key under which the registered names are stored. *)
Definition may_answer (h : list (str * str)) (name : str) (r : result (option str)) : Prop :=
  match r with
  | inl _ => True
  | inr j => name ≠ KEY_NAME_OF_STORE_DYNAMIC_REG_CONF_NODES → published_value h name j
  end.

(** The state of the specification is the history of publications. *)
Inductive spec_step : list (str * str) → event → list (str * str) → Prop :=
| spec_publish h path raw : spec_step h (Published path raw) ((path, raw) :: h)
| spec_answer h name r : may_answer h name r → spec_step h (Answered name r) h.

Inductive spec_runs : list (str * str) → list event → list (str * str) → Prop :=
| spec_nil h : spec_runs h [] h
| spec_cons h ev h1 l h2 : spec_step h ev h1 → spec_runs h1 l h2 → spec_runs h (ev :: l) h2.

(** The environment of a move: the settings of the process, and a server that
    answers an error, nothing, or a document that was published. *)
Definition env_ok (h : list (str * str)) (e : environment) : Prop :=
  settings e = cfg ∧ root e = rt
  ∧ ∀ get path raw, conn e = inr (Some get) → get path = inr raw → raw = [] ∨ (path, raw) ∈ h.

Definition move_ok (s : sys) (m : move) : Prop :=
  match m with
  | Request e _ => env_ok (history s) e
  | Write e _ => settings e = cfg
  | UpdateSchema t _ | StartUpdate t _ _ _ _ _ => env_ok (history s) (env t)
  | _ => True
  end.

Inductive runs : sys → list event → sys → Prop :=
| runs_nil s : runs s [] s
| runs_move s m s1 l l' s2 : move_ok s m → exec s m = Some (s1, l) → runs s1 l' s2 → runs s (l ++ l') s2.

End spec.

End system.
Arguments sys D : clear implicits.
Arguments host D : clear implicits.

(** ** A database that holds only what was put *)

(** What the client relies on besides [LocalDisk]: a value that is read was put
    under the key or was there before. *)
Class HonestDisk (D : Type) `{!LocalDisk D} := {
  disk_holds : D → str → str → Prop;
  disk_Get_holds d k r d' : disk_Get d k = (r, d') →
    (∀ v, r = inr v → disk_holds d k v) ∧ ∀ k' v, disk_holds d' k' v → disk_holds d k' v;
  disk_Put_holds d k v e d' : disk_Put d k v = (e, d') →
    ∀ k' x, disk_holds d' k' x → disk_holds d k' x ∨ (k' = k ∧ x = v) }.

#[export] Instance map_disk_honest : HonestDisk (gmap str str).
Proof.
  refine {| disk_holds := fun d k v => d !! k = Some v |}.
  - intros d k r d' [= <- <-]. split; [|done]. intros v. destruct (d !! k); by intros [= ->].
  - intros d k v e d' [= <- <-] k' x. destruct (decide (k = k')) as [->|Hne].
    + rewrite lookup_insert_eq. naive_solver.
    + rewrite lookup_insert_ne by done. by left.
Defined.

(** ** Everything the client holds was published *)

Section refinement.
Context (json_error base64_error : str → error) (print_json : json → str)
  (print_float : Z * Z → str) (print_ver : option json → str).
Context {D : Type} `{!LocalDisk D, !HonestDisk D}.
Context (TomlValueToJson : str → result (option str)).
Context (cfg : Settings) (rt : str).
Hypothesis cfg_ok : encryptor_ok cfg.
Hypothesis not_dev : DEVMODE cfg = false.

Abbreviation key := KEY_NAME_OF_STORE_DYNAMIC_REG_CONF_NODES.
Abbreviation text_ok := (published_text json_error base64_error print_json print_float print_ver cfg rt).
Abbreviation answer_ok := (may_answer json_error base64_error print_json print_float print_ver TomlValueToJson cfg rt).
Abbreviation reads := (config_reads json_error base64_error print_json print_float print_ver TomlValueToJson).
Abbreviation new_value := (new_value_now json_error base64_error print_json print_float print_ver TomlValueToJson).
Abbreviation compiling := (compile_now json_error base64_error print_json print_float print_ver TomlValueToJson).
Abbreviation execute := (exec json_error base64_error print_json print_float print_ver TomlValueToJson).
Abbreviation server := (GetFromServer json_error base64_error print_json print_float print_ver).
Abbreviation ok_env := (env_ok cfg rt).

(** An entry of the database decodes to a text of its name. *)
Definition stored_ok (h : list (str * str)) (name stored : str) : Prop :=
  name ≠ key →
  if ENCRYPT_ENABLE cfg then ∀ plain, Decrypt (GetEncryptor cfg) stored = Done (inr plain) → text_ok h name plain
  else text_ok h name stored.

Definition value_ok (h : list (str * str)) (name : str) (v : option str) : Prop := answer_ok h name (inr v).

Definition world_ok (h : list (str * str)) (w : world D) : Prop :=
  (∀ name stored, disk_holds (disk w) name stored → stored_ok h name stored)
  ∧ ∀ name j, Mem.GetFromMem (mem w) name = Some j → value_ok h name (Some j).

Definition write_ok (h : list (str * str)) (x : write) : Prop :=
  match x with
  | ToDisk name stored => stored_ok h name stored
  | Save name plain => name ≠ key → text_ok h name plain
  | ToMem name v => value_ok h name v
  end.

Definition thread_ok (h : list (str * str)) (t : thread) : Prop :=
  match t with
  | Answering ws name r => Forall (write_ok h) ws ∧ answer_ok h name r
  | Waiting _ => True
  | Storing ws | Updating ws _ => Forall (write_ok h) ws
  end.

Definition sys_ok (s : sys D) : Prop :=
  world_ok (history s) (store (client s)) ∧ Forall (thread_ok (history s)) (threads s).

(** *** The longer history *)

Lemma text_mono h h' name t : h ⊆ h' → text_ok h name t → text_ok h' name t.
Proof. intros Hh (raw & text & Hin & H). exists raw, text. split; [by apply Hh|done]. Qed.

Lemma value_mono h h' name v : h ⊆ h' → value_ok h name v → value_ok h' name v.
Proof. intros Hh H Hn. destruct (H Hn) as (t & Ht & Hj). exists t. split; [by eapply text_mono|done]. Qed.

Lemma stored_mono h h' name x : h ⊆ h' → stored_ok h name x → stored_ok h' name x.
Proof.
  intros Hh H Hn. specialize (H Hn). destruct (ENCRYPT_ENABLE cfg); [|by eapply text_mono].
  intros p Hp. eapply text_mono; [exact Hh|auto].
Qed.

Lemma write_mono h h' x : h ⊆ h' → write_ok h x → write_ok h' x.
Proof.
  intros Hh. destruct x as [n x|n x|n v]; cbn [write_ok].
  - by apply stored_mono.
  - intros H Hn. eapply text_mono; [exact Hh|auto].
  - by apply value_mono.
Qed.

Lemma thread_mono h h' t : h ⊆ h' → thread_ok h t → thread_ok h' t.
Proof.
  intros Hh. assert (∀ ws, Forall (write_ok h) ws → Forall (write_ok h') ws) as Hw.
  { intros ws H. eapply Forall_impl; [exact H|]. intros x. by apply write_mono. }
  destruct t as [ws n [e|j]|n|ws|ws nodes]; cbn [thread_ok may_answer]; auto.
  - naive_solver.
  - intros [? ?]. split; [auto|]. by eapply value_mono.
Qed.

Lemma world_mono h h' w : h ⊆ h' → world_ok h w → world_ok h' w.
Proof.
  intros Hh [Hd Hm]. split.
  - intros n x Hx. eapply stored_mono; [exact Hh|auto].
  - intros n j Hj. eapply value_mono; [exact Hh|auto].
Qed.

(** *** The sources *)

Lemma strip_zeros_twice t : strip_zeros (strip_zeros t) = strip_zeros t.
Proof. apply strip_zeros_id. by destruct (strip_zeros_spec t) as (n & _ & ?). Qed.

Lemma text_strip h name t : text_ok h name t → text_ok h name (strip_zeros t).
Proof.
  intros (raw & text & Hin & Hc & Ht). exists raw, text. split_and!; [done|done|right].
  destruct Ht as [-> | ->]; [done|apply strip_zeros_twice].
Qed.

(** What local encryption makes of a text of the name. *)
Lemma stored_encrypted h name t e :
  ENCRYPT_ENABLE cfg = true → (name ≠ key → text_ok h name t) → Encrypt (GetEncryptor cfg) t = Done (inr e) →
  stored_ok h name e.
Proof.
  intros He Ht Henc Hn. rewrite He. intros plain Hp.
  destruct (Encrypt_roundtrip (GetEncryptor cfg) t (cfg_ok He)) as (e' & He' & _ & HD & _).
  rewrite Henc in He'. injection He' as <-. rewrite HD in Hp. injection Hp as <-. by apply text_strip, Ht.
Qed.

Lemma GetFromDisk_ok h oe (w : world D) name r d' :
  world_ok h w → GetFromDisk cfg oe (disk w) name = Done (r, d') →
  world_ok h (mkWorld (mem w) d') ∧ ∀ t, r = inr t → name ≠ key → text_ok h name t.
Proof.
  intros [Hd Hm] H. unfold GetFromDisk in H. destruct oe as [e|]; [injection H as <- <-; by split|].
  destruct (disk_Get (disk w) name) as [g d2] eqn:E. destruct (disk_Get_holds _ _ _ _ E) as [Hg Hh].
  assert (world_ok h (mkWorld (mem w) d2)) as Hw by (split; [intros n x Hx; apply Hd, Hh, Hx|exact Hm]).
  destruct g as [err|re]; [injection H as <- <-; by split|].
  specialize (Hd name re (Hg re eq_refl)). unfold stored_ok in Hd. destruct (ENCRYPT_ENABLE cfg).
  - destruct (Decrypt (GetEncryptor cfg) re) as [[err|plain]|]; [| |done]; injection H as <- <-; split; try done.
    intros t [= <-] Hn. by apply Hd.
  - injection H as <- <-. split; [done|]. intros t [= <-]. exact Hd.
Qed.

Lemma server_ok h e name t : ok_env h e → server cfg (conn e) (root e) name = Done (inr t) → text_ok h name t.
Proof.
  intros (_ & -> & Hc). unfold GetFromServer. destruct (conn e) as [err|[get|]]; [done| |done].
  destruct (get (Zk.CN2P rt name)) as [err|raw] eqn:Eg; [done|]. intros Ht.
  destruct (Hc get _ raw eq_refl Eg) as [->|Hin]; [discriminate Ht|].
  exists raw, t. split_and!; [done|done|by left].
Qed.

Lemma SaveToDisk_ok h oe (w : world D) name t r :
  world_ok h w → (name ≠ key → text_ok h name t) → SaveToDisk cfg oe (disk w) name t = Done r →
  world_ok h (mkWorld (mem w) r.2).
Proof.
  intros [Hd Hm] Ht H. unfold SaveToDisk in H. destruct oe as [e|]; [injection H as <-; by split|].
  assert (∀ x e d', stored_ok h name x → disk_Put (disk w) name x = (e, d') → world_ok h (mkWorld (mem w) d')) as Hput.
  { intros x e d' Hx Hp. split; [|done]. intros n y Hy.
    destruct (disk_Put_holds _ _ _ _ _ Hp n y Hy) as [?|[-> ->]]; auto. }
  destruct (ENCRYPT_ENABLE cfg) eqn:He.
  - destruct (Encrypt (GetEncryptor cfg) t) as [[err|e]|] eqn:Ee; [| |done]; injection H as <-; [by split|].
    destruct (disk_Put _ _ _) as [e' d'] eqn:Ep. eapply Hput; [|exact Ep]. by eapply stored_encrypted.
  - injection H as <-. destruct (disk_Put _ _ _) as [e' d'] eqn:Ep. eapply Hput; [|exact Ep].
    intros Hn. rewrite He. auto.
Qed.

Lemma run_write_ok h e w x w' :
  settings e = cfg → world_ok h w → write_ok h x → run_write (settings e) (open_err e) w x = Done w' → world_ok h w'.
Proof.
  intros -> Hw Hx H. destruct x as [n y|n t|n v]; cbn [run_write write_ok] in *.
  - destruct (open_err e); injection H as <-; [done|]. destruct Hw as [Hd Hm]. split; [|done].
    cbn [disk]. destruct (disk_Put _ _ _) as [e' d'] eqn:Ep. intros k z Hz.
    destruct (disk_Put_holds _ _ _ _ _ Ep k z Hz) as [?|[-> ->]]; auto.
  - destruct (SaveToDisk cfg (open_err e) (disk w) n t) as [r|] eqn:E; [|done]. injection H as <-.
    by eapply SaveToDisk_ok.
  - injection H as <-. destruct Hw as [Hd Hm]. split; [done|]. cbn [mem]. intros k j. unfold Mem.GetFromMem in *.
    cbn [Mem.memCachedProjectConfigs Mem.StoreToMem]. destruct (decide (n = k)) as [->|Hne].
    + rewrite lookup_insert_eq. cbn. by intros ->.
    + rewrite lookup_insert_ne by done. apply Hm.
Qed.

(** *** Requests *)

Lemma config_reads_ok h e w name re own w' :
  ok_env h e → world_ok h w → reads e w name = Done (re, own, w') →
  world_ok h w' ∧ Forall (write_ok h) own ∧ answer_ok h name re.
Proof.
  intros He Hw. unfold config_reads. destruct (Mem.GetFromMem (mem w) name) as [j|] eqn:Em.
  { intros [= <- <- <-]. split_and!; [done|constructor|]. exact (proj2 Hw name j Em). }
  destruct (fetch e); [|by intros [= <- <- <-]]. rewrite (proj1 He).
  destruct (GetFromDisk cfg _ _ _) as [[r d]|] eqn:Ed; [|done]. cbn [mbind outcome_bind fst snd].
  destruct (GetFromDisk_ok _ _ _ _ _ _ Hw Ed) as [Hw1 Ht].
  assert (∀ t, (name ≠ key → text_ok h name t) → ∀ saves, Forall (write_ok h) saves →
    (match TomlValueToJson t with
     | inl err => Done (inl err, saves, mkWorld (mem w) d)
     | inr j => Done (inr j, saves ++ [ToMem name j], mkWorld (mem w) d)
     end) = Done (re, own, w') → world_ok h w' ∧ Forall (write_ok h) own ∧ answer_ok h name re) as Hdone.
  { intros t Hok saves Hs. destruct (TomlValueToJson t) as [err|j] eqn:Ej; intros [= <- <- <-]; [done|].
    assert (value_ok h name j) as Hv by (intros Hn; exists t; auto).
    split_and!; [done| |done]. apply Forall_app. split; [done|]. by constructor. }
  destruct r as [err|t]; cbn [mbind outcome_bind].
  - destruct (server cfg (conn e) (root e) name) as [[err2|t]|] eqn:Es; [| |done];
      cbn [mbind outcome_bind].
    + intros [= <- <- <-]. split_and!; [done|constructor|done].
    + apply Hdone; [by eauto using server_ok|]. constructor; [|constructor]. cbn. eauto using server_ok.
  - apply Hdone; [by apply Ht|constructor].
Qed.

(** What a new value without an error says. *)
Definition new_ok (h : list (str * str)) (name : str) (v : NewValue) : Prop :=
  Encrypt (GetEncryptor cfg) (valuePlain v) = Done (inr (valueEncrypted v))
  ∧ (name ≠ key → text_ok h name (valuePlain v)) ∧ TomlValueToJson (valuePlain v) = inr (valueSerialized v).

Lemma choose_text old server :
  match choose TomlValueToJson old None server with
  | (p, checked, upd, dbg, None) => dbg = false ∧ ∃ t, (if checked then server else old) = inr t ∧ TomlValueToJson t = inr p
  | _ => True
  end.
Proof.
  unfold choose. repeat case_match; simplify_eq; try done; split; eauto.
Qed.

Lemma new_value_ok h e w name v w' :
  ok_env h e → world_ok h w → new_value e name w = Done (v, w') →
  world_ok h w' ∧ (cErr v = None → new_ok h name v).
Proof.
  intros He Hw. unfold new_value_now.
  rewrite !(proj1 He).
  destruct (GetFromDisk cfg _ _ _) as [[old d]|] eqn:Ed; [|done]. cbn [mbind outcome_bind fst snd]. destruct (GetFromDisk_ok _ _ _ _ _ _ Hw Ed) as [Hw1 Ht].
  unfold GetNewValueOfConfig. rewrite not_dev. cbn [mbind outcome_bind].
  destruct (server cfg (conn e) (root e) name) as [new|] eqn:Es; [|done]. cbn [mbind outcome_bind].
  pose proof (choose_text old new) as Hc. destruct (choose _ _ _ _) as [[[[p checked] upd] dbg] [err|]].
  { intros [= <- <-]. by split. }
  destruct Hc as [-> (t & Hsrc & Hj)].
  assert ((if checked then match new with inr x => x | inl _ => [] end else match old with inr x => x | inl _ => [] end) = t)
    as Hplain by (destruct checked; by rewrite Hsrc).
  destruct (Encrypt _ _) as [[err|enc]|] eqn:Ee; cbn [mbind outcome_bind]; intros [= <- <-]; (split; [exact Hw1|]); [done|].
  intros _. unfold new_ok. cbn [valuePlain valueEncrypted valueSerialized].
  cbn in *. rewrite Hplain in *. split_and!; [done| |done].
  destruct checked; subst; [intros _; by eauto using server_ok|by apply Ht].
Qed.

Lemma touch_ok h e p name hbw ws d :
  world_ok h (store p) → TouchDynamicNode (RunAsBi e) (open_err e) (disk (store p)) (watches p) name (now e) = (hbw, ws, d) →
  world_ok h (mkWorld (mem (store p)) d).
Proof.
  intros Hw. unfold TouchDynamicNode. destruct (touch _ _ _ _) as [[b s] save]. intros [= _ _ <-].
  destruct save; [|by destruct Hw]. unfold SaveRegisteredNodesToDisk. destruct (open_err e); [by destruct Hw|].
  cbn [snd]. destruct (disk_Put _ _ _) as [e' d'] eqn:Ep. destruct Hw as [Hd Hm]. split; [|done].
  intros n y Hy. destruct (disk_Put_holds _ _ _ _ _ Ep n y Hy) as [?|[-> ->]]; [auto|]. by intros Hn.
Qed.

Lemma request_ok h e p name re own later p' :
  ok_env h e → world_ok h (store p) →
  request json_error base64_error print_json print_float print_ver TomlValueToJson e p name = Done (re, own, later, p') →
  world_ok h (store p') ∧ Forall (write_ok h) own ∧ Forall (write_ok h) later ∧ answer_ok h name re.
Proof.
  intros He Hw. unfold request. destruct (TouchDynamicNode _ _ _ _ _ _) as [[hbw ws] d] eqn:Et.
  pose proof (touch_ok _ _ _ _ _ _ _ Hw Et) as Hw1. destruct hbw.
  - destruct (reads e _ name) as [[[r o] w]|] eqn:E; [|done]. cbn [mbind outcome_bind]. intros [= <- <- <- <-].
    destruct (config_reads_ok _ _ _ _ _ _ _ He Hw1 E) as (? & ? & ?). by split_and!.
  - destruct (new_value e name _) as [[v w]|] eqn:E; [|done]. cbn [mbind outcome_bind fst snd].
    destruct (new_value_ok _ _ _ _ _ _ He Hw1 E) as [Hw2 Hv]. destruct (cErr v) as [err|]; intros [= <- <- <- <-].
    { by split_and!. }
    destruct (Hv eq_refl) as (_ & Ht & Hj).
    assert (value_ok h name (valueSerialized v)) by (intros Hn; exists (valuePlain v); auto).
    split_and!; [done|done| |done]. destruct (_ && _); repeat constructor; done.
Qed.

(** *** Updates *)

Lemma run_writes_ok h e w l w' :
  settings e = cfg → world_ok h w → Forall (write_ok h) l → run_writes (settings e) (open_err e) w l = Done w' → world_ok h w'.
Proof.
  intros Hs. revert w. induction l as [|x l IH]; intros w Hw Hl H; cbn [run_writes] in H; [by simplify_eq|].
  apply Forall_cons in Hl as [Hx Hl]. destruct (run_write _ _ w x) as [w1|] eqn:E; [|done].
  cbn [mbind outcome_bind] in H. refine (IH w1 _ Hl H). by eapply run_write_ok.
Qed.

Lemma item_values_ok h e vs items w r :
  ok_env h e → world_ok h w →
  item_values json_error base64_error print_json print_float print_ver TomlValueToJson e vs w items = Done r →
  world_ok h r.2.
Proof.
  intros He. revert w r. induction items as [|i items IH]; intros w r Hw H; cbn [item_values] in H; [by simplify_eq|].
  destruct (vs !! i) as [v|].
  - destruct (item_values _ _ _ _ _ _ _ _ _ _) as [r1|] eqn:E; [|done]. injection H as <-. exact (IH _ _ Hw E).
  - rewrite GetConfig_split in H. destruct (reads e w i) as [[[re own] w1]|] eqn:Er; [|done].
    cbn [mbind outcome_bind] in H. destruct (config_reads_ok _ _ _ _ _ _ _ He Hw Er) as (Hw1 & Hown & _).
    destruct (run_writes _ _ _ _) as [w2|] eqn:Ew; [|done]. cbn [mbind outcome_bind fst snd] in H.
    pose proof (run_writes_ok _ _ _ _ _ (proj1 He) Hw1 Hown Ew) as Hw2.
    destruct (item_values _ _ _ _ _ _ _ _ _ _) as [r1|] eqn:E; [|done]. injection H as <-. exact (IH _ _ Hw2 E).
Qed.

Lemma fetch_raw_ok h e nodes w w' :
  ok_env h e → world_ok h w →
  fetch_raw json_error base64_error print_json print_float print_ver TomlValueToJson e w nodes = Done w' →
  world_ok h w'.
Proof.
  intros He. revert w. induction nodes as [|n nodes IH]; intros w Hw H; cbn [fetch_raw] in H; [by simplify_eq|].
  destruct (Mem.GetRawConfig (mem w) n) as [err|x]; [|by eapply IH].
  destruct (new_value e n w) as [[v w1]|] eqn:E; [|done]. cbn [mbind outcome_bind snd] in H.
  refine (IH _ _ H). by eapply new_value_ok.
Qed.

Lemma compile_now_ok h t vs path x r x' :
  ok_env h (env t) → world_ok h (proc_world x) → compiling t vs path x = Done (r, x') → world_ok h (proc_world x').
Proof.
  intros He Hw. unfold compile_now.
  match goal with |- context [?X ≫= _] => destruct X as [[its w1]|] eqn:E1 end; [|done].
  cbn [mbind outcome_bind fst snd].
  assert (world_ok h w1) as Hw1.
  { destruct (HasSuffix path $".schema.php"); [|by simplify_eq].
    destruct (ParseItems _ _) as [e|items]; [by simplify_eq|]. exact (item_values_ok _ _ _ _ _ _ He Hw E1). }
  match goal with |- context [?X ≫= _] => destruct X as [w2|] eqn:E2 end; [|done]. cbn [mbind outcome_bind].
  assert (world_ok h w2) as Hw2.
  { destruct (HasSuffix path $".schema.toml"); [|by simplify_eq].
    destruct (ReadFile _ _) as [e|text]; [by simplify_eq|]. exact (fetch_raw_ok _ _ _ _ _ He Hw1 E2). }
  destruct (compile _ _ _ _ _ _ _) as [[[err out] u]|]; [|done]. cbn [mbind outcome_bind]. by intros [= _ <-].
Qed.

Lemma update_reads_ok h t registered root force x eff :
  ok_env h (env t) → world_ok h (proc_world x) →
  update_reads json_error base64_error print_json print_float print_ver TomlValueToJson t registered root force x = Done eff →
  world_ok h (proc_world (world_ (last eff)))
  ∧ (∀ n y, to_disk eff !! n = Some y → stored_ok h n y) ∧ ∀ n v, to_mem eff !! n = Some v → value_ok h n v.
Proof.
  intros He Hw H. unfold update_reads in H.
  eapply (update_values _ _ _ _ (λ x, world_ok h (proc_world x)) (λ n v, cErr v = None → new_ok h n v)) in H
    as (Hx & Hd & Hm).
  3:{ intros vs path m r m'. by apply compile_now_ok. }
  3: exact Hw.
  2:{ intros n path m v m' Hm. destruct (new_value (env t) n (proc_world m)) as [[v1 w1]|] eqn:E; [|done].
      cbn [mbind outcome_bind fst snd]. intros [= <- <-]. exact (new_value_ok _ _ _ _ _ _ He Hm E). }
  split_and!; [done| |].
  - intros n y Hy. destruct (Hd n y Hy) as (v & Hv & Hc & ->). destruct (Hv Hc) as (Henc & Ht & _). rewrite (proj1 He).
    destruct (ENCRYPT_ENABLE cfg) eqn:Een; [by eapply stored_encrypted|]. intros Hn. rewrite Een. auto.
  - intros n v Hv. destruct (Hm n v Hv) as (v' & Hv' & Hc & ->). destruct (Hv' Hc) as (_ & Ht & Hj).
    intros Hn. exists (valuePlain v'). auto.
Qed.

Lemma update_schema_ok h t f u m err cErr u' m' :
  ok_env h (env t) → world_ok h (store m.1) →
  update_schema_now json_error base64_error print_json print_float print_ver TomlValueToJson t f u m = Done (err, cErr, u', m') →
  world_ok h (store m'.1).
Proof.
  intros He Hw. unfold update_schema_now. apply (schema_update_keeps _ _ _ _ (λ m, world_ok h (store m.1))); [split_and!| |exact Hw].
  - intros root m0 H. by destruct (AddToWatchList _ _).
  - intros n f' m0 r m1 H. rewrite GetConfig_no_lock.
    destruct (reads (fetching (env t)) _ n) as [[[re own] w]|] eqn:E; [|done]. cbn [mbind outcome_bind].
    destruct (config_reads_ok h (fetching (env t)) _ _ _ _ _ He H E) as (H1 & Hown & _).
    destruct (run_writes _ _ _ own) as [w2|] eqn:E2; [|done]. cbn [mbind outcome_bind fst snd]. intros [= _ <-].
    exact (run_writes_ok _ _ _ _ _ (proj1 He) H1 Hown E2).
  - intros n f' m0 v m1 H. destruct (new_value (env t) n _) as [[v1 w]|] eqn:E; [|done]. cbn [mbind outcome_bind fst snd].
    intros [= <- <-]. destruct (new_value_ok _ _ _ _ _ _ He H E) as [H1 Hv]. split; [exact H1|].
    intros m2 Hc. destruct (Hv Hc) as (_ & Ht & Hj). cbn [store fst snd].
    destruct (run_writes _ _ _ _) as [w2|] eqn:E2; [|done]. cbn [mbind outcome_bind]. intros [= <-].
    refine (run_writes_ok _ _ _ _ _ (proj1 He) H1 _ E2). repeat constructor; [|done]. intros Hn. exists (valuePlain v1). auto.
  - intros vs u0 m0 e u1 m1 H. destruct (compiling t vs f _) as [[e1 x]|] eqn:E; [|done]. cbn [mbind outcome_bind fst snd].
    intros [= _ _ <-]. exact (compile_now_ok h t vs f (mkHost (store m0.1) m0.2 u0) e1 x He H E).
Qed.

(** *** Every move keeps it and is allowed by the specification *)

Lemma exec_ok s m s' l :
  move_ok cfg rt s m → execute s m = Some (s', l) → sys_ok s →
  sys_ok s' ∧ spec_runs json_error base64_error print_json print_float print_ver TomlValueToJson cfg rt
                (history s) l (history s').
Proof.
  intros Hm H [Hw Ht].
  destruct m as [path raw|e name|e i|i|i|t f|t registered root force dw mw|]; cbn [exec move_ok] in *.
  - injection H as <- <-. split; [split; cbn [history client threads]|].
    + eapply world_mono; [|exact Hw]. by apply list_subseteq_cons.
    + eapply Forall_impl; [exact Ht|]. intros x. apply thread_mono. by apply list_subseteq_cons.
    + repeat econstructor.
  - destruct (request _ _ _ _ _ _ e (client s) name) as [[[[re own] later] p]|] eqn:E; [|done]. injection H as <- <-.
    destruct (request_ok _ _ _ _ _ _ _ _ Hm Hw E) as (Hw' & Hown & Hlater & Hre).
    split; [split; cbn [history client threads]; [done|]|by constructor].
    apply Forall_app. split; [done|]. constructor; [destruct (waits _ _ _); [done|by split]|]. destruct later; repeat constructor; by inversion Hlater.
  - destruct (threads s !! i) as [t|] eqn:Ei; [|done]. destruct (next_write t) as [[x t']|] eqn:En; [|done].
    destruct (run_write _ _ _ _) as [w|] eqn:Ew; [|done]. injection H as <- <-.
    assert (write_ok (history s) x ∧ thread_ok (history s) t') as [Hx Ht'].
    { pose proof (Forall_lookup_1 _ _ _ _ Ht Ei) as Hok.
      destruct t as [[|y ws] n r|n|[|y ws]|[|y ws] nodes]; try done; injection En as <- <-; cbn [thread_ok] in *;
        rewrite Forall_cons in Hok; naive_solver. }
    split; [split; cbn [history client threads store]|by constructor].
    + by eapply run_write_ok.
    + by apply Forall_insert.
  - assert (∀ j, Forall (thread_ok (history s)) (delete j (threads s))) as Hdel by (intros j; by apply Forall_delete).
    destruct (threads s !! i) as [[[|x ws] n r|n|[|x ws]|[|x ws] nodes]|] eqn:Ei; try done; injection H as <- <-;
      (split; [split; [done|apply Hdel]|]); try by constructor.
    econstructor; [|constructor]. constructor. by apply (Forall_lookup_1 _ _ _ _ Ht Ei).
  - destruct (threads s !! i) as [[|name| |]|] eqn:Ei; try done. injection H as <- <-. split; [split; [done|]|by constructor].
    cbn [history threads]. apply Forall_insert; [done|]. split; [constructor|].
    destruct (Mem.GetFromMem _ name) as [j|] eqn:Em; [|done]. exact (proj2 Hw name j Em).
  - destruct (existsb _ _); [done|]. destruct (update_schema_now _ _ _ _ _ _ t f _ _) as [[[[err cErr] u] [p fl]]|] eqn:E; [|done].
    injection H as <- <-. split; [split; [|done]|by constructor]. exact (update_schema_ok _ _ _ _ (_, _) _ _ _ (p, fl) Hm Hw E).
  - destruct (_ || _); [done|].
    destruct (update_reads _ _ _ _ _ _ t registered root force (host_of s)) as [eff|] eqn:E; [|done].
    destruct (bool_decide (dw ≡ₚ _) && _) eqn:Eb; [|done]. bool_to_prop. rename H0 into Hdw, H1 into Hmw. injection H as <- <-.
    destruct (update_reads_ok _ _ _ _ _ (host_of s) _ Hm Hw E) as (Hw' & Hd & Hv).
    split; [split; cbn [history client threads store]; [done|]|by constructor].
    apply Forall_app. split; [done|]. constructor; [|constructor]. cbn [thread_ok]. apply Forall_app. split.
    + apply Forall_fmap, Forall_forall. intros [n y] Hin. cbn. apply Hd. rewrite Hdw in Hin. by apply elem_of_map_to_list.
    + apply Forall_fmap, Forall_forall. intros [n v] Hin. apply Hv. rewrite Hmw in Hin. by apply elem_of_map_to_list.
  - injection H as <- <-. split; [|by constructor]. split; [|constructor]. destruct Hw as [Hd _]. split; [done|].
    cbn [store client mem]. intros n j. unfold Mem.GetFromMem. cbn. by rewrite lookup_empty.
Qed.

Lemma spec_runs_app h l h1 l' h2 :
  let runs := spec_runs json_error base64_error print_json print_float print_ver TomlValueToJson cfg rt in
  runs h l h1 → runs h1 l' h2 → runs h (l ++ l') h2.
Proof. intros runs H1 H2. induction H1; [done|]. econstructor; [done|]. by apply IHspec_runs. Qed.

(** C1.  The running client refines the specification [spec_step]: in every run of
    publications, requests, updates and restarts, with the writes of requests, of
    their goroutines and of updates interleaved in any order, each answer that is
    not an error is the value of a text that was published for the requested name
    before (with its trailing zero bytes dropped when it went through local
    encryption), and memory and database hold only such values. *)
Theorem system_refines (s s' : sys D) (l : list event) :
  sys_ok s → runs json_error base64_error print_json print_float print_ver TomlValueToJson cfg rt s l s' →
  sys_ok s' ∧ spec_runs json_error base64_error print_json print_float print_ver TomlValueToJson cfg rt (history s) l (history s').
Proof.
  intros Hs H. induction H as [s|s m s1 l l' s2 Hm He Hr IH]; [split; [done|constructor]|].
  destruct (exec_ok _ _ _ _ Hm He Hs) as [H1 Hl]. destruct (IH H1) as [H2 Hl']. split; [done|].
  by eapply spec_runs_app.
Qed.

End refinement.

(** ** An update that runs alone *)

Section fresh.
Context (json_error base64_error : str → error) (print_json : json → str)
  (print_float : Z * Z → str) (print_ver : option json → str).
Context (TomlValueToJson : str → result (option str)).
Context (cfg : Settings) (n old : str).

Abbreviation database := (gmap str str).
Abbreviation World := (world database).
Abbreviation server := (GetFromServer json_error base64_error print_json print_float print_ver).
Abbreviation reads := (config_reads json_error base64_error print_json print_float print_ver TomlValueToJson).
Abbreviation new_value := (new_value_now json_error base64_error print_json print_float print_ver TomlValueToJson).
Abbreviation compiling := (compile_now json_error base64_error print_json print_float print_ver TomlValueToJson).
Abbreviation execute := (exec json_error base64_error print_json print_float print_ver TomlValueToJson).

(** Moves one after the other, with the events of all of them. *)
Fixpoint run_moves (s : sys database) (l : list move) : option (sys database * list event) :=
  match l with
  | [] => Some (s, [])
  | m :: l =>
      match execute s m with
      | Some (s1, ev) => match run_moves s1 l with Some (s2, ev2) => Some (s2, ev ++ ev2) | None => None end
      | None => None
      end
  end.

(** The local copy of [n] can be read, and memory has its value or none. *)
Definition in_sync (w : World) : Prop :=
  GetFromDisk cfg None (disk w) n = Done (inr old, disk w)
  ∧ (Mem.GetFromMem (mem w) n = None ∨ TomlValueToJson old = inr (Mem.GetFromMem (mem w) n)).

(** Writes that leave it so. *)
Definition keeps_sync (x : write) : Prop :=
  match x with
  | ToDisk k _ | Save k _ => k ≠ n
  | ToMem k v => k = n → TomlValueToJson old = inr v
  end.

Lemma GetFromDisk_pure (oe : option error) (d : database) (name : str) r d' : GetFromDisk cfg oe d name = Done (r, d') → d' = d.
Proof.
  unfold GetFromDisk. destruct oe; [by intros [= _ <-]|]. cbn [disk_Get map_disk].
  destruct (d !! name) as [x|]; [|by intros [= _ <-]].
  destruct (ENCRYPT_ENABLE cfg); [|by intros [= _ <-]].
  destruct (Decrypt _ x) as [[err|y]|]; [| |done]; by intros [= _ <-].
Qed.

Lemma GetFromDisk_other (d : database) (k x : str) :
  k ≠ n → GetFromDisk cfg None d n = Done (inr old, d) →
  GetFromDisk cfg None (<[k := x]> d) n = Done (inr old, <[k := x]> d).
Proof.
  intros Hk. unfold GetFromDisk. cbn [disk_Get map_disk]. rewrite lookup_insert_ne by done.
  destruct (d !! n) as [y|]; [|done].
  destruct (ENCRYPT_ENABLE cfg); [|by intros [= ->]].
  destruct (Decrypt _ y) as [[err|z]|]; [done| |done]. by intros [= ->].
Qed.

Lemma GetFromMem_other m k v : k ≠ n → Mem.GetFromMem (Mem.StoreToMem m k v) n = Mem.GetFromMem m n.
Proof. intros Hk. unfold Mem.GetFromMem. cbn. by rewrite lookup_insert_ne. Qed.

Lemma keeps_sync_run (oe : option error) w l w' :
  in_sync w → Forall keeps_sync l → run_writes cfg oe w l = Done w' → in_sync w'.
Proof.
  revert w. induction l as [|x l IH]; intros w Hw Hl H; cbn [run_writes] in H; [by simplify_eq|].
  apply Forall_cons in Hl as [Hx Hl]. destruct (run_write cfg oe w x) as [w1|] eqn:E; [|done].
  refine (IH w1 _ Hl H). destruct Hw as [Hd Hm]. destruct x as [k y|k y|k v]; cbn [run_write keeps_sync] in *.
  - destruct oe; injection E as <-; [done|]. split; [|done]. by apply GetFromDisk_other.
  - unfold SaveToDisk in E. destruct oe; [by injection E as <-|]. destruct (ENCRYPT_ENABLE cfg).
    + destruct (Encrypt _ y) as [[err|z]|]; [| |done]; injection E as <-; [done|]. split; [|done]. by apply GetFromDisk_other.
    + injection E as <-. split; [|done]. by apply GetFromDisk_other.
  - injection E as <-. split; [done|]. cbn [mem]. destruct (decide (k = n)) as [->|Hk].
    + rewrite GetFromMem_StoreToMem. right. by apply Hx.
    + by rewrite GetFromMem_other.
Qed.

(** [GetConfig] of any name. *)
Lemma config_reads_sync e w i re own w' :
  settings e = cfg → open_err e = None → in_sync w → reads e w i = Done (re, own, w') →
  disk w' = disk w ∧ mem w' = mem w ∧ Forall keeps_sync own.
Proof.
  intros Hs Ho Hw. unfold config_reads. rewrite Hs, Ho. destruct (Mem.GetFromMem (mem w) i) as [j|]; [by intros [= _ <- <-]|].
  destruct (fetch e); [|by intros [= _ <- <-]].
  destruct (GetFromDisk cfg None (disk w) i) as [[r d]|] eqn:Ed; [|done]. cbn [mbind outcome_bind fst snd].
  pose proof (GetFromDisk_pure _ _ _ _ _ Ed) as ->. destruct r as [err|t].
  - assert (i ≠ n) as Hi by (intros ->; rewrite (proj1 Hw) in Ed; done).
    destruct (server _ _ _ i) as [[err2|t]|]; [| |done]; cbn [mbind outcome_bind]; [by intros [= _ <- <-]|].
    destruct (TomlValueToJson t) as [err3|j]; intros [= _ <- <-]; (split_and!; [done|done|]);
      cbn [app]; rewrite ?Forall_cons, ?Forall_nil; cbn [keeps_sync]; split_and?; done.
  - cbn [mbind outcome_bind]. destruct (TomlValueToJson t) as [err3|j] eqn:Ej; intros [= _ <- <-]; [done|].
    split_and!; [done|done|]. constructor; [|constructor]. intros ->. rewrite (proj1 Hw) in Ed. by injection Ed as ->.
Qed.

Lemma get_config_sync e w i r :
  settings e = cfg → open_err e = None → in_sync w →
  GetConfig json_error base64_error print_json print_float print_ver TomlValueToJson
    (settings e) (open_err e) (conn e) (root e) None (Some (fetch e)) w i = Done r → in_sync r.2.
Proof.
  intros Hs Ho Hw H. rewrite GetConfig_split in H.
  destruct (reads e w i) as [[[re own] w1]|] eqn:Er; [|done]. cbn [mbind outcome_bind] in H.
  destruct (config_reads_sync _ _ _ _ _ _ Hs Ho Hw Er) as (Hd & Hm & Hk). rewrite Hs, Ho in H.
  destruct (run_writes _ _ _ _) as [w2|] eqn:E; [|done]. injection H as <-. refine (keeps_sync_run _ _ _ _ _ Hk E).
  unfold in_sync. by rewrite Hd, Hm.
Qed.

Lemma item_values_sync e vs items w r :
  settings e = cfg → open_err e = None → in_sync w →
  item_values json_error base64_error print_json print_float print_ver TomlValueToJson e vs w items = Done r → in_sync r.2.
Proof.
  intros Hs Ho. revert w r. induction items as [|i items IH]; intros w r Hw H; cbn [item_values] in H; [by simplify_eq|].
  destruct (vs !! i) as [v|].
  - destruct (item_values _ _ _ _ _ _ _ _ _ _) as [r1|] eqn:E; [|done]. injection H as <-. exact (IH _ _ Hw E).
  - destruct (GetConfig _ _ _ _ _ _ _ _ _ _ _ _ _ _) as [c|] eqn:Ec; [|done]. cbn [mbind outcome_bind] in H.
    destruct (item_values _ _ _ _ _ _ _ _ _ _) as [r1|] eqn:E; [|done]. injection H as <-.
    refine (IH _ _ _ E). by eapply get_config_sync.
Qed.

(** [GetNewValueOfConfig] of any name changes only the raw texts. *)
Lemma new_value_sync e w i v w' :
  settings e = cfg → in_sync w → new_value e i w = Done (v, w') → in_sync w'.
Proof.
  intros Hs Hw. unfold new_value_now. destruct (GetFromDisk _ _ (disk w) i) as [[r d]|] eqn:Ed; [|done].
  cbn [mbind outcome_bind fst snd]. rewrite Hs in Ed. pose proof (GetFromDisk_pure _ _ _ _ _ Ed) as ->.
  destruct (GetNewValueOfConfig _ _ _ _ _ _ _) as [[v1 m1]|] eqn:Eg; [|done]. cbn [mbind outcome_bind fst snd].
  intros [= _ <-]. assert (∀ k, Mem.GetFromMem m1 k = Mem.GetFromMem (mem w) k) as Hm.
  { intros k. clear - Eg. unfold GetNewValueOfConfig in Eg. cbn [mbind outcome_bind] in Eg.
    do 2 (match type of Eg with (?X ≫= _) = _ => destruct X; [|done] end; cbn [mbind outcome_bind] in Eg).
    destruct (choose _ _ _ _) as [[[[p checked] upd] b] [err|]]; [by injection Eg as _ <-|].
    destruct (Encrypt _ _) as [[err|enc]|]; [| |done]; by injection Eg as _ <-. }
  unfold in_sync. cbn [mem disk]. by rewrite Hm.
Qed.

Lemma fetch_raw_sync e nodes w w' :
  settings e = cfg → in_sync w →
  fetch_raw json_error base64_error print_json print_float print_ver TomlValueToJson e w nodes = Done w' → in_sync w'.
Proof.
  intros Hs. revert w. induction nodes as [|k nodes IH]; intros w Hw H; cbn [fetch_raw] in H; [by simplify_eq|].
  destruct (Mem.GetRawConfig (mem w) k) as [err|x]; [|by eapply IH].
  destruct (new_value e k w) as [[v w1]|] eqn:E; [|done]. refine (IH _ _ H). by eapply new_value_sync.
Qed.

Lemma compile_now_sync t vs path x r x' :
  settings (env t) = cfg → open_err (env t) = None → in_sync (proc_world x) →
  compiling t vs path x = Done (r, x') → in_sync (proc_world x').
Proof.
  intros Hs Ho Hw. unfold compile_now.
  match goal with |- context [?X ≫= _] => destruct X as [[its w1]|] eqn:E1 end; [|done].
  cbn [mbind outcome_bind fst snd].
  assert (in_sync w1) as Hw1.
  { destruct (HasSuffix path $".schema.php"); [|by simplify_eq].
    destruct (ParseItems _ _) as [e|items]; [by simplify_eq|]. exact (item_values_sync _ _ _ _ _ Hs Ho Hw E1). }
  match goal with |- context [?X ≫= _] => destruct X as [w2|] eqn:E2 end; [|done]. cbn [mbind outcome_bind].
  assert (in_sync w2) as Hw2.
  { destruct (HasSuffix path $".schema.toml"); [|by simplify_eq].
    destruct (ReadFile _ _) as [e|text]; [by simplify_eq|]. exact (fetch_raw_sync _ _ _ _ Hs Hw1 E2). }
  destruct (compile _ _ _ _ _ _ _) as [[[err out] u]|]; [|done]. cbn [mbind outcome_bind]. by intros [= _ <-].
Qed.

(** *** The update *)

Section update.
Context (t : site) (text j : str).
Hypothesis usable_cfg : usable (GetEncryptor cfg).
Hypothesis not_dev : DEVMODE cfg = false.
Hypothesis t_cfg : settings (env t) = cfg.
Hypothesis t_open : open_err (env t) = None.
Hypothesis on_server : server cfg (conn (env t)) (root (env t)) n = Done (inr text).
Hypothesis text_parses : TomlValueToJson text = inr (Some j).

(** What [GetNewValueOfConfig] says of [n] meanwhile. *)
Definition is_new (k : str) (v : NewValue) : Prop :=
  k = n → cErr v = None ∧ newVersionChecked v = true ∧ valueSerialized v = Some j
          ∧ hasUpdate v = negb (bool_decide (old = text)).

Lemma new_value_new w k v w' : in_sync w → new_value (env t) k w = Done (v, w') → is_new k v.
Proof.
  intros Hw H ->. unfold new_value_now in H. rewrite t_cfg, t_open, (proj1 Hw) in H. cbn [mbind outcome_bind fst snd] in H.
  rewrite on_server in H. unfold GetNewValueOfConfig in H. rewrite not_dev in H. cbn [mbind outcome_bind] in H.
  unfold choose in H. rewrite text_parses in H. destruct (Encrypt_done cfg text usable_cfg) as [enc He].
  rewrite He in H. cbn [mbind outcome_bind fst snd] in H. by injection H as <- _.
Qed.

Lemma update_reads_new registered root force x eff :
  in_sync (proc_world x) → matches root n = true → n ∈ registered →
  update_reads json_error base64_error print_json print_float print_ver TomlValueToJson t registered root force x = Done eff →
  in_sync (proc_world (world_ (last eff)))
  ∧ ((to_mem eff !! n = Some (Some j)) ∨ (old = text ∧ to_mem eff = ∅ ∧ to_disk eff = ∅)).
Proof.
  intros Hw Hn Hin H. unfold update_reads in H. rewrite t_cfg, not_dev in H.
  destruct (update_stored _ _ _ _ _ _ _ _ _ _ _ _ n eq_refl H Hn (or_introl Hin)) as [Hset Hmem].
  pose proof H as H2.
  eapply (update_values_from _ _ _ _ (λ x, in_sync (proc_world x)) is_new) in H as (Hx & _ & _ & Hs & Hf).
  3:{ intros vs path m r m'. by apply compile_now_sync. }
  3: exact Hw.
  2:{ intros k path m v m' Hm. destruct (new_value (env t) k (proc_world m)) as [[v1 w1]|] eqn:E; [|done].
      cbn [mbind outcome_bind fst snd]. intros [= <- <-].
      split; [by eapply new_value_sync|by eapply new_value_new]. }
  split; [done|]. destruct Hset as [[x0 Hx0]|Hfail].
  2:{ destruct (Hf n Hfail) as (v & Hv & Hor). destruct (Hv eq_refl) as (? & ? & _). destruct Hor; congruence. }
  destruct (Hs n x0 Hx0) as [(v & Hv & _ & ->) Hflag]. destruct (Hv eq_refl) as (_ & _ & Hval & _).
  rewrite Hmem. destruct (hasUpdateOverall (last eff) || registeredNodesHasUpdate (last eff)) eqn:Esave.
  - left. by rewrite Hx0, Hval.
  - right. destruct (decide (old = text)) as [->|Hne].
    + split_and!; [done|done|]. unfold updateProjectConfigByRootNode in H2.
      destruct (update_schemas _ _ _ _ _ _ _ _) as [p|]; [|done]. cbn [mbind outcome_bind] in H2.
      destruct (fetch_all_registered _ _ _ _) as [q|]; [|done]. cbn [mbind outcome_bind] in H2.
      injection H2 as <-. cbn in *. by rewrite Esave.
    + discriminate Hflag. intros v' Hv'. destruct (Hv' eq_refl) as (_ & _ & _ & ->).
      by rewrite bool_decide_eq_false_2.
Qed.

(** *** Its writes, and the request after it *)

Lemma mem_writes_run (oe : option error) (mw : list (str * option str)) (w : World) :
  NoDup (map fst mw) →
  ∃ w', run_writes cfg oe w (mem_writes mw) = Done w' ∧ ∀ v, (n, v) ∈ mw → Mem.GetFromMem (mem w') n = v.
Proof.
  revert w. induction mw as [|[k v] mw IH]; intros w Hnd.
  { exists w. split; [done|]. by intros v ?%elem_of_nil. }
  apply NoDup_cons in Hnd as [Hk Hnd]. cbn [fst] in Hk.
  destruct (IH (mkWorld (Mem.StoreToMem (mem w) k v) (disk w)) Hnd) as (w' & Hr & Hv). exists w'. split; [exact Hr|].
  intros v' [[= <- <-]|Hin]%elem_of_cons; [|by apply Hv].
  clear IH Hv Hnd. assert (∀ l (w0 w1 : World), n ∉ map fst l → run_writes cfg oe w0 (mem_writes l) = Done w1 →
    Mem.GetFromMem (mem w1) n = Mem.GetFromMem (mem w0) n) as Hkeep.
  { induction l as [|[k' x] l IH]; intros w0 w1 Hnot H0; [by injection H0 as <-|].
    cbn [map fst] in Hnot. apply not_elem_of_cons in Hnot as [Hne Hnot].
    rewrite (IH _ _ Hnot H0). cbn [mem]. by apply GetFromMem_other. }
  rewrite (Hkeep _ _ _ Hk Hr). cbn [mem]. apply GetFromMem_StoreToMem.
Qed.

Lemma disk_writes_run (oe : option error) (dw : list (str * str)) (w : World) :
  ∃ w', run_writes cfg oe w (disk_writes dw) = Done w' ∧ mem w' = mem w.
Proof.
  revert w. induction dw as [|[k x] dw IH]; intros w; [by exists w|]. cbn. destruct oe; [apply IH|].
  destruct (IH (mkWorld (mem w) (<[k := x]> (disk w)))) as (w' & Hr & Hm). by exists w'.
Qed.

Lemma run_writes_app (oe : option error) (w : World) l l' :
  run_writes cfg oe w (l ++ l') = (w ← run_writes cfg oe w l; run_writes cfg oe w l').
Proof.
  revert w. induction l as [|x l IH]; intros w; [done|]. cbn [run_writes app].
  destruct (run_write cfg oe w x) as [w1|]; [|done]. apply IH.
Qed.

(** The moves of one thread that is alone. *)
Lemma run_thread ws p files u nodes h w :
  run_writes cfg (open_err (env t)) (store p) ws = Done w →
  run_moves (mkSys p files u [Updating ws nodes] h) (replicate (length ws) (Write (env t) 0) ++ [Finish 0]) =
    Some (mkSys (mkProcess w (watches p)) files (AddUpdatedNodes u nodes) [] h, []).
Proof.
  revert p. induction ws as [|x ws IH]; intros p H; cbn [run_writes] in H.
  { injection H as <-. by destruct p. }
  rewrite t_open in IH, H. destruct (run_write cfg None (store p) x) as [w1|] eqn:E; [|done].
  cbn [length replicate app run_moves exec threads lookup list_lookup next_write client]. rewrite t_cfg, t_open, E.
  cbn [list_insert insert callback_nodes compiled history]. by rewrite (IH (mkProcess w1 (watches p)) H).
Qed.

Lemma request_sync e p v :
  settings e = cfg → open_err e = None → fetch e = true → is_Some (registeredNodes (watches p) !! n) →
  (Mem.GetFromMem (mem (store p)) n = Some v ∨ (in_sync (store p) ∧ TomlValueToJson old = inr (Some v))) →
  ∃ own p', request json_error base64_error print_json print_float print_ver TomlValueToJson e p n
    = Done (inr (Some v), own, [], p').
Proof.
  intros Hs Ho Hf [info Hr] Hv. unfold request, TouchDynamicNode, touch. rewrite Hr.
  assert (∀ w, w = store p → ∃ own, reads e w n = Done (inr (Some v), own, w)) as Hread.
  { intros w ->. unfold config_reads. destruct Hv as [->|[[Hd Hm] Hj]]; [by eexists|].
    destruct (Mem.GetFromMem (mem (store p)) n) as [x|] eqn:Em.
    { destruct Hm as [?|Hm]; [done|]. rewrite Hm in Hj. injection Hj as ->. by eexists. }
    rewrite Hf, Hs, Ho, Hd. cbn [mbind outcome_bind fst snd]. rewrite Hj. destruct (store p). by eexists. }
  destruct p as [[m d] ws]. cbn [store mem disk watches] in *.
  destruct (Hread (mkWorld m d) eq_refl) as [own Hown]. destruct (RunAsBi e); cbn; rewrite Hown; by eexists _, _.
Qed.

(** C2.  What is published reaches the requests, from a state in which the local
    copy of the registered name [n] can be read and memory has its value or none
    ([in_sync]): when an update of the root of [n] runs with no other thread, and the
    server answers it with a text that can be decoded, then every request for [n]
    after it that may fetch is answered with the value of that text, whether the
    update found [n] or anything else changed or not, and without the server.  Where
    memory and the local copy differ it can stay so: [stale_after_race]. *)
Theorem update_then_answer (s s1 : sys database) (registered : list str) (configRoot : str) (force : bool)
    (dw : list (str * str)) (mw : list (str * option str)) (evs : list event) :
  threads s = [] → is_Some (registeredNodes (watches (client s)) !! n) → matches configRoot n = true →
  in_sync (store (client s)) →
  execute s (StartUpdate t registered configRoot force dw mw) = Some (s1, evs) →
  ∃ s2, run_moves s1 (replicate (length dw + length mw) (Write (env t) 0) ++ [Finish 0]) = Some (s2, []) ∧ threads s2 = []
    ∧ ∀ e, settings e = cfg → open_err e = None → fetch e = true →
        ∃ own s3, execute s2 (Request e n) = Some (s3, []) ∧ threads s3 = [Answering own n (inr (Some j))].
Proof.
  intros Ht Hreg Hn Hw H. cbn [exec] in H. rewrite Ht in H. cbn [existsb orb] in H.
  destruct (negb _) eqn:Ereg; [done|]. bool_to_prop. rename Ereg into Hperm.
  assert (n ∈ registered) as Hin.
  { rewrite Hperm. destruct Hreg as [info Hi]. apply list_elem_of_fmap. exists (n, info). split; [done|]. by apply elem_of_map_to_list. }
  destruct (update_reads _ _ _ _ _ _ t registered configRoot force (host_of s)) as [eff|] eqn:E; [|done].
  destruct (bool_decide (dw ≡ₚ _) && _) eqn:Eb; [|done]. bool_to_prop. rename H0 into Hdw, H1 into Hmw.
  destruct (update_reads_new _ _ _ (host_of s) _ Hw Hn Hin E) as [Hw' Hor].
  cbn [app] in H. injection H as <- _.
  destruct (disk_writes_run (open_err (env t)) dw (proc_world (world_ (last eff)))) as (w1 & Hr1 & Hm1).
  destruct (mem_writes_run (open_err (env t)) mw w1) as (w2 & Hr2 & Hv).
  { rewrite Hmw. apply NoDup_fst_map_to_list. }
  assert (run_writes cfg (open_err (env t)) (proc_world (world_ (last eff))) (disk_writes dw ++ mem_writes mw) = Done w2) as Hr.
  { by rewrite run_writes_app, Hr1. }
  eexists. split.
  { replace (length dw + length mw) with (length (disk_writes dw ++ mem_writes mw))
      by (unfold disk_writes, mem_writes; by rewrite length_app, !length_map).
    by apply run_thread. }
  split; [done|]. intros e Hs Ho Hf. cbn [exec client threads app].
  edestruct (request_sync e (mkProcess w2 (watches (client s))) j) as (own & p' & Hreq); [done|done|done|exact Hreg| |].
  - destruct Hor as [Hmem|(-> & Hm0 & Hd0)]; [left|right].
    + cbn [store]. apply Hv. rewrite Hmw. by apply elem_of_map_to_list.
    + rewrite Hm0, map_to_list_empty in Hmw. rewrite Hd0, map_to_list_empty in Hdw.
      apply Permutation_nil_r in Hmw as ->. apply Permutation_nil_r in Hdw as ->.
      cbn in Hr1, Hr2. injection Hr1 as <-. injection Hr2 as <-. by split.
  - cbn [watches] in Hreq |- *. rewrite Hreq. unfold waits. rewrite Hf. by eexists _, _.
Qed.

End update.

End fresh.

(** ** Concrete runs *)

(** What an etcd server holds for a path, and a process that is connected to it. *)
Fixpoint latest (h : list (str * str)) (path : str) : str :=
  match h with
  | [] => []
  | (p, raw) :: h => if bool_decide (p = path) then raw else latest h path
  end.

Definition connected (h : list (str * str)) (now : Z) : environment :=
  mkEnv plain_key_cfg false None (inr (Some (fun path => inr (latest h path)))) $"/dove" None true now.

Lemma connected_ok h now : env_ok plain_key_cfg $"/dove" h (connected h now).
Proof.
  split_and!; [done|done|]. intros get path raw [= <-] [= <-].
  induction h as [|[p r] h IH]; [by left|]. cbn [latest]. case_bool_decide as Hp; [subst; right; left|].
  destruct IH as [?|?]; [by left|right; by right].
Qed.

(** A published document with the content [c]. *)
Definition document (c : str) : str :=
  let q s := dquote :: s ++ [dquote] in
  $"{" ++ q $"metadata" ++ $":{" ++ q $"state" ++ $":1," ++ q $"encrypted" ++ $":0}," ++ q $"content" ++ $":" ++ q c ++ $"}".

Definition raw_json (s : str) : result (option str) := inr (Some s).
Definition no_schemas : FileSystem := mkFS (fun _ => inl $"not found") (fun _ => inr []).
Definition example_site (h : list (str * str)) : site :=
  mkSite (connected h 20) no_schemas (fun _ _ => TempFails) (fun _ => None) [].

Definition fresh_client : sys (gmap str str) :=
  mkSys (mkProcess (mkWorld (Mem.mkMem ∅ ∅) ∅) no_watches) ∅ (mkUpdated [] [] ∅) [] [].

Abbreviation example_moves := (run_moves no_json_error no_json_error (fun _ => []) (fun _ => []) (fun _ => []) raw_json).
Abbreviation example_exec := (exec no_json_error no_json_error (fun _ => []) (fun _ => []) (fun _ => []) raw_json).

Definition db_host : str := $"db.host".
Definition db_path : str := $"/dove/db/host".
Definition h1 : list (str * str) := [(db_path, document $"1")].
Definition h2 : list (str * str) := (db_path, document $"2") :: h1.

(** The value 1 is published, requested and stored; the process restarts and is
    asked again; a third request reads the value 1 from the database, then the
    value 2 is published and an update stores it, and only then the request puts
    its value into memory.  A second update finds nothing to do. *)
Definition race : list move :=
  [Publish db_path (document $"1");
   Request (connected h1 1) db_host; Write (connected h1 1) 1; Write (connected h1 1) 1; Finish 1; Finish 0;
   Restart;
   Request (connected h1 5) db_host; Finish 0;
   Request (connected h1 6) db_host;
   Publish db_path (document $"2");
   StartUpdate (example_site h2) [db_host] $"db" false [(db_host, $"2")] [(db_host, Some $"2")];
   Write (connected h2 7) 1; Write (connected h2 7) 1; Finish 1;
   Write (connected h2 7) 0; Finish 0;
   StartUpdate (example_site h2) [db_host] $"db" false [] []; Finish 0;
   Request (connected h2 9) db_host; Finish 0].

(** A stale value: the last request is answered with the value 1 although two
    updates, the second with nothing beside it, have seen the value 2 on the
    server. *)
Example stale_after_race :
  match example_moves fresh_client race with
  | Some (s, evs) =>
      evs = [Published db_path (document $"1"); Answered db_host (inr (Some $"1"));
             Answered db_host (inr (Some $"1")); Published db_path (document $"2");
             Answered db_host (inr (Some $"1")); Answered db_host (inr (Some $"1"))]
      ∧ disk (store (client s)) !! db_host = Some $"2" ∧ threads s = []
  | None => False
  end.
Proof. vm_compute. done. Qed.

(** A second request while the first one fetches: it waits, and is answered from the
    memory the first one filled; when that one has stored nothing, with an error. *)
Definition two_requests (order : list move) : list move :=
  [Publish db_path (document $"1");
   Request (connected h1 1) db_host; Write (connected h1 1) 1; Write (connected h1 1) 1; Finish 1; Finish 0;
   Restart; Request (connected h1 5) db_host; Finish 0;
   Request (connected h1 6) db_host;
   Request (mkEnv plain_key_cfg false None (inr None) $"/dove" None false 6) db_host] ++ order.

Example waiting_request :
  option_map (fun r => (list.last r.2, threads r.1)) (example_moves fresh_client
      (two_requests [Write (connected h1 6) 0; Wake 1; Finish 1])) = Some (Some (Answered db_host (inr (Some $"1"))), [Answering [] db_host (inr (Some $"1"))])
  ∧ option_map (fun r => list.last r.2) (example_moves fresh_client (two_requests [Wake 1; Finish 1]))
    = Some (Some (Answered db_host (inl $"Failed to get config[db.host] by any means after a waiting!"))).
Proof. vm_compute. done. Qed.

#[export] Instance event_eq_dec : EqDecision event.
Proof. solve_decision. Defined.

(** Lists of moves are runs. *)
Fixpoint moves_ok (cfg : Settings) (rt : str) (h : list (str * str)) (l : list move) : Prop :=
  match l with
  | [] => True
  | m :: l =>
      match m with
      | Request e _ => env_ok cfg rt h e
      | Write e _ => settings e = cfg
      | UpdateSchema t _ | StartUpdate t _ _ _ _ _ => env_ok cfg rt h (env t)
      | _ => True
      end ∧ moves_ok cfg rt (match m with Publish path raw => (path, raw) :: h | _ => h end) l
  end.

Lemma run_moves_runs je be pj pf pv T cfg rt s l s' evs :
  moves_ok cfg rt (history s) l → run_moves je be pj pf pv T s l = Some (s', evs) →
  runs je be pj pf pv T cfg rt s evs s'.
Proof.
  revert s evs. induction l as [|m l IH]; intros s evs Hok H; cbn [run_moves] in H; [injection H as <- <-; constructor|].
  destruct (exec _ _ _ _ _ _ s m) as [[s1 ev]|] eqn:E; [|done].
  destruct (run_moves _ _ _ _ _ _ s1 l) as [[s2 ev2]|] eqn:E2; [|done]. injection H as <- <-.
  destruct Hok as [Hm Hl]. eapply runs_move; [|exact E|].
  - by destruct m.
  - apply IH; [|done]. replace (history s1) with (match m with Publish path raw => (path, raw) :: history s | _ => history s end); [done|].
    clear - E. destruct m; cbn [exec] in E; repeat case_match; simplify_eq; done.
Qed.

Lemma fresh_client_ok : sys_ok no_json_error no_json_error (fun _ => []) (fun _ => []) (fun _ => []) raw_json
  plain_key_cfg $"/dove" fresh_client.
Proof.
  split; [split|constructor].
  - intros name x Hx. cbn in Hx. by rewrite lookup_empty in Hx.
  - intros name j Hj. unfold Mem.GetFromMem in Hj. cbn in Hj. by rewrite lookup_empty in Hj.
Qed.

Definition first_answer : list move :=
  [Publish db_path (document $"1"); Request (connected h1 1) db_host; Write (connected h1 1) 1; Finish 0].

Lemma first_answer_ok : moves_ok plain_key_cfg $"/dove" [] first_answer.
Proof. cbn [moves_ok first_answer]. split_and!; try done. apply (connected_ok h1 1). Qed.

Lemma system_refines_witness :
  ∃ s' evs, runs no_json_error no_json_error (fun _ => []) (fun _ => []) (fun _ => []) raw_json plain_key_cfg $"/dove"
              fresh_client evs s'
    ∧ evs = [Published db_path (document $"1"); Answered db_host (inr (Some $"1"))]
    ∧ sys_ok no_json_error no_json_error (fun _ => []) (fun _ => []) (fun _ => []) raw_json plain_key_cfg $"/dove" s'.
Proof.
  assert (match example_moves fresh_client first_answer with
          | Some (_, evs) => bool_decide (evs = [Published db_path (document $"1"); Answered db_host (inr (Some $"1"))])
          | None => false end = true) as Hb by (vm_compute; reflexivity).
  destruct (example_moves fresh_client first_answer) as [[s' evs]|] eqn:E; [|discriminate Hb].
  pose proof (run_moves_runs _ _ _ _ _ _ plain_key_cfg $"/dove" fresh_client _ _ _ first_answer_ok E) as Hr.
  exists s', evs. split; [exact Hr|]. split.
  - bool_to_prop. exact Hb.
  - refine (proj1 (system_refines no_json_error no_json_error (fun _ => []) (fun _ => []) (fun _ => []) raw_json
      plain_key_cfg $"/dove" _ _ fresh_client s' evs fresh_client_ok Hr)).
    + intros H. discriminate H.
    + reflexivity.
Defined.

(** The value 1 is stored and registered, the value 2 is published. *)
Definition before_update : sys (gmap str str) :=
  mkSys (mkProcess (mkWorld (Mem.StoreToMem (Mem.mkMem ∅ ∅) db_host (Some $"1")) {[ db_host := $"1" ]})
           (mkWS ∅ {[ db_host := mkNode db_host 1 1 ]} [] [] []))
        ∅ (mkUpdated [] [] ∅) [] h2.

Lemma update_then_answer_witness :
  ∃ s1 s2, example_exec before_update
             (StartUpdate (example_site h2) [db_host] $"db" false [(db_host, $"2")] [(db_host, Some $"2")]) = Some (s1, [])
    ∧ example_moves s1 (replicate 2 (Write (connected h2 20) 0) ++ [Finish 0]) = Some (s2, [])
    ∧ ∃ own s3, example_exec s2 (Request (connected [] 30) db_host) = Some (s3, [])
        ∧ threads s3 = [Answering own db_host (inr (Some $"2"))].
Proof.
  assert (match example_exec before_update (StartUpdate (example_site h2) [db_host] $"db" false [(db_host, $"2")] [(db_host, Some $"2")]) with
          | Some (_, []) => true | _ => false end = true) as Hb by (vm_compute; reflexivity).
  destruct (example_exec before_update _) as [[s1 [|? ?]]|] eqn:E; try discriminate Hb.
  edestruct (update_then_answer no_json_error no_json_error (fun _ => []) (fun _ => []) (fun _ => []) raw_json
    plain_key_cfg db_host $"1" (example_site h2) $"2" $"2") as (s2 & Hr & _ & Hreq).
  11: exact E.
  1:{ split; [vm_compute; lia|reflexivity]. }
  1-3: reflexivity.
  1: vm_compute; reflexivity.
  1-2: reflexivity.
  1:{ exists (mkNode db_host 1 1). vm_compute. reflexivity. }
  1: vm_compute; reflexivity.
  1:{ split; [vm_compute; reflexivity|right; vm_compute; reflexivity]. }
  exists s1, s2. split; [reflexivity|]. split; [exact Hr|]. by apply Hreq.
Defined.
