(* ===== verification/Wire.v ===== *)
(** * From the bytes of a client to a published value

    [Protocol] with the handler of [Handler] on the client of [System]: the handlers
    table of handler/base.go and one connection of handler/project_config.go.

    [wire_answers_published]: whatever state the running client has reached, the
    bytes a connection gets for a request decode to a published value or to an
    error. *)

From S2P Require Import Prelude GoLib GoFmt Util Regex Json Schema Encrypt Storage ProjConfig NewValue Callbacks Watcher Registry Compile Update Handler System Protocol.

Section wire.
Context `{U : UnicodeTables}.
Context (json_error base64_error : str → error) (print_json : json → str)
  (print_float : Z * Z → str) (print_ver : option json → str).
Context {D : Type} `{!LocalDisk D, !HonestDisk D}.
Context (TomlValueToJson : str → result (option str)).
Context (cfg : Settings) (rt : str).

Abbreviation handle := (Process json_error base64_error print_json print_float print_ver TomlValueToJson).

(** [GetProjectConfig{}.Process] in the environment [e] on the process [p], and the
    table with this handler; a nil slice is written as no bytes. *)
Definition GetProjectConfig (e : environment) (p : process) (args : list (str * json)) : outcome (result str) :=
  r ← handle e p args;
  Done (match r.1.1 with inl err => inl err | inr v => inr (default [] v) end).

Definition GetHandlers (e : environment) (p : process) : handlers := {[ $"GetProjectConfig" := GetProjectConfig e p ]}.

(** The JSON text of a request for [name]. *)
Definition asks_for (body name : str) : Prop :=
  ∃ clientData args, Unmarshal body = Some (JObj clientData)
    ∧ member $"cmd" clientData = Some (JStr $"GetProjectConfig")
    ∧ member $"args" clientData = Some (JObj args) ∧ member $"name" args = Some (JStr name).

Lemma Process_args e p args name : member $"name" args = Some (JStr name) → handle e p args = handle e p (name_args name).
Proof. intros H. unfold Process, name_args. rewrite H. cbn [member]. by rewrite bool_decide_eq_true_2. Qed.

Lemma processRequest_asks e p body name :
  asks_for body name →
  processRequest json_error (GetHandlers e p) true body = GetProjectConfig e p (name_args name).
Proof.
  intros (l & args & Hu & Hc & Ha & Hn). unfold processRequest. rewrite Hu, Hc, Ha. unfold Run, GetHandlers.
  rewrite lookup_singleton_eq. unfold GetProjectConfig. rewrite (Process_args _ _ _ _ Hn).
  by destruct (handle e p (name_args name)).
Qed.

Lemma status_no_zero r : byte0 ∉ (answer r).1.
Proof. destruct r; cbn; set_solver. Qed.

(** C3.  What travels to the clients was published: in any state the running client
    reaches, a connection that sends one request for a configuration, cut into
    chunks in any way, and then CLOSE, is answered with bytes that the client reads
    as the status and the data of one response, followed by CLOSE; when the status
    is ok the data is the value of a text published for that name. *)
Theorem wire_answers_published (s : sys D) (e : environment) (evs : list ev) (body name rest : str)
    (v : result (option str) * process * later) :
  DEVMODE cfg = false →
  sys_ok json_error base64_error print_json print_float print_ver TomlValueToJson cfg rt s → env_ok cfg rt (history s) e →
  asks_for body name → name ≠ KEY_NAME_OF_STORE_DYNAMIC_REG_CONF_NODES →
  1 ≤ length body → fits (length body) → fault_free evs → stream evs = frame body ++ close_frame ++ rest →
  handle e (client s) (name_args name) = Done v →
  fits (length (answer (match v.1.1 with inl err => inl err | inr v => inr (default [] v) end)).2) →
  ∃ parts status data,
    HandleConn false (processRequest json_error (GetHandlers e (client s)) true) evs [] []
      = Some (Done (mkEnded (parts ++ [tagClose]) false))
    ∧ read_response (concat parts) = Some (status, data, [])
    ∧ ((status = $"failed" ∧ ∃ err, v.1.1 = inl err ∧ data = MarshalString err)
       ∨ (status = $"ok" ∧ ∃ j, data = default [] j
            ∧ published_value json_error base64_error print_json print_float print_ver TomlValueToJson cfg rt (history s) name j)).
Proof.
  intros Hdev Hs He Hask Hkey Hb Hfit HF Hst Hv Hf.
  set (r := match v.1.1 with inl err => inl err | inr v => inr (default [] v) end) in *.
  assert (answered (processRequest json_error (GetHandlers e (client s)) true) body r) as Hans.
  { split_and!; [done|done| |done]. rewrite (processRequest_asks _ _ _ _ Hask). unfold GetProjectConfig. by rewrite Hv. }
  exists (answer_parts r), (answer r).1, (answer r).2. split_and!.
  - rewrite (HandleConn_answers _ [body] [r] evs rest); [|by constructor; [exact Hans|constructor]|done|].
    1: change (concat (map answer_parts [r])) with (answer_parts r ++ []); by rewrite app_nil_r.
    change (concat (map frame [body])) with (frame body ++ []). by rewrite app_nil_r.
  - rewrite <- (app_nil_r (concat _)). apply read_response_parts; [apply status_no_zero|apply answer_status|done].
  - rewrite Process_answer in Hv by by rewrite (proj1 He).
    destruct (request _ _ _ _ _ _ e (client s) name) as [[[[re own] lt] p']|] eqn:E; [|done]. cbn [mbind outcome_bind] in Hv.
    destruct (run_writes _ _ _ _) as [w|]; [|done]. injection Hv as <-. cbn [fst] in r.
    destruct (request_ok _ _ _ _ _ _ cfg rt Hdev _ _ _ _ _ _ _ _ He (proj1 Hs) E) as (_ & _ & _ & Ha).
    destruct re as [err|j]; subst r; [left|right]; (split; [done|]).
    + by exists err.
    + exists j. split; [done|]. by apply Ha.
Qed.

End wire.

(** ** A concrete connection *)

#[local] Instance no_unicode : UnicodeTables := Build_UnicodeTables (fun _ => false).

Definition example_body : str :=
  let q s := dquote :: s ++ [dquote] in
  $"{" ++ q $"cmd" ++ $":" ++ q $"GetProjectConfig" ++ $"," ++ q $"args" ++ $":{" ++ q $"name" ++ $":" ++ q db_host ++ $"}}".

(** The client after the publication of the value 1. *)
Definition example_client : sys (gmap str str) :=
  mkSys (client fresh_client) ∅ (mkUpdated [] [] ∅) [] h1.

Lemma example_client_ok : sys_ok no_json_error no_json_error (fun _ => []) (fun _ => []) (fun _ => []) raw_json
  plain_key_cfg $"/dove" example_client.
Proof.
  destruct fresh_client_ok as [Hw _]. split; [|constructor]. revert Hw. apply world_mono. apply list_subseteq_nil.
Qed.

Lemma example_asks : asks_for example_body db_host.
Proof.
  exists [($"cmd", JStr $"GetProjectConfig"); ($"args", JObj [($"name", JStr db_host)])], [($"name", JStr db_host)].
  split_and!; vm_compute; reflexivity.
Qed.

Lemma wire_answers_published_witness :
  ∃ parts status data,
    HandleConn false (processRequest no_json_error
        (GetHandlers no_json_error no_json_error (fun _ => []) (fun _ => []) (fun _ => []) raw_json (connected h1 1) (client example_client)) true)
      [Data (frame example_body ++ close_frame)] [] [] = Some (Done (mkEnded (parts ++ [tagClose]) false))
    ∧ read_response (concat parts) = Some (status, data, []) ∧ (status = $"failed" ∨ status = $"ok").
Proof.
  assert (match Process no_json_error no_json_error (fun _ => []) (fun _ => []) (fun _ => []) raw_json (connected h1 1)
                  (client example_client) (name_args db_host) with
          | Done (inr (Some j), _, _) => bool_decide (j = $"1") | _ => false end = true) as Hb by (vm_compute; reflexivity).
  destruct (Process no_json_error no_json_error (fun _ => []) (fun _ => []) (fun _ => []) raw_json (connected h1 1)
              (client example_client) (name_args db_host)) as [[[[err|[j|]] p] l]|] eqn:E; try discriminate Hb.
  bool_to_prop. subst j.
  edestruct (wire_answers_published no_json_error no_json_error (fun _ => []) (fun _ => []) (fun _ => []) raw_json
    plain_key_cfg $"/dove" example_client (connected h1 1) [Data (frame example_body ++ close_frame)] example_body db_host [])
    as (parts & status & data & H1 & H2 & H3).
  10: exact E.
  1: reflexivity.
  1: exact example_client_ok.
  1: apply (connected_ok h1 1).
  1: exact example_asks.
  1: discriminate.
  1: vm_compute; lia.
  1: vm_compute; reflexivity.
  1: repeat constructor.
  1: cbn [stream flat_map]; by rewrite !app_nil_r.
  1: vm_compute; reflexivity.
  exists parts, status, data. split; [exact H1|]. split; [exact H2|]. destruct H3 as [[-> _]|[-> _]]; [by left|by right].
Defined.
