(* ===== verification/Config.v ===== *)
(** * Settings (config/setup_config.go, config/utils.go)

    The settings are a Go struct that is read and written by field name through
    [reflect]: here a map from the names of its fields to typed values, and a
    write of the wrong type is a panic.  The files, the environment variables, the
    answer of the environment server, the user database and the making of
    directories are values of a [system]; the paths are those of Linux.

    [ParseExtraConfig_lines]: what a settings file means.  [Setup_precedence]:
    the environment variables come before the file, the file before the values in
    place.  [Setup_env_wins]: also for the settings that are computed.
    [Setup_checks_keys]: what a successful start knows about the encryption keys.
    [Decode_Create]: the packed settings are unpacked. *)

From S2P Require Import Prelude GoLib GoFmt Md5Sum Regex Util Base64 Json Encrypt.

(** ** The struct *)

Inductive ftype := FStr | FList | FBool | FInt | FFloat | FRules.
#[export] Instance ftype_eq : EqDecision ftype.
Proof. solve_decision. Defined.

Inductive value :=
| VStr (s : str)
| VList (l : list str)
| VBool (b : bool)
| VInt (z : Z)
| VFloat (f : Z * Z)
| VRules (l : list (list str)).

Definition fields : list (str * ftype) :=
  [($"ListenAddr", FStr); ($"ListenAddrTransi", FStr); ($"RunAsBi", FBool); ($"InstallDir", FStr); ($"PidFile", FStr);
   ($"DATA_ROOT", FStr); ($"DATA_DIR", FStr); ($"LOG_DIR", FStr); ($"CONFIG_DIR", FList); ($"DAEMON_USER", FStr);
   ($"DAEMON_UID", FInt); ($"DAEMON_GID", FInt); ($"POST_UPDATE_CALLBACKS", FList); ($"POST_UPDATE_SCRIPTS", FList);
   ($"ENV", FStr); ($"ClientVer", FStr); ($"ENCRYPT_ENABLE", FBool); ($"ENCRYPT_KEY", FStr); ($"ENCRYPT_IV", FStr);
   ($"ENCRYPT_VER", FFloat); ($"DEVMODE", FBool); ($"DEBUG_FILE", FStr);
   ($"ETCD_CONNECTION_TIMEOUT", FInt); ($"ETCD_DIAL_KEEP_ALIVE_TIME", FInt); ($"ETCD_DIAL_KEEP_ALIVE_TIMEOUT", FInt);
   ($"ETCD_HEARTBEAT_KEY", FStr); ($"ETCD_REQUEST_TIMEOUT", FInt); ($"ETCD_MIN_RETRY_INTERVAL", FInt);
   ($"ETCD_RETRY_INTERVAL_RANGE", FInt); ($"ETCD_AUTO_SYNC_INTERVAL", FInt);
   ($"POST_UPDATE_SCRIPTS_RULE", FStr); ($"PostUpdateRule", FRules); ($"PPROF_LISTEN", FStr); ($"DOVE_SERVER", FStr)].

Fixpoint type_in (name : str) (l : list (str * ftype)) : option ftype :=
  match l with
  | [] => None
  | (n, t) :: l' => if bool_decide (n = name) then Some t else type_in name l'
  end.
(** [FieldByName]. *)
Definition field_type (name : str) : option ftype := type_in name fields.

Definition zero (t : ftype) : value :=
  match t with
  | FStr => VStr [] | FList => VList [] | FBool => VBool false | FInt => VInt 0
  | FFloat => VFloat (0, 0)%Z | FRules => VRules []
  end.

Abbreviation Config := (gmap str value).
Definition zero_config : Config := list_to_map (map (fun '(n, t) => (n, zero t)) fields).

Definition get_str (c : Config) (name : str) : str := match c !! name with Some (VStr s) => s | _ => [] end.
Definition get_list (c : Config) (name : str) : list str := match c !! name with Some (VList l) => l | _ => [] end.
Definition get_bool (c : Config) (name : str) : bool := match c !! name with Some (VBool b) => b | _ => false end.
Definition get_float (c : Config) (name : str) : Z * Z := match c !! name with Some (VFloat f) => f | _ => (0, 0)%Z end.

Definition reflect_panic {A} : outcome A := Panic $"reflect: call of SetString or Set on a field of another type".

Definition set_string (c : Config) (name v : str) : outcome Config :=
  match field_type name with Some FStr => Done (<[name := VStr v]> c) | _ => reflect_panic end.

(** ** The variable [config] of the package *)

Definition type_of (v : value) : ftype :=
  match v with
  | VStr _ => FStr | VList _ => FList | VBool _ => FBool | VInt _ => FInt | VFloat _ => FFloat | VRules _ => FRules
  end.

(** [SetConfig]: [Set] panics when the field does not exist or has another type. *)
Definition SetConfig (c : Config) (name : str) (val : value) : outcome Config :=
  if bool_decide (field_type name = Some (type_of val)) then Done (<[name := val]> c) else reflect_panic.

(** [GetConfig] and [GetZkConfig] of the package's variables. *)
Definition GetConfig {A} (config : option A) : outcome A :=
  match config with
  | Some c => Done c
  | None => Panic $"config not intialized, you should call config.Setup() first!"
  end.

Definition GetBiPidFile (c : Config) : str := get_str c $"DATA_ROOT" ++ $"bi.pid".

(** ** The settings file *)

Section parse.
(** [strconv.ParseFloat(s, 64)]. *)
Context (ParseFloat : str → result (Z * Z)).

Definition set_field (c : Config) (name v : str) : outcome (result Config) :=
  if bool_decide (name = $"CONFIG_DIR" ∨ name = $"POST_UPDATE_CALLBACKS" ∨ name = $"POST_UPDATE_SCRIPTS") then
    Done (inr (<[name := VList (StringSplit v [","%char])]> c))
  else if bool_decide (name = $"ENCRYPT_ENABLE") then
    let v := ToLower v in Done (inr (<[name := VBool (bool_decide (v = $"1") || bool_decide (v = $"true"))]> c))
  else if bool_decide (name = $"ENCRYPT_VER") then
    match ParseFloat v with
    | inl err => Done (inl ($"Failed to parse ENCRYPT_VER: " ++ err))
    | inr f => Done (inr (<[name := VFloat f]> c))
    end
  else c ← set_string c name v; Done (inr c).

Definition equals_sign : ascii := "="%char.

(** One line of the file. *)
Definition config_line (configFile : str) (lineNo : nat) (c : Config) (line : str) : outcome (result Config) :=
  if (Index line $"#" =? 0)%Z then Done (inr c)
  else match SplitN2 line equals_sign with
       | k :: v :: _ =>
           let k := Trim k $" " in
           let v := Trim v [" "%char; dquote] in
           match field_type k with
           | Some _ => set_field c k v
           | None => Done (inr c)
           end
       | _ => Done (inl ($"Failed to parse config file '" ++ configFile ++ $"' on line " ++ Itoa (Z.of_nat lineNo)))
       end.

Fixpoint config_lines (configFile : str) (lineNo : nat) (c : Config) (lines : list str) : outcome (result Config) :=
  match lines with
  | [] => Done (inr c)
  | l :: rest =>
      r ← config_line configFile lineNo c l;
      match r with
      | inl err => Done (inl err)
      | inr c => config_lines configFile (S lineNo) c rest
      end
  end.

Definition cr : ascii := byte_of_Z 13.

(** The path of the settings file, on systems other than Windows. *)
Definition config_path (configFile : str) : str :=
  if bool_decide (configFile = []) then $"/etc/DoveClient.conf" else configFile.

Definition ParseExtraConfig (configFile : str) (ReadFile : str → result str) (c : Config) : outcome (result Config) :=
  let configFile := config_path configFile in
  match ReadFile configFile with
  | inl err => Done (inl err)
  | inr b => config_lines configFile 0 c (Split (Trim b [" "%char; newline; cr]) [newline])
  end.
End parse.

(** ** Packed settings *)

Definition complement (a : ascii) : ascii := byte_of_Z (Z.lnot (Z_of_byte a)).
Definition DecodeSetting (SecretSettings : str) : str := map complement SecretSettings.
(** [ParseSecretSettings], with [toml.Load]. *)
Definition ParseSecretSettings (Load : str → result toml) (SecretSettings : str) : result toml :=
  match Load (DecodeSetting SecretSettings) with
  | inl err => inl ($"Failed to load secret settings. You should fix configs in [settings.pack.toml.go] before compile the client! Error: " ++ err)
  | inr t => inr t
  end.
(** The bytes [CreateSettingFile] writes into the source of the client. *)
Definition CreateSettingFile (raw : str) : str := map complement raw.

(** ** Users, rules, directories *)

(** [LookupOsUidGid]: the output of [id], or the error of the command. *)
Definition slice (s : str) (lo hi : Z) : outcome str :=
  if (0 <=? lo)%Z && (lo <=? hi)%Z && (hi <=? Z.of_nat (length s))%Z
  then Done (drop (Z.to_nat lo) (take (Z.to_nat hi) s)) else Panic $"slice bounds out of range".

(** The number [strconv.Atoi] returns, also next to an error. *)
Definition atoi_value (s : str) : Z :=
  match Atoi s with
  | inr n => n
  | inl ErrSyntax => 0
  | inl ErrRange => match s with "-"%char :: _ => int64_min | _ => int64_max end
  end.

Definition LookupOsUidGid (name : str) (id_output : result str) : outcome (Z * Z * option error) :=
  match id_output with
  | inl err => Done (0%Z, 0%Z, Some ($"Failed to get uid and gid for [" ++ name ++ $"]: " ++ err))
  | inr o =>
      match Fields o with
      | out0 :: out1 :: _ =>
          u ← slice out1 4 (Index out0 $"(");
          g ← slice out1 4 (Index out1 $"(");
          (* the error of the uid is overwritten by the result for the gid *)
          Done (atoi_value u, atoi_value g,
                match Atoi g with
                | inr _ => None
                | inl e => Some ($"Failed to get gid for[" ++ name ++ $"]: " ++ num_error_text e)
                end)
      | _ => Panic $"slice bounds out of range"
      end
  end.

(** [ParsePostUpdateRule] on the parsed file. *)
Definition rule_items (l : list toml) : outcome (list str) :=
  foldr (fun v acc => r ← acc; match v with TString s => Done (s :: r) | _ => Panic $"interface conversion" end) (Done []) l.

Definition ParsePostUpdateRule (t : toml) : outcome (list (list str)) :=
  match TomlGet t $"rules" with
  | TTree ks vs =>
      foldr (fun key acc =>
        match TomlGet (TTree ks vs) key with
        | TList l => row ← rule_items l; rest ← acc; Done (row :: rest)
        | _ => acc
        end) (Done []) (Keys (TTree ks vs))
  | _ => Panic $"interface conversion"
  end.

Definition GetLocalStorageDir (c : Config) : str :=
  get_str c $"DATA_DIR" ++ (if get_bool c $"ENCRYPT_ENABLE" then $"/configs_crypt/" else $"/configs/").

(** ** Setup *)

(** The answer of the environment server, decoded. *)
Record EnvInfo := mkEnvInfo { Hosts : str; Key : str; Iv : str }.

(** [json.Unmarshal] into a string field of a struct: the last member with that
    name in any (ASCII) case; null leaves the field, a value of another type is an
    error. *)
Definition struct_string (name : str) (l : list (str * json)) : result str :=
  fold_left (fun acc kv =>
    match acc with
    | inl e => inl e
    | inr cur =>
        if bool_decide (ToLower kv.1 = ToLower name)
        then match kv.2 with
             | JStr s => inr s
             | JNull => inr cur
             | _ => inl $"json: cannot unmarshal into Go struct field"
             end
        else inr cur
    end) l (inr []).

(** Calls that return a value and an error. *)
Definition try_bind {A B} (e : outcome (result A)) (k : A → outcome (result B)) : outcome (result B) :=
  match e with
  | Done (inr a) => k a
  | Done (inl err) => Done (inl err)
  | Panic w => Panic w
  end.
Notation "'try' x := e 'in' k" := (try_bind e (fun x => k)) (at level 10, x pattern, e at level 200, k at level 200).
Definition of_result {A} (r : result A) : outcome (result A) := Done r.

(** Everything outside the client that [Setup] looks at. *)
Record system := mkSystem {
  configFile : str;
  ReadFile : str → result str;
  SecretSettings : str;
  (** [toml.Load] *)
  Load : str → result toml;
  (** [toml.LoadFile] *)
  load_toml : str → result toml;
  (** [http.Get] and the body that is read: [None] when the request fails *)
  http_get : str → option (result str);
  GetLocalIp : str;
  now_text : str;
  json_error : str → error;
  base64_error : str → error;
  (** the output of [id] for a user, and the ids of the process *)
  id_output : str → result str;
  own_uid : Z;
  own_gid : Z;
  (** [FileExists] or else [MkdirAll] *)
  make_dir : str → option error;
  file_exists : str → bool;
  Getenv : str → str;
  (** [path.Dir(os.Args[0])] *)
  arg_dir : str;
  ParseFloat : str → result (Z * Z);
  toml_float : toml → option (Z * Z) }.

Section setup.
Context (sys : system).

(** Type assertions on the packed settings. *)
Definition toml_string (t : toml) : outcome str :=
  match t with TString s => Done s | _ => Panic $"interface conversion" end.
Definition toml_int (t : toml) : outcome Z :=
  match t with TInt z => Done z | _ => Panic $"interface conversion" end.

Definition unmarshal_struct (text : str) : result (list (str * json)) :=
  match Unmarshal text with
  | Some (JObj l) => inr l
  | Some JNull => inr []
  | _ => inl (json_error sys text)
  end.

Definition initZkConfigByServer (secret : toml) (c : Config) : outcome (result EnvInfo) :=
  if bool_decide (get_str c $"DOVE_SERVER" = []) then Done (inl $"Unconfigured address(DOVE_SERVER)")
  else
    let env := ToLower (Replace (get_str c $"ENV") $"-" [] (-1)) in
    authKey ← toml_string (TomlGet secret $"Env.AuthKey");
    let sign := digest_hex (GetLocalIp sys ++ env ++ now_text sys ++ authKey) in
    let url := TrimRight (get_str c $"DOVE_SERVER") ["/"%char] ++ $"/Api/Env?env=" ++ env ++ $"&timestamp="
               ++ now_text sys ++ $"&sign=" ++ sign ++ $"&ip=" ++ GetLocalIp sys in
    match http_get sys url with
    | None => Panic $"invalid memory address or nil pointer dereference"
    | Some body =>
        try response := of_result body in
        try result := of_result (unmarshal_struct response) in
        try status := of_result (struct_string $"Status" result) in
        try data := of_result (struct_string $"Data" result) in
        try message := of_result (struct_string $"Message" result) in
        if negb (bool_decide (status = $"ok")) then Done (inl message)
        else match DecodeString data with
             | None => Done (inl (base64_error sys data))
             | Some decData =>
                 authIv ← toml_string (TomlGet secret $"Env.AuthIv");
                 try plaintext := Decrypt (mkEncryptor authIv authKey [] []) decData in
                 try d := of_result (unmarshal_struct plaintext) in
                 try hosts := of_result (struct_string $"Hosts" d) in
                 try key := of_result (struct_string $"Key" d) in
                 try iv := of_result (struct_string $"Iv" d) in
                 Done (inr (mkEnvInfo hosts key iv))
             end
    end.

(** The environment: from the server, or compiled in. *)
Definition find_env (secret : toml) (c : Config) : outcome (result (option EnvInfo)) :=
  r ← initZkConfigByServer secret c;
  match r with
  | inr info => Done (inr (Some info))
  | inl _ =>
      let ENV := get_str c $"ENV" in
      let err :=
        match TomlGet secret ($"Zookeeper.host." ++ ENV), TomlGet secret ($"Encrypt." ++ ENV) with
        | TNil, _ => Some ($"Zookeeper.host." ++ ENV ++ $"not found.")
        | _, TNil => Some ($"Encrypt." ++ ENV ++ $"not found.")
        | _, _ => None
        end in
      match err with
      | None => Done (inr None)
      | Some err =>
          match TomlGet secret $"Zookeeper.host" with
          | TTree ks _ =>
              Done (inl ($"env [" ++ ENV ++ $"] has not been suppored: " ++ err ++ $", valid envs are ["
                         ++ Join ks [" "%char] ++ $"]"))
          | _ => Panic $"interface conversion"
          end
      end
  end.

Definition set (c : Config) (name : str) (v : value) : Config := <[name := v]> c.

Definition slash_ : str := ["/"%char].

(** Users and directories, up to the new [DATA_DIR]. *)
Definition setup_dirs (c : Config) (uid gid : Z) : outcome (result Config) :=
  let c := set (set c $"DAEMON_UID" (VInt uid)) $"DAEMON_GID" (VInt gid) in
  let c := if bool_decide (get_str c $"DATA_DIR" = []) then set c $"DATA_ROOT" (VStr $"/var/lib/doveclient/") else c in
  let c := set c $"DATA_ROOT" (VStr (TrimRight (get_str c $"DATA_DIR") slash_ ++ slash_)) in
  match make_dir sys (get_str c $"DATA_ROOT") with
  | Some err => Done (inl ($"Failed to initialize data root dir[" ++ get_str c $"DATA_ROOT" ++ $"]: " ++ err))
  | None =>
      let c := if bool_decide (get_str c $"ListenAddr" = []) then
                 set (set c $"ListenAddr" (VStr (get_str c $"DATA_DIR" ++ $"doveclient.sock")))
                     $"ListenAddrTransi" (VStr (get_str c $"DATA_DIR" ++ $"doveclient.transi.sock"))
               else c in
      let c := set c $"InstallDir" (VStr (arg_dir sys ++ $":")) in
      let c := set c $"PidFile" (VStr (if get_bool c $"RunAsBi" then GetBiPidFile c else get_str c $"DATA_ROOT" ++ $"pid")) in
      Done (inr (set c $"DATA_DIR" (VStr (get_str c $"DATA_ROOT" ++ slash_ ++ get_str c $"ENV" ++ slash_))))
  end.

(** The keys, and the checks on them. *)
Definition setup_keys (secret : toml) (envInfo : option EnvInfo) (c : Config) : outcome (result Config) :=
  let ENV := get_str c $"ENV" in
  kv ← (match envInfo with
        | Some info => Done (Iv info, Key info)
        | None => iv ← toml_string (TomlGet secret ($"Encrypt." ++ ENV ++ $".iv"));
                  key ← toml_string (TomlGet secret ($"Encrypt." ++ ENV ++ $".key"));
                  Done (iv, key)
        end);
  let c := set (set c $"ENCRYPT_IV" (VStr kv.1)) $"ENCRYPT_KEY" (VStr kv.2) in
  c ← (if bool_decide (get_float c $"ENCRYPT_VER" = (0, 0)%Z) then
         match toml_float sys (TomlGet secret $"Encrypt.Ver") with
         | Some f => Done (set c $"ENCRYPT_VER" (VFloat f))
         | None => Panic $"interface conversion"
         end
       else Done c);
  if negb (length (get_str c $"ENCRYPT_IV") =? 8)%nat then
    Done (inl ($"Config encryption enabled, but ENCRYPT_IV  defined in config is not valid. Expecting a 8-byte IV, but "
               ++ Itoa (Z.of_nat (length (get_str c $"ENCRYPT_IV"))) ++ $" bytes detected!"))
  else if (length (get_str c $"ENCRYPT_KEY") <? 1)%nat then
    Done (inl $"Config encryption enabled, but ENCRYPT_KEY length is shorter than 1")
  else match make_dir sys (get_str c $"DATA_DIR") with
       | Some err => Done (inl ($"Failed to initialize data dir[" ++ get_str c $"DATA_DIR" ++ $"]: " ++ err))
       | None => Done (inr c)
       end.

(** The environment variables: one per field, in the order of the struct. *)
Definition env_field (c : Config) (f : str * ftype) : outcome Config :=
  let v := Getenv sys ($"DOVE_" ++ f.1) in
  if bool_decide (v = []) then Done c
  else match f.2 with
       | FList => Done (set c f.1 (VList (Split v [","%char])))
       | FRules => Done c
       | FStr => Done (set c f.1 (VStr v))
       | _ => reflect_panic
       end.

Fixpoint env_fields (c : Config) (l : list (str * ftype)) : outcome Config :=
  match l with
  | [] => Done c
  | f :: rest => c ← env_field c f; env_fields c rest
  end.

Definition debug_file (c : Config) : Config :=
  let file := get_str c $"DEBUG_FILE" in
  if negb (bool_decide (file = [])) && file_exists sys file then
    let lastpos := LastIndexByte file "/"%char in
    if (lastpos =? -1)%Z then c
    else set (set c $"CONFIG_DIR" (VList (get_list c $"CONFIG_DIR" ++ [take (Z.to_nat lastpos) file])))
             $"DEVMODE" (VBool true)
  else c.

Definition etcd_ints : list (str * str) :=
  [($"ETCD_CONNECTION_TIMEOUT", $"Etcd.CONNECTION_TIMEOUT"); ($"ETCD_DIAL_KEEP_ALIVE_TIME", $"Etcd.DIAL_KEEP_ALIVE_TIME");
   ($"ETCD_DIAL_KEEP_ALIVE_TIMEOUT", $"Etcd.DIAL_KEEP_ALIVE_TIMEOUT"); ($"ETCD_REQUEST_TIMEOUT", $"Etcd.REQUEST_TIMEOUT");
   ($"ETCD_MIN_RETRY_INTERVAL", $"Etcd.MIN_RETRY_INTERVAL"); ($"ETCD_RETRY_INTERVAL_RANGE", $"Etcd.RETRY_INTERVAL_RANGE");
   ($"ETCD_AUTO_SYNC_INTERVAL", $"Etcd.AUTO_SYNC_INTERVAL")].

Fixpoint set_ints (secret : toml) (c : Config) (l : list (str * str)) : outcome Config :=
  match l with
  | [] => Done c
  | (f, k) :: rest => z ← toml_int (TomlGet secret k); set_ints secret (set c f (VInt z)) rest
  end.

Definition setup_etcd (secret : toml) (c : Config) : outcome Config :=
  key ← toml_string (TomlGet secret $"Etcd.HEARTBEAT_KEY");
  set_ints secret (set c $"ETCD_HEARTBEAT_KEY" (VStr key)) etcd_ints.

(** [initZkConfig]: the hosts of each environment and the root node. *)
Definition host_lists (l : list (str * toml)) : outcome (list (str * list str)) :=
  foldr (fun kv acc => h ← toml_string kv.2; rest ← acc; Done ((kv.1, Split h [","%char]) :: rest)) (Done []) l.

Definition initZkConfig (secret : toml) (envInfo : option EnvInfo) (c : Config) : outcome (list (str * list str) * str) :=
  hosts ← (match envInfo with
           | Some info => Done [(get_str c $"ENV", Split (Hosts info) [","%char])]
           | None => match TomlGet secret $"Zookeeper.host" with
                     | TTree _ vs => host_lists vs
                     | _ => Panic $"interface conversion"
                     end
           end);
  root ← toml_string (TomlGet secret $"Zookeeper.root");
  Done (hosts, root).

(** [Setup], from the settings in place before it: the settings and the servers. *)
Definition Setup (config0 : Config) : outcome (result (Config * (list (str * list str) * str))) :=
  try secret := of_result (match ParseSecretSettings (Load sys) (SecretSettings sys) with
                           | inl err => inl ($"Failed to parse secret configs: " ++ err ++ $" ") | inr t => inr t end) in
  parsed ← ParseExtraConfig (ParseFloat sys) (configFile sys) (ReadFile sys) config0;
  try c := of_result (match parsed with inl err => inl ($"Failed to initialize configs: " ++ err ++ $" ") | inr c => inr c end) in
  let rule := get_str c $"POST_UPDATE_SCRIPTS_RULE" in
  try c := (if bool_decide (rule = []) then Done (inr c)
            else match load_toml sys rule with
                 | inl err => Done (inl ($"Callback configuration error: " ++ err))
                 | inr t => rules ← ParsePostUpdateRule t; Done (inr (set c $"PostUpdateRule" (VRules rules)))
                 end) in
  ver ← toml_string (TomlGet secret $"Ver");
  let c := set c $"ClientVer" (VStr ver) in
  try envInfo := find_env secret c in
  let c := set c $"DEVMODE" (VBool (Index (get_str c $"ENV") $"DEV" =? 0)%Z) in
  ids ← (if bool_decide (get_str c $"DAEMON_USER" = []) then Done (own_uid sys, own_gid sys, None)
         else LookupOsUidGid (get_str c $"DAEMON_USER") (id_output sys (get_str c $"DAEMON_USER")));
  match ids.2 with
  | Some err => Done (inl err)
  | None =>
      try c := setup_dirs c ids.1.1 ids.1.2 in
      try c := setup_keys secret envInfo c in
      c ← env_fields c fields;
      let c := debug_file c in
      zkConfig ← initZkConfig secret envInfo c;
      c ← setup_etcd secret c;
      Done (inr (c, zkConfig))
  end.

End setup.

(** ** What a settings file means *)

Definition is_list_name (name : str) : bool :=
  bool_decide (name = $"CONFIG_DIR" ∨ name = $"POST_UPDATE_CALLBACKS" ∨ name = $"POST_UPDATE_SCRIPTS").

Section file_lines.
(** [strconv.ParseFloat(s, 64)]. *)
Context (pf : str → result (Z * Z)).

(** The value a line gives to a field; [None] for a version that is no number, and
    for names and fields a file cannot set. *)
Definition meaning (name v : str) : option value :=
  if is_list_name name then Some (VList (StringSplit v [","%char]))
  else if bool_decide (name = $"ENCRYPT_ENABLE")
       then Some (VBool (bool_decide (ToLower v = $"1") || bool_decide (ToLower v = $"true")))
  else if bool_decide (name = $"ENCRYPT_VER") then match pf v with inr x => Some (VFloat x) | inl _ => None end
  else match field_type name with Some FStr => Some (VStr v) | _ => None end.

Definition entry_ok (e : str * str) : Prop :=
  (equals_sign ∉ e.1) ∧ (newline ∉ e.1) ∧ (newline ∉ e.2) ∧ Index e.1 $"#" ≠ 0%Z
  ∧ Trim e.1 $" " = e.1 ∧ Trim e.2 [" "%char; dquote] = e.2
  ∧ (field_type e.1 = None ∨ is_Some (meaning e.1 e.2)).

Definition entry_line (e : str * str) : str := e.1 ++ equals_sign :: e.2.

(** The value of the last entry for a field. *)
Fixpoint last_value (name : str) (es : list (str * str)) : option str :=
  match es with
  | [] => None
  | (k, v) :: rest => match last_value name rest with
                      | Some x => Some x
                      | None => if bool_decide (k = name) then Some v else None
                      end
  end.

Lemma SplitN2_entry k v : equals_sign ∉ k → SplitN2 (k ++ equals_sign :: v) equals_sign = [k; v].
Proof.
  induction k as [|x k IH]; intros Hk; cbn [app SplitN2]; [by rewrite bool_decide_eq_true_2|].
  rewrite bool_decide_eq_false_2 by (intros ->; apply Hk; left). rewrite IH; [done|]. intros ?. apply Hk. by right.
Qed.

Lemma Index_zero s sub : Index s sub = 0%Z ↔ sub `prefix_of` s.
Proof.
  unfold Index. assert (∀ s i, (0 < i)%Z → index_from sub s i ≠ 0%Z) as Hpos.
  { intros s'. induction s' as [|c s' IH]; intros i Hi; simpl; case_match; try lia. apply IH. lia. }
  rewrite <- HasPrefix_spec. destruct s as [|c s]; simpl; destruct (HasPrefix _ _); try (split; done).
  split; [|done]. intros H. exfalso. revert H. apply Hpos. lia.
Qed.

Lemma comment_line k v : Index k $"#" ≠ 0%Z → k ≠ [] ∨ equals_sign ≠ "#"%char → Index (k ++ equals_sign :: v) $"#" ≠ 0%Z.
Proof.
  intros Hk _ H%Index_zero. destruct k as [|x k]; [by destruct H as [? [=]]|].
  apply Hk, Index_zero. destruct H as [t [= <- _]]. by exists k.
Qed.

Lemma set_field_meaning c k v val :
  field_type k ≠ None → meaning k v = Some val → set_field pf c k v = Done (inr (<[k := val]> c)).
Proof.
  intros Hf. unfold meaning, set_field, is_list_name. case_bool_decide; [intros; by simplify_eq|].
  case_bool_decide; [intros; by simplify_eq|]. case_bool_decide; [destruct (pf v); intros; by simplify_eq|].
  intros Hm. unfold set_string. by destruct (field_type k) as [[]|]; simplify_eq.
Qed.

Lemma config_line_entry file n c e :
  entry_ok e → config_line pf file n c (entry_line e) =
    Done (inr (match field_type e.1, meaning e.1 e.2 with Some _, Some val => <[e.1 := val]> c | _, _ => c end)).
Proof.
  intros (Heq & _ & _ & Hc & Ht1 & Ht2 & Hm). unfold config_line, entry_line.
  rewrite (proj2 (Z.eqb_neq _ _)) by (apply comment_line; [done|by right]).
  rewrite SplitN2_entry by done. rewrite Ht1, Ht2. destruct (field_type e.1) as [t|] eqn:E; [|done].
  destruct Hm as [?|[val Hval]]; [done|]. rewrite Hval. apply set_field_meaning; [congruence|done].
Qed.

Lemma config_lines_entries file es n c :
  Forall entry_ok es →
  ∃ c', config_lines pf file n c (map entry_line es) = Done (inr c')
    ∧ ∀ f, c' !! f = match field_type f, last_value f es with Some _, Some v => meaning f v | _, _ => c !! f end.
Proof.
  intros H. revert n c. induction H as [|[k v] es He Hes IH]; intros n c; cbn [map config_lines].
  { exists c. split; [done|]. intros f. by destruct (field_type f). }
  rewrite config_line_entry by done. cbn [mbind outcome_bind fst snd].
  match goal with |- context [config_lines _ _ _ ?x _] => destruct (IH (S n) x) as (c' & -> & Hc') end.
  exists c'. split; [done|]. intros f. rewrite Hc'. cbn [last_value]. destruct (decide (k = f)) as [<-|Hne].
  - rewrite bool_decide_eq_true_2 by done. destruct (field_type k) eqn:E; [|by destruct (last_value k es)].
    destruct He as (_ & _ & _ & _ & _ & _ & [Hno|[val Hval]]); [cbn [fst] in Hno; congruence|]. cbn [fst snd] in Hval. rewrite Hval.
    destruct (last_value k es); [done|]. by rewrite lookup_insert_eq, Hval.
  - rewrite bool_decide_eq_false_2 by done.
    destruct (field_type k), (meaning k v), (field_type f), (last_value f es); rewrite ?lookup_insert_ne by done; done.
Qed.

Lemma ParseExtraConfig_entries (file : str) (read : str → result str) (es : list (str * str)) (c : Config) :
  let content := Join (map entry_line es) [newline] in
  read (config_path file) = inr content →
  es ≠ [] → Forall entry_ok es → Trim content [" "%char; newline; cr] = content →
  ∃ c', ParseExtraConfig pf file read c = Done (inr c')
    ∧ ∀ f, c' !! f = match field_type f, last_value f es with Some _, Some v => meaning f v | _, _ => c !! f end.
Proof.
  intros content Hread Hne Hes Ht. unfold ParseExtraConfig. rewrite Hread, Ht. unfold content. rewrite Split_Join.
  - by apply config_lines_entries.
  - by destruct es.
  - apply Forall_map. eapply Forall_impl; [exact Hes|]. intros [k v] (_ & Hk & Hv & _). cbn in *. unfold entry_line. cbn.
    rewrite not_elem_of_app, not_elem_of_cons. done.
Qed.
End file_lines.

(** C29.  A settings file of lines [NAME=value] is read without error; every field
    of the client that is named gets the value of its last line (lists split at
    commas, the encryption switch from 1 or true in any case, the encryption version
    as a number), every other field keeps its value, and unknown names are
    skipped. *)
Theorem ParseExtraConfig_lines (pf : str → result (Z * Z)) (file : str) (read : str → result str) (es : list (str * str)) (c : Config) :
  let content := Join (map entry_line es) [newline] in
  read (config_path file) = inr content →
  es ≠ [] → Forall (entry_ok pf) es → Trim content [" "%char; newline; cr] = content →
  ∃ c', ParseExtraConfig pf file read c = Done (inr c')
    ∧ ∀ f, c' !! f = match field_type f, last_value f es with Some _, Some v => meaning pf f v | _, _ => c !! f end.
Proof. apply ParseExtraConfig_entries. Qed.

(** ** The environment variables *)

Lemma env_fields_keep sys l c c' f :
  env_fields sys c l = Done c' → f ∉ map fst l → c' !! f = c !! f.
Proof.
  revert c. induction l as [|[n t] l IH]; intros c H Hf; cbn [env_fields] in H; [by simplify_eq|].
  cbn [map fst] in Hf. apply not_elem_of_cons in Hf as [Hne Hf].
  destruct (env_field sys c (n, t)) as [c1|] eqn:E; [|done]. cbn [mbind outcome_bind] in H.
  rewrite (IH _ H Hf). unfold env_field in E. cbn [fst snd] in E. case_bool_decide; [by simplify_eq|].
  destruct t; simplify_eq; unfold set; rewrite ?lookup_insert_ne by done; done.
Qed.

(** What a variable that is set makes of a field. *)
Definition env_value (t : ftype) (v : str) : value :=
  match t with FList => VList (Split v [","%char]) | _ => VStr v end.

Lemma env_fields_spec sys l c c' n t :
  env_fields sys c l = Done c' → NoDup (map fst l) → (n, t) ∈ l →
  (t ≠ FRules → c' !! n = if bool_decide (Getenv sys ($"DOVE_" ++ n) = []) then c !! n
                          else Some (env_value t (Getenv sys ($"DOVE_" ++ n))))
  ∧ (t ∈ [FBool; FInt; FFloat] → Getenv sys ($"DOVE_" ++ n) = []).
Proof.
  revert c. induction l as [|[k u] l IH]; intros c H Hnd Hin; [by apply elem_of_nil in Hin|].
  cbn [env_fields] in H. cbn [map fst] in Hnd. apply NoDup_cons in Hnd as [Hk Hnd].
  destruct (env_field sys c (k, u)) as [c1|] eqn:E; [|done]. cbn [mbind outcome_bind] in H.
  apply elem_of_cons in Hin as [[= -> ->]|Hin].
  - rewrite (env_fields_keep _ _ _ _ _ H Hk). unfold env_field in E. cbn [fst snd] in E. split.
    + intros Ht. case_bool_decide; simplify_eq; [done|].
      destruct u; simplify_eq; unfold set; by rewrite lookup_insert_eq.
    + intros Ht. case_bool_decide as Hv; [exact Hv|]. destruct u; try done; set_solver.
  - assert (n ≠ k) as Hne by (intros ->; apply Hk, list_elem_of_fmap; by exists (k, t)).
    destruct (IH _ H Hnd Hin) as [H1 H2]. split; [|done]. intros Ht. rewrite (H1 Ht). case_bool_decide; [|done].
    unfold env_field in E. cbn [fst snd] in E. case_bool_decide; [by simplify_eq|].
    destruct u; simplify_eq; unfold set; rewrite ?lookup_insert_ne by done; done.
Qed.

Lemma type_in_elem name l t : type_in name l = Some t → (name, t) ∈ l.
Proof.
  induction l as [|[n u] l IH]; cbn; [done|]. case_bool_decide; [intros; simplify_eq; left|intros; right; auto].
Qed.

Lemma fields_nodup : NoDup (map fst fields).
Proof. refine (bool_decide_unpack _ _). vm_compute. exact I. Qed.

Lemma set_ints_keep secret l c c' f :
  set_ints secret c l = Done c' → f ∉ map fst l → c' !! f = c !! f.
Proof.
  revert c. induction l as [|[n k] l IH]; intros c H Hf; cbn [set_ints] in H; [by simplify_eq|].
  cbn [map fst] in Hf. apply not_elem_of_cons in Hf as [Hne Hf].
  destruct (toml_int _) as [z|]; [|done]. cbn [mbind outcome_bind] in H. rewrite (IH _ H Hf). unfold set.
  by rewrite lookup_insert_ne.
Qed.

Lemma try_inv {A B} (e : outcome (result A)) (k : A → outcome (result B)) b :
  try_bind e k = Done (inr b) → ∃ a, e = Done (inr a) ∧ k a = Done (inr b).
Proof. destruct e as [[err|a]|w]; [done| |done]. by exists a. Qed.
Lemma bind_inv {A B} (e : outcome A) (k : A → outcome B) b :
  (e ≫= k) = Done b → ∃ a, e = Done a ∧ k a = Done b.
Proof. destruct e as [a|w]; [|done]. by exists a. Qed.

(** The end of [Setup]: the environment variables, the debug file and the
    constants of the etcd client. *)
Lemma Setup_tail sys config0 c zk :
  Setup sys config0 = Done (inr (c, zk)) →
  ∃ secret envInfo c0 c1 c2, setup_keys sys secret envInfo c0 = Done (inr c1)
    ∧ env_fields sys c1 fields = Done c2 ∧ setup_etcd secret (debug_file sys c2) = Done c.
Proof.
  unfold Setup. intros (secret & _ & H)%try_inv. apply bind_inv in H as (parsed & _ & H).
  apply try_inv in H as (c0 & _ & H). apply try_inv in H as (ca & _ & H). apply bind_inv in H as (ver & _ & H).
  apply try_inv in H as (envInfo & _ & H). apply bind_inv in H as (ids & _ & H). destruct (ids.2); [done|].
  apply try_inv in H as (cb & _ & H). apply try_inv in H as (cc & Hk & H). apply bind_inv in H as (cd & He & H).
  apply bind_inv in H as (z & _ & H). apply bind_inv in H as (cf & Hs & H). injection H as <- <-.
  by exists secret, envInfo, cb, cc, cd.
Qed.

Lemma setup_etcd_keep secret c c' f :
  setup_etcd secret c = Done c' → field_type f = Some FStr → f ≠ $"ETCD_HEARTBEAT_KEY" → c' !! f = c !! f.
Proof.
  unfold setup_etcd. destruct (toml_string _) as [key|]; [|done]. cbn [mbind outcome_bind]. intros H Hf Hne.
  rewrite (set_ints_keep _ _ _ _ f H); [unfold set; by rewrite lookup_insert_ne|].
  intros Hin. cbn in Hin. repeat (apply elem_of_cons in Hin as [->|Hin]; [vm_compute in Hf; discriminate|]).
  by apply elem_of_nil in Hin.
Qed.

Lemma debug_file_keep sys c f : field_type f = Some FStr → debug_file sys c !! f = c !! f.
Proof.
  intros Hf. unfold debug_file. destruct (_ && _); [|done]. destruct (_ =? _)%Z; [done|]. unfold set.
  rewrite !lookup_insert_ne; [done|intros <-; vm_compute in Hf; discriminate..].
Qed.

(** The environment has the last word: after a successful [Setup] every text
    setting [F] (except the heartbeat key, which is fixed) for which the variable
    [DOVE_F] is not empty has its value; and no such variable is set for a setting
    that is a number or a switch, since that ends the process. *)
Theorem Setup_env_wins (sys : system) (config0 c : Config) (zk : list (str * list str) * str) :
  Setup sys config0 = Done (inr (c, zk)) →
  (∀ f, field_type f = Some FStr → f ≠ $"ETCD_HEARTBEAT_KEY" → Getenv sys ($"DOVE_" ++ f) ≠ [] →
     c !! f = Some (VStr (Getenv sys ($"DOVE_" ++ f))))
  ∧ (∀ f t, field_type f = Some t → t ∈ [FBool; FInt; FFloat] → Getenv sys ($"DOVE_" ++ f) = []).
Proof.
  intros (secret & envInfo & c0 & c1 & c2 & _ & He & Hs)%Setup_tail. split.
  - intros f Hf Hne Hv. rewrite (setup_etcd_keep _ _ _ _ Hs Hf Hne), debug_file_keep by done.
    destruct (env_fields_spec _ _ _ _ _ _ He fields_nodup (type_in_elem _ _ _ Hf)) as [H _].
    rewrite H by done. by rewrite bool_decide_eq_false_2.
  - intros f t Hf Ht. by destruct (env_fields_spec _ _ _ _ _ _ He fields_nodup (type_in_elem _ _ _ Hf)) as [_ H]; apply H.
Qed.

(** After a successful [Setup] without the variables [DOVE_ENCRYPT_IV] and
    [DOVE_ENCRYPT_KEY] the initialization vector has 8 bytes and the key at least
    one; with the variables nothing is checked. *)
Theorem Setup_checks_keys (sys : system) (config0 c : Config) (zk : list (str * list str) * str) :
  Setup sys config0 = Done (inr (c, zk)) →
  Getenv sys $"DOVE_ENCRYPT_IV" = [] → Getenv sys $"DOVE_ENCRYPT_KEY" = [] →
  length (get_str c $"ENCRYPT_IV") = 8%nat ∧ (1 <= length (get_str c $"ENCRYPT_KEY"))%nat.
Proof.
  intros (secret & envInfo & c0 & c1 & c2 & Hk & He & Hs)%Setup_tail Hiv Hkey.
  assert (∀ f, field_type f = Some FStr → f ≠ $"ETCD_HEARTBEAT_KEY" → Getenv sys ($"DOVE_" ++ f) = [] →
    get_str c f = get_str c1 f) as Hget.
  { intros f Hf Hne Hv. unfold get_str. rewrite (setup_etcd_keep _ _ _ _ Hs Hf Hne), debug_file_keep by done.
    destruct (env_fields_spec _ _ _ _ _ _ He fields_nodup (type_in_elem _ _ _ Hf)) as [H _].
    rewrite H by done. by rewrite bool_decide_eq_true_2. }
  rewrite !Hget by done. clear -Hk. unfold setup_keys in Hk.
  apply bind_inv in Hk as (kv & _ & Hk). apply bind_inv in Hk as (ca & _ & Hk).
  destruct (length (get_str ca $"ENCRYPT_IV") =? 8)%nat eqn:E1; cbn [negb] in Hk; [|done].
  destruct (length (get_str ca $"ENCRYPT_KEY") <? 1)%nat eqn:E2; [done|].
  destruct (make_dir _ _); [done|]. injection Hk as <-. bool_to_prop. lia.
Qed.

(** ** Where a setting comes from *)

(** The settings that [Setup] computes; the others it leaves to the file and the
    variables. *)
Definition computed : list str :=
  [$"DAEMON_UID"; $"DAEMON_GID"; $"DATA_ROOT"; $"DATA_DIR"; $"ListenAddr"; $"ListenAddrTransi"; $"InstallDir"; $"PidFile";
   $"ENCRYPT_IV"; $"ENCRYPT_KEY"; $"ENCRYPT_VER"; $"PostUpdateRule"; $"ClientVer"; $"DEVMODE"; $"CONFIG_DIR"; $"ETCD_HEARTBEAT_KEY"]
  ++ map fst etcd_ints.

Ltac listed := by apply (bool_decide_unpack _); vm_compute.

Section precedence.
Context (f : str) (Hf : f ∉ computed).

Lemma set_keep c n v : n ∈ computed → set c n v !! f = c !! f.
Proof. intros Hn. unfold set. rewrite lookup_insert_ne; [done|]. by intros ->. Qed.

Ltac keep := repeat first [progress (rewrite set_keep by listed)|case_bool_decide].

Lemma setup_dirs_keep sys c uid gid c' : setup_dirs sys c uid gid = Done (inr c') → c' !! f = c !! f.
Proof.
  unfold setup_dirs. destruct (make_dir _ _); [done|]. intros [= <-]. keep; done.
Qed.

Lemma setup_keys_keep sys secret info c c' : setup_keys sys secret info c = Done (inr c') → c' !! f = c !! f.
Proof.
  unfold setup_keys. intros (kv & _ & H)%bind_inv. apply bind_inv in H as (c1 & E & H).
  destruct (negb _); [done|]. destruct (_ <? _)%nat; [done|]. destruct (make_dir _ _); [done|]. injection H as <-.
  case_bool_decide; [destruct (toml_float _ _); [|done]|]; injection E as <-; keep; done.
Qed.

Lemma debug_file_keeps sys c : debug_file sys c !! f = c !! f.
Proof. unfold debug_file. destruct (_ && _); [|done]. destruct (_ =? _)%Z; [done|]. keep; done. Qed.

Lemma setup_etcd_keeps secret c c' : setup_etcd secret c = Done c' → c' !! f = c !! f.
Proof.
  unfold setup_etcd. intros (key & _ & H)%bind_inv. rewrite (set_ints_keep _ _ _ _ f H); [keep; done|].
  intros Hin. apply Hf. apply elem_of_app. by right.
Qed.

(** Between the settings file and the variables nothing touches the field, nor
    after them. *)
Lemma Setup_keeps sys config0 c zk :
  Setup sys config0 = Done (inr (c, zk)) →
  ∃ c0 c1 c2, ParseExtraConfig (ParseFloat sys) (configFile sys) (ReadFile sys) config0 = Done (inr c0)
    ∧ c1 !! f = c0 !! f ∧ env_fields sys c1 fields = Done c2 ∧ c !! f = c2 !! f.
Proof.
  unfold Setup. intros (secret & _ & H)%try_inv. apply bind_inv in H as (parsed & Hp & H).
  apply try_inv in H as (c0 & Hc0 & H). apply try_inv in H as (ca & Hca & H). apply bind_inv in H as (ver & _ & H).
  apply try_inv in H as (envInfo & _ & H). apply bind_inv in H as (ids & _ & H). destruct (ids.2); [done|].
  apply try_inv in H as (cb & Hb & H). apply try_inv in H as (cc & Hk & H). apply bind_inv in H as (cd & He & H).
  apply bind_inv in H as (z & _ & H). apply bind_inv in H as (cf & Hs & H). injection H as <- _.
  destruct parsed as [e|c1]; [done|]. injection Hc0 as ->. exists c0, cc, cd. split; [done|].
  rewrite (setup_etcd_keeps _ _ _ Hs), debug_file_keeps, (setup_keys_keep _ _ _ _ _ Hk), (setup_dirs_keep _ _ _ _ _ Hb).
  split_and!; [|done|done]. keep; [by injection Hca as <-|]. destruct (load_toml _ _) as [e|t]; [done|].
  apply bind_inv in Hca as (rules & _ & Hca). injection Hca as <-. keep; done.
Qed.
End precedence.

(** C28.  Where a setting comes from, for every setting that [Setup] does not compute
    itself: when [Setup] succeeds on a settings file of lines [NAME=value], the
    environment variable [DOVE_NAME] has the last word (a list is split at commas);
    without it the last line of the file that names the setting decides, and without
    a line the setting keeps the value it had.  No variable is set for a number or a
    switch, since that ends the process. *)
Theorem Setup_precedence (sys : system) (config0 c : Config) (zk : list (str * list str) * str) (es : list (str * str)) :
  let content := Join (map entry_line es) [newline] in
  ReadFile sys (config_path (configFile sys)) = inr content →
  es ≠ [] → Forall (entry_ok (ParseFloat sys)) es → Trim content [" "%char; newline; cr] = content →
  Setup sys config0 = Done (inr (c, zk)) →
  (∀ f t, field_type f = Some t → f ∉ computed →
     c !! f = if bool_decide (Getenv sys ($"DOVE_" ++ f) = [])
              then match last_value f es with Some v => meaning (ParseFloat sys) f v | None => config0 !! f end
              else Some (env_value t (Getenv sys ($"DOVE_" ++ f))))
  ∧ (∀ f t, field_type f = Some t → t ∈ [FBool; FInt; FFloat] → Getenv sys ($"DOVE_" ++ f) = []).
Proof.
  intros content Hr Hne Hes Ht H.
  destruct (ParseExtraConfig_entries _ _ _ _ config0 Hr Hne Hes Ht) as (c0 & Hp & Hc0). split.
  - intros f t Hf Hnot. destruct (Setup_keeps f Hnot _ _ _ _ H) as (c0' & c1 & c2 & Hp' & E1 & He & ->).
    rewrite Hp in Hp'. injection Hp' as <-.
    destruct (env_fields_spec _ _ _ _ _ _ He fields_nodup (type_in_elem _ _ _ Hf)) as [-> _].
    + by rewrite E1, Hc0, Hf.
    + intros ->. apply type_in_elem in Hf. apply Hnot. unfold fields in Hf.
      repeat (apply elem_of_cons in Hf as [Hf|Hf]; [first [discriminate Hf|injection Hf as ->; listed]|]). by apply elem_of_nil in Hf.
  - apply Setup_tail in H as (secret & envInfo & c1 & c2 & c3 & _ & He & _). intros f t Hf Htt.
    by destruct (env_fields_spec _ _ _ _ _ _ He fields_nodup (type_in_elem _ _ _ Hf)) as [_ Hn]; apply Hn.
Qed.

(** What [CreateSettingFile] packs is what [DecodeSetting] unpacks. *)
Lemma Decode_Create raw : DecodeSetting (CreateSettingFile raw) = raw.
Proof.
  unfold DecodeSetting, CreateSettingFile. rewrite map_map. rewrite <- (map_id raw) at 2. apply map_ext. intros a.
  by destruct a as [[] [] [] [] [] [] [] []].
Qed.

(** The uid is read from the field of the gid: a user 1000 of group 100 becomes
    user 0 without an error, a user 5 of group 77 becomes user 7. *)
Example LookupOsUidGid_wrong :
  LookupOsUidGid $"bob" (inr $"uid=1000(bob) gid=100(users) groups=100(users)") = Done (0%Z, 100%Z, None)
  ∧ LookupOsUidGid $"eve" (inr $"uid=5(eve) gid=77(ops)") = Done (7%Z, 77%Z, None).
Proof. vm_compute. done. Qed.

(** ** A concrete start *)

Definition example_secret : toml :=
  TTree [] [($"Ver", TString $"0.10.3");
    ($"Zookeeper", TTree [] [($"root", TString $"/jumeiconf"); ($"host", TTree [$"DEVCD"] [($"DEVCD", TString $"h1:1,h2:2")])]);
    ($"Encrypt", TTree [] [($"Ver", TOther $"1"); ($"DEVCD", TTree [] [($"key", TString $"example-encrypt-key"); ($"iv", TString $"11111111")])]);
    ($"Etcd", TTree [] [($"CONNECTION_TIMEOUT", TInt 1); ($"DIAL_KEEP_ALIVE_TIME", TInt 2); ($"DIAL_KEEP_ALIVE_TIMEOUT", TInt 3);
      ($"HEARTBEAT_KEY", TString $"hb"); ($"REQUEST_TIMEOUT", TInt 4); ($"MIN_RETRY_INTERVAL", TInt 5);
      ($"RETRY_INTERVAL_RANGE", TInt 6); ($"AUTO_SYNC_INTERVAL", TInt 7)])].

Definition example_entries : list (str * str) :=
  [($"ENV", $"DEVCD"); ($"DATA_DIR", $"/var/lib/dove"); ($"CONFIG_DIR", $"/c,/d"); ($"ENCRYPT_ENABLE", $"TRUE")].

Definition example_system (env : str → str) : system :=
  mkSystem [] (fun _ => inr (Join (map entry_line example_entries) [newline])) (CreateSettingFile $"Ver = '0.10.3'") (fun _ => inr example_secret)
    (fun _ => inl $"none") (fun _ => None) $"10.0.0.1" $"0" (fun s => s) (fun s => s)
    (fun _ => inl $"none") 1000 1000 (fun _ => None) (fun _ => false) env $"/usr/bin" (fun _ => inl $"none")
    (fun t => match t with TOther _ => Some (1, 0)%Z | _ => None end).

Definition example_getenv (name : str) : str := if bool_decide (name = $"DOVE_LOG_DIR") then $"/tmp/log" else [].

Lemma entry_ok_dec pf (k v : str) :
  (negb (bool_decide (equals_sign ∈ k)) && negb (bool_decide (newline ∈ k)) && negb (bool_decide (newline ∈ v))
   && negb (Index k $"#" =? 0)%Z && bool_decide (Trim k $" " = k) && bool_decide (Trim v [" "%char; dquote] = v)
   && match meaning pf k v with Some _ => true | None => false end) = true →
  entry_ok pf (k, v).
Proof.
  intros H. bool_to_prop. unfold entry_ok. cbn [fst snd]. split_and!; try done. right.
  destruct (meaning pf k v); [eauto|done].
Qed.

Lemma ParseExtraConfig_lines_witness :
  let content := Join (map entry_line example_entries) [newline] in
  ∃ c', ParseExtraConfig (fun _ => inl []) [] (fun f => if bool_decide (f = $"/etc/DoveClient.conf") then inr content else inl $"no such file") zero_config = Done (inr c')
    ∧ ∀ f, c' !! f = match field_type f, last_value f example_entries with
                     | Some _, Some v => meaning (fun _ => inl []) f v | _, _ => zero_config !! f end.
Proof.
  apply ParseExtraConfig_lines; [reflexivity|discriminate| |vm_compute; reflexivity].
  repeat (constructor; [apply entry_ok_dec; vm_compute; reflexivity|]). constructor.
Defined.

Definition succeeds {A} (r : outcome (result A)) : bool := match r with Done (inr _) => true | _ => false end.

Lemma example_starts : succeeds (Setup (example_system example_getenv) zero_config) = true.
Proof. vm_compute. reflexivity. Qed.

Lemma Setup_env_wins_witness :
  match Setup (example_system example_getenv) zero_config with
  | Done (inr (c, _)) =>
      (∀ f, field_type f = Some FStr → f ≠ $"ETCD_HEARTBEAT_KEY" → example_getenv ($"DOVE_" ++ f) ≠ [] →
         c !! f = Some (VStr (example_getenv ($"DOVE_" ++ f))))
      ∧ (∀ f t, field_type f = Some t → t ∈ [FBool; FInt; FFloat] → example_getenv ($"DOVE_" ++ f) = [])
  | _ => False
  end.
Proof.
  pose proof example_starts as Hs.
  destruct (Setup (example_system example_getenv) zero_config) as [[e|[c zk]]|w] eqn:E; [discriminate Hs| |discriminate Hs].
  exact (Setup_env_wins (example_system example_getenv) zero_config c zk E).
Defined.

Lemma Setup_checks_keys_witness :
  match Setup (example_system example_getenv) zero_config with
  | Done (inr (c, _)) => length (get_str c $"ENCRYPT_IV") = 8%nat ∧ (1 <= length (get_str c $"ENCRYPT_KEY"))%nat
  | _ => False
  end.
Proof.
  pose proof example_starts as Hs.
  destruct (Setup (example_system example_getenv) zero_config) as [[e|[c zk]]|w] eqn:E; [discriminate Hs| |discriminate Hs].
  exact (Setup_checks_keys (example_system example_getenv) zero_config c zk E eq_refl eq_refl).
Defined.

Lemma example_entries_ok pf : Forall (entry_ok pf) example_entries.
Proof. repeat (constructor; [apply entry_ok_dec; vm_compute; reflexivity|]). constructor. Qed.

(** The log directory is that of the variable, the environment that of the file. *)
Lemma Setup_precedence_witness :
  match Setup (example_system example_getenv) zero_config with
  | Done (inr (c, _)) => c !! $"LOG_DIR" = Some (VStr $"/tmp/log") ∧ c !! $"ENV" = Some (VStr $"DEVCD")
  | _ => False
  end.
Proof.
  pose proof example_starts as Hs.
  destruct (Setup (example_system example_getenv) zero_config) as [[e|[c zk]]|w] eqn:E; [discriminate Hs| |discriminate Hs].
  destruct (Setup_precedence (example_system example_getenv) zero_config c zk example_entries) as [H _].
  - reflexivity.
  - discriminate.
  - apply example_entries_ok.
  - vm_compute. reflexivity.
  - exact E.
  - split.
    + rewrite (H $"LOG_DIR" FStr eq_refl) by (by apply (bool_decide_unpack _); vm_compute). vm_compute. reflexivity.
    + rewrite (H $"ENV" FStr eq_refl) by (by apply (bool_decide_unpack _); vm_compute). vm_compute. reflexivity.
Defined.

