(* ===== verification/HostFiles.v ===== *)
(** * Modes, owners and the address of the host (config/utils.go)

    [Rchmod] and [Rchown] over the tree of a directory as Go's [filepath.Walk]
    visits it, and [GetLocalIp].

    [walk_calls]: the paths that are changed are those of the tree in order up to
    the first failure, and the error is that failure's; a directory that cannot be
    read is changed and passed over. *)

From S2P Require Import Prelude GoLib.

(** A file, or a directory with its entries in the order of their names; [None]
    when they cannot be read. *)
Inductive tree :=
| File
| Dir (entries : option (list (str * tree))).

Definition join (path name : str) : str := path ++ "/"%char :: name.

Section walk.
(** [os.Chmod] or [os.Chown] of a path. *)
Context (change : str → option error).

(** [filepath.Walk] with the function that only changes the path: the calls made
    and the error. *)
Fixpoint walk (path : str) (t : tree) : list str * option error :=
  match change path with
  | Some err => ([path], Some err)
  | None =>
      match t with
      | Dir (Some entries) =>
          let fix walk_entries (l : list (str * tree)) : list str * option error :=
            match l with
            | [] => ([], None)
            | (name, t) :: l =>
                match walk (join path name) t with
                | (calls, Some err) => (calls, Some err)
                | (calls, None) => let '(more, err) := walk_entries l in (calls ++ more, err)
                end
            end in
          let '(calls, err) := walk_entries entries in (path :: calls, err)
      | _ => ([path], None)
      end
  end.

(** [Rchmod], and [Rchown] outside Windows: the walk, then the directory again. *)
Definition Rchmod (dir : str) (t : tree) : list str * option error :=
  match walk dir t with
  | (calls, None) => (calls ++ [dir], change dir)
  | r => r
  end.
Definition Rchown (windows : bool) (dir : str) (t : tree) : list str * option error :=
  if windows then ([], None) else Rchmod dir t.

(** The paths of a tree, a directory before its entries. *)
Fixpoint paths (path : str) (t : tree) : list str :=
  path :: match t with
          | Dir (Some entries) => concat (map (fun e => paths (join path e.1) e.2) entries)
          | _ => []
          end.

(** The paths changed one after the other, until one fails. *)
Fixpoint change_all (l : list str) : list str * option error :=
  match l with
  | [] => ([], None)
  | p :: l => match change p with
              | Some err => ([p], Some err)
              | None => let '(calls, err) := change_all l in (p :: calls, err)
              end
  end.

Lemma change_all_app l k :
  change_all (l ++ k) = match change_all l with
                        | (calls, Some err) => (calls, Some err)
                        | (calls, None) => let '(more, err) := change_all k in (calls ++ more, err)
                        end.
Proof.
  induction l as [|p l IH]; cbn [app change_all]; [by destruct (change_all k)|].
  destruct (change p); [done|]. rewrite IH. destruct (change_all l) as [calls [err|]]; [done|]. by destruct (change_all k).
Qed.

(** The induction on trees. *)
Lemma tree_induction (P : tree → Prop) :
  P File → P (Dir None) → (∀ l, Forall (fun e => P e.2) l → P (Dir (Some l))) → ∀ t, P t.
Proof.
  intros HF HN HD. fix IH 1. intros [|[l|]]; [exact HF| |exact HN]. apply HD.
  induction l as [|[n t] l IHl]; [constructor|]. constructor; [apply IH|exact IHl].
Qed.

Lemma walk_change_all t : ∀ path, walk path t = change_all (paths path t).
Proof.
  induction t as [| |l Hl] using tree_induction; intros path; cbn [walk paths change_all].
  1-2: destruct (change path); reflexivity.
  destruct (change path); [done|].
  assert (∀ k, Forall (λ e : str * tree, ∀ path, walk path e.2 = change_all (paths path e.2)) k →
    (fix walk_entries (l : list (str * tree)) : list str * option error :=
       match l with
       | [] => ([], None)
       | (name, t) :: l =>
           match walk (join path name) t with
           | (calls, Some err) => (calls, Some err)
           | (calls, None) => let '(more, err) := walk_entries l in (calls ++ more, err)
           end
       end) k = change_all (concat (map (λ e, paths (join path e.1) e.2) k))) as Hk.
  { induction 1 as [|[n t] k Ht _ IH]; [done|]. cbn [map concat fst snd]. rewrite change_all_app. cbn [snd] in Ht.
    rewrite Ht, IH. by destruct (change_all (paths (join path n) t)) as [calls [err|]]. }
  by rewrite (Hk l Hl).
Qed.

(** Changing a directory recursively is changing the paths of its tree one
    after the other and then the directory again, until one cannot be changed,
    whose error is returned: without an error every path was changed, with one
    nothing after it was. *)
Theorem walk_calls (dir : str) (t : tree) (calls : list str) (err : option error) :
  Rchmod dir t = (calls, err) →
  Rchmod dir t = change_all (paths dir t ++ [dir])
  ∧ (err = None → calls = paths dir t ++ [dir] ∧ Forall (fun p => change p = None) calls)
  ∧ (∀ e, err = Some e → ∃ before p, calls = before ++ [p] ∧ change p = Some e
       ∧ Forall (fun p => change p = None) before ∧ calls `prefix_of` paths dir t ++ [dir]).
Proof.
  intros H. assert (Rchmod dir t = change_all (paths dir t ++ [dir])) as E.
  { unfold Rchmod. rewrite change_all_app, <- walk_change_all. destruct (walk dir t) as [c [e|]]; [done|].
    cbn [change_all]. by destruct (change dir). }
  split; [done|]. rewrite E in H. clear E. revert calls H. generalize (paths dir t ++ [dir]). intros l.
  induction l as [|p l IH]; intros calls H; cbn [change_all] in H.
  { injection H as <- <-. by split. }
  destruct (change p) as [e0|] eqn:Ep.
  - injection H as <- <-. split; [done|]. intros e [= <-]. exists [], p. split_and!; [done|done|constructor|].
    by exists l.
  - destruct (change_all l) as [c er] eqn:Ec. injection H as <- ->. destruct (IH c eq_refl) as [H1 H2]. split.
    + intros Hn. destruct (H1 Hn) as [-> Hall]. split; [done|]. by constructor.
    + intros e He. destruct (H2 e He) as (b & q & -> & Hq & Hb & Hp). exists (p :: b), q.
      split_and!; [done|done|by constructor|]. by apply prefix_cons.
Qed.

End walk.

Definition example_tree : tree := Dir (Some [($"a", File); ($"b", Dir None); ($"c", Dir (Some [($"d", File)]))]).

Lemma walk_calls_witness :
  let change p := if bool_decide (p = $"/x/c") then Some $"denied" else None in
  Rchmod change $"/x" example_tree = change_all change (paths $"/x" example_tree ++ [$"/x"]).
Proof.
  intros change. exact (proj1 (walk_calls change $"/x" example_tree [$"/x"; $"/x/a"; $"/x/b"; $"/x/c"] (Some $"denied") eq_refl)).
Defined.

(** ** The address *)

(** An address of an interface: an [IPNet] with whether it is a loopback address
    and whether it is one of IPv4, or another kind. *)
Inductive addr :=
| IPNet (loopback to4 : bool) (text : str)
| OtherAddr.

Fixpoint first_ip (l : list addr) : str :=
  match l with
  | [] => $"Unknown"
  | IPNet false true text :: _ => text
  | _ :: l => first_ip l
  end.
Definition GetLocalIp (addrs : result (list addr)) : str :=
  match addrs with inl _ => $"Unknown" | inr l => first_ip l end.
