(* ===== verification/Server.v ===== *)
(** * The life of the local server (connection/conn_handler.go)

    The accept loop, the goroutines of [HandleConn], the counter of connections and
    [StopLocalServer] with the stopping signals, as a step relation.  What a
    connection does with its requests is in [Protocol]; here it waits, works or
    leaves.

    [user_counter_exact]: the 64-bit counter of users never wraps.
    [connections_counted]: nothing is lost between the goroutines and the counter.
    [stop_signals_suffice]: every connection gets its stopping signal, unless it
    passed the check before the stop and registered after it
    ([late_connection_waits]).  [stop_deadlock]: with more than 100 connections the
    stop can block for good. *)

From S2P Require Import Prelude GoLib.

Definition MAX_CONNECTIONS : Z := 15000.

(** A goroutine of [HandleConn]: [Closing] and [Closed] say whether it left on a
    stopping signal. *)
Inductive hpc :=
| HNew | HChecked | HWaiting | HProcessing | HLeaving
| HClosing (signalled : bool) | HClosed (signalled : bool).
#[export] Instance hpc_eq : EqDecision hpc.
Proof. solve_decision. Defined.

(** The accept loop: before [Accept], before the counter is told, before it looks
    for a signal, and after it. *)
Inductive apc := AAccept | ACount | APoll | AExited.
#[export] Instance apc_eq : EqDecision apc.
Proof. solve_decision. Defined.

(** [StopLocalServer]: [SSending c] holds the lock with [c] signals to send. *)
Inductive spc := SIdle | SSet | SSending (c : Z) | SPolling | SReturned.

Record server := mkServer {
  (** [sso.userCounter], a [uint64], and the filled places of [sso.stoppingSigal] *)
  userCounter : Z;
  stoppingSigal : nat;
  stoppingLocalServer : bool;
  stopper : spc;
  acceptor : apc;
  conns : list hpc;
  current_connctions : Z;
  counterCh : list Z;
  (** registrations after the signals were sent *)
  late : nat }.

Definition u64 (z : Z) : Z := (z mod 2 ^ 64)%Z.

Definition sending (s : server) : bool := match stopper s with SSending _ => true | _ => false end.
(** All signals are sent. *)
Definition signals_sent (s : server) : bool := match stopper s with SPolling | SReturned => true | _ => false end.

Definition set_conn (s : server) (i : nat) (h : hpc) : server :=
  mkServer (userCounter s) (stoppingSigal s) (stoppingLocalServer s) (stopper s) (acceptor s) (<[i := h]> (conns s))
    (current_connctions s) (counterCh s) (late s).

(** [sso.Use] and [sso.Unuse]: they wait while [SendSignal] holds the lock. *)
Definition Use (s : server) : option server :=
  if sending s then None
  else Some (mkServer (u64 (userCounter s + 1)) (stoppingSigal s) (stoppingLocalServer s) (stopper s) (acceptor s) (conns s)
               (current_connctions s) (counterCh s) (if signals_sent s then S (late s) else late s)).
Definition Unuse (s : server) : option server :=
  if sending s then None
  else Some (mkServer (u64 (userCounter s - 1)) (stoppingSigal s) (stoppingLocalServer s) (stopper s) (acceptor s) (conns s)
               (current_connctions s) (counterCh s) (late s)).

(** A receive from the channel of signals. *)
Definition take_signal (s : server) : option server :=
  match stoppingSigal s with
  | S n => Some (mkServer (userCounter s) n (stoppingLocalServer s) (stopper s) (acceptor s) (conns s)
                   (current_connctions s) (counterCh s) (late s))
  | O => None
  end.

(** A send to the channel of the counter, of 100 places. *)
Definition tell_counter (s : server) (m : Z) : option server :=
  if length (counterCh s) <? 100
  then Some (mkServer (userCounter s) (stoppingSigal s) (stoppingLocalServer s) (stopper s) (acceptor s) (conns s)
               (current_connctions s) (counterCh s ++ [m]) (late s))
  else None.

Definition set_acceptor (s : server) (a : apc) : server :=
  mkServer (userCounter s) (stoppingSigal s) (stoppingLocalServer s) (stopper s) a (conns s)
    (current_connctions s) (counterCh s) (late s).
Definition set_stopper (s : server) (p : spc) : server :=
  mkServer (userCounter s) (stoppingSigal s) (stoppingLocalServer s) p (acceptor s) (conns s)
    (current_connctions s) (counterCh s) (late s).

(** One step of the accept loop of [StartLocalServer]. *)
Definition StartLocalServer_step (s : server) : option server :=
  match acceptor s with
  | AAccept =>
      if (MAX_CONNECTIONS <? current_connctions s)%Z then Some s
      else Some (mkServer (userCounter s) (stoppingSigal s) (stoppingLocalServer s) (stopper s) ACount (conns s ++ [HNew])
                   (current_connctions s) (counterCh s) (late s))
  | ACount => s ← tell_counter s 1; Some (set_acceptor s APoll)
  | APoll => match take_signal s with
             | Some s => Some (set_acceptor s AExited)
             | None => Some (set_acceptor s AAccept)
             end
  | AExited => None
  end.

(** What a connection meets next: a signal, a request, an answer written, or an
    end (the client closed, or a read or write failed). *)
Inductive event := ESignal | ERequest | EAnswered | EEnd.

(** One step of a goroutine of [HandleConn]. *)
Definition HandleConn_step (s : server) (i : nat) (e : event) : option server :=
  match conns s !! i with
  | Some HNew => Some (set_conn s i (if stoppingLocalServer s then HClosing false else HChecked))
  | Some HChecked => s ← Use s; Some (set_conn s i HWaiting)
  | Some HWaiting =>
      match e with
      | ESignal => s ← take_signal s; Some (set_conn s i (HClosing true))
      | ERequest => Some (set_conn s i HProcessing)
      | EEnd => Some (set_conn s i HLeaving)
      | EAnswered => None
      end
  | Some HProcessing =>
      match e with
      | EAnswered => Some (set_conn s i HWaiting)
      | EEnd => Some (set_conn s i HLeaving)
      | _ => None
      end
  | Some HLeaving => s ← Unuse s; Some (set_conn s i (HClosing false))
  | Some (HClosing b) => s ← tell_counter s (-1); Some (set_conn s i (HClosed b))
  | _ => None
  end.

(** One message handled by [connCounter]. *)
Definition connCounter_step (s : server) : option server :=
  match counterCh s with
  | m :: rest => Some (mkServer (userCounter s) (stoppingSigal s) (stoppingLocalServer s) (stopper s) (acceptor s) (conns s)
                         (current_connctions s + m)%Z rest (late s))
  | [] => None
  end.

(** One step of [StopLocalServer]; the loop of [SendSignal] waits while its
    channel of 100 places is full. *)
Definition StopLocalServer_step (s : server) : option server :=
  match stopper s with
  | SIdle => Some (mkServer (userCounter s) (stoppingSigal s) true SSet (acceptor s) (conns s)
                     (current_connctions s) (counterCh s) (late s))
  | SSet => Some (set_stopper s (SSending (userCounter s)))
  | SSending c =>
      if (0 <? c)%Z then
        if stoppingSigal s <? 100
        then Some (mkServer (userCounter s) (S (stoppingSigal s)) (stoppingLocalServer s) (SSending (c - 1)%Z) (acceptor s)
                     (conns s) (current_connctions s) (counterCh s) (late s))
        else None
      else Some (set_stopper s SPolling)
  | SPolling => if (0 <? current_connctions s)%Z then None else Some (set_stopper s SReturned)
  | SReturned => None
  end.

Inductive smove := SAccept | SConn (i : nat) (e : event) | SCounter | SStop.

Definition sdo (s : server) (m : smove) : option server :=
  match m with
  | SAccept => StartLocalServer_step s
  | SConn i e => HandleConn_step s i e
  | SCounter => connCounter_step s
  | SStop => StopLocalServer_step s
  end.

Definition sstep (s s' : server) : Prop := ∃ m, sdo s m = Some s'.

(** The server has called [sso.Use] and enters its loop. *)
Definition listening : server := mkServer 1 0 false SIdle AAccept [] 0 [] 0.
Definition sreachable (s : server) : Prop := steps sstep listening s.

(** ** Counting *)

(** Connections that wait for a signal now or later. *)
Definition is_active (h : hpc) : bool :=
  match h with HWaiting | HProcessing | HLeaving => true | _ => false end.
Definition is_signalled (h : hpc) : bool :=
  match h with HClosing b | HClosed b => b | _ => false end.
Definition is_closed (h : hpc) : bool := match h with HClosed _ => true | _ => false end.

Definition active (s : server) : nat := count is_active (conns s).
Definition signalled (s : server) : nat := count is_signalled (conns s).
Definition closed (s : server) : nat := count is_closed (conns s).
Definition in_loop (s : server) : nat := match acceptor s with AExited => 0 | _ => 1 end.
Definition uncounted (s : server) : nat := match acceptor s with ACount => 1 | _ => 0 end.
Definition sum (l : list Z) : Z := foldr Z.add 0%Z l.

#[local] Arguments sum : simpl never.
#[local] Arguments u64 : simpl never.

(** The invariant: the three sums, and the signals against those who wait. *)
Definition sinv (s : server) : Prop :=
  userCounter s = u64 (1 + Z.of_nat (active s + signalled s))
  ∧ (current_connctions s + sum (counterCh s) = Z.of_nat (length (conns s)) - Z.of_nat (uncounted s) - Z.of_nat (closed s))%Z
  ∧ match stopper s with
    | SIdle | SSet => stoppingSigal s = 0 ∧ signalled s = 0 ∧ in_loop s = 1
    | SSending c => (Z.of_nat (length (conns s)) < 2 ^ 64 - 1)%Z → (0 <= c ∧ Z.of_nat (active s + in_loop s) <= Z.of_nat (stoppingSigal s) + c)%Z
    | _ => (Z.of_nat (length (conns s)) < 2 ^ 64 - 1)%Z → active s + in_loop s ≤ stoppingSigal s + late s
    end.

Lemma u64_succ z : u64 (u64 z + 1) = u64 (z + 1).
Proof. apply Zplus_mod_idemp_l. Qed.
Lemma u64_pred z : u64 (u64 z - 1) = u64 (z - 1).
Proof. apply Zminus_mod_idemp_l. Qed.
Lemma u64_small z : (0 <= z < 2 ^ 64)%Z → u64 z = z.
Proof. apply Z.mod_small. Qed.

Lemma sum_app l k : sum (l ++ k) = (sum l + sum k)%Z.
Proof. unfold sum. induction l as [|x l IH]; simpl; [done|]. rewrite IH. lia. Qed.

Lemma count_le {A} (p : A → bool) l : count p l ≤ length l.
Proof. induction l as [|x l IH]; simpl; [done|]. destruct (p x); simpl; lia. Qed.

(** Replacing one connection changes the three counts by its new and old state. *)
Lemma replace_counts l i h h' :
  l !! i = Some h →
  count is_active (<[i := h']> l) + b2n (is_active h) = count is_active l + b2n (is_active h')
  ∧ count is_signalled (<[i := h']> l) + b2n (is_signalled h) = count is_signalled l + b2n (is_signalled h')
  ∧ count is_closed (<[i := h']> l) + b2n (is_closed h) = count is_closed l + b2n (is_closed h')
  ∧ length (<[i := h']> l) = length l.
Proof. intros H. rewrite length_insert. split_and!; [by apply count_insert..|done]. Qed.

(** Use the counts for the connection [i] of the goal. *)
Ltac conn_counts :=
  match goal with
  | H : ?l !! ?i = Some ?h |- context [<[?i := ?h']> ?l] =>
      destruct (replace_counts l i h h' H) as (? & ? & ? & ?)
  end.

Ltac sinv_solve :=
  unfold sinv, active, signalled, closed, in_loop, uncounted in *; cbn in *;
  repeat match goal with H : _ ∧ _ |- _ => destruct H end.

Lemma sinv_accept s s' : sinv s → StartLocalServer_step s = Some s' → sinv s'.
Proof.
  intros Hi H. unfold StartLocalServer_step in H. destruct (acceptor s) eqn:Ea; [| | |done].
  - destruct (_ <? _)%Z; simplify_eq; [done|]. sinv_solve. rewrite Ea in *. rewrite !count_app. cbn.
    rewrite length_app. cbn. rewrite !Nat.add_0_r.
    split; [done|]. split; [lia|]. destruct (stopper s); [done|done|..]; intros; naive_solver lia.
  - unfold tell_counter in H. destruct (_ <? _); [|done]. cbn in H. simplify_eq. sinv_solve. rewrite Ea in *.
    rewrite sum_app. change (sum [1%Z]) with 1%Z. split; [done|]. split; [lia|]. destruct (stopper s); naive_solver.
  - unfold take_signal in H. destruct (stoppingSigal s) as [|n] eqn:En; simplify_eq; sinv_solve; rewrite Ea in *;
      (split; [done|]); (split; [lia|]).
    + assumption.
    + rewrite En in *. destruct (stopper s); [naive_solver lia|naive_solver lia|..]; intros Hl; naive_solver lia.
Qed.

Lemma sinv_counter s s' : sinv s → connCounter_step s = Some s' → sinv s'.
Proof.
  intros Hi H. unfold connCounter_step in H. destruct (counterCh s) as [|m rest] eqn:Ec; simplify_eq.
  sinv_solve. rewrite Ec in *. change (sum (m :: rest)) with (m + sum rest)%Z in *. split; [done|]. split; [lia|done].
Qed.

Lemma sinv_stop s s' : sinv s → StopLocalServer_step s = Some s' → sinv s'.
Proof.
  intros Hi H. unfold StopLocalServer_step in H. destruct (stopper s) as [| |c| |] eqn:Es; try done.
  - simplify_eq. sinv_solve. by rewrite Es in *.
  - simplify_eq. sinv_solve. rewrite Es in *. destruct H1 as (Ht & Hs & Ha). split; [done|]. split; [done|].
    intros Hl. pose proof (count_le is_active (conns s)). rewrite H, Ht, Hs, u64_small by lia.
    rewrite Ha. lia.
  - destruct (Z.ltb_spec 0 c); [destruct (Nat.ltb_spec (stoppingSigal s) 100); [|done]|]; simplify_eq;
      sinv_solve; rewrite Es in *; (split; [done|]); (split; [done|]); intros Hl; specialize (H3 Hl) || specialize (H2 Hl); lia.
  - destruct (_ <? _)%Z; simplify_eq. sinv_solve. by rewrite Es in *.
Qed.

(** A step of a connection that touches nothing shared. *)
Lemma sinv_move s i h h' :
  sinv s → conns s !! i = Some h → is_active h' = is_active h → is_signalled h' = is_signalled h →
  is_closed h' = is_closed h → sinv (set_conn s i h').
Proof.
  intros Hi Hc E1 E2 E3. destruct (replace_counts _ _ _ h' Hc) as (H1 & H2 & H3 & H4).
  rewrite E1 in H1. rewrite E2 in H2. rewrite E3 in H3. sinv_solve. rewrite H4.
  replace (count is_active (<[i:=h']> (conns s))) with (count is_active (conns s)) by lia.
  replace (count is_signalled (<[i:=h']> (conns s))) with (count is_signalled (conns s)) by lia.
  replace (count is_closed (<[i:=h']> (conns s))) with (count is_closed (conns s)) by lia. done.
Qed.

Lemma sinv_use s i s1 :
  sinv s → conns s !! i = Some HChecked → Use s = Some s1 → sinv (set_conn s1 i HWaiting).
Proof.
  intros Hi Hc H. unfold Use in H. destruct (sending s) eqn:Es; [done|]. injection H as <-. cbn.
  destruct (replace_counts _ _ _ HWaiting Hc) as (H1 & H2 & H3 & H4). cbn in H1, H2, H3.
  unfold sending, signals_sent in *. sinv_solve. rewrite H, H4, u64_succ. split; [f_equal; lia|]. split; [lia|].
  destruct (stopper s); try done; [split_and!; naive_solver lia..| |]; intros Hl; naive_solver lia.
Qed.

Lemma sinv_unuse s i s1 :
  sinv s → conns s !! i = Some HLeaving → Unuse s = Some s1 → sinv (set_conn s1 i (HClosing false)).
Proof.
  intros Hi Hc H. unfold Unuse in H. destruct (sending s) eqn:Es; [done|]. injection H as <-. cbn.
  destruct (replace_counts _ _ _ (HClosing false) Hc) as (H1 & H2 & H3 & H4). cbn in H1, H2, H3.
  unfold sending in *. sinv_solve. rewrite H, H4, u64_pred. split; [f_equal; lia|]. split; [lia|].
  destruct (stopper s); try done; [split_and!; naive_solver lia..| |]; intros Hl; naive_solver lia.
Qed.

Lemma sinv_signal s i s1 :
  sinv s → conns s !! i = Some HWaiting → take_signal s = Some s1 → sinv (set_conn s1 i (HClosing true)).
Proof.
  intros Hi Hc H. unfold take_signal in H. destruct (stoppingSigal s) as [|n] eqn:En; [done|]. injection H as <-. cbn.
  destruct (replace_counts _ _ _ (HClosing true) Hc) as (H1 & H2 & H3 & H4). cbn in H1, H2, H3.
  sinv_solve. rewrite En in *. rewrite H, H4. split; [f_equal; lia|]. split; [lia|].
  destruct (stopper s); [naive_solver lia|naive_solver lia|..]; intros Hl; naive_solver lia.
Qed.

Lemma sinv_close s i b s1 :
  sinv s → conns s !! i = Some (HClosing b) → tell_counter s (-1) = Some s1 → sinv (set_conn s1 i (HClosed b)).
Proof.
  intros Hi Hc H. unfold tell_counter in H. destruct (_ <? _); [|done]. injection H as <-. cbn.
  destruct (replace_counts _ _ _ (HClosed b) Hc) as (H1 & H2 & H3 & H4). cbn in H1, H2, H3.
  sinv_solve. rewrite sum_app. change (sum [(-1)%Z]) with (-1)%Z. rewrite H, H4.
  replace (count is_active (<[i:=HClosed b]> (conns s))) with (count is_active (conns s)) by lia.
  replace (count is_signalled (<[i:=HClosed b]> (conns s))) with (count is_signalled (conns s)) by lia.
  split; [done|]. split; [lia|done].
Qed.

Lemma sinv_conn s i e s' : sinv s → HandleConn_step s i e = Some s' → sinv s'.
Proof.
  intros Hi H. unfold HandleConn_step in H. destruct (conns s !! i) as [h|] eqn:Ec; [|done].
  destruct h as [| | | | |b|b]; [..|done].
  - injection H as <-. destruct (stoppingLocalServer s); by eapply sinv_move.
  - destruct (Use s) as [s1|] eqn:E; [|done]. cbn in H. simplify_eq. by eapply sinv_use.
  - destruct e; simplify_eq; [|by eapply sinv_move..].
    destruct (take_signal s) as [s1|] eqn:E; [|done]. cbn in H. simplify_eq. by eapply sinv_signal.
  - destruct e; simplify_eq; by eapply sinv_move.
  - destruct (Unuse s) as [s1|] eqn:E; [|done]. cbn in H. simplify_eq. by eapply sinv_unuse.
  - destruct (tell_counter s (-1)) as [s1|] eqn:E; [|done]. cbn in H. simplify_eq. by eapply sinv_close.
Qed.

Lemma sinv_step s s' : sstep s s' → sinv s → sinv s'.
Proof.
  intros [m H] Hi. destruct m; cbn [sdo] in H; eauto using sinv_accept, sinv_conn, sinv_counter, sinv_stop.
Qed.

Lemma sinv_reachable s : sreachable s → sinv s.
Proof. intros H. eapply (steps_inv sstep sinv); [apply sinv_step|exact H|]. unfold sinv. cbn. split_and!; done. Qed.

(** ** Theorems *)

(** C30.  The counter of users is exact: with fewer than 2^64 - 1 connections so
    far it does not wrap around, and equals one (for the accept loop) plus the
    connections that are registered or left on a signal; so [Unuse] never takes it
    below zero. *)
Theorem user_counter_exact (s : server) :
  sreachable s → (Z.of_nat (length (conns s)) < 2 ^ 64 - 1)%Z →
  userCounter s = (1 + Z.of_nat (active s + signalled s))%Z
  ∧ ∀ i, conns s !! i = Some HLeaving → (1 < userCounter s)%Z.
Proof.
  intros (Hu & _)%sinv_reachable Hl.
  assert (active s + signalled s ≤ length (conns s)) as Hb.
  { unfold active, signalled. rewrite <- (count_or is_active is_signalled (λ h, is_active h || is_signalled h)).
    - apply count_le.
    - by intros [| | | | |[]|[]]. }
  rewrite u64_small in Hu by lia. split; [done|]. intros i Hi.
  assert (0 < active s) by (apply count_pos; by exists i, HLeaving). lia.
Qed.

(** C24.  No connection is lost on the way to the counter: in every reachable state
    the counter and the messages on the way to it add up to the connections that
    were accepted and announced and are not closed; so when no message is under
    way and the counter is zero, every connection is closed. *)
Theorem connections_counted (s : server) :
  sreachable s →
  (current_connctions s + sum (counterCh s) = Z.of_nat (length (conns s)) - Z.of_nat (uncounted s) - Z.of_nat (closed s))%Z
  ∧ (counterCh s = [] → acceptor s ≠ ACount → current_connctions s = 0%Z →
     ∀ i h, conns s !! i = Some h → is_closed h = true).
Proof.
  intros (_ & Hc & _)%sinv_reachable. split; [done|]. intros He Ha H0 i h Hh. rewrite He, H0 in Hc.
  assert (closed s = length (conns s)) as Hall.
  { unfold uncounted in Hc. destruct (acceptor s); try done; change (sum []) with 0%Z in Hc; lia. }
  unfold closed in Hall. clear -Hall Hh. revert i Hh. induction (conns s) as [|x l IH]; intros i Hh; [done|].
  cbn [count length] in Hall. pose proof (count_le is_closed l). destruct (is_closed x) eqn:E; cbn in Hall; [|lia].
  destruct i as [|i]; cbn in Hh; [by simplify_eq|]. apply (IH ltac:(lia) i Hh).
Qed.

(** C25.  Stopping reaches everybody: once the signals are sent, and when no
    connection registered after that, there is a signal for every registered
    connection and for the accept loop; so a waiting connection can always
    leave. *)
Theorem stop_signals_suffice (s : server) :
  sreachable s → (Z.of_nat (length (conns s)) < 2 ^ 64 - 1)%Z → signals_sent s = true → late s = 0 →
  active s + in_loop s ≤ stoppingSigal s
  ∧ ∀ i, conns s !! i = Some HWaiting → ∃ s', HandleConn_step s i ESignal = Some s' ∧ conns s' !! i = Some (HClosing true).
Proof.
  intros (_ & _ & Hs)%sinv_reachable Hl Hsent Hlate.
  assert (active s + in_loop s ≤ stoppingSigal s) as Hle.
  { unfold signals_sent in Hsent. destruct (stopper s); try done; specialize (Hs Hl); lia. }
  split; [done|]. intros i Hi. assert (0 < active s) by (apply count_pos; by exists i, HWaiting).
  unfold HandleConn_step, take_signal. rewrite Hi. destruct (stoppingSigal s) as [|n] eqn:En; [lia|].
  eexists. split; [reflexivity|]. cbn. apply list_lookup_insert_eq. by eapply lookup_lt_Some.
Qed.

Fixpoint srun (s : server) (ms : list smove) : option server :=
  match ms with
  | [] => Some s
  | m :: rest => s' ← sdo s m; srun s' rest
  end.

Lemma srun_steps s ms s' : srun s ms = Some s' → steps sstep s s'.
Proof.
  revert s. induction ms as [|m ms IH]; intros s H; cbn [srun] in H; [simplify_eq; constructor|].
  destruct (sdo s m) as [s1|] eqn:E; [|done]. eapply steps_one; [by exists m|by apply IH].
Qed.

(** A connection accepted, announced and counted. *)
Definition connect : list smove := [SAccept; SAccept; SAccept; SCounter].

(** A connection that passed the check of the stopping state before the stop and
    registers after it waits without a signal once the accept loop has left. *)
Example late_connection_waits :
  match srun listening (connect ++ [SConn 0 ESignal] ++ [SStop; SStop; SStop; SStop] ++ [SConn 0 ESignal] ++ [SAccept; SAccept; SAccept]) with
  | Some s => stopper s = SPolling ∧ conns s !! 0 = Some HWaiting ∧ stoppingSigal s = 0
              ∧ HandleConn_step s 0 ESignal = None
  | None => False
  end.
Proof. vm_compute. done. Qed.

(** [StopLocalServer] can return while a connection is being served: the counter
    was not told yet. *)
Example stop_returns_early :
  match srun listening ([SAccept; SConn 0 ERequest; SConn 0 ERequest; SConn 0 ERequest]
                        ++ [SStop; SStop; SStop; SStop; SStop; SStop]) with
  | Some s => stopper s = SReturned ∧ conns s !! 0 = Some HProcessing
  | None => False
  end.
Proof. vm_compute. done. Qed.

(** ** The deadlock *)

(** [SendSignal] holds the lock with more signals to send than the channel and
    the accept loop can take, and no connection is left that would take one. *)
Definition jammed (s : server) : Prop :=
  (∃ c, stopper s = SSending c ∧ (102 <= c + Z.of_nat (stoppingSigal s) + (1 - Z.of_nat (in_loop s)))%Z)
  ∧ stoppingSigal s ≤ 100
  ∧ Forall (fun h => h ≠ HWaiting ∧ h ≠ HProcessing) (conns s).

Lemma jammed_sending s : jammed s → ∃ c, stopper s = SSending c ∧ (0 < c)%Z.
Proof.
  intros ((c & Hs & Hc) & Ht & _). exists c. split; [done|]. unfold in_loop in Hc. destruct (acceptor s); lia.
Qed.

Lemma jammed_conn s i e s' : jammed s → HandleConn_step s i e = Some s' → jammed s'.
Proof.
  intros Hj H. destruct (jammed_sending s Hj) as (c0 & Hs0 & _). destruct Hj as (Hc & Ht & Hf).
  assert (∀ h, h ≠ HWaiting ∧ h ≠ HProcessing → Forall (fun h => h ≠ HWaiting ∧ h ≠ HProcessing) (<[i := h]> (conns s))) as Hins
    by (intros; by apply Forall_insert).
  unfold HandleConn_step in H. destruct (conns s !! i) as [h|] eqn:Ec; [|done].
  rewrite Forall_lookup in Hf. pose proof (Hf _ _ Ec) as [H1 H2].
  destruct h as [| | | | |b|b]; try done; unfold Use, Unuse, tell_counter, sending in H; rewrite ?Hs0 in H; try done.
  - injection H as <-. split; [exact Hc|]. split; [exact Ht|]. cbn. apply Hins. by destruct (stoppingLocalServer s).
  - destruct (length (counterCh s) <? 100); [|done]. cbn in H. injection H as <-.
    split; [destruct Hc as (c & Hs & Hc); exists c; split; [cbn; congruence|exact Hc]|].
    split; [exact Ht|]. cbn. by apply Hins.
Qed.

Lemma jammed_step s s' : sstep s s' → jammed s → jammed s'.
Proof.
  intros [m H] Hj. destruct m; cbn [sdo] in H; [|by eapply jammed_conn| |].
  - destruct Hj as ((c & Hs & Hc) & Ht & Hf). unfold StartLocalServer_step in H. destruct (acceptor s) eqn:Ea; [| | |done].
    + destruct (_ <? _)%Z; injection H as <-; [split_and!; [exists c; done|done|done]|]. split_and!; cbn; [|done|].
      * exists c. unfold in_loop in *. rewrite Ea in Hc. done.
      * apply Forall_app. split; [done|]. by repeat constructor.
    + unfold tell_counter in H. destruct (_ <? _); [|done]. injection H as <-. split_and!; [|done|done].
      exists c. unfold in_loop in *. rewrite Ea in Hc. done.
    + unfold take_signal in H. destruct (stoppingSigal s) as [|n] eqn:En; injection H as <-;
        (split_and!; [exists c; split; [done|]; unfold in_loop in *; rewrite Ea in Hc; cbn in *; lia|cbn; lia|done]).
  - destruct Hj as ((c & Hs & Hc) & Ht & Hf). unfold connCounter_step in H. destruct (counterCh s); [done|].
    injection H as <-. split_and!; [by exists c|done|done].
  - destruct (jammed_sending s Hj) as (c' & Hs' & Hpos). destruct Hj as ((c & Hs & Hc) & Ht & Hf).
    assert (c' = c) as -> by congruence. unfold StopLocalServer_step in H. rewrite Hs in H.
    rewrite (proj2 (Z.ltb_lt 0 c) Hpos) in H. destruct (Nat.ltb_spec (stoppingSigal s) 100); [|done]. injection H as <-.
    split_and!; [|cbn; lia|done]. exists (c - 1)%Z. split; [done|]. unfold in_loop in *. cbn. destruct (acceptor s); lia.
Qed.

(** 102 connections are registered and then all end at once, while the stop
    takes the lock. *)
Definition jam_run : list smove :=
  flat_map (fun i => connect ++ [SConn i ERequest; SConn i ERequest]) (seq 0 102)
  ++ map (fun i => SConn i EEnd) (seq 0 102) ++ [SStop; SStop].

Definition jammed_bool (s : server) : bool :=
  match stopper s with SSending c => (102 <=? c)%Z | _ => false end
  && (stoppingSigal s =? 0) && forallb (fun h => bool_decide (h = HLeaving)) (conns s).

Lemma jammed_bool_sound s : jammed_bool s = true → jammed s.
Proof.
  unfold jammed_bool. intros H. bool_to_prop. destruct (stopper s) as [| |c| |] eqn:Es; try done. bool_to_prop.
  split_and!; [|lia|].
  - exists c. split; [done|]. unfold in_loop. destruct (acceptor s); lia.
  - apply List.Forall_forall. intros h Hh. rewrite forallb_forall in H0. specialize (H0 h Hh). bool_to_prop. by subst.
Qed.

(** Stopping can block for good: there is a reachable state from which, in
    every later state, [SendSignal] still holds the lock with signals to send, so
    that [StopLocalServer] never returns. *)
Theorem stop_deadlock :
  ∃ s, sreachable s ∧ ∀ s', steps sstep s s' → ∃ c, stopper s' = SSending c ∧ (0 < c)%Z.
Proof.
  assert (match srun listening jam_run with Some s => jammed_bool s | None => false end = true) as E by (vm_compute; reflexivity).
  destruct (srun listening jam_run) as [s|] eqn:Es; [|discriminate E].
  exists s. split; [exact (srun_steps _ _ _ Es)|]. intros s' H. apply jammed_sending.
  apply jammed_bool_sound in E. clear Es. eapply (steps_inv sstep jammed); [apply jammed_step|exact H|exact E].
Qed.

Definition one_waiting : list smove := connect ++ [SConn 0 ERequest; SConn 0 ERequest].

Lemma user_counter_exact_witness :
  match srun listening one_waiting with
  | Some s => userCounter s = (1 + Z.of_nat (active s + signalled s))%Z
              ∧ ∀ i, conns s !! i = Some HLeaving → (1 < userCounter s)%Z
  | None => False
  end.
Proof.
  destruct (srun listening one_waiting) as [s|] eqn:E; [|vm_compute in E; discriminate].
  apply (user_counter_exact s (srun_steps _ _ _ E)). vm_compute in E. injection E as <-. reflexivity.
Defined.

Lemma connections_counted_witness :
  match srun listening one_waiting with
  | Some s =>
      (current_connctions s + sum (counterCh s) = Z.of_nat (length (conns s)) - Z.of_nat (uncounted s) - Z.of_nat (closed s))%Z
      ∧ (counterCh s = [] → acceptor s ≠ ACount → current_connctions s = 0%Z →
         ∀ i h, conns s !! i = Some h → is_closed h = true)
  | None => False
  end.
Proof.
  destruct (srun listening one_waiting) as [s|] eqn:E; [|vm_compute in E; discriminate].
  apply (connections_counted s (srun_steps _ _ _ E)).
Defined.

Lemma stop_signals_suffice_witness :
  match srun listening (one_waiting ++ [SStop; SStop; SStop; SStop; SStop]) with
  | Some s => active s + in_loop s ≤ stoppingSigal s
      ∧ ∀ i, conns s !! i = Some HWaiting → ∃ s', HandleConn_step s i ESignal = Some s' ∧ conns s' !! i = Some (HClosing true)
  | None => False
  end.
Proof.
  destruct (srun listening (one_waiting ++ [SStop; SStop; SStop; SStop; SStop])) as [s|] eqn:E; [|vm_compute in E; discriminate].
  apply (stop_signals_suffice s (srun_steps _ _ _ E)); vm_compute in E; injection E as <-; reflexivity.
Defined.
