(* ===== verification/Main.v ===== *)
(** * The command line and the process (main.go, doveclient.go, proc/proc_control.go)

    The flags as Go's [flag] package parses them, the decisions of [main] up to
    serving or an exit code, the pid file with [Status], [StopClient] and
    [Restart], the handling of signals, the arguments of the daemon and the wait for
    it.

    Also what [-V] prints ([getVersionDesc]) and the transition instance that nothing
    starts any more ([startTransiIntance_spec]).

    [daemon_args_same]: the daemon is started with the same options and without
    the ones that would start another one; [daemon_chain] and [words_lost] show the
    spellings for which that fails.  [single_instance], [restart_hands_over]: one
    instance at a time, and what a restart leaves; [foreign_instance]: a daemon of
    another user is taken for a stopped one. *)

From S2P Require Import Prelude GoLib Util.

(** ** Flags *)

Record flags := mkFlags {
  f_c : str;
  f_help : bool;
  f_debug : bool;
  f_ls : bool;
  f_bi : bool;
  f_rbi : bool;
  f_d : bool;
  f_detach : bool;
  f_V : bool }.

Definition no_flags : flags := mkFlags [] false false false false false false false false.

(** The first argument, as [FlagSet.parseOne] looks at it. *)
Inductive token :=
| NotFlag
| Terminator
| BadFlag
| Flag (name : str) (value : option str).

Definition flag_of (a : str) : token :=
  match a with
  | "-"%char :: ((_ :: _) as s) =>
      let name := match s with "-"%char :: s' => s' | _ => s end in
      if bool_decide (a = $"--") then Terminator
      else match name with
           | [] => BadFlag
           | c :: _ =>
               if bool_decide (c = "-"%char) || bool_decide (c = "="%char) then BadFlag
               else match SplitN2 name "="%char with
                    | [n; v] => Flag n (Some v)
                    | _ => Flag name None
                    end
           end
  | _ => NotFlag
  end.

(** [strconv.ParseBool]. *)
Definition ParseBool (s : str) : option bool :=
  if InArrayString [$"1"; $"t"; $"T"; $"true"; $"TRUE"; $"True"] s then Some true
  else if InArrayString [$"0"; $"f"; $"F"; $"false"; $"FALSE"; $"False"] s then Some false
  else None.

(** The flags [main] defines besides [-c]. *)
Definition set_flag (f : flags) (name : str) (b : bool) : option flags :=
  if bool_decide (name = $"h" ∨ name = $"help") then
    Some (mkFlags (f_c f) b (f_debug f) (f_ls f) (f_bi f) (f_rbi f) (f_d f) (f_detach f) (f_V f))
  else if bool_decide (name = $"debug") then
    Some (mkFlags (f_c f) (f_help f) b (f_ls f) (f_bi f) (f_rbi f) (f_d f) (f_detach f) (f_V f))
  else if bool_decide (name = $"ls") then
    Some (mkFlags (f_c f) (f_help f) (f_debug f) b (f_bi f) (f_rbi f) (f_d f) (f_detach f) (f_V f))
  else if bool_decide (name = $"bi") then
    Some (mkFlags (f_c f) (f_help f) (f_debug f) (f_ls f) b (f_rbi f) (f_d f) (f_detach f) (f_V f))
  else if bool_decide (name = $"rbi") then
    Some (mkFlags (f_c f) (f_help f) (f_debug f) (f_ls f) (f_bi f) b (f_d f) (f_detach f) (f_V f))
  else if bool_decide (name = $"d") then
    Some (mkFlags (f_c f) (f_help f) (f_debug f) (f_ls f) (f_bi f) (f_rbi f) b (f_detach f) (f_V f))
  else if bool_decide (name = $"detach") then
    Some (mkFlags (f_c f) (f_help f) (f_debug f) (f_ls f) (f_bi f) (f_rbi f) (f_d f) b (f_V f))
  else if bool_decide (name = $"V") then
    Some (mkFlags (f_c f) (f_help f) (f_debug f) (f_ls f) (f_bi f) (f_rbi f) (f_d f) (f_detach f) b)
  else None.

Definition set_c (f : flags) (v : str) : flags :=
  mkFlags v (f_help f) (f_debug f) (f_ls f) (f_bi f) (f_rbi f) (f_d f) (f_detach f) (f_V f).

(** A flag other than [-c]: [None] is an error, which exits with code 2. *)
Definition bool_flag (f : flags) (name : str) (value : option str) : option flags :=
  b ← (match value with None => Some true | Some v => ParseBool v end); set_flag f name b.

(** [args.Parse]: the flags and the arguments left, or [None] for an exit with
    code 2. *)
Fixpoint parse_flags (f : flags) (args : list str) : option (flags * list str) :=
  match args with
  | [] => Some (f, [])
  | a :: rest =>
      match flag_of a with
      | NotFlag => Some (f, args)
      | Terminator => Some (f, rest)
      | BadFlag => None
      | Flag name value =>
          if bool_decide (name = $"c") then
            match value with
            | Some v => parse_flags (set_c f v) rest
            | None => match rest with
                      | v :: rest' => parse_flags (set_c f v) rest'
                      | [] => None
                      end
            end
          else match bool_flag f name value with
               | Some f => parse_flags f rest
               | None => None
               end
      end
  end.

(** ** The daemon *)

(** The arguments [StartDaemonInstance] leaves out. *)
Definition dropped (a : str) : bool :=
  InArrayString [$"-d"; $"--d"; $"-d=true"; $"-detach"; $"--detach"; $"-detach=true"; $"restart"; $"start"; $"-bi"; $"--bi"] a.

#[global] Arguments dropped : simpl never.

Definition daemon_args (args : list str) : list str := List.filter (fun a => negb (dropped a)) args.

(** The command line of the shell. *)
Definition daemon_command (DAEMON_USER arg0 : str) (args : list str) : str :=
  Join (($"sudo -u " ++ DAEMON_USER ++ $" " ++ arg0) :: daemon_args args) [" "%char].

(** [bash -c] reads that line again: nothing was quoted.  A plain word is not empty
    and has no character that means something to the shell; what the shell makes of
    other words is not modelled. *)
Definition plain_char (c : ascii) : bool :=
  let z := Z_of_byte c in
  ((48 <=? z) && (z <=? 57) || (65 <=? z) && (z <=? 90) || (97 <=? z) && (z <=? 122))%Z
  || InArrayString [$"-"; $"_"; $"."; $"/"; $"="; $":"; $","; $"+"; $"@"] [c].
Definition plain (w : str) : bool := negb (bool_decide (w = [])) && forallb plain_char w.

(** A shell splits a line of plain words at the blanks between them. *)
Definition plain_shell (shell : str → list str) : Prop :=
  ∀ ws, ws ≠ [] → forallb plain ws = true → shell (Join ws [" "%char]) = ws.

(** ** The machine: the pid file, the processes, the signals sent *)

Inductive signal := SIGQUIT | SIGTERM | SIGINT | SIGALRM | SIGUSR1 | SIGUSR2 | SIGHUP | SIG0 | SIGOTHER.
#[export] Instance signal_eq : EqDecision signal.
Proof. solve_decision. Defined.

(** [foreign] are the processes of other users, which the sender may not signal. *)
Record machine := mkMachine {
  pid_file : option str;
  alive : gset Z;
  sent : list (Z * signal);
  foreign : gset Z }.

Definition GetPid (m : machine) : result Z :=
  match pid_file m with
  | None => inl $"no such file or directory"
  | Some pidB => match Atoi (TrimSpace pidB) with inr n => inr n | inl e => inl (num_error_text e) end
  end.
Definition SavePid (m : machine) (pid : Z) : machine := mkMachine (Some (Itoa pid)) (alive m) (sent m) (foreign m).
Definition RemovePid (m : machine) : machine := mkMachine None (alive m) (sent m) (foreign m).

(** [os.Process.Signal]: an error for a process that does not exist, and for one
    that may not be signalled (EPERM). *)
Definition signalable (m : machine) (pid : Z) : Prop := pid ∈ alive m ∧ pid ∉ foreign m.
#[export] Instance signalable_dec m pid : Decision (signalable m pid).
Proof. unfold signalable. apply _. Defined.

Definition send_signal (m : machine) (pid : Z) (sig : signal) : bool * machine :=
  if bool_decide (signalable m pid) then (true, mkMachine (pid_file m) (alive m) (sent m ++ [(pid, sig)]) (foreign m))
  else (false, m).

Inductive status := Failed | Stopped | Running.
#[export] Instance status_eq : EqDecision status.
Proof. solve_decision. Defined.

Definition Status (m : machine) : status * machine :=
  match GetPid m with
  | inl _ => (Failed, m)
  | inr pid => let '(ok, m) := send_signal m pid SIG0 in (if ok then Running else Stopped, m)
  end.

Definition StopClient (m : machine) (RunAsBi : bool) (own : Z) : machine :=
  match (if RunAsBi then inr own else GetPid m) with
  | inl _ => m
  | inr pid => (send_signal m pid SIGQUIT).2
  end.

(** [Restart]: [settle] is what happens during the three seconds it waits. *)
Definition Restart (m : machine) (settle : machine → machine) : bool * machine :=
  match GetPid m with
  | inl _ => (false, m)
  | inr pid =>
      let '(ok, m) := send_signal m pid SIGUSR2 in
      if ok then
        let m := settle m in
        match GetPid m with
        | inl _ => (false, m)
        | inr pid => send_signal m pid SIG0
        end
      else (false, m)
  end.

(** The wait of [StartDaemonInstance]: what the machine is in every round of 200
    ms.  The pid is read until it can be read once; after a failed signal nothing is
    tried again.  The first result is the error, the second whether the loop was
    left early. *)
Definition already_finished : error := $"os: process already finished".
Fixpoint daemon_wait (cProc : option Z) (err : option error) (rounds : list machine) : option error * bool :=
  match rounds with
  | [] => (err, false)
  | m :: rest =>
      let '(cProc, err) :=
        match cProc with
        | None => match GetPid m with inl e => (None, Some e) | inr pid => (Some pid, None) end
        | Some _ => (cProc, err)
        end in
      match err, cProc with
      | None, Some pid =>
          if (send_signal m pid SIG0).1 then (None, true) else daemon_wait cProc (Some already_finished) rest
      | _, _ => daemon_wait cProc err rest
      end
  end.

(** [StartDaemonInstance] fails when the daemon was not seen, the command failed,
    or [sudo] could not be killed. *)
Definition StartDaemonInstance (rounds : list machine) (cmdErr kill : option error) : bool :=
  let '(err, broke) := daemon_wait None None rounds in
  bool_decide (err = None) && bool_decide (cmdErr = None) && (negb broke || bool_decide (kill = None)).

(** ** Signals *)

Inductive reaction := Quit | FreeMemory | ShowGoroutines | ToggleDebug | HandOver | Ignore.

Definition ProcessSysSignal (sig : signal) : reaction :=
  match sig with
  | SIGQUIT | SIGTERM | SIGINT => Quit
  | SIGALRM => FreeMemory
  | SIGUSR1 => ShowGoroutines
  | SIGHUP => ToggleDebug
  | SIGUSR2 => HandOver
  | _ => Ignore
  end.

(** The end of a process: [Stop] removes the pid file, [SafeStop] does not. *)
Definition exit_process (m : machine) (pid : Z) : machine := mkMachine (pid_file m) (alive m ∖ {[pid]}) (sent m) (foreign m).
Definition Stop (m : machine) (pid : Z) : machine := exit_process (RemovePid m) pid.
Definition SafeStop (m : machine) (pid : Z) : machine := exit_process m pid.

(** ** main *)

Inductive action :=
| Exit (code : Z)
| Serve (watch : bool).

(** What [main] meets outside: the result of [Setup] and [InitCallbacks], of
    starting the daemon, the variable [RESTART] and whether the pid file can be
    written. *)
Record surroundings := mkSurroundings {
  setup_ok : bool;
  daemon_ok : bool;
  RESTART : str;
  save_ok : bool;
  own_pid : Z;
  settle_ : machine → machine }.

Definition main_serve (e : surroundings) (rbi : bool) (m : machine) : action * machine :=
  let '(st, m) := Status m in
  if bool_decide (st = Running) && bool_decide (RESTART e = []) then (Exit 1, m)
  else if save_ok e then (Serve (negb rbi), SavePid m (own_pid e)) else (Exit 1, m).

Definition main (e : surroundings) (args : list str) (m : machine) : action * machine :=
  match parse_flags no_flags args with
  | None => (Exit 2, m)
  | Some (f, cmds) =>
      if f_V f then (Exit 0, m)
      else if f_help f then (Exit 0, m)
      else if 1 <? length cmds then (Exit 1, m)
      else
        let cmd := default [] (head cmds) in
        let runAsDaemon := f_d f || f_detach f || bool_decide (cmd = $"start") in
        if negb (setup_ok e) then (Exit 2, m)
        else if runAsDaemon || f_bi f then (Exit (if daemon_ok e then 0 else 1), m)
        else if bool_decide (cmd = $"restart") then
          let '(ok, m) := Restart m (settle_ e) in (Exit (if ok then 0 else 1), m)
        else if bool_decide (cmd = $"stop") then (Exit 0, StopClient m (f_rbi f) (own_pid e))
        else if bool_decide (cmd = $"status") then (Exit 0, (Status m).2)
        else if bool_decide (cmd = $"reload") then (Exit 0, m)
        else main_serve e (f_rbi f) m
  end.

(** Whether [main] starts a daemon on these arguments. *)
Definition detaches (args : list str) : bool :=
  match parse_flags no_flags args with
  | Some (f, cmds) => negb (f_V f) && negb (f_help f) && (length cmds <=? 1)
      && (f_d f || f_detach f || bool_decide (cmds = [$"start"]) || f_bi f)
  | None => false
  end.

(** ** The arguments of the daemon *)

Definition strip (f : flags) : flags :=
  mkFlags (f_c f) (f_help f) (f_debug f) (f_ls f) false (f_rbi f) false false (f_V f).

Definition detach_names : list str := [$"d"; $"detach"; $"bi"].

(** The arguments are spelled the way [StartDaemonInstance] expects: the detaching
    flags appear only as it drops them, and the file after [-c] is not one of the
    words it drops. *)
Fixpoint spelled (args : list str) : bool :=
  match args with
  | [] => true
  | a :: rest =>
      match flag_of a with
      | Flag name value =>
          if bool_decide (name = $"c") then
            match value, rest with
            | None, v :: rest' => negb (dropped v) && spelled rest'
            | _, _ => spelled rest
            end
          else (dropped a || negb (InArrayString detach_names name)) && spelled rest
      | _ => true
      end
  end.

Lemma strip_set_c f v : strip (set_c f v) = set_c (strip f) v.
Proof. done. Qed.

Lemma set_flag_strip f name b f' :
  set_flag f name b = Some f' →
  if InArrayString detach_names name then strip f' = strip f else set_flag (strip f) name b = Some (strip f').
Proof.
  unfold set_flag.
  repeat (case_bool_decide as E; [first [subst name|destruct E as [-> | ->]]; intros [= <-]; reflexivity|clear E]). done.
Qed.

Lemma bool_flag_strip f name value f' :
  bool_flag f name value = Some f' →
  if InArrayString detach_names name then strip f' = strip f else bool_flag (strip f) name value = Some (strip f').
Proof.
  unfold bool_flag. destruct (match value with None => Some true | Some v => ParseBool v end) as [b|]; [|done].
  cbn [mbind option_bind]. apply set_flag_strip.
Qed.

(** The words that are dropped are detaching flags, or commands. *)
Lemma dropped_cases a :
  dropped a = true →
  (a = $"start" ∨ a = $"restart") ∨ ∃ name v, flag_of a = Flag name v ∧ InArrayString detach_names name = true.
Proof.
  unfold dropped. rewrite InArrayString_spec. intros H.
  repeat (apply elem_of_cons in H as [->|H]; [first [left; by auto|right; eexists _, _; split; reflexivity]|]).
  by apply elem_of_nil in H.
Qed.

Lemma not_c name : InArrayString detach_names name = true → name ≠ $"c".
Proof. by intros H ->. Qed.

Lemma parse_flags_daemon args : ∀ f f' cmds,
  spelled args = true → parse_flags f args = Some (f', cmds) → length cmds ≤ 1 →
  parse_flags (strip f) (daemon_args args) = Some (strip f', daemon_args cmds).
Proof.
  induction args as [args IH] using (induction_ltof1 _ length); unfold ltof in IH. intros f f' cmds Hs Hp Hl.
  destruct args as [|a rest]; [by simplify_eq/=|]. cbn [spelled parse_flags] in Hs, Hp.
  unfold daemon_args. cbn [List.filter]. destruct (flag_of a) as [| | |name value] eqn:Ef.
  - simplify_eq. destruct rest; [|simpl in Hl; lia]. cbn [List.filter]. destruct (dropped a); cbn; [done|by rewrite Ef].
  - simplify_eq. assert (dropped a = false) as ->.
    { apply not_true_is_false. intros [[->| ->]|(n & v & Hf & _)]%dropped_cases; [discriminate Ef..|congruence]. }
    cbn. by rewrite Ef.
  - done.
  - case_bool_decide as Hc.
    + subst name. assert (dropped a = false) as ->.
      { apply not_true_is_false. intros [[->| ->]|(n & v & Hf & Hn)]%dropped_cases; [discriminate Ef..|].
        rewrite Ef in Hf. injection Hf as <- <-. discriminate Hn. }
      cbn [negb parse_flags]. rewrite Ef, bool_decide_eq_true_2 by done. destruct value as [v|].
      * rewrite <- strip_set_c. apply IH; [simpl; lia|done..].
      * destruct rest as [|v rest]; [done|]. apply andb_true_iff in Hs as [Hv Hs]. cbn [List.filter]. rewrite Hv.
        rewrite <- strip_set_c. apply IH; [simpl; lia|done..].
    + apply andb_true_iff in Hs as [Hd Hs]. destruct (bool_flag f name value) as [f1|] eqn:Eb; [|done].
      apply bool_flag_strip in Eb. destruct (dropped a) eqn:Ed; cbn [negb].
      * assert (InArrayString detach_names name = true) as Hn.
        { apply dropped_cases in Ed as [[->| ->]|(n & v & Hf & Hn)]; [discriminate Ef..|]. rewrite Ef in Hf. by simplify_eq. }
        rewrite Hn in Eb. rewrite <- Eb. apply IH; [simpl; lia|done..].
      * cbn [orb] in Hd. apply negb_true_iff in Hd. rewrite Hd in Eb. cbn [parse_flags]. rewrite Ef.
        rewrite bool_decide_eq_false_2 by done. rewrite Eb. apply IH; [simpl; lia|done..].
Qed.

Lemma daemon_command_words user arg0 args :
  daemon_command user arg0 args = Join ([$"sudo"; $"-u"; user; arg0] ++ daemon_args args) [" "%char].
Proof. unfold daemon_command. destruct (daemon_args args); cbn [app Join]; by rewrite <- ?app_assoc. Qed.

Lemma daemon_args_plain args : forallb plain args = true → forallb plain (daemon_args args) = true.
Proof.
  rewrite !forallb_forall. intros H x Hx. unfold daemon_args in Hx. apply filter_In in Hx as [Hx _]. by apply H.
Qed.

(** C32.  The daemon is the same client in the background.  For a user name, a
    program and arguments of plain words, and the arguments spelled the way
    [StartDaemonInstance] expects, the shell reads its command as [sudo] for that
    user and program with arguments that parse to the same flags without the
    detaching ones and to the command left after dropping start and restart; so the
    new process does not detach again.  Other spellings and words: [daemon_chain],
    [words_lost]. *)
Theorem daemon_args_same (shell : str → list str) (user arg0 : str) (args : list str) (f : flags) (cmds : list str) :
  plain_shell shell → plain user = true → plain arg0 = true → forallb plain args = true →
  spelled args = true → parse_flags no_flags args = Some (f, cmds) → length cmds ≤ 1 →
  ∃ argv, shell (daemon_command user arg0 args) = [$"sudo"; $"-u"; user; arg0] ++ argv
    ∧ parse_flags no_flags argv = Some (strip f, daemon_args cmds) ∧ detaches argv = false.
Proof.
  intros Hsh Hu H0 Ha Hs Hp Hl. exists (daemon_args args). split.
  { rewrite daemon_command_words. apply Hsh; [done|]. cbn [app forallb]. by rewrite Hu, H0, (daemon_args_plain _ Ha). }
  pose proof (parse_flags_daemon args no_flags f cmds Hs Hp Hl) as H.
  change (strip no_flags) with no_flags in H. split; [done|]. unfold detaches. rewrite H. cbn [f_d f_detach f_bi strip orb].
  rewrite orb_false_r. apply andb_false_iff. right. apply bool_decide_eq_false. intros Hd.
  assert ($"start" ∈ daemon_args cmds) as Hin by (rewrite Hd; left).
  apply list_elem_of_In, filter_In in Hin as [_ Hin]. discriminate Hin.
Qed.

(** Other spellings of the same flag are passed on: each daemon starts the next. *)
Example daemon_chain :
  Forall (fun a => detaches [a] = true ∧ daemon_args [a] = [a]) [$"-d=1"; $"--d=true"; $"-detach=t"; $"-bi=true"].
Proof. repeat constructor. Qed.

(** A shell that only splits at blanks. *)
Definition blank_shell (line : str) : list str := List.filter (fun w => negb (bool_decide (w = []))) (Split line [" "%char]).

Lemma blank_shell_plain : plain_shell blank_shell.
Proof.
  intros ws Hne Hws. unfold blank_shell. rewrite forallb_forall in Hws. rewrite Split_Join; [|done|].
  - clear Hne. induction ws as [|w ws IH]; [done|]. cbn [List.filter].
    assert (plain w = true) as Hw by (apply Hws; by left). unfold plain in Hw. apply andb_true_iff in Hw as [-> _].
    f_equal. apply IH. intros x Hx. apply Hws. by right.
  - apply List.Forall_forall. intros w Hw Hin. apply Hws in Hw. unfold plain in Hw. apply andb_true_iff in Hw as [_ Hw].
    rewrite forallb_forall in Hw. apply list_elem_of_In, Hw in Hin. discriminate Hin.
Qed.

(** Words that are lost on the way: an empty file name lets [-c] take the next
    flag, and without a user name [sudo] takes the program for the user. *)
Example words_lost :
  (option_map (fun r => f_c r.1) (parse_flags no_flags [$"-c"; []; $"-debug"]) = Some []
   ∧ option_map (fun r => f_c r.1) (parse_flags no_flags (drop 4 (blank_shell (daemon_command $"dove" $"/usr/bin/dove" [$"-c"; []; $"-debug"]))))
     = Some $"-debug")
  ∧ blank_shell (daemon_command [] $"/usr/bin/dove" [$"-debug"]) = [$"sudo"; $"-u"; $"/usr/bin/dove"; $"-debug"].
Proof. vm_compute. done. Qed.

(** ** One instance *)

Lemma digit_not_space c s : is_digit c = true → space_width (c :: s) = 0.
Proof. destruct c as [[] [] [] [] [] [] [] []]; intros H; try discriminate H; reflexivity. Qed.

Lemma digit_not_space_rev c s : is_digit c = true → space_width_rev (c :: s) = 0.
Proof. destruct c as [[] [] [] [] [] [] [] []]; intros H; try discriminate H; reflexivity. Qed.

Lemma TrimSpace_digits s : forallb is_digit s = true → TrimSpace s = s.
Proof.
  intros Hd. unfold TrimSpace.
  assert (trim_space_left space_width 0 s = s) as ->.
  { destruct s as [|c s]; [done|]. cbn [trim_space_left]. simpl in Hd. apply andb_true_iff in Hd as [Hc _].
    by rewrite digit_not_space. }
  assert (trim_space_left space_width_rev 0 (reverse s) = reverse s) as ->; [|apply reverse_involutive].
  destruct (reverse s) as [|c r] eqn:E; [done|]. cbn [trim_space_left]. rewrite digit_not_space_rev; [done|].
  rewrite forallb_forall in Hd. apply Hd, list_elem_of_In. rewrite <- (reverse_involutive s), E, elem_of_reverse. left.
Qed.

Lemma GetPid_SavePid m pid : (0 <= pid <= int64_max)%Z → GetPid (SavePid m pid) = inr pid.
Proof.
  intros H. unfold GetPid, SavePid. cbn [pid_file]. rewrite TrimSpace_digits by (apply Itoa_spec; lia).
  by rewrite Atoi_Itoa.
Qed.

Lemma Status_running m pid : GetPid m = inr pid → signalable m pid → (Status m).1 = Running ∧ pid_file (Status m).2 = pid_file m
  ∧ alive (Status m).2 = alive m.
Proof. intros Hg Ha. unfold Status, send_signal. rewrite Hg, bool_decide_eq_true_2 by done. done. Qed.

Lemma daemon_wait_failed pid err rounds : daemon_wait (Some pid) (Some err) rounds = (Some err, false).
Proof. induction rounds as [|m rounds IH]; [done|]. exact IH. Qed.

(** What the user of [start] is told: the daemon counts as started exactly when
    the first pid file that can be read names a process that can be signalled at that
    moment; a pid
    file left by a process that died hides the daemon for good. *)
Theorem daemon_start_seen (before after : list machine) (m : machine) (pid : Z) :
  Forall (fun m => ∃ e, GetPid m = inl e) before → GetPid m = inr pid →
  StartDaemonInstance (before ++ m :: after) None None = bool_decide (signalable m pid).
Proof.
  intros Hb Hm.
  assert (∀ e, daemon_wait None e (before ++ m :: after) =
    if bool_decide (signalable m pid) then (None, true) else (Some already_finished, false)) as H.
  { induction Hb as [|m' before [e' Hm'] _ IH]; intros e; cbn [app daemon_wait]; [|rewrite Hm'; apply IH].
    rewrite Hm. unfold send_signal. case_bool_decide; cbn [fst]; [done|]. apply daemon_wait_failed. }
  unfold StartDaemonInstance. rewrite H. by case_bool_decide.
Qed.

Lemma send_signal_keeps m pid sig : pid_file (send_signal m pid sig).2 = pid_file m ∧ alive (send_signal m pid sig).2 = alive m.
Proof. unfold send_signal. by case_bool_decide. Qed.

(** C31.  One instance at a time, outside a restart: while the pid file names a
    process that is alive and may be signalled, and [RESTART] is not set, no
    invocation of the client serves, whatever its arguments: it exits, and (unless
    the restart it asked for changes it) the pid file stays.  A live instance of
    another user is not seen: [foreign_instance]. *)
Theorem single_instance (e : surroundings) (args : list str) (m : machine) (pid : Z) :
  GetPid m = inr pid → signalable m pid → RESTART e = [] → (∀ m, pid_file (settle_ e m) = pid_file m) →
  ∃ code m', main e args m = (Exit code, m') ∧ pid_file m' = pid_file m.
Proof.
  intros Hg Ha Hr Hs. unfold main. destruct (parse_flags no_flags args) as [[f cmds]|]; [|eauto].
  destruct (f_V f); [eauto|]. destruct (f_help f); [eauto|]. destruct (1 <? length cmds); [eauto|].
  destruct (negb (setup_ok e)); [eauto|].
  destruct (f_d f || f_detach f || _ || f_bi f); [eauto|].
  case_bool_decide.
  { unfold Restart. rewrite Hg. destruct (send_signal m pid SIGUSR2) as [[] m1] eqn:E; [|].
    - assert (pid_file m1 = pid_file m) as Hm1 by (pose proof (send_signal_keeps m pid SIGUSR2); rewrite E in *; tauto).
      destruct (GetPid (settle_ e m1)) as [err|p]; [eexists _, _; split; [done|]; by rewrite Hs|].
      destruct (send_signal (settle_ e m1) p SIG0) as [b m2] eqn:E2. eexists _, _. split; [done|].
      pose proof (send_signal_keeps (settle_ e m1) p SIG0) as [Hk _]. rewrite E2 in Hk. cbn in Hk. by rewrite Hk, Hs.
    - pose proof (send_signal_keeps m pid SIGUSR2) as [Hk _]. rewrite E in Hk. eauto. }
  case_bool_decide.
  { eexists _, _. split; [done|]. unfold StopClient. destruct (f_rbi f); [apply send_signal_keeps|]. rewrite Hg.
    apply send_signal_keeps. }
  case_bool_decide; [eexists _, _; split; [done|]; by eapply Status_running|]. case_bool_decide; [eauto|].
  unfold main_serve. destruct (Status_running m pid Hg Ha) as (Hst & Hpf & _).
  destruct (Status m) as [st m1]. cbn in Hst, Hpf. subst st. rewrite Hr. cbn. eauto.
Qed.

(** The restart from the side of the old process: it starts the new one, which
    serves although the old one runs, and then leaves without touching the file. *)
Definition hand_over (e : surroundings) (old : Z) (m : machine) : machine :=
  let m := mkMachine (pid_file m) ({[own_pid e]} ∪ alive m) (sent m) (foreign m) in
  SafeStop (main_serve e false m).2 old.

(** A restart hands over: the old process is asked to restart, the new one
    runs alone with its own pid in the file, and the command succeeds. *)
Theorem restart_hands_over (e new : surroundings) (m : machine) (old : Z) :
  GetPid m = inr old → signalable m old → setup_ok e = true →
  settle_ e = hand_over new old → RESTART new ≠ [] → save_ok new = true →
  own_pid new ≠ old → (0 <= own_pid new <= int64_max)%Z → own_pid new ∉ foreign m →
  ∃ m', main e [$"restart"] m = (Exit 0, m') ∧ GetPid m' = inr (own_pid new)
    ∧ alive m' = ({[own_pid new]} ∪ alive m) ∖ {[old]} ∧ (Status m').1 = Running ∧ (old, SIGUSR2) ∈ sent m'.
Proof.
  intros Hg Ha Hok Hset Hr Hsave Hne Hpid Hnf. unfold main.
  change (parse_flags no_flags [$"restart"]) with (Some (no_flags, [$"restart"])). cbv iota.
  change (1 <? length [$"restart"]) with false. cbn [f_V f_help no_flags f_d f_detach f_bi head default]. rewrite Hok.
  change (bool_decide (default [] (Some $"restart") = $"start")) with false.
  change (bool_decide (default [] (Some $"restart") = $"restart")) with true. cbn [negb orb].
  unfold Restart. rewrite Hg. unfold send_signal at 1.
  rewrite (bool_decide_eq_true_2 (signalable m old)) by exact Ha. cbv iota. rewrite Hset.
  set (m1 := mkMachine (pid_file m) (alive m) (sent m ++ [(old, SIGUSR2)]) (foreign m)).
  assert (∃ m2, hand_over new old m1 = m2 ∧ GetPid m2 = inr (own_pid new) ∧ alive m2 = ({[own_pid new]} ∪ alive m) ∖ {[old]}
    ∧ (old, SIGUSR2) ∈ sent m2 ∧ foreign m2 = foreign m) as (m2 & -> & Hg2 & Ha2 & Hs2 & Hf2).
  { eexists. split; [reflexivity|]. unfold hand_over, main_serve. cbn [pid_file alive sent foreign m1].
    set (m3 := mkMachine (pid_file m) ({[own_pid new]} ∪ alive m) (sent m ++ [(old, SIGUSR2)]) (foreign m)).
    assert (GetPid m3 = inr old) as Hg3 by exact Hg.
    unfold Status. rewrite Hg3. unfold send_signal.
    rewrite bool_decide_eq_true_2 by (destruct Ha; split; cbn; set_solver). cbn [fst snd].
    rewrite (bool_decide_eq_false_2 (RESTART new = [])) by exact Hr. rewrite andb_false_r, Hsave. cbn [snd].
    split_and!; [by apply (GetPid_SavePid m3)|done| |done]. cbn. set_solver. }
  rewrite Hg2. unfold send_signal. rewrite (bool_decide_eq_true_2 (signalable m2 (own_pid new))) by (split; [rewrite Ha2; set_solver|by rewrite Hf2]).
  eexists. split; [reflexivity|]. cbn [alive sent].
  split_and!; [exact Hg2|done| |set_solver].
  apply (Status_running _ (own_pid new)); [exact Hg2|]. split; cbn; [rewrite Ha2; set_solver|by rewrite Hf2].
Qed.

Definition example_env_of (pid : Z) (restart : str) (settle : machine → machine) : surroundings :=
  mkSurroundings true true restart true pid settle.

Lemma daemon_args_same_witness :
  ∃ argv, blank_shell (daemon_command $"dove" $"/usr/bin/dove" [$"-d"; $"-c"; $"/etc/x.conf"; $"-debug"; $"start"])
      = [$"sudo"; $"-u"; $"dove"; $"/usr/bin/dove"] ++ argv
    ∧ parse_flags no_flags argv = Some (strip (mkFlags $"/etc/x.conf" false true false false false true false false), daemon_args [$"start"])
    ∧ detaches argv = false.
Proof.
  apply (daemon_args_same blank_shell $"dove" $"/usr/bin/dove" [$"-d"; $"-c"; $"/etc/x.conf"; $"-debug"; $"start"]
    (mkFlags $"/etc/x.conf" false true false false false true false false) [$"start"]);
    [exact blank_shell_plain|reflexivity..|simpl; lia].
Defined.

(** The daemon 7 runs from the second round on, but the file of the dead process 4
    was read in the first one. *)
Example stale_pid :
  StartDaemonInstance [mkMachine (Some $"4") ∅ [] ∅; mkMachine (Some $"7") {[7%Z]} [] ∅; mkMachine (Some $"7") {[7%Z]} [] ∅] None None = false
  ∧ StartDaemonInstance [mkMachine None ∅ [] ∅; mkMachine (Some $"7") {[7%Z]} [] ∅] None None = true.
Proof. vm_compute. done. Qed.

Lemma daemon_start_seen_witness :
  StartDaemonInstance ([mkMachine None ∅ [] ∅] ++ mkMachine (Some $"7") {[7%Z]} [] ∅ :: []) None None = true.
Proof.
  rewrite (daemon_start_seen [mkMachine None ∅ [] ∅] [] (mkMachine (Some $"7") {[7%Z]} [] ∅) 7).
  - vm_compute. reflexivity.
  - repeat constructor. exists $"no such file or directory". reflexivity.
  - vm_compute. reflexivity.
Defined.

Lemma single_instance_witness :
  ∃ code m', main (example_env_of 8 [] id) [$"-debug"] (mkMachine (Some $"7") {[7%Z]} [] ∅) = (Exit code, m')
    ∧ pid_file m' = Some $"7".
Proof. apply (single_instance (example_env_of 8 [] id) [$"-debug"] (mkMachine (Some $"7") {[7%Z]} [] ∅) 7); [reflexivity|split; cbn; set_solver|reflexivity|done]. Defined.

(** The daemon 7 of another user runs: it cannot be signalled and counts as
    stopped, and a second instance serves and takes the pid file. *)
Example foreign_instance :
  let m := mkMachine (Some $"7") {[7%Z]} [] {[7%Z]} in
  (Status m).1 = Stopped
  ∧ main (example_env_of 8 [] id) [] m = (Serve true, mkMachine (Some $"8") {[7%Z]} [] {[7%Z]}).
Proof. vm_compute. done. Qed.

Lemma restart_hands_over_witness :
  let new := example_env_of 8 $"1" id in
  let m := mkMachine (Some $"7") {[7%Z]} [] ∅ in
  ∃ m', main (example_env_of 9 [] (hand_over new 7)) [$"restart"] m = (Exit 0, m')
    ∧ GetPid m' = inr (own_pid new) ∧ alive m' = ({[own_pid new]} ∪ alive m) ∖ {[7%Z]}
    ∧ (Status m').1 = Running ∧ (7%Z, SIGUSR2) ∈ sent m'.
Proof.
  intros new m.
  apply (restart_hands_over (example_env_of 9 [] (hand_over new 7)) new m 7).
  - reflexivity.
  - split; cbn; set_solver.
  - reflexivity.
  - reflexivity.
  - discriminate.
  - reflexivity.
  - discriminate.
  - split; [cbn; lia|vm_compute; discriminate].
  - cbn. set_solver.
Defined.

(** ** The end of the service *)

(** [doveclient.StartLocalServer]: the error it puts into [serverErrorChan], and
    the signal it sends to the client when there is one. *)
Definition StartLocalServer (server_err : option error) (RunAsBi : bool) (own : Z) (m : machine) : option error * machine :=
  (server_err, match server_err with Some _ => StopClient m RunAsBi own | None => m end).

(** A signal to quit was sent to the process. *)
Definition quit_sent (m : machine) (own : Z) : bool :=
  existsb (fun x => bool_decide (x.1 = own) && match ProcessSysSignal x.2 with Quit => true | _ => false end) (sent m).

(** [WaitForExit]: [None] while no signal to quit has been handled; otherwise the
    error in the channel, if there is one. *)
Definition WaitForExit (m : machine) (own : Z) (serverErrorChan : option (option error)) : option (option error) :=
  if quit_sent m own then Some (default None serverErrorChan) else None.

(** [main] from [StartWatcher] on, with the deferred call: the error it logs, and
    the machine it leaves; [clientStopped] is set by [WaitForExit], so a client that
    could not watch signals itself before it returns, and one that was waiting does
    not.  [None] is a client that goes on waiting. *)
Definition main_rest (m : machine) (RunAsBi : bool) (own : Z) (watcher : option error)
    (serverErrorChan : option (option error)) : option (option error * machine) :=
  let err := if RunAsBi then None else watcher in
  let stopped := match err with
                 | Some _ => Some (err, false)
                 | None => (fun e => (e, true)) <$> WaitForExit m own serverErrorChan
                 end in
  (fun '(err, clientStopped) => (err, if clientStopped : bool then m else StopClient m RunAsBi own)) <$> stopped.

Lemma StopClient_quits m RunAsBi own :
  signalable m own → RunAsBi = true ∨ GetPid m = inr own → quit_sent (StopClient m RunAsBi own) own = true.
Proof.
  intros Ha Hor. unfold StopClient, quit_sent.
  assert ((if RunAsBi then inr own else GetPid m) = inr own) as -> by (destruct RunAsBi; [done|]; destruct Hor as [? | ->]; done).
  unfold send_signal. rewrite bool_decide_eq_true_2 by done. cbn [snd sent]. rewrite existsb_app. cbn [existsb fst snd].
  rewrite (bool_decide_eq_true_2 (own = own)) by done.
  cbn [ProcessSysSignal andb orb]. by rewrite orb_true_r.
Qed.

(** However [main] ends, the client was told to quit: by the signal it waited for,
    or by its own deferred one when it could not watch. *)
Lemma main_rest_quits m RunAsBi own watcher chan err m' :
  main_rest m RunAsBi own watcher chan = Some (err, m') →
  signalable m own → RunAsBi = true ∨ GetPid m = inr own →
  quit_sent m' own = true ∧ (watcher ≠ None → RunAsBi = false → err = watcher).
Proof.
  unfold main_rest. intros H Ha Hor. destruct (if RunAsBi then None else watcher) as [e|] eqn:E.
  - injection H as <- <-. split; [by apply StopClient_quits|]. intros _ ->. done.
  - unfold WaitForExit in H. destruct (quit_sent m own) eqn:Hq; [|done]. injection H as _ <-.
    split; [done|]. intros Hw ->. done.
Qed.

(** A server that cannot listen ends the client with its error, when the pid
    file names the client itself or the client is the transition instance; without
    a pid file the client goes on waiting, with no server. *)
Theorem server_error_ends (m : machine) (own : Z) (RunAsBi : bool) (err : error) :
  signalable m own →
  let r := StartLocalServer (Some err) RunAsBi own m in
  (RunAsBi = true ∨ GetPid m = inr own → WaitForExit r.2 own (Some r.1) = Some (Some err))
  ∧ (RunAsBi = false → pid_file m = None → sent m = [] → WaitForExit r.2 own (Some r.1) = None).
Proof.
  intros Ha r. subst r. unfold StartLocalServer, StopClient, WaitForExit. cbn [fst snd]. split.
  - intros Hor. fold (StopClient m RunAsBi own). by rewrite StopClient_quits.
  - intros -> Hp Hs. unfold quit_sent, GetPid. rewrite Hp. cbn. by rewrite Hs.
Qed.

Lemma server_error_ends_witness :
  WaitForExit (StartLocalServer (Some $"bind") false 7 (mkMachine (Some $"7") {[7%Z]} [] ∅)).2 7 (Some (Some $"bind"))
  = Some (Some $"bind").
Proof.
  refine (proj1 (server_error_ends (mkMachine (Some $"7") {[7%Z]} [] ∅) 7 false $"bind" _) _); [split; cbn; set_solver|right; reflexivity].
Defined.

(** ** The version *)

(** [getVersionDesc], which [-V] prints: [binary] is what reading the program file
    returns, [goVersion] and [etcdclientVer] are set by the build.  The error of
    [config.ParseSecretSettings] is dropped, and a nil tree has no members. *)
Definition getVersionDesc (fmt_tables : list toml → str) (secret : result toml) (binary : result str)
    (goVersion etcdclientVer : str) : outcome str :=
  let md5s := match Md5File binary with inr s => s | inl _ => [] end in
  match secret with
  | inl _ => Panic $"invalid memory address or nil pointer dereference"
  | inr sc =>
      Done ($"DoveClient-" ++ fmt_v fmt_tables (TomlGet sc $"Ver") ++ $"(" ++ md5s ++ $") with " ++ goVersion
            ++ $", with etcdclient " ++ etcdclientVer)
  end.

(** A program that cannot read its own file still prints its version. *)
Example version_text :
  getVersionDesc (fun _ => []) (inr (TTree [$"Ver"] [($"Ver", TString $"0.10.3")])) (inl $"permission denied") $"go1.9" $"3.2"
  = Done $"DoveClient-0.10.3() with go1.9, with etcdclient 3.2".
Proof. vm_compute. reflexivity. Qed.

(** ** The transition instance

    Nothing calls [startTransiIntance] any more. *)

Definition getTransiInstanceExecBin (arg0 : str) : str := arg0 ++ $"-bi".

(** The loop that waits for the pid file of the instance: [reads] are the results
    of reading it every 100 milliseconds for five seconds; a file that can be read
    ends it, whatever it holds. *)
Fixpoint wait_transi (reads : list (result str)) : option Z :=
  match reads with
  | [] => None
  | inl _ :: rest => wait_transi rest
  | inr biPidB :: _ => match Atoi biPidB with inr biPid => Some biPid | inl _ => None end
  end.

(** [startTransiIntance]: [cp] is the error of copying the program, [start] that of
    starting the copy. *)
Definition startTransiIntance (cp start : option error) (reads : list (result str)) : bool * option Z :=
  match cp, start with
  | None, None => let p := wait_transi reads in (match p with Some _ => true | None => false end, p)
  | _, _ => (false, None)
  end.

(** The instance is taken to run exactly when the first text that can be read is a
    number. *)
Lemma startTransiIntance_spec reads pid :
  startTransiIntance None None reads = (true, Some pid) ↔
    ∃ before b after, reads = before ++ inr b :: after ∧ Forall (fun r => ∃ e, r = inl e) before ∧ Atoi b = inr pid.
Proof.
  unfold startTransiIntance. transitivity (wait_transi reads = Some pid).
  { destruct (wait_transi reads) as [p|]; split; congruence. }
  split.
  - induction reads as [|[e|b] reads IH]; simpl; [done| |].
    + intros (before & b & after & -> & Hf & Hb)%IH. exists (inl e :: before), b, after. split; [done|].
      split; [|done]. constructor; [by exists e|done].
    + intros H. exists [], b, reads. split; [done|]. split; [constructor|]. by destruct (Atoi b); simplify_eq.
  - intros (before & b & after & -> & Hf & Hb). induction Hf as [|r before [e ->] _ IH]; simpl; [by rewrite Hb|done].
Qed.
