(* ===== verification/Handover.v ===== *)
(** * Listening and the hand-over at a restart (connection/conn_handler.go, proc/proc_control.go)

    The head of [StartLocalServer], [GetLocalServerFd], the listeners of pprof and
    of the console, and what the process does on SIGUSR2: it starts its successor
    with the listening descriptor, sleeps two seconds and stops: steps of its handler,
    of the child and of the old accept loop, in any order.  The machine has the socket files, the
    open listening descriptors and the processes; a child that ended and was not
    waited for is a zombie, which signal 0 still reaches.

    [StartLocalServer_listens]: which socket the address leads to after the
    start.  [hand_over_serves]: the address is served at every moment of a
    hand-over to a child that serves in time, through the same socket
    ([slow_child]: one that does not; [closed_while_stopping]: what the old process
    accepts meanwhile).  [hand_over_failed]: what is left when the successor could
    not be started.  [hand_over_dead_child]: the check for the child does not notice
    that it ended. *)

From S2P Require Import Prelude GoLib.

(** ** The machine *)

Record os := mkOS {
  (** socket files, by address, and the number of sockets made *)
  bound : gmap str nat;
  made : nat;
  (** the open listening descriptors and the accept loops: process and socket *)
  fds : list (Z * nat);
  accepting : list (Z * nat);
  running : gset Z;
  zombies : gset Z;
  (** the processes that listen on the console's port and on [PPROF_LISTEN] *)
  consoleServer : option Z;
  pprofListener : option Z }.

(** Somebody accepts on the socket the address leads to. *)
Definition served (s : os) (addr : str) : bool :=
  match bound s !! addr with Some k => existsb (fun a => bool_decide (a.2 = k)) (accepting s) | None => false end.

Definition drop_pid (pid : Z) (l : list (Z * nat)) : list (Z * nat) :=
  List.filter (fun a => negb (bool_decide (a.1 = pid))) l.
Definition unless (pid : Z) (o : option Z) : option Z :=
  match o with Some p => if bool_decide (p = pid) then None else Some p | None => None end.

(** The end of a process that nobody waits for: its descriptors are closed, its
    socket files stay. *)
Definition end_process (pid : Z) (s : os) : os :=
  mkOS (bound s) (made s) (drop_pid pid (fds s)) (drop_pid pid (accepting s)) (running s ∖ {[pid]}) ({[pid]} ∪ zombies s)
    (unless pid (consoleServer s)) (unless pid (pprofListener s)).

(** [p.Signal(syscall.Signal(0))]. *)
Definition signal0 (s : os) (pid : Z) : bool := bool_decide (pid ∈ running s ∪ zombies s).

(** ** Listening *)

(** [net.Listen]: the file of a unix socket must not exist, a TCP address must not
    be listened on. *)
Definition in_use (unix : bool) (addr : str) (s : os) : bool :=
  match bound s !! addr with
  | Some k => unix || existsb (fun a => bool_decide (a.2 = k)) (fds s)
  | None => false
  end.

Definition Listen (unix : bool) (addr : str) (pid : Z) (s : os) : result nat * os :=
  if in_use unix addr s then (inl $"bind: address already in use", s)
  else (inr (made s),
        mkOS (<[addr := made s]> (bound s)) (S (made s)) (fds s ++ [(pid, made s)]) (accepting s) (running s) (zombies s)
          (consoleServer s) (pprofListener s)).

Definition Remove (addr : str) (s : os) : os :=
  mkOS (delete addr (bound s)) (made s) (fds s) (accepting s) (running s) (zombies s) (consoleServer s) (pprofListener s).

(** [net.FileListener] of descriptor 3. *)
Definition FileListener (fd3 : option nat) (pid : Z) (s : os) : result nat * os :=
  match fd3 with
  | Some k => (inr k, mkOS (bound s) (made s) (fds s ++ [(pid, k)]) (accepting s) (running s) (zombies s)
                        (consoleServer s) (pprofListener s))
  | None => (inl $"file file+net : bad file descriptor", s)
  end.

(** [startConsole] and [StartPProf]: the port is taken when it is free. *)
Definition startConsole (pid : Z) (s : os) : os :=
  match consoleServer s with
  | Some _ => s
  | None => mkOS (bound s) (made s) (fds s) (accepting s) (running s) (zombies s) (Some pid) (pprofListener s)
  end.
Definition StartPProf (PPROF_LISTEN : str) (pid : Z) (s : os) : os :=
  if bool_decide (PPROF_LISTEN = []) then s
  else match pprofListener s with
       | Some _ => s
       | None => mkOS (bound s) (made s) (fds s) (accepting s) (running s) (zombies s) (consoleServer s) (Some pid)
       end.

(** [StopConsole] and [StopPProf], when the listeners can be closed. *)
Definition StopConsole (pid : Z) (s : os) : os :=
  mkOS (bound s) (made s) (fds s) (accepting s) (running s) (zombies s) (unless pid (consoleServer s)) (pprofListener s).
Definition StopPProf (pid : Z) (s : os) : os :=
  mkOS (bound s) (made s) (fds s) (accepting s) (running s) (zombies s) (consoleServer s) (unless pid (pprofListener s)).

(** The head of [StartLocalServer] up to the listener, and from there to the accept
    loop: [RESTART] is the variable of the environment, [fd3] what descriptor 3 is,
    [chmod_err] the result of [os.Chmod]. *)
Definition open_listener (unix : bool) (addr RESTART : str) (fd3 : option nat) (chmod_err : option error) (pid : Z) (s : os)
    : result nat * os :=
  let '(server, s) :=
    if bool_decide (RESTART = $"1") then FileListener fd3 pid s
    else Listen unix addr pid (if unix then Remove addr s else s) in
  match server with
  | inl err => (inl err, s)
  | inr k => match (if unix then chmod_err else None) with
             | Some err => (inl ($"Failed to change unixdomain listen mode: " ++ err), s)
             | None => (inr k, s)
             end
  end.

Definition enter_loop (RunAsBi : bool) (pid : Z) (k : nat) (s : os) : os :=
  let s := if RunAsBi then s else startConsole pid s in
  mkOS (bound s) (made s) (fds s) (accepting s ++ [(pid, k)]) (running s) (zombies s) (consoleServer s) (pprofListener s).

Definition StartLocalServer_listen (RunAsBi unix : bool) (ListenAddr ListenAddrTransi RESTART : str) (fd3 : option nat)
    (chmod_err : option error) (pid : Z) (s : os) : option error * os :=
  let addr := if RunAsBi then ListenAddrTransi else ListenAddr in
  match open_listener unix addr RESTART fd3 chmod_err pid s with
  | (inl err, s) => (Some err, s)
  | (inr k, s) => (None, enter_loop RunAsBi pid k s)
  end.

(** The dynamic type of [server]. *)
Inductive listener := TCPListener | UnixListener | OtherListener.

(** [GetLocalServerFd]: [File] is the result of duplicating the descriptor. *)
Definition GetLocalServerFd (server : listener) (File : option error) : option error :=
  match server with
  | TCPListener | UnixListener => File
  | OtherListener => Some $"Unknown listener"
  end.

(** ** SIGUSR2 *)

(** [Serves]: the child reaches its accept loop; [Dies]: it ends before, in [Setup]
    for example. *)
Inductive fate := Serves | Dies.

(** What the handler meets: the errors of [GetLocalServerFd], [cmd.Start] and
    [os.FindProcess], the process started and what becomes of it. *)
Record attempt := mkAttempt {
  fd_err : option error;
  start_err : option error;
  find_err : option error;
  new_pid : Z;
  child : fate }.

Definition spawn (pid : Z) (s : os) : os :=
  mkOS (bound s) (made s) (fds s) (accepting s) ({[pid]} ∪ running s) (zombies s) (consoleServer s) (pprofListener s).

(** An accept loop leaves. *)
Definition leave_loop (pid : Z) (s : os) : os :=
  mkOS (bound s) (made s) (fds s) (drop_pid pid (accepting s)) (running s) (zombies s) (consoleServer s) (pprofListener s).

(** Where the handler is: before each of its calls; [AtFind] sleeps the two seconds
    before [os.FindProcess]; from [AtStop] on it is in [SafeStop], where [AtDrain]
    waits for the connections to end and [AtClose] closes the database.  [Gone]: the
    process ended; [Returned]: the handler gave up. *)
Inductive stage :=
| AtFd | AtPprof | AtConsole | AtStart | AtFind | AtSignal | AtStop | AtSend | AtDrain | AtClose | Gone | Returned.
#[export] Instance stage_eq : EqDecision stage.
Proof. solve_decision. Defined.

(** Where the child is. *)
Inductive kid_stage := NotStarted | Starting | Listening | Serving | Ended.
#[export] Instance kid_stage_eq : EqDecision kid_stage.
Proof. solve_decision. Defined.

(** The machine, the handler of the old process, its child, and of the old process
    [stoppingLocalServer] and whether [SendSignal] has run. *)
Record hand := mkHand {
  machine : os;
  handler : stage;
  kid : kid_stage;
  stoppingState : bool;
  signals : bool }.

Section hand_over.
Context (addr : str) (k : nat) (old : Z) (a : attempt).

(** The handler of SIGUSR2. *)
Definition handler_step (s : hand) : option hand :=
  let go m h := Some (mkHand m h (kid s) (stoppingState s) (signals s)) in
  let m := machine s in
  match handler s with
  | AtFd => match fd_err a with Some _ => go m Returned | None => go m AtPprof end
  | AtPprof => go (StopPProf old m) AtConsole
  | AtConsole => go (StopConsole old m) AtStart
  | AtStart => match start_err a with
               | Some _ => go m Returned
               | None => Some (mkHand (spawn (new_pid a) m) AtFind Starting (stoppingState s) (signals s))
               end
  | AtFind => match find_err a with Some _ => go m Returned | None => go m AtSignal end
  | AtSignal => if signal0 m (new_pid a) then go m AtStop else go m Returned
  | AtStop => Some (mkHand m AtSend (kid s) true (signals s))
  | AtSend => Some (mkHand m AtDrain (kid s) (stoppingState s) true)
  | AtDrain => go m AtClose
  | AtClose => go (end_process old m) Gone
  | Gone | Returned => None
  end.

(** The child, with the socket [k] as descriptor 3. *)
Definition child_step (s : hand) : option hand :=
  let go m c := Some (mkHand m (handler s) c (stoppingState s) (signals s)) in
  match kid s, child a with
  | Starting, Dies => go (end_process (new_pid a) (machine s)) Ended
  | Starting, Serves =>
      match open_listener true addr $"1" (Some k) None (new_pid a) (machine s) with
      | (inl _, m) => go (end_process (new_pid a) m) Ended
      | (inr _, m) => go m Listening
      end
  | Listening, _ => go (enter_loop false (new_pid a) k (machine s)) Serving
  | _, _ => None
  end.

(** The accept loop of the old process takes a connection, which [HandleConn]
    answers with CLOSE when the server is stopping; then the loop looks for a
    signal. *)
Definition loop_step (s : hand) : option hand :=
  if existsb (fun x => bool_decide (x.1 = old)) (accepting (machine s)) then
    Some (mkHand (if signals s then leave_loop old (machine s) else machine s) (handler s) (kid s) (stoppingState s) (signals s))
  else None.

Inductive hmove := MHandler | MChild | MLoop.
Definition hdo (s : hand) (m : hmove) : option hand :=
  match m with MHandler => handler_step s | MChild => child_step s | MLoop => loop_step s end.
Definition hstep (s s' : hand) : Prop := ∃ m, hdo s m = Some s'.

(** The child reaches its accept loop while the handler sleeps. *)
Definition prompt (s s' : hand) : Prop := ∃ m, hdo s m = Some s' ∧ (m = MHandler → handler s = AtFind → kid s = Serving).

(** Somebody accepts on the socket the address leads to, and serves what he
    accepts. *)
Definition answered (s : hand) : bool :=
  match bound (machine s) !! addr with
  | Some k => existsb (fun x => bool_decide (x.2 = k) && negb (bool_decide (x.1 = old) && stoppingState s)) (accepting (machine s))
  | None => false
  end.

Definition begin (s : os) : hand := mkHand s AtFd NotStarted false false.

Fixpoint hrun (s : hand) (ms : list hmove) : option hand :=
  match ms with
  | [] => Some s
  | m :: rest => s' ← hdo s m; hrun s' rest
  end.

(** The moves of handler and child that are left. *)
Definition left (s : hand) : nat :=
  match handler s with
  | AtFd => 20 | AtPprof => 19 | AtConsole => 18 | AtStart => 17 | AtFind => 13 | AtSignal => 12 | AtStop => 11 | AtSend => 10
  | AtDrain => 9 | AtClose => 8 | Gone | Returned => 0
  end + match kid s with Starting => 2 | Listening => 1 | _ => 0 end.
End hand_over.

(** The old process is the only one on the socket of the address. *)
Definition serving_alone (s : os) (addr : str) (k : nat) (pid : Z) : Prop :=
  bound s !! addr = Some k ∧ accepting s = [(pid, k)] ∧ fds s = [(pid, k)] ∧ running s = {[pid]}.

(** ** Theorems *)

Lemma drop_pid_spec pid l a : a ∈ drop_pid pid l ↔ a ∈ l ∧ a.1 ≠ pid.
Proof.
  unfold drop_pid. rewrite !list_elem_of_In, filter_In, negb_true_iff, bool_decide_eq_false. done.
Qed.

Lemma served_spec s addr : served s addr = true ↔ ∃ k pid, bound s !! addr = Some k ∧ (pid, k) ∈ accepting s.
Proof.
  unfold served. destruct (bound s !! addr) as [k|]; [|naive_solver]. rewrite existsb_exists. split.
  - intros ([pid k'] & Hin & Hk). bool_to_prop. cbn in Hk. subst. exists k, pid. by rewrite list_elem_of_In.
  - intros (k' & pid & [= <-] & Hin). exists (pid, k). rewrite <- list_elem_of_In. split; [done|]. by apply bool_decide_eq_true.
Qed.

(** A first start takes the address whatever is left of it: with unix sockets
    a start without RESTART succeeds unless the mode cannot be changed, the address
    then leads to a new socket on which this process accepts, and a process that
    listened there before keeps a socket no client can reach. *)
Theorem StartLocalServer_listens (s s' : os) (ListenAddr ListenAddrTransi RESTART : str) (RunAsBi : bool)
    (fd3 : option nat) (chmod_err : option error) (pid : Z) (err : option error) :
  RESTART ≠ $"1" → (∀ q k, (q, k) ∈ accepting s → k < made s) →
  StartLocalServer_listen RunAsBi true ListenAddr ListenAddrTransi RESTART fd3 chmod_err pid s = (err, s') →
  let addr := if RunAsBi then ListenAddrTransi else ListenAddr in
  (err = None ↔ chmod_err = None)
  ∧ bound s' = <[addr := made s]> (bound s)
  ∧ (chmod_err = None → ∀ q k, bound s' !! addr = Some k → ((q, k) ∈ accepting s' ↔ q = pid)).
Proof.
  intros HR Hacc H. cbn zeta. unfold StartLocalServer_listen, open_listener, enter_loop in H. rewrite bool_decide_eq_false_2 in H by done.
  set (addr := if RunAsBi then ListenAddrTransi else ListenAddr) in *. unfold Listen, in_use in H.
  cbn [bound Remove] in H. rewrite lookup_delete_eq in H. cbn [made fds accepting running zombies consoleServer pprofListener Remove] in H.
  assert (<[addr := made s]> (delete addr (bound s)) = <[addr := made s]> (bound s)) as Hb by apply insert_delete_eq.
  destruct chmod_err as [e|]; injection H as <- <-.
  - split_and!; [done|exact Hb|done].
  - assert (∀ s0, bound (if RunAsBi then s0 else startConsole pid s0) = bound s0
      ∧ accepting (if RunAsBi then s0 else startConsole pid s0) = accepting s0) as Hc.
    { intros s0. unfold startConsole. destruct RunAsBi; [done|]. by destruct (consoleServer s0). }
    cbn [bound accepting]. match goal with |- context [if RunAsBi then ?s0 else _] => destruct (Hc s0) as [-> ->] end.
    cbn [bound accepting]. rewrite Hb. split_and!; [done|done|]. intros _ q k. rewrite lookup_insert_eq. intros [= <-].
    rewrite elem_of_app, list_elem_of_singleton. split; [|intros ->; by right].
    intros [Hin|[=]]; [|done]. apply Hacc in Hin. lia.
Qed.

(** *** Steps *)

Section hand_over_lemmas.
Context (addr : str) (k : nat) (old : Z) (a : attempt).

Lemma hrun_steps ms : ∀ s s', hrun addr k old a s ms = Some s' → steps (hstep addr k old a) s s'.
Proof.
  induction ms as [|m ms IH]; intros s s' H; cbn [hrun] in H; [simplify_eq; constructor|].
  destruct (hdo addr k old a s m) as [s1|] eqn:E; [|done]. eapply steps_one; [by exists m|by apply IH].
Qed.

Lemma startConsole_keeps pid s :
  bound (startConsole pid s) = bound s ∧ accepting (startConsole pid s) = accepting s
  ∧ running (startConsole pid s) = running s ∧ zombies (startConsole pid s) = zombies s.
Proof. unfold startConsole. by destruct (consoleServer s). Qed.

Lemma enter_loop_spec pid s :
  bound (enter_loop false pid k s) = bound s ∧ accepting (enter_loop false pid k s) = accepting s ++ [(pid, k)]
  ∧ running (enter_loop false pid k s) = running s.
Proof. unfold enter_loop. cbn. by destruct (startConsole_keeps pid s) as (-> & -> & -> & _). Qed.

(** The accept loops: that of the old process, unless it left, and the child's. *)
Definition loops (gone : bool) (c : kid_stage) : list (Z * nat) :=
  (if gone then [] else [(old, k)]) ++ (if bool_decide (c = Serving) then [(new_pid a, k)] else []).

Lemma drop_loops gone c : new_pid a ≠ old → drop_pid old (loops gone c) = loops true c.
Proof.
  intros Hne. unfold loops, drop_pid. destruct gone; case_bool_decide; cbn;
    rewrite ?(bool_decide_eq_true_2 (old = old)), ?(bool_decide_eq_false_2 (new_pid a = old)) by done; done.
Qed.

(** *** A hand-over to a child that serves *)

(** What is known at each stage. *)
Definition stage_ok (s : hand) : Prop :=
  match handler s with
  | AtFd | AtPprof | AtConsole | AtStart => kid s = NotStarted ∧ stoppingState s = false ∧ signals s = false
  | AtFind => kid s ≠ NotStarted ∧ kid s ≠ Ended ∧ stoppingState s = false ∧ signals s = false
  | AtSignal | AtStop => kid s = Serving ∧ stoppingState s = false ∧ signals s = false
  | AtSend | AtDrain | AtClose | Gone => kid s = Serving ∧ stoppingState s = true
  | Returned => False
  end.

Definition hinv (s0 : os) (s : hand) : Prop :=
  bound (machine s) = bound s0
  ∧ (∃ gone, accepting (machine s) = loops gone (kid s) ∧ (gone = true → signals s = true ∨ handler s = Gone)
       ∧ (handler s = Gone → gone = true))
  ∧ (kid s ≠ NotStarted → new_pid a ∈ running (machine s))
  ∧ stage_ok s.

Context (Hne : new_pid a ≠ old) (Hchild : child a = Serves).
Context (Hfd : fd_err a = None) (Hst : start_err a = None) (Hfi : find_err a = None).

Lemma hinv_handler s0 s s' :
  (handler s = AtFind → kid s = Serving) → handler_step old a s = Some s' → hinv s0 s → hinv s0 s'.
Proof.
  destruct s as [m h c st sg]. unfold hinv, stage_ok, handler_step. cbn [machine handler kid stoppingState signals].
  rewrite Hfd, Hst, Hfi. intros Hp H (Hb & (gone & Ha & Hg & Hgo) & Hr & Hs).
  destruct h; cbn in H.
  all: try (injection H as <-; cbn; split; [done|]; split;
    [exists gone; split; [done|]; split; [intros Ht; by destruct (Hg Ht); [left|done]|done]|]; split; [done|naive_solver]).
  - injection H as <-. destruct Hs as (-> & -> & ->). cbn. split; [done|]. split; [|split; [set_solver|done]].
    exists gone. split; [exact Ha|]. split; [|done]. intros Ht. by destruct (Hg Ht).
  - unfold signal0 in H. rewrite bool_decide_eq_true_2 in H by (apply elem_of_union; left; apply Hr; by destruct Hs as [-> _]).
    injection H as <-. cbn. split; [done|]. split; [|split; [done|done]].
    exists gone. split; [done|]. split; [|done]. intros Ht. by destruct (Hg Ht); [left|].
  - injection H as <-. cbn. split; [done|]. split; [|split].
    + exists true. split; [|by split; [right|]]. rewrite Ha. by apply drop_loops.
    + intros Hc. specialize (Hr Hc). set_solver.
    + done.
  - done.
  - done.
Qed.

Lemma hinv_child s0 s s' : child_step addr k a s = Some s' → hinv s0 s → hinv s0 s'.
Proof.
  destruct s as [m h c st sg]. unfold hinv, stage_ok, child_step. cbn [machine handler kid stoppingState signals].
  rewrite Hchild. unfold open_listener. rewrite bool_decide_eq_true_2 by done. cbn [FileListener].
  intros H (Hb & (gone & Ha & Hg & Hgo) & Hr & Hs).
  assert (∀ P : Prop, (c = Starting ∨ c = Listening) → (h = AtFind → P) → P) as Hat.
  { intros P Hc HP. destruct h; destruct Hc; subst c; try (by apply HP); naive_solver. }
  destruct c; try done; injection H as <-; cbn [machine handler kid stoppingState signals].
  - apply Hat; [by left|]. intros ->. cbn. split; [done|]. split; [|split; [intros _; by apply Hr|naive_solver]].
    exists gone. split; [exact Ha|done].
  - apply Hat; [by right|]. intros ->. destruct (enter_loop_spec (new_pid a) m) as (-> & -> & ->).
    split; [done|]. split; [|split; [intros _; by apply Hr|naive_solver]].
    exists gone. split; [|done]. rewrite Ha. unfold loops. cbn. by rewrite app_nil_r.
Qed.

Lemma hinv_loop s0 s s' : loop_step old s = Some s' → hinv s0 s → hinv s0 s'.
Proof.
  unfold loop_step. destruct (existsb _ _) eqn:Ex; [|done]. intros [= <-] (Hb & (gone & Ha & Hg & Hgo) & Hr & Hs).
  unfold hinv, stage_ok in *. cbn [machine handler kid stoppingState signals].
  destruct (signals s) eqn:Esg; [|split_and!; [done|by exists gone|done|done]]. cbn. split_and!; [done| |done|done].
  exists true. split; [rewrite Ha; by apply drop_loops|]. split; [by left|done].
Qed.

Lemma hinv_step s0 s s' : prompt addr k old a s s' → hinv s0 s → hinv s0 s'.
Proof.
  intros (m & H & Hp) Hi. destruct m; cbn [hdo] in H; [by eapply hinv_handler; eauto|by eapply hinv_child|by eapply hinv_loop].
Qed.

Lemma hinv_begin s0 : serving_alone s0 addr k old → hinv s0 (begin s0).
Proof.
  intros (_ & Ha & _). split; [done|]. split; [|split; [done|done]]. exists false. cbn. by rewrite Ha.
Qed.

Lemma hinv_answered s0 s : bound s0 !! addr = Some k → hinv s0 s → answered addr old s = true.
Proof.
  intros Hb (Hbd & (gone & Ha & Hg & Hgo) & _ & Hs). unfold answered. rewrite Hbd, Hb, Ha. unfold loops.
  rewrite existsb_app. apply orb_true_iff. destruct (bool_decide (kid s = Serving)) eqn:Ek.
  - right. cbn. rewrite bool_decide_eq_true_2 by done. by rewrite bool_decide_eq_false_2.
  - left. apply bool_decide_eq_false in Ek. unfold stage_ok in Hs.
    assert (stoppingState s = false ∧ signals s = false ∧ handler s ≠ Gone) as (-> & Hsg & Hh)
      by (destruct (handler s); naive_solver).
    destruct gone; [by destruct (Hg eq_refl); [congruence|]|]. cbn. by rewrite !bool_decide_eq_true_2.
Qed.

Lemma hinv_goes_on s0 s : hinv s0 s → handler s = Gone ∨ ∃ s', prompt addr k old a s s' ∧ left s' < left s.
Proof.
  intros (_ & _ & Hr & Hs). destruct s as [m h c st sg]. unfold stage_ok in Hs. cbn [machine handler kid] in *.
  assert (∀ s', handler_step old a (mkHand m h c st sg) = Some s' → (h = AtFind → c = Serving) → left s' < left (mkHand m h c st sg) →
    ∃ s', prompt addr k old a (mkHand m h c st sg) s' ∧ left s' < left (mkHand m h c st sg)) as Hgo.
  { intros s' H Hp Hl. exists s'. split; [|done]. exists MHandler. split; [done|]. intros _ ?. by apply Hp. }
  destruct h; try (by left); right; try (eapply Hgo; [unfold handler_step; cbn; rewrite ?Hfd, ?Hst, ?Hfi; reflexivity|done|cbn; destruct Hs as [-> _]; cbn; lia]).
  - destruct Hs as (Hc1 & Hc2 & _). destruct c; try done.
    + eexists. split; [exists MChild; split; [|done]; cbn [hdo]; unfold child_step; cbn [kid]; rewrite Hchild;
        unfold open_listener; rewrite bool_decide_eq_true_2 by done; reflexivity|]. cbn. lia.
    + eexists. split; [exists MChild; split; [|done]; cbn [hdo]; unfold child_step; cbn [kid]; reflexivity|]. cbn. lia.
    + eapply Hgo; [unfold handler_step; cbn; rewrite Hfi; reflexivity|done|cbn; lia].
  - eapply Hgo; [unfold handler_step; cbn; unfold signal0; rewrite bool_decide_eq_true_2; [reflexivity|]|done|cbn; destruct Hs as [-> _]; cbn; lia].
    apply elem_of_union. left. apply Hr. by destruct Hs as [-> _].
Qed.
End hand_over_lemmas.

(** C7.  A restart has no gap, when its calls succeed and the child reaches its accept
    loop within the two seconds the old process sleeps: in every state of every
    interleaving of the handler, the child and the old accept loop, from the signal
    on, the address leads to the same socket and a process accepts on it that is not
    stopping; the hand-over comes to its end; and at the end only the child accepts.
    (While both accept, the old process takes connections it answers with CLOSE:
    [closed_while_stopping].  Without the two conditions: [hand_over_dead_child],
    [slow_child], [hand_over_failed].) *)
Theorem hand_over_serves (addr : str) (k : nat) (old : Z) (a : attempt) (s0 : os) (s : hand) :
  serving_alone s0 addr k old → new_pid a ≠ old →
  fd_err a = None → start_err a = None → find_err a = None → child a = Serves →
  steps (prompt addr k old a) (begin s0) s →
  bound (machine s) !! addr = Some k ∧ answered addr old s = true
  ∧ (handler s = Gone → accepting (machine s) = [(new_pid a, k)])
  ∧ (handler s = Gone ∨ ∃ s', prompt addr k old a s s' ∧ left s' < left s).
Proof.
  intros Hal Hne H1 H2 H3 H4 Hs.
  assert (hinv k old a s0 s) as Hi.
  { eapply steps_inv; [intros x y; by apply hinv_step|exact Hs|by eapply hinv_begin]. }
  split; [destruct Hi as [-> _]; apply Hal|]. split; [eapply (hinv_answered addr k old a Hne); [apply Hal|exact Hi]|].
  split; [|by eapply hinv_goes_on]. intros Hg. destruct Hi as (_ & (gone & -> & _ & Hgo) & _ & Hst).
  rewrite (Hgo Hg). unfold stage_ok in Hst. rewrite Hg in Hst. destruct Hst as [-> _]. done.
Qed.

(** What a hand-over leaves that fails before the child listens. *)
Definition still_serving (k : nat) (old : Z) (a : attempt) (s0 : os) (s : hand) : Prop :=
  bound (machine s) = bound s0 ∧ accepting (machine s) = [(old, k)] ∧ old ∈ running (machine s) ∧ signals s = false
  ∧ match handler s with
    | AtFd => machine s = s0 ∧ kid s = NotStarted
    | AtPprof => fd_err a = None ∧ kid s = NotStarted ∧ consoleServer (machine s) = Some old ∧ pprofListener (machine s) = Some old
    | AtConsole => fd_err a = None ∧ kid s = NotStarted ∧ consoleServer (machine s) = Some old ∧ pprofListener (machine s) = None
    | AtStart => fd_err a = None ∧ kid s = NotStarted ∧ consoleServer (machine s) = None ∧ pprofListener (machine s) = None
    | AtFind => (fd_err a = None ∧ start_err a = None) ∧ kid s ∈ [Starting; Ended]
        ∧ consoleServer (machine s) = None ∧ pprofListener (machine s) = None
    | Returned => (fd_err a = None ∧ kid s ∈ [NotStarted; Starting; Ended] ∧ consoleServer (machine s) = None ∧ pprofListener (machine s) = None)
        ∨ (fd_err a ≠ None ∧ kid s = NotStarted ∧ machine s = s0)
    | _ => False
    end.

Section failing.
Context (addr : str) (k : nat) (old : Z) (a : attempt) (s0 : os).
Context (Hne : new_pid a ≠ old) (Hc0 : consoleServer s0 = Some old) (Hp0 : pprofListener s0 = Some old).
Context (Hdies : child a = Dies) (Hfails : fd_err a ≠ None ∨ start_err a ≠ None ∨ find_err a ≠ None).

Lemma drop_other : drop_pid (new_pid a) [(old, k)] = [(old, k)].
Proof. unfold drop_pid. cbn. by rewrite bool_decide_eq_false_2. Qed.

Lemma unless_self : unless old (Some old) = None.
Proof. unfold unless. by rewrite bool_decide_eq_true_2. Qed.

Lemma still_serving_step s s' : hstep addr k old a s s' → still_serving k old a s0 s → still_serving k old a s0 s'.
Proof.
  intros [[] H] (Hb & Ha & Hr & Hsg & Hs); destruct s as [m h c st sg]; cbn [machine handler kid stoppingState signals hdo] in *.
  - unfold handler_step in H. cbn [machine handler kid stoppingState signals] in H. unfold still_serving.
    destruct h; cbn in H; try done.
    + destruct Hs as [-> ->]. destruct (fd_err a) eqn:E; injection H as <-; cbn; split_and!; try done. by right.
    + injection H as <-. cbn. destruct Hs as (? & ? & -> & ->). by rewrite unless_self.
    + injection H as <-. cbn. destruct Hs as (? & ? & -> & ->). by rewrite unless_self.
    + destruct Hs as (Hf & -> & Hs). destruct (start_err a) eqn:E; injection H as <-; cbn; split_and!; try done; [|set_solver..].
      left. split_and!; [done|set_solver|apply Hs|apply Hs].
    + destruct Hs as ([Hf Hst] & Hk & Hs). destruct (find_err a) eqn:E; [|destruct Hfails as [?|[?|?]]; done].
      injection H as <-. cbn. split_and!; try done. left. split_and!; [done|set_solver|apply Hs|apply Hs].
  - unfold child_step in H. cbn [machine handler kid stoppingState signals] in H. rewrite Hdies in H.
    assert (c = Starting) as ->.
    { destruct c; try done. exfalso. destruct h; try done; try (destruct Hs as (? & ? & ?); done); set_solver. }
    injection H as <-. unfold still_serving. cbn. rewrite Ha, drop_other.
    split_and!; try done; [set_solver|]. destruct h; try done; try (destruct Hs as (? & ? & ?); done); [by destruct Hs| |].
    + destruct Hs as (? & _ & -> & ->). split_and!; [tauto..|set_solver|done|done].
    + destruct Hs as [(? & _ & -> & ->)|(_ & ? & _)]; [|done]. left. split_and!; [done|set_solver|done|done].
  - unfold loop_step in H. destruct (existsb _ _); [|done]. injection H as <-. cbn in Hsg. subst sg. done.
Qed.
End failing.

(** A hand-over that fails leaves the old process serving: without the descriptor
    nothing changes; when the child cannot be started, or ends and is not found, the
    old process goes on accepting on the same socket in every state, but once the
    handler has returned, its console and its pprof listener stay closed. *)
Theorem hand_over_failed (addr : str) (k : nat) (old : Z) (a : attempt) (s0 : os) (s : hand) :
  serving_alone s0 addr k old → consoleServer s0 = Some old → pprofListener s0 = Some old → new_pid a ≠ old →
  child a = Dies → fd_err a ≠ None ∨ start_err a ≠ None ∨ find_err a ≠ None →
  steps (hstep addr k old a) (begin s0) s →
  bound (machine s) !! addr = Some k ∧ accepting (machine s) = [(old, k)] ∧ old ∈ running (machine s)
  ∧ (handler s = Returned → (fd_err a ≠ None → machine s = s0)
       ∧ (fd_err a = None → consoleServer (machine s) = None ∧ pprofListener (machine s) = None)).
Proof.
  intros (Hb & Ha & _ & Hr) Hc Hp Hne Hd Hf Hs.
  assert (still_serving k old a s0 s) as (Hb' & Ha' & Hr' & _ & Hh).
  { eapply steps_inv; [apply (still_serving_step addr k old a s0 Hne Hc Hp Hd Hf)|exact Hs|].
    unfold still_serving. cbn. rewrite Hr. split_and!; try done. set_solver. }
  rewrite Hb'. split_and!; [done..|]. intros He. rewrite He in Hh. naive_solver.
Qed.

(** Without a child that listens, at most the old process accepts, and nobody once it
    is gone. *)
Definition fading (k : nat) (old : Z) (s : hand) : Prop :=
  (accepting (machine s) ⊆ [(old, k)]) ∧ (kid s ∉ [Listening; Serving]) ∧ (handler s = Gone → accepting (machine s) = []).

Lemma fading_step addr k old a s s' : child a = Dies → hstep addr k old a s s' → fading k old s → fading k old s'.
Proof.
  intros Hd [[] H] (Ha & Hk & Hh); destruct s as [m h c st sg]; unfold fading; cbn [machine handler kid stoppingState signals hdo] in *.
  - unfold handler_step in H. cbn [machine handler kid stoppingState signals] in H.
    assert (drop_pid old (accepting m) = []) as Hdr.
    { destruct (drop_pid old (accepting m)) as [|x l] eqn:E; [done|]. assert (x ∈ drop_pid old (accepting m)) as Hx by (rewrite E; left).
      apply drop_pid_spec in Hx as [Hx Hx']. apply Ha, list_elem_of_singleton in Hx as ->. done. }
    destruct h; try done; repeat case_match; simplify_eq; cbn; split_and!; try done; try set_solver.
    intros x [Hx _]%drop_pid_spec. by apply Ha.
  - unfold child_step in H. cbn [machine handler kid stoppingState signals] in H. rewrite Hd in H.
    destruct c; try done; [|set_solver]. injection H as <-. cbn. split_and!; [|set_solver|].
    + intros x [Hx _]%drop_pid_spec. by apply Ha.
    + intros He. by rewrite (Hh He).
  - unfold loop_step in H. destruct (existsb _ _); [|done]. injection H as <-. cbn. destruct sg; cbn; split_and!; try done.
    + intros x [Hx _]%drop_pid_spec. by apply Ha.
    + intros He. by rewrite (Hh He).
Qed.

(** A child that ends at once is not noticed: the old process does not wait for it,
    so that signal 0 reaches the zombie and the old process stops; when it has ended,
    nobody accepts on the address. *)
Theorem hand_over_dead_child (addr : str) (k : nat) (old : Z) (a : attempt) (s0 : os) (s : hand) :
  serving_alone s0 addr k old → new_pid a ≠ old → child a = Dies →
  steps (hstep addr k old a) (begin s0) s → handler s = Gone →
  accepting (machine s) = [] ∧ answered addr old s = false.
Proof.
  intros (Hb & Ha & _) Hne Hd Hs Hg.
  assert (fading k old s) as (_ & _ & H).
  { eapply steps_inv; [intros x y Hxy; by eapply fading_step|exact Hs|]. unfold fading. cbn. rewrite Ha. split_and!; [done|set_solver|done]. }
  rewrite H by done. split; [done|]. unfold answered. rewrite H by done. by case_match.
Qed.

(** ** Runs *)

Definition example_os : os :=
  mkOS {[ $"/dove.sock" := 0 ]} 1 [(10%Z, 0)] [(10%Z, 0)] {[10%Z]} ∅ (Some 10%Z) (Some 10%Z).
Definition example_run (a : attempt) (ms : list hmove) : option hand := hrun $"/dove.sock" 0 10 a (begin example_os) ms.
Definition good : attempt := mkAttempt None None None 11 Serves.
Definition dying : attempt := mkAttempt None None None 11 Dies.

Lemma example_alone : serving_alone example_os $"/dove.sock" 0 10.
Proof. split_and!; done. Qed.

Definition calm_hand_over : list hmove := replicate 4 MHandler ++ [MChild; MChild] ++ replicate 6 MHandler.

(** While the old process stops, both accept: a connection that its loop takes is
    answered with CLOSE. *)
Example closed_while_stopping :
  option_map (fun s => (accepting (machine s), stoppingState s, match loop_step 10 s with Some _ => true | None => false end))
    (example_run good (replicate 4 MHandler ++ [MChild; MChild] ++ replicate 3 MHandler))
  = Some ([(10%Z, 0); (11%Z, 0)], true, true).
Proof. vm_compute. reflexivity. Qed.

(** A child that needs more than the two seconds: nothing waits for it, and the old
    process is gone before it accepts. *)
Example slow_child :
  option_map (fun s => (handler s, kid s, answered $"/dove.sock" 10 s)) (example_run good (replicate 10 MHandler)) = Some (Gone, Starting, false).
Proof. vm_compute. reflexivity. Qed.

(** The child that dies: the run exists. *)
Example dead_child_run :
  option_map (fun s => (handler s, accepting (machine s), running (machine s)))
    (example_run dying (replicate 4 MHandler ++ [MChild] ++ replicate 6 MHandler)) = Some (Gone, [], ∅).
Proof. vm_compute. reflexivity. Qed.

Lemma prompt_run addr k old a ms : ∀ s s',
  hrun addr k old a s ms = Some s' →
  (∀ n s1, hrun addr k old a s (take n ms) = Some s1 → ms !! n = Some MHandler → handler s1 = AtFind → kid s1 = Serving) →
  steps (prompt addr k old a) s s'.
Proof.
  induction ms as [|m ms IH]; intros s s' H Hp; cbn [hrun] in H; [simplify_eq; constructor|].
  destruct (hdo addr k old a s m) as [s1|] eqn:E; [|done]. eapply steps_one.
  - exists m. split; [exact E|]. intros ->. by apply (Hp 0 s).
  - apply IH; [done|]. intros n s2 Hn Hm. apply (Hp (S n)); [|done]. cbn [take hrun]. by rewrite E.
Qed.

Definition calm_end : hand := default (begin example_os) (example_run good calm_hand_over).

Lemma hand_over_serves_witness :
  handler calm_end = Gone ∧ accepting (machine calm_end) = [(11%Z, 0)].
Proof.
  split; [vm_compute; reflexivity|].
  refine (proj1 (proj2 (proj2 (hand_over_serves $"/dove.sock" 0 10 good example_os calm_end _ _ _ _ _ _ _))) _);
    [exact example_alone|cbn; lia|reflexivity..| |vm_compute; reflexivity].
  apply (prompt_run _ _ _ _ calm_hand_over); [vm_compute; reflexivity|].
  intros n s1 Hr Hm Hh. do 12 (destruct n as [|n]; [vm_compute in Hr; injection Hr as <-; vm_compute in Hh |- *; first [reflexivity|discriminate Hh|vm_compute in Hm; discriminate Hm]|]).
  vm_compute in Hm. by destruct n.
Defined.

Lemma hand_over_failed_witness :
  match example_run (mkAttempt None (Some $"fork") None 11 Dies) (replicate 4 MHandler) with
  | Some s => handler s = Returned ∧ accepting (machine s) = [(10%Z, 0)]
  | None => False
  end.
Proof.
  destruct (example_run (mkAttempt None (Some $"fork") None 11 Dies) (replicate 4 MHandler)) as [s|] eqn:E; [|vm_compute in E; discriminate].
  split; [vm_compute in E; injection E as <-; reflexivity|].
  refine (proj1 (proj2 (hand_over_failed $"/dove.sock" 0 10 (mkAttempt None (Some $"fork") None 11 Dies) example_os s _ _ _ _ _ _ _)));
    [exact example_alone|reflexivity|reflexivity|cbn; lia|reflexivity|right; left; discriminate|exact (hrun_steps _ _ _ _ _ _ _ E)].
Defined.

Lemma hand_over_dead_child_witness :
  match example_run dying (replicate 4 MHandler ++ [MChild] ++ replicate 6 MHandler) with
  | Some s => answered $"/dove.sock" 10 s = false
  | None => False
  end.
Proof.
  destruct (example_run dying (replicate 4 MHandler ++ [MChild] ++ replicate 6 MHandler)) as [s|] eqn:E; [|vm_compute in E; discriminate].
  refine (proj2 (hand_over_dead_child $"/dove.sock" 0 10 dying example_os s _ _ _ _ _));
    [exact example_alone|cbn; lia|reflexivity|exact (hrun_steps _ _ _ _ _ _ _ E)|vm_compute in E; injection E as <-; reflexivity].
Defined.

Lemma StartLocalServer_listens_witness :
  bound (StartLocalServer_listen false true $"/dove.sock" $"/t.sock" [] None None 12 example_os).2
  = <[ $"/dove.sock" := 1 ]> (bound example_os).
Proof.
  refine (proj1 (proj2 (StartLocalServer_listens example_os _ $"/dove.sock" $"/t.sock" [] false None None 12 None _ _ _))).
  - discriminate.
  - intros q k Hin. apply list_elem_of_singleton in Hin. injection Hin as -> ->. cbn. lia.
  - reflexivity.
Defined.
