(* ===== verification/LocalWatch.v ===== *)
(** * Watching local files (configwatcher/local_watcher.go)

    The directories that are to be watched again, and the update an event of the
    file system leads to.  The list of directories is a Go slice that is ranged
    over while elements are cut out of its array: the model has the array.

    [event_handled]: which events update what.  [retry_one]: one directory that
    can be watched again leaves the list and nothing else does; [retry_loses]: with
    two of them a third one can be lost. *)

From S2P Require Import Prelude GoLib Util Schema DebugConfig.

(** ** Paths *)

(** The elements [path.Clean] keeps, last one first. *)
Definition clean_step (rooted : bool) (stack : list str) (elem : str) : list str :=
  if bool_decide (elem = []) || bool_decide (elem = $".") then stack
  else if bool_decide (elem = $"..") then
    match stack with
    | top :: rest => if bool_decide (top = $"..") then elem :: stack else rest
    | [] => if rooted then [] else [elem]
    end
  else elem :: stack.

Definition Clean (p : str) : str :=
  let rooted := HasPrefix p sep in
  let body := Join (reverse (fold_left (clean_step rooted) (Split p sep) [])) sep in
  if rooted then sep ++ body else if bool_decide (body = []) then $"." else body.

(** [path.Dir] and [filepath.Base]. *)
Definition Dir (p : str) : str := Clean (take (Z.to_nat (LastIndexByte p "/"%char + 1)) p).
Definition Base (p : str) : str :=
  if bool_decide (p = []) then $"."
  else let p := TrimRight p sep in
       if bool_decide (p = []) then sep else drop (Z.to_nat (LastIndexByte p "/"%char + 1)) p.

Example Dir_Base_ex :
  Dir $"/c/./x/../a.schema.php" = $"/c" ∧ Dir $"a.php" = $"." ∧ Dir $"/a" = $"/" ∧ Dir $"../../b/" = $"../../b"
  ∧ Base $"/c/a.toml" = $"a.toml" ∧ Base $"/c//" = $"c" ∧ Base $"//" = $"/".
Proof. vm_compute. done. Qed.

(** ** Directories to watch again *)

Definition appendFaildDirs (failedDirs : list str) (fDir : str) : list str :=
  if InArrayString failedDirs fDir then failedDirs else failedDirs ++ [fDir].

(** A slice: its array, and where it lies in it. *)
Record slice := mkSlice { arr : list str; off : nat; len : nat }.

Definition slice_of (l : list str) : slice := mkSlice l 0 (length l).
Definition elements_of (s : slice) : list str := take (len s) (drop (off s) (arr s)).

(** [copy] inside the array: [n] elements from [src] to [dst], [dst <= src]. *)
Definition move_down (l : list str) (dst src n : nat) : list str :=
  take dst l ++ take n (drop src l) ++ drop (dst + n) l.

(** [util.DelInArrayString] on the slice and its array. *)
Definition DelInArrayString_slice (s : slice) (index : nat) : slice :=
  if (len s <? 1) || (len s <=? index) then s
  else if index =? 0 then mkSlice (arr s) (S (off s)) (len s - 1)
  else mkSlice (move_down (arr s) (off s + index) (off s + index + 1) (len s - index - 1)) (off s) (len s - 1).

(** One round of [retryAddFaildDirs] under the lock: [ready] says whether a
    directory exists and can be added; the directories added are returned in
    order, and their schema files are updated. *)
Definition retry_step (ready : str → bool) (start : nat) (acc : slice * list str) (n : nat) : slice * list str :=
  let '(s, added) := acc in
  let fDir := nth (start + n) (arr s) [] in
  if ready fDir then (DelInArrayString_slice s n, added ++ [fDir]) else (s, added).

Definition retryAddFaildDirs (ready : str → bool) (failedDirs : list str) : list str * list str :=
  let s := slice_of failedDirs in
  let '(s, added) := fold_left (retry_step ready (off s)) (seq 0 (len s)) (s, []) in
  (elements_of s, added).

(** The schema files updated for the directories that were added. *)
Definition retry_updates (fs : FileSystem) (added : list str) : list str :=
  flat_map (fun d => map Path (GetSchemaFilesByDir fs d)) added.

(** ** Events *)

Definition op_Create : Z := 1.
Definition op_Write : Z := 2.
Definition op_Rename : Z := 8.

Record fs_event := mkEvent { Name : str; Op : Z }.

Inductive local_action := NoUpdate | UpdateAll | UpdateSchema (path : str).

(** The directories [loopWatch] takes out of the watcher and keeps for later. *)
Definition lost_dirs (CONFIG_DIR : list str) (stat_ok : bool) (ev : fs_event) : list str :=
  if negb stat_ok && (HasSuffix (Name ev) $".php" || HasSuffix (Name ev) $".toml") then
    let fDir := Dir (Name ev) in
    map (fun _ => fDir) (List.filter (fun dir => bool_decide (TrimSuffix dir $"\/" = TrimSuffix fDir $"\/")) CONFIG_DIR)
  else [].

Definition event_action (DEVMODE : bool) (ev : fs_event) : local_action :=
  if DEVMODE && bool_decide (Base (Name ev) = debugFilename) then
    if (Op ev =? op_Create)%Z || (Op ev =? op_Write)%Z || (Op ev =? op_Rename)%Z then UpdateAll else NoUpdate
  else if IsSchemaFile (Name ev) then
    if (Op ev =? op_Create)%Z || (Op ev =? op_Write)%Z then UpdateSchema (Name ev) else NoUpdate
  else NoUpdate.

(** One event: the list of directories and the update. *)
Definition loopWatch_event (CONFIG_DIR failedDirs : list str) (DEVMODE stat_ok : bool) (ev : fs_event)
    : list str * local_action :=
  (fold_left appendFaildDirs (lost_dirs CONFIG_DIR stat_ok ev) failedDirs, event_action DEVMODE ev).

(** [watchDebugOrSchemafiles]: the directories that cannot be added at the start. *)
Definition watchDebugOrSchemafiles (CONFIG_DIR : list str) (can_add : str → bool) : list str :=
  fold_left appendFaildDirs (List.filter (fun d => negb (can_add d)) CONFIG_DIR) [].

(** ** Lemmas *)

Lemma appendFaildDirs_spec l d x : x ∈ appendFaildDirs l d ↔ x ∈ l ∨ x = d.
Proof.
  unfold appendFaildDirs. destruct (InArrayString l d) eqn:E; [apply InArrayString_spec in E; naive_solver|set_solver].
Qed.

Lemma fold_append_spec ds l x : x ∈ fold_left appendFaildDirs ds l ↔ x ∈ l ∨ x ∈ ds.
Proof.
  revert l. induction ds as [|d ds IH]; intros l; cbn [fold_left]; [set_solver|].
  rewrite IH, appendFaildDirs_spec. set_solver.
Qed.

Lemma fold_append_nodup ds l : NoDup l → NoDup (fold_left appendFaildDirs ds l).
Proof.
  revert l. induction ds as [|d ds IH]; intros l Hl; cbn [fold_left]; [done|]. apply IH. unfold appendFaildDirs.
  destruct (InArrayString l d) eqn:E; [done|]. apply InArrayString_false in E. apply NoDup_app.
  split; [exact Hl|]. split; [|apply NoDup_singleton]. intros x Hx Hd. apply list_elem_of_singleton in Hd as ->. done.
Qed.

(** Steps that find nothing ready change nothing. *)
Lemma retry_idle ready start ns s added :
  (∀ n, n ∈ ns → ready (nth (start + n) (arr s) []) = false) →
  fold_left (retry_step ready start) ns (s, added) = (s, added).
Proof.
  induction ns as [|n ns IH]; intros H; [done|]. cbn [fold_left retry_step]. rewrite H by left. apply IH. intros; apply H; by right.
Qed.

Lemma nth_app_mid (l1 : list str) d l2 n : nth n (l1 ++ d :: l2) [] =
  if n <? length l1 then nth n l1 [] else if n =? length l1 then d else nth (n - length l1 - 1) l2 [].
Proof.
  destruct (Nat.ltb_spec n (length l1)); [by rewrite app_nth1|]. rewrite app_nth2 by lia.
  destruct (Nat.eqb_spec n (length l1)) as [->|]; [by rewrite Nat.sub_diag|].
  destruct (n - length l1) as [|k] eqn:E; [lia|]. cbn [nth]. by rewrite Nat.sub_succ, Nat.sub_0_r.
Qed.

Lemma nth_ready_false (ready : str → bool) l n :
  ready [] = false → (∀ x, x ∈ l → ready x = false) → ready (nth n l []) = false.
Proof.
  intros H0 H. destruct (Nat.lt_ge_cases n (length l)) as [Hn|Hn]; [|by rewrite nth_overflow].
  apply H, list_elem_of_In, nth_In. done.
Qed.

(** A directory that came back leaves the list and nothing else does: when
    exactly one of the listed directories can be watched again, one round adds it
    (and only it) and keeps all the others in order. *)
Theorem retry_one (ready : str → bool) (l1 l2 : list str) (d : str) :
  ready d = true → ready [] = false → (∀ x, x ∈ l1 ++ l2 → ready x = false) →
  retryAddFaildDirs ready (l1 ++ d :: l2) = (l1 ++ l2, [d]).
Proof.
  intros Hd H0 Ho. assert (∀ x, x ∈ l1 → ready x = false) as Ho1 by set_solver.
  assert (∀ x, x ∈ l2 → ready x = false) as Ho2 by set_solver.
  unfold retryAddFaildDirs. cbn [slice_of off len]. rewrite length_app. cbn [length].
  replace (length l1 + S (length l2)) with (length l1 + (1 + length l2)) by lia.
  rewrite !seq_app, !fold_left_app. cbn [seq fold_left].
  rewrite retry_idle.
  2:{ intros n Hn. apply list_elem_of_In, in_seq in Hn. cbn [slice_of arr]. rewrite nth_app_mid.
      rewrite (proj2 (Nat.ltb_lt _ _)) by lia. by apply nth_ready_false. }
  unfold retry_step at 2. cbn [slice_of arr]. rewrite nth_app_mid.
  rewrite (proj2 (Nat.ltb_ge _ _)) by lia. rewrite (proj2 (Nat.eqb_eq (0 + (0 + length l1)) (length l1))) by lia. rewrite Hd.
  unfold DelInArrayString_slice. cbn [slice_of arr off len]. rewrite length_app. cbn [length].
  rewrite (proj2 (Nat.ltb_ge _ _)) by lia. rewrite (proj2 (Nat.leb_gt _ _)) by lia. cbn [orb].
  destruct (Nat.eqb_spec (0 + length l1) 0) as [Hz|Hnz].
  - destruct l1; [|simpl in Hz; lia]. cbn [length app]. rewrite retry_idle; cbn.
    + unfold elements_of. cbn. rewrite Nat.sub_0_r, drop_0. by rewrite take_ge.
    + intros n Hn. apply list_elem_of_In, in_seq in Hn. destruct n as [|n]; [lia|]. by apply nth_ready_false.
  - assert (move_down (l1 ++ d :: l2) (0 + (0 + length l1)) (0 + (0 + length l1) + 1) (length l1 + S (length l2) - (0 + length l1) - 1)
            = l1 ++ l2 ++ drop (length l2) (d :: l2)) as ->.
    { unfold move_down. cbn [Nat.add]. rewrite take_app_length. f_equal. f_equal.
      - replace (length l1 + 1) with (length (l1 ++ [d])) by (rewrite length_app; simpl; lia).
        replace (l1 ++ d :: l2) with ((l1 ++ [d]) ++ l2) by (by rewrite <- app_assoc).
        rewrite drop_app_length. rewrite take_ge; [done|lia].
      - replace (length l1 + (length l1 + S (length l2) - length l1 - 1)) with (length l1 + length l2) by lia.
        by rewrite <- drop_drop, drop_app_length. }
    rewrite retry_idle; cbn [arr].
    + unfold elements_of. cbn [arr off len]. rewrite drop_0, app_assoc, take_app_le by (rewrite length_app; lia).
      rewrite take_ge; [done|rewrite length_app; lia].
    + intros n Hn. apply list_elem_of_In, in_seq in Hn.
      destruct (Nat.lt_ge_cases n (length (l1 ++ l2))) as [Hlt|Hge].
      * rewrite app_assoc, app_nth1 by (cbn; lia). by apply nth_ready_false.
      * rewrite app_assoc, app_nth2 by (cbn; lia). rewrite length_app in *.
        destruct l2 as [|y l2]; [cbn in Hn; lia|]. apply nth_ready_false; [done|].
        intros x Hx. apply Ho2. cbn [length drop] in Hx. rewrite <- (take_drop (length l2) (y :: l2)), elem_of_app. by right.
Qed.

(** With two directories that came back, a third one can be lost: the range runs
    over the old slice while its array is shifted. *)
Example retry_loses :
  let ready d := bool_decide (d = $"/a" ∨ d = $"/b") in
  retryAddFaildDirs ready [$"/a"; $"/b"; $"/c"] = ([$"/b"], [$"/a"; $"/b"])
  ∧ retryAddFaildDirs ready [$"/c"; $"/a"; $"/b"; $"/d"] = ([$"/c"; $"/b"; $"/d"], [$"/a"]).
Proof. vm_compute. done. Qed.

(** A configured directory with a trailing slash is never matched. *)
Example trailing_slash :
  lost_dirs [$"/c/"] false (mkEvent $"/c/a.schema.php" 4) = []
  ∧ lost_dirs [$"/c"] false (mkEvent $"/c/a.schema.php" 4) = [$"/c"].
Proof. vm_compute. done. Qed.

(** ** From the event to the retry *)

Lemma lost_dirs_spec CONFIG_DIR stat_ok ev x :
  x ∈ lost_dirs CONFIG_DIR stat_ok ev ↔
  x = Dir (Name ev) ∧ stat_ok = false ∧ (HasSuffix (Name ev) $".php" || HasSuffix (Name ev) $".toml") = true
  ∧ ∃ dir, dir ∈ CONFIG_DIR ∧ TrimSuffix dir $"\/" = TrimSuffix x $"\/".
Proof.
  unfold lost_dirs. destruct stat_ok; cbn [negb andb]; [set_solver|].
  destruct (_ || _); [|set_solver]. rewrite list_elem_of_fmap. split.
  - intros (dir & -> & Hd). apply list_elem_of_In, filter_In in Hd as [Hd ?%bool_decide_eq_true_1].
    apply list_elem_of_In in Hd. naive_solver.
  - intros (-> & _ & _ & dir & Hd & He). exists dir. split; [done|].
    apply list_elem_of_In, filter_In. split; [by apply list_elem_of_In|]. by apply bool_decide_eq_true_2.
Qed.

(** An event of the file system puts at most the directory of the vanished
    file on the list of directories to watch again, and only when it is a
    configured one; nothing leaves the list, nothing is on it twice; and only a new
    or written schema file, or a change of the debug file in DEV mode, is followed
    by an update. *)
Theorem event_handled (CONFIG_DIR failedDirs : list str) (DEVMODE stat_ok : bool) (ev : fs_event) :
  NoDup failedDirs →
  let '(failed, act) := loopWatch_event CONFIG_DIR failedDirs DEVMODE stat_ok ev in
  NoDup failed
  ∧ (∀ x, x ∈ failed ↔ x ∈ failedDirs ∨
       x = Dir (Name ev) ∧ stat_ok = false ∧ (HasSuffix (Name ev) $".php" || HasSuffix (Name ev) $".toml") = true
       ∧ ∃ dir, dir ∈ CONFIG_DIR ∧ TrimSuffix dir $"\/" = TrimSuffix x $"\/")
  ∧ (∀ p, act = UpdateSchema p ↔ p = Name ev ∧ IsSchemaFile p = true ∧ (Op ev = op_Create ∨ Op ev = op_Write)
       ∧ ~ (DEVMODE = true ∧ Base p = debugFilename))
  ∧ (act = UpdateAll ↔ DEVMODE = true ∧ Base (Name ev) = debugFilename ∧ (Op ev = op_Create ∨ Op ev = op_Write ∨ Op ev = op_Rename)).
Proof.
  intros Hn. cbn [loopWatch_event]. split_and!.
  - by apply fold_append_nodup.
  - intros x. by rewrite fold_append_spec, lost_dirs_spec.
  - intros p. unfold event_action.
    destruct DEVMODE; cbn [andb]; [destruct (decide (Base (Name ev) = debugFilename)) as [Hb|Hb]|].
    + rewrite bool_decide_eq_true_2 by done. split; [by destruct (_ || _)|]. intros (-> & _ & _ & H). by destruct H.
    + rewrite bool_decide_eq_false_2 by done.
      destruct (IsSchemaFile (Name ev)) eqn:Es; [|split; [done|intros (-> & ? & _); congruence]].
      destruct ((Op ev =? op_Create)%Z || (Op ev =? op_Write)%Z) eqn:Eo; rewrite ?orb_true_iff, ?orb_false_iff, ?Z.eqb_eq, ?Z.eqb_neq in Eo; naive_solver.
    + destruct (IsSchemaFile (Name ev)) eqn:Es; [|split; [done|intros (-> & ? & _); congruence]].
      destruct ((Op ev =? op_Create)%Z || (Op ev =? op_Write)%Z) eqn:Eo; rewrite ?orb_true_iff, ?orb_false_iff, ?Z.eqb_eq, ?Z.eqb_neq in Eo; naive_solver.
  - unfold event_action. destruct DEVMODE; cbn [andb]; [destruct (decide (Base (Name ev) = debugFilename)) as [Hb|Hb]|].
    + rewrite bool_decide_eq_true_2 by done.
      destruct (_ || _ || _) eqn:Eo; rewrite ?orb_true_iff, ?orb_false_iff, ?Z.eqb_eq, ?Z.eqb_neq in Eo; naive_solver.
    + rewrite bool_decide_eq_false_2 by done. repeat case_match; naive_solver.
    + repeat case_match; naive_solver.
Qed.

(** A removed release directory is watched again when it is back, and its schema
    files are updated. *)
Lemma removed_dir_returns (fs : FileSystem) (CONFIG_DIR : list str) (DEVMODE : bool) (ev : fs_event) (ready : str → bool) :
  let d := Dir (Name ev) in
  d ∈ CONFIG_DIR → HasSuffix (Name ev) $".php" = true → ready d = true →
  let '(failed, added) := retryAddFaildDirs ready (loopWatch_event CONFIG_DIR [] DEVMODE false ev).1 in
  failed = [] ∧ retry_updates fs added = map Path (GetSchemaFilesByDir fs d).
Proof.
  intros d Hd Hs Hr.
  assert ((loopWatch_event CONFIG_DIR [] DEVMODE false ev).1 = [d]) as ->.
  { cbn [loopWatch_event fst]. pose proof (fold_append_nodup (lost_dirs CONFIG_DIR false ev) [] (NoDup_nil_2)) as Hnd.
    assert (∀ x, x ∈ fold_left appendFaildDirs (lost_dirs CONFIG_DIR false ev) [] ↔ x = d) as Hx.
    { intros x. rewrite fold_append_spec, lost_dirs_spec. split; [intros [Hx%not_elem_of_nil|Hx]; [done|apply Hx]|intros ->].
      right. rewrite Hs. split_and!; [done..|by exists d]. }
    destruct (fold_left _ _ _) as [|y [|z l]].
    - destruct (not_elem_of_nil d (proj2 (Hx d) eq_refl)).
    - f_equal. apply Hx. left.
    - apply NoDup_cons in Hnd as [Hyz _]. destruct Hyz. rewrite (proj1 (Hx y)), (proj1 (Hx z)) by set_solver. left. }
  change (retryAddFaildDirs ready ([] ++ d :: [])) with (retryAddFaildDirs ready [d]).
  unfold retryAddFaildDirs. cbn [slice_of off len length seq fold_left retry_step arr nth Nat.add]. rewrite Hr. cbn.
  by rewrite app_nil_r.
Qed.

Lemma retry_one_witness :
  let ready d := bool_decide (d = $"/b") in
  retryAddFaildDirs ready ([$"/a"] ++ $"/b" :: [$"/c"]) = ([$"/a"] ++ [$"/c"], [$"/b"]).
Proof.
  intros ready. apply (retry_one ready).
  - vm_compute. reflexivity.
  - vm_compute. reflexivity.
  - intros x [->|[->|[]%not_elem_of_nil]%elem_of_cons]%elem_of_cons; vm_compute; reflexivity.
Defined.

Lemma event_handled_witness :
  NoDup [$"/x"] ∧
  let '(failed, act) := loopWatch_event [$"/c"; $"/d"] [$"/x"] true false (mkEvent $"/c/a.schema.php" 1) in
  NoDup failed ∧ $"/c" ∈ failed ∧ act = UpdateSchema $"/c/a.schema.php".
Proof.
  split; [apply NoDup_singleton|].
  pose proof (event_handled [$"/c"; $"/d"] [$"/x"] true false (mkEvent $"/c/a.schema.php" 1) (NoDup_singleton _)) as H.
  destruct (loopWatch_event _ _ _ _ _) as [failed act] eqn:E. destruct H as (Hn & Hf & Hu & _).
  split; [exact Hn|]. split.
  - apply Hf. right. split_and!; [vm_compute; reflexivity..|]. exists $"/c". split; [left|reflexivity].
  - apply Hu. split_and!; [reflexivity..|left; reflexivity|]. intros [_ H]. vm_compute in H. discriminate.
Defined.
