(* ===== verification/Debounce.v ===== *)
(** * Waiting for the last request (configwatcher/zk_watcher.go)

    [getLockOfExecCallback] and [getLockOfExecResultReporting]: a caller records
    the time of its request, sleeps two seconds, and goes on when no other request
    was recorded since.  Callbacks record through a channel of one place that
    [receiveReqCallback] empties, reports under a mutex: [direct].

    [last_request_wins]: once the channel is empty and until the next request,
    exactly the callers that wake up with the last recorded time are told to go on:
    one of any burst of requests at different times.  [wakes_late]: a caller
    sleeps two seconds.  [two_win]: requests of the same nanosecond are all
    told so. *)

From S2P Require Import Prelude.

Definition MIN_INTERVAL_OF_EXEC_UPDATE_POST_CALLBACK : Z := 2.
Definition interval : Z := MIN_INTERVAL_OF_EXEC_UPDATE_POST_CALLBACK * 1000000000.

(** A caller with the time it took: about to record it, asleep until the second
    time, or back with an answer. *)
Inductive caller :=
| Recording (t : Z)
| Asleep (t wake : Z)
| Back (t : Z) (won : bool).

(** [callbackReqChan], the request [receiveReqCallback] holds, and
    [lastPostUpdateCallbackReqtime] or [reportTimeTag]; [recorded] lists the
    requests in the order they were recorded. *)
Record requests := mkRequests {
  now : Z;
  reqChan : option Z;
  holding : option Z;
  lastReqtime : Z;
  callers : list caller;
  recorded : list Z }.

Section debounce.
Context (direct : bool).

Definition set_caller (s : requests) (i : nat) (c : caller) : requests :=
  mkRequests (now s) (reqChan s) (holding s) (lastReqtime s) (<[i := c]> (callers s)) (recorded s).

Definition reqCallback (s : requests) (t : Z) : option requests :=
  if direct then Some (mkRequests (now s) (reqChan s) (holding s) t (callers s) (recorded s ++ [t]))
  else match reqChan s with
       | None => Some (mkRequests (now s) (Some t) (holding s) (lastReqtime s) (callers s) (recorded s ++ [t]))
       | Some _ => None
       end.

(** A caller's next step. *)
Definition caller_step (s : requests) (i : nat) : option requests :=
  match callers s !! i with
  | Some (Recording t) => s' ← reqCallback s t; Some (set_caller s' i (Asleep t (now s + interval)))
  | Some (Asleep t wake) =>
      if (wake <=? now s)%Z then Some (set_caller s i (Back t (lastReqtime s =? t)%Z)) else None
  | _ => None
  end.

(** [receiveReqCallback] takes a request, then stores it. *)
Definition receiveReqCallback (s : requests) : option requests :=
  match holding s, reqChan s with
  | None, Some t => Some (mkRequests (now s) None (Some t) (lastReqtime s) (callers s) (recorded s))
  | Some t, c => Some (mkRequests (now s) c None t (callers s) (recorded s))
  | None, None => None
  end.

(** A call starts, a caller goes on, the receiver goes on, time passes. *)
Inductive dmove := DCall | DCaller (i : nat) | DReceive | DTick (ns : Z).

Definition ddo (s : requests) (m : dmove) : option requests :=
  match m with
  | DCall => Some (mkRequests (now s) (reqChan s) (holding s) (lastReqtime s) (callers s ++ [Recording (now s)]) (recorded s))
  | DCaller i => caller_step s i
  | DReceive => receiveReqCallback s
  | DTick ns => if (0 <=? ns)%Z
                then Some (mkRequests (now s + ns) (reqChan s) (holding s) (lastReqtime s) (callers s) (recorded s))
                else None
  end.

Definition dstep (s s' : requests) : Prop := ∃ m, ddo s m = Some s'.

(** A step after which no more requests are recorded. *)
Definition silent (s s' : requests) : Prop := dstep s s' ∧ recorded s' = recorded s.

Definition no_requests (t : Z) : requests := mkRequests t None None 0 [] [].
Definition dreachable (s : requests) : Prop := ∃ t, (0 < t)%Z ∧ steps dstep (no_requests t) s.

(** Every recorded request is stored, in order. *)
Definition quiet (s : requests) : Prop := reqChan s = None ∧ holding s = None.

(** ** Lemmas *)

Definition in_flight (s : requests) : list Z :=
  match holding s with Some t => [t] | None => [] end ++ match reqChan s with Some t => [t] | None => [] end.

(** The recorded requests are those stored, of which the last one counts, then
    the one held and the one in the channel. *)
Definition dinv (s : requests) : Prop :=
  (∃ stored, recorded s = stored ++ in_flight s ∧ default 0%Z (list.last stored) = lastReqtime s)
  ∧ (∀ i t w, callers s !! i = Some (Asleep t w) → t ∈ recorded s)
  ∧ (direct = true → quiet s).

Lemma set_caller_asleep s i c j t w :
  callers (set_caller s i c) !! j = Some (Asleep t w) → callers s !! j = Some (Asleep t w) ∨ c = Asleep t w.
Proof. cbn. intros [(-> & <- & _)|[_ H]]%list_lookup_insert_Some; auto. Qed.

Lemma reqCallback_inv s t s' :
  dinv s → reqCallback s t = Some s' → dinv s' ∧ t ∈ recorded s' ∧ callers s' = callers s ∧ recorded s' = recorded s ++ [t].
Proof.
  intros ((stored & Hr & Hl) & Ha & Hq) H. unfold reqCallback in H. unfold dinv, in_flight, quiet in *.
  destruct direct.
  - injection H as <-. destruct (Hq eq_refl) as [Hc Hh]. cbn. rewrite Hc, Hh in *. rewrite app_nil_r in Hr.
    split_and!; [|intros i t' w Hi; apply elem_of_app; left; by eapply Ha|by repeat split|apply elem_of_app; right; left|done|done]. exists (stored ++ [t]).
    by rewrite app_nil_r, Hr, last_snoc.
  - destruct (reqChan s) eqn:E; [done|]. injection H as <-. cbn.
    split_and!; [|intros i t' w Hi; apply elem_of_app; left; by eapply Ha|done|apply elem_of_app; right; left|done|done]. exists stored. split; [|done].
    by rewrite Hr, !app_nil_r, app_assoc.
Qed.

Lemma dinv_step s s' : dstep s s' → dinv s → dinv s'.
Proof.
  intros [[|i| |ns] H] Hi; cbn [ddo] in H.
  - injection H as <-. destruct Hi as (Hr & Ha & Hq). split_and!; [exact Hr| |exact Hq]. cbn. intros i t w [H|[_ H]]%lookup_app_Some; [by eapply Ha|].
    by apply list_lookup_singleton_Some in H as [_ [=]].
  - unfold caller_step in H. destruct (callers s !! i) as [[t|t w|]|] eqn:E; try done.
    + destruct (reqCallback s t) as [s1|] eqn:E1; [|done]. injection H as <-.
      destruct (reqCallback_inv _ _ _ Hi E1) as ((Hr & Ha & Hq) & Ht & _). split_and!; [exact Hr| |exact Hq].
      intros j t' w [Hj|[= -> _]]%set_caller_asleep; [by eapply Ha|done].
    + destruct (_ <=? _)%Z; [|done]. injection H as <-. destruct Hi as (Hr & Ha & Hq). split_and!; [exact Hr| |exact Hq].
      intros j t' w' [Hj|[=]]%set_caller_asleep; by eapply Ha.
  - destruct Hi as ((stored & Hr & Hl) & Ha & Hq). unfold receiveReqCallback in H. unfold dinv, in_flight, quiet in *.
    destruct (holding s) as [t|] eqn:Eh, (reqChan s) as [c|] eqn:Ec; simplify_eq/=;
      (split_and!; [|exact Ha|intros Hd; by destruct (Hq Hd)]).
    + exists (stored ++ [t]). by rewrite last_snoc, <- app_assoc.
    + exists (stored ++ [t]). by rewrite last_snoc, app_nil_r.
    + by exists stored.
  - destruct (_ <=? _)%Z; [|done]. by injection H as <-.
Qed.

Lemma dreachable_inv s : dreachable s → dinv s.
Proof.
  intros (t & Ht & H). eapply steps_inv; [exact dinv_step|exact H|].
  unfold dinv. split_and!; [by exists []|done|done].
Qed.

(** A caller is back two seconds after its request at the earliest. *)
Definition on_time (n : Z) (c : caller) : Prop :=
  match c with
  | Recording t => (t <= n)%Z
  | Asleep t w => (t + interval <= w)%Z
  | Back t _ => (t + interval <= n)%Z
  end.
Definition times_inv (s : requests) : Prop := Forall (on_time (now s)) (callers s).

Lemma on_time_later n m c : (n <= m)%Z → on_time n c → on_time m c.
Proof. destruct c; cbn; lia. Qed.

Lemma reqCallback_same s t s' : reqCallback s t = Some s' → now s' = now s ∧ callers s' = callers s.
Proof. unfold reqCallback. destruct direct, (reqChan s); by intros [= <-]. Qed.

Lemma times_step s s' : dstep s s' → times_inv s → times_inv s'.
Proof.
  unfold times_inv. intros [[|i| |ns] H] Hi; cbn [ddo] in H.
  - injection H as <-. apply Forall_app; split; [done|]. constructor; cbn; [lia|done].
  - unfold caller_step in H. destruct (callers s !! i) as [[t|t w|]|] eqn:E; try done; pose proof (Forall_lookup_1 _ _ _ _ Hi E) as Ht.
    + destruct (reqCallback s t) as [s1|] eqn:E1; [|done]. injection H as <-.
      destruct (reqCallback_same _ _ _ E1) as [En Ec]. cbn. rewrite En, Ec. apply Forall_insert; [done|]. cbn in *. lia.
    + destruct (Z.leb_spec w (now s)); [|done]. injection H as <-. apply Forall_insert; [done|]. cbn in *. lia.
  - unfold receiveReqCallback in H. by destruct (holding s), (reqChan s); simplify_eq/=.
  - destruct (Z.leb_spec 0 ns); [|done]. injection H as <-. cbn. eapply Forall_impl; [exact Hi|].
    intros c. apply on_time_later. lia.
Qed.

Lemma wakes_late s i t won : dreachable s → callers s !! i = Some (Back t won) → (t + interval <= now s)%Z.
Proof.
  intros (t0 & _ & H) Hb. assert (times_inv s) as Hi by (eapply steps_inv; [exact times_step|exact H|constructor]).
  exact (Forall_lookup_1 _ _ _ _ Hi Hb).
Qed.

(** Nothing is recorded: the last time stays, a sleeper sleeps or is back. *)
Definition settled_at (s : requests) (i : nat) (t w : Z) (x : requests) : Prop :=
  quiet x ∧ lastReqtime x = lastReqtime s ∧
  (callers x !! i = Some (Asleep t w) ∨ callers x !! i = Some (Back t (lastReqtime s =? t)%Z)).

Lemma reqCallback_records s t s' : reqCallback s t = Some s' → recorded s' = recorded s ++ [t].
Proof. unfold reqCallback. destruct direct, (reqChan s); by intros [= <-]. Qed.

Lemma silent_settled s i t w x y : silent x y → settled_at s i t w x → settled_at s i t w y.
Proof.
  intros [[[|j| |ns] H] Hr] ((Hc & Hh) & Hl & Hi); cbn [ddo] in H; unfold settled_at, quiet.
  - injection H as <-. cbn. split_and!; try done.
    destruct Hi as [Hi|Hi]; [left|right]; by apply lookup_app_l_Some.
  - unfold caller_step in H. destruct (callers x !! j) as [[t'|t' w'|]|] eqn:E; try done.
    + destruct (reqCallback x t') as [s1|] eqn:E1; [|done]. injection H as <-.
      apply reqCallback_records in E1. cbn in Hr. rewrite E1 in Hr. apply (f_equal length) in Hr. rewrite length_app in Hr. cbn in Hr. lia.
    + destruct (w' <=? now x)%Z eqn:Ew; [|done]. injection H as <-. cbn. split_and!; try done.
      destruct (decide (j = i)) as [->|Hne]; [|by rewrite list_lookup_insert_ne].
      right. rewrite list_lookup_insert_eq by (by eapply lookup_lt_Some). destruct Hi as [Hi|Hi]; [|congruence].
      rewrite Hi in E. injection E as <- <-. by rewrite Hl.
  - unfold receiveReqCallback in H. by rewrite Hc, Hh in H.
  - destruct (_ <=? _)%Z; [|done]. by injection H as <-.
Qed.

(** Every recorded request is of one caller: the times of those that recorded are
    the recorded times. *)
Definition recorded_by (c : caller) : option Z :=
  match c with Recording _ => None | Asleep t _ => Some t | Back t _ => Some t end.
Definition each_recorded (s : requests) : Prop := omap recorded_by (callers s) ≡ₚ recorded s.

Lemma omap_insert_recorded l i c c' :
  l !! i = Some c → omap recorded_by (<[i := c']> l) ≡ₚ
    match recorded_by c' with Some t => [t] | None => [] end ++ omap recorded_by (delete i l)
  ∧ omap recorded_by l ≡ₚ match recorded_by c with Some t => [t] | None => [] end ++ omap recorded_by (delete i l).
Proof.
  intros H. assert (i < length l) as Hi by (by eapply lookup_lt_Some).
  rewrite delete_take_drop, insert_take_drop by done.
  split; [destruct (recorded_by c') eqn:E|rewrite <- (take_drop_middle l i c H) at 1; destruct (recorded_by c) eqn:E];
    rewrite !omap_app; cbn [omap list_omap app]; rewrite E; [by rewrite Permutation_middle|done|by rewrite Permutation_middle|done].
Qed.

Lemma each_recorded_step s s' : dstep s s' → each_recorded s → each_recorded s'.
Proof.
  unfold each_recorded. intros [[|i| |ns] H] Hi; cbn [ddo] in H.
  - injection H as <-. cbn. by rewrite omap_app, app_nil_r.
  - unfold caller_step in H. destruct (callers s !! i) as [[t|t w|]|] eqn:E; try done.
    + destruct (reqCallback s t) as [s1|] eqn:E1; [|done]. injection H as <-. cbn.
      rewrite (reqCallback_records _ _ _ E1), (proj2 (reqCallback_same _ _ _ E1)).
      destruct (omap_insert_recorded _ _ _ (Asleep t (now s1 + interval)) E) as [E2 E3]. cbn [recorded_by app] in E2, E3.
      rewrite <- (proj1 (reqCallback_same _ _ _ E1)), E2, <- E3, Hi. by rewrite Permutation_app_comm.
    + destruct (_ <=? _)%Z; [|done]. injection H as <-. cbn.
      destruct (omap_insert_recorded _ _ _ (Back t (lastReqtime s =? t)%Z) E) as [E2 E3]. by rewrite E2, <- Hi, E3.
  - unfold receiveReqCallback in H. by destruct (holding s), (reqChan s); simplify_eq/=.
  - destruct (_ <=? _)%Z; [|done]. by injection H as <-.
Qed.

Lemma one_caller s i j ci cj t :
  each_recorded s → NoDup (recorded s) → callers s !! i = Some ci → callers s !! j = Some cj →
  recorded_by ci = Some t → recorded_by cj = Some t → i = j.
Proof.
  unfold each_recorded. intros <- Hd Hi Hj Ei Ej. destruct (decide (i = j)) as [|Hne]; [done|]. exfalso.
  pose proof (proj2 (omap_insert_recorded _ _ _ ci Hi)) as P. rewrite Ei in P. rewrite P in Hd. cbn in Hd.
  apply NoDup_cons in Hd as [Hn _]. apply Hn, list_elem_of_omap. exists cj. split; [|done].
  apply (list_elem_of_lookup_2 _ (if decide (j < i) then j else j - 1)). case_decide.
  - by rewrite list_lookup_delete_lt.
  - rewrite list_lookup_delete_ge by lia. by replace (S (j - 1)) with j by lia.
Qed.

End debounce.

(** C26.  When every recorded request was stored and no new one is recorded, a
    caller that sleeps is told to go on exactly when the time of its request is that
    of the last recorded one, two seconds after it was made at the earliest; and when
    no two requests have the same time, it is the only sleeper with that time, so of
    a burst exactly the last caller is told to go on.  (What a caller that is told
    otherwise does is not decided here: after a root update it logs and goes on.) *)
Theorem last_request_wins (direct : bool) (s s' : requests) (i : nat) (t w t' : Z) (won : bool) :
  dreachable direct s → quiet s → steps (silent direct) s s' →
  callers s !! i = Some (Asleep t w) → callers s' !! i = Some (Back t' won) →
  t' = t ∧ (t + interval <= now s')%Z ∧ (won = true ↔ list.last (recorded s) = Some t)
  ∧ (NoDup (recorded s) → ∀ j w', callers s !! j = Some (Asleep t w') → j = i).
Proof.
  intros Hs Hq Hss Hi Hb.
  assert (settled_at s i t w s') as (_ & _ & Hi').
  { eapply steps_inv; [apply silent_settled|exact Hss|]. split_and!; [apply Hq..|done|by left]. }
  rewrite Hb in Hi'. destruct Hi' as [[=]|[= -> ->]]. split; [done|]. split; [|split].
  - apply (wakes_late direct s' i t (lastReqtime s =? t)%Z); [|done]. destruct Hs as (t0 & Ht & Hs). exists t0. split; [done|].
    clear -Hs Hss. induction Hs; [|by eapply steps_one; eauto]. induction Hss as [|a b c [Hab _] _ IH]; [constructor|by eapply steps_one].
  - destruct (dreachable_inv _ _ Hs) as ((stored & Hr & Hl) & Ha & _).
    unfold in_flight in Hr. destruct Hq as [Hc Hh]. rewrite Hc, Hh, app_nil_r in Hr. subst stored.
    specialize (Ha _ _ _ Hi). rewrite Z.eqb_eq, <- Hl.
    destruct (list.last (recorded s)) as [x|] eqn:E; cbn; [split; congruence|].
    apply last_None in E. rewrite E in Ha. by apply not_elem_of_nil in Ha.
  - intros Hd j w' Hj. destruct Hs as (t0 & _ & Hs).
    eapply (one_caller s); [eapply steps_inv; [apply each_recorded_step|exact Hs|constructor]|done|done|done|done|done].
Qed.

(** ** Runs *)

Fixpoint drun (direct : bool) (s : requests) (ms : list dmove) : option requests :=
  match ms with
  | [] => Some s
  | m :: rest => s ← ddo direct s m; drun direct s rest
  end.

Lemma drun_steps direct ms s s' : drun direct s ms = Some s' → steps (dstep direct) s s'.
Proof.
  revert s. induction ms as [|m ms IH]; intros s H; cbn in H; [injection H as ->; constructor|].
  destruct (ddo direct s m) as [s1|] eqn:E; [|done]. eapply steps_one; [by exists m|by apply IH].
Qed.

(** Two calls half a second apart; both requests are stored. *)
Definition two_calls : list dmove :=
  [DCall; DCaller 0; DReceive; DReceive; DTick 500000000; DCall; DCaller 1; DReceive; DReceive].

Definition after (direct : bool) (ms : list dmove) : requests := default (no_requests 0) (drun direct (no_requests 7) ms).

(** Two calls in the same nanosecond are both served. *)
Example two_win :
  callers (after false ([DCall; DCall; DCaller 0; DReceive; DReceive; DCaller 1; DReceive; DReceive; DTick interval; DCaller 0; DCaller 1]))
  = [Back 7 true; Back 7 true].
Proof. vm_compute; reflexivity. Qed.

Lemma last_request_wins_witness :
  callers (after false (two_calls ++ [DTick interval; DCaller 0; DCaller 1])) = [Back 7 false; Back 500000007 true]
  ∧ (true = true ↔ list.last (recorded (after false two_calls)) = Some 500000007%Z).
Proof.
  split; [vm_compute; reflexivity|].
  eapply (last_request_wins false (after false two_calls) (after false (two_calls ++ [DTick interval; DCaller 0; DCaller 1])) 1
           500000007 2500000007 500000007 true).
  - exists 7%Z. split; [vm_compute; reflexivity|]. apply (drun_steps false two_calls). vm_compute; reflexivity.
  - split; vm_compute; reflexivity.
  - eapply steps_one; [split; [exists (DTick interval); vm_compute; reflexivity|vm_compute; reflexivity]|].
    eapply steps_one; [split; [exists (DCaller 0); vm_compute; reflexivity|vm_compute; reflexivity]|].
    eapply steps_one; [split; [exists (DCaller 1); vm_compute; reflexivity|vm_compute; reflexivity]|]. constructor.
  - vm_compute; reflexivity.
  - vm_compute; reflexivity.
Defined.
