(* ===== verification/Notify.v ===== *)
(** * The record of updates between goroutines (callbacks/callback.go, configwatcher/zk_watcher.go)

    [updatedSchemaFiles] and [updatedNodes] are written by updates, under the lock
    [lk], and read and emptied by [invokeCallbackScripts], which does not take it.
    A goroutine is here the rest of one of these calls; a statement that reads or
    writes one of the lists is a step.

    [alone_is_callback_scripts]: a call of [invokeCallbackScripts] that runs alone
    builds the command lines of [callback_scripts].  [notes_reach_scripts]: as long
    as nothing is recorded while a call is between its first read of the lists and
    its assignments, every recorded node and file reaches the scripts.  [node_lost],
    [main_scripts_miss], [file_lost]: otherwise one can be lost.  [file_without_node]: a call between the two records of one
    update runs the script of the file without the node, and no other call runs it
    with the node. *)

From S2P Require Import Prelude GoLib Util Callbacks PostUpdate.

Section notify.
(** [POST_UPDATE_SCRIPTS] and [PostUpdateRule]. *)
Context (scripts : list str) (rules : list (list str)).

(** ** State *)

Inductive routine :=
(** [AddUpdatedSchemafiles] and [AddUpdatedNodes]: before the lock and inside;
    [InNodes []] is about to release it *)
| CallFile (f : str)
| CallNodes (ns : list str)
| InFile (f : str)
| InNodes (ns : list str)
(** [invokeCallbackScripts]: the scripts that still get their argument and those
    that have it; the rules left, the scripts of the others, and the first
    command lines; the two assignments of the deferred function; the commands left *)
| Scripts (todo lines : list str)
| Rules (todo : list (list str)) (custom lines : list str)
| ResetFiles (lines : list str)
| ResetNodes (lines : list str)
| Running (lines : list str)
| Ended.

(** [recorded] and [recordedFiles] list what was recorded, [told] the rules'
    scripts and the nodes of each call, [ran] the commands that were run. *)
Record notes := mkNotes {
  updatedFiles : list str;
  updatedNodes_ : list str;
  lk : bool;
  tasks : list routine;
  recorded : list str;
  recordedFiles : list str;
  told : list (list str * list str);
  ran : list str }.

(** The argument of a script. *)
Definition with_nodes (ns : list str) (script : str) : str := script ++ $" " ++ Join ns $",".

Definition goto (s : notes) (i : nat) (t : routine) : list routine := <[i := t]> (tasks s).

(** The next statement of goroutine [i]; [None] when it waits for the lock or has
    ended. *)
Definition advance (s : notes) (i : nat) : option notes :=
  let '(mkNotes fs ns l ts rn rf tl rr) := s in
  match tasks s !! i with
  | Some (CallFile f) => if l then None else Some (mkNotes fs ns true (goto s i (InFile f)) rn rf tl rr)
  | Some (CallNodes []) => Some (mkNotes fs ns l (goto s i Ended) rn rf tl rr)
  | Some (CallNodes new) => if l then None else Some (mkNotes fs ns true (goto s i (InNodes new)) rn rf tl rr)
  | Some (InFile f) => Some (mkNotes (append_unique fs f) ns l (goto s i (InNodes [])) rn (rf ++ [f]) tl rr)
  | Some (InNodes (n :: new)) => Some (mkNotes fs (append_unique ns n) l (goto s i (InNodes new)) (rn ++ [n]) rf tl rr)
  | Some (InNodes []) => Some (mkNotes fs ns false (goto s i Ended) rn rf tl rr)
  | Some (Scripts (x :: todo) lines) =>
      Some (mkNotes fs ns l (goto s i (Scripts todo (lines ++ [with_nodes ns x]))) rn rf tl rr)
  | Some (Scripts [] lines) => Some (mkNotes fs ns l (goto s i (Rules rules [] lines)) rn rf tl rr)
  | Some (Rules (rule :: todo) custom lines) =>
      Some (mkNotes fs ns l (goto s i (Rules todo (add_rule fs custom rule) lines)) rn rf tl rr)
  | Some (Rules [] custom lines) =>
      Some (mkNotes fs ns l (goto s i (ResetFiles (lines ++ map (with_nodes ns) custom))) rn rf (tl ++ [(custom, ns)]) rr)
  | Some (ResetFiles lines) => Some (mkNotes [] ns l (goto s i (ResetNodes lines)) rn rf tl rr)
  | Some (ResetNodes lines) => Some (mkNotes fs [] l (goto s i (Running lines)) rn rf tl rr)
  | Some (Running (x :: lines)) => Some (mkNotes fs ns l (goto s i (Running lines)) rn rf tl (rr ++ [x]))
  | Some (Running []) => Some (mkNotes fs ns l (goto s i Ended) rn rf tl rr)
  | Some Ended | None => None
  end.

(** The tasks of calls that begin. *)
Definition begin_scripts : routine := Scripts scripts [].
Definition notes_init (ts : list routine) : notes := mkNotes [] [] false ts [] [] [] [].

Definition initial (t : routine) : bool :=
  match t with CallFile _ | CallNodes _ => true | Scripts todo [] => bool_decide (todo = scripts) | _ => false end.

(** ** Quiet runs *)

(** A call that has read one of the lists and not emptied both: from the first
    argument of a main script, or the first rule, to the last assignment of
    [GetCustomizeCallbacks]. *)
Definition inside (t : routine) : bool :=
  match t with Scripts _ (_ :: _) | Rules _ _ _ | ResetFiles _ | ResetNodes _ => true | _ => false end.
Definition records (t : routine) : bool :=
  match t with InFile _ | InNodes (_ :: _) => true | _ => false end.

Definition quiet_step (s s' : notes) : Prop :=
  ∃ i, advance s i = Some s' ∧
    (∀ t, tasks s !! i = Some t → records t = true → Forall (fun x => inside x = false) (tasks s)).

(** The scripts of all rules that name the file. *)
Definition serves (f : str) (custom : list str) : Prop :=
  ∀ rule, rule ∈ rules → f ∈ tail rule → rule_script rule ∈ custom.

Definition told_node (s : notes) (n : str) : Prop := ∃ custom ns, (custom, ns) ∈ told s ∧ n ∈ ns.
Definition told_file (s : notes) (f : str) : Prop := ∃ custom ns, (custom, ns) ∈ told s ∧ serves f custom.

(** The scripts a call runs with the nodes it read: those of the due rules, and the
    main ones when it read any node. *)
Definition to_run (custom ns : list str) (x : str) : Prop := x ∈ custom ∨ (ns ≠ [] ∧ x ∈ scripts).

(** The command lines a goroutine has still to run. *)
Definition pending (t : routine) : list str :=
  match t with ResetFiles lines | ResetNodes lines | Running lines => lines | _ => [] end.

(** What a goroutine knows of the lists. *)
Definition task_ok (s : notes) (t : routine) : Prop :=
  match t with
  | Scripts todo lines =>
      ∃ read, scripts = read ++ todo ∧ length lines = length read
        ∧ (updatedNodes_ s = [] ∨ lines = map (with_nodes (updatedNodes_ s)) read)
  | Rules todo custom lines =>
      (updatedNodes_ s = [] ∨ lines = map (with_nodes (updatedNodes_ s)) scripts)
      ∧ ∃ read, rules = read ++ todo
        ∧ (∀ x, [x] ∈ read → x ∈ custom)
        ∧ ∀ f rule, f ∈ updatedFiles s → rule ∈ read → f ∈ tail rule → rule_script rule ∈ custom
  | ResetFiles _ => (∀ f, f ∈ updatedFiles s → told_file s f) ∧ ∀ n, n ∈ updatedNodes_ s → told_node s n
  | ResetNodes _ => ∀ n, n ∈ updatedNodes_ s → told_node s n
  | _ => True
  end.

Definition notes_inv (s : notes) : Prop :=
  (∀ n, n ∈ recorded s → n ∈ updatedNodes_ s ∨ told_node s n)
  ∧ (∀ f, f ∈ recordedFiles s → f ∈ updatedFiles s ∨ told_file s f)
  ∧ Forall (task_ok s) (tasks s)
  ∧ (∀ custom ns x, (custom, ns) ∈ told s → to_run custom ns x →
      with_nodes ns x ∈ ran s ∨ ∃ t, t ∈ tasks s ∧ with_nodes ns x ∈ pending t)
  ∧ ∀ custom ns x, (custom, ns) ∈ told s → [x] ∈ rules → x ∈ custom.

(** ** The invariant of quiet runs *)

Lemma told_node_mono s s' n : told s ⊆ told s' → told_node s n → told_node s' n.
Proof. intros H (custom & ns & Hin & Hn). exists custom, ns. auto. Qed.
Lemma told_file_mono s s' f : told s ⊆ told s' → told_file s f → told_file s' f.
Proof. intros H (custom & ns & Hin & Hn). exists custom, ns. auto. Qed.

(** The lists only shrink, so what a goroutine knows of them stays true. *)
Lemma task_mono s s' t :
  updatedFiles s' ⊆ updatedFiles s → updatedNodes_ s' = updatedNodes_ s ∨ updatedNodes_ s' = [] → told s ⊆ told s' →
  task_ok s t → task_ok s' t.
Proof.
  intros Hf Hn Ht. assert (updatedNodes_ s' ⊆ updatedNodes_ s) as Hsub by (destruct Hn as [-> | ->]; set_solver).
  destruct t; cbn; try done.
  - intros (read & Hr & Hl & H). exists read. split_and!; [done|done|]. destruct Hn as [-> | ->]; [done|by left].
  - intros (Hl & read & Hr & H1 & H). split; [destruct Hn as [-> | ->]; [done|by left]|].
    exists read. split_and!; [done|done|]. intros f rule Hfs. apply H. auto.
  - intros [H1 H2]. split; intros; [eapply told_file_mono|eapply told_node_mono]; eauto.
  - intros H ? ?. eapply told_node_mono; eauto.
Qed.

Lemma outside_ok s s' t : inside t = false → task_ok s t → task_ok s' t.
Proof.
  destruct t as [| | | |todo [|x lines]| | | | |]; cbn; try done.
  intros _ (read & Hr & Hl & _). destruct read; [|done]. exists []. split_and!; [done|done|by right].
Qed.

(** One step of goroutine [i] from [t] to [t']. *)
Lemma inv_move s s' i t t' :
  notes_inv s → tasks s !! i = Some t → tasks s' = <[i := t']> (tasks s) →
  told s ⊆ told s' → ran s ⊆ ran s' →
  (∀ x, x ∈ tasks s → task_ok s x → task_ok s' x) → task_ok s' t' →
  (∀ n, n ∈ recorded s' → n ∈ recorded s ∨ n ∈ updatedNodes_ s') →
  (∀ n, n ∈ updatedNodes_ s → n ∈ updatedNodes_ s' ∨ told_node s' n) →
  (∀ f, f ∈ recordedFiles s' → f ∈ recordedFiles s ∨ f ∈ updatedFiles s') →
  (∀ f, f ∈ updatedFiles s → f ∈ updatedFiles s' ∨ told_file s' f) →
  (∀ c, c ∈ pending t → c ∈ pending t' ∨ c ∈ ran s') →
  (∀ custom ns, (custom, ns) ∈ told s' →
     (custom, ns) ∈ told s
     ∨ (∀ x, to_run custom ns x → with_nodes ns x ∈ pending t') ∧ ∀ x, [x] ∈ rules → x ∈ custom) →
  notes_inv s'.
Proof.
  intros (HN & HF & HT & HC & HA) Hi Hts Htold Hran Hok Hok' Hrn Hn Hrf Hf Hp Hnew.
  assert (t' ∈ tasks s') as Hin'.
  { rewrite Hts. apply list_elem_of_lookup. exists i. apply list_lookup_insert_eq. by eapply lookup_lt_Some. }
  split_and!.
  - intros n [[Hx|Hx]%HN | Hx]%Hrn; [by apply Hn|right; by eapply told_node_mono|by left].
  - intros f [[Hx|Hx]%HF | Hx]%Hrf; [by apply Hf|right; by eapply told_file_mono|by left].
  - rewrite Hts. apply Forall_insert; [|done]. rewrite Forall_forall in HT. rewrite Forall_forall. auto.
  - intros custom ns x [Hold|[Hx _]]%Hnew Hxc; [|right; eauto].
    destruct (HC custom ns x Hold Hxc) as [Hr|(y & Hy & Hyp)]; [left; by apply Hran|].
    apply list_elem_of_lookup in Hy as [j Hj]. destruct (decide (i = j)) as [<-|Hij].
    + rewrite Hi in Hj. injection Hj as <-. destruct (Hp _ Hyp); [right; eauto|by left].
    + right. exists y. split; [|done]. rewrite Hts. apply list_elem_of_lookup. exists j. by rewrite list_lookup_insert_ne.
  - intros custom ns x [Hold|[_ Hx]]%Hnew; [by apply (HA custom ns)|by apply Hx].
Qed.

Lemma append_unique_old' l (x y : str) : y ∈ l → y ∈ append_unique l x.
Proof. rewrite elem_of_append_unique. by left. Qed.

Lemma add_rule_ok fs custom rule :
  (∀ x, x ∈ custom → x ∈ add_rule fs custom rule)
  ∧ (∀ x, rule = [x] → x ∈ add_rule fs custom rule)
  ∧ ∀ f, f ∈ fs → f ∈ tail rule → rule_script rule ∈ add_rule fs custom rule.
Proof.
  rewrite add_rule_due. split_and!.
  - intros x Hx. case_match; [by apply append_unique_old'|done].
  - intros x ->. cbn. rewrite elem_of_append_unique. by right.
  - intros f Hf Hin. assert (due fs rule = true) as ->.
    { destruct rule as [|script [|g gs]]; [by apply elem_of_nil in Hin..|]. cbn [tail] in Hin.
      apply existsb_exists. exists f. split; [by apply list_elem_of_In|by apply InArrayString_spec]. }
    rewrite elem_of_append_unique. by right.
Qed.

(** A step that only moves its goroutine on. *)
Lemma inv_goto fs ns l l' ts rn rf tl rr i t t' :
  let s := mkNotes fs ns l ts rn rf tl rr in
  notes_inv s → ts !! i = Some t → task_ok s t' → pending t ⊆ pending t' →
  notes_inv (mkNotes fs ns l' (<[i := t']> ts) rn rf tl rr).
Proof.
  intros s Hinv Hi Ht' Hp. apply (inv_move s _ i t t' Hinv Hi); cbn; auto.
Qed.

(** A step that records, while nobody is inside [GetCustomizeCallbacks]. *)
Lemma inv_record fs fs' ns ns' l ts rn rn' rf rf' tl rr i t t' :
  notes_inv (mkNotes fs ns l ts rn rf tl rr) → ts !! i = Some t →
  Forall (fun x => inside x = false) ts → (∀ s, task_ok s t') → pending t = [] →
  fs ⊆ fs' → ns ⊆ ns' →
  (∀ n, n ∈ rn' → n ∈ rn ∨ n ∈ ns') → (∀ f, f ∈ rf' → f ∈ rf ∨ f ∈ fs') →
  notes_inv (mkNotes fs' ns' l (<[i := t']> ts) rn' rf' tl rr).
Proof.
  intros Hinv Hi Hq Ht' Hp Hfs Hns Hrn Hrf. apply (inv_move _ _ i t t' Hinv Hi); cbn; auto.
  - intros x Hx. apply outside_ok. rewrite Forall_forall in Hq. auto.
  - rewrite Hp. by intros c ?%elem_of_nil.
Qed.

(** A step that empties one of the lists. *)
Lemma inv_reset fs fs' ns ns' l ts rn rf tl rr i t t' :
  let s := mkNotes fs ns l ts rn rf tl rr in
  notes_inv s → ts !! i = Some t → task_ok (mkNotes fs' ns' l ts rn rf tl rr) t' → pending t ⊆ pending t' →
  fs' ⊆ fs → ns' = ns ∨ ns' = [] →
  (∀ n, n ∈ ns → n ∈ ns' ∨ told_node s n) → (∀ f, f ∈ fs → f ∈ fs' ∨ told_file s f) →
  notes_inv (mkNotes fs' ns' l (<[i := t']> ts) rn rf tl rr).
Proof.
  intros s Hinv Hi Ht' Hp Hfs Hns Hn Hf. apply (inv_move s _ i t t' Hinv Hi); cbn; auto.
  intros x _. by apply task_mono.
Qed.

(** [GetCustomizeCallbacks] reads the nodes. *)
Lemma inv_tell fs ns l ts rn rf tl rr i custom lines :
  notes_inv (mkNotes fs ns l ts rn rf tl rr) → ts !! i = Some (Rules [] custom lines) →
  notes_inv (mkNotes fs ns l (<[i := ResetFiles (lines ++ map (with_nodes ns) custom)]> ts) rn rf (tl ++ [(custom, ns)]) rr).
Proof.
  intros Hinv Hi. assert ((custom, ns) ∈ tl ++ [(custom, ns)]) as Hin by set_solver.
  pose proof (proj1 (proj2 (proj2 Hinv))) as HT. pose proof (Forall_lookup_1 _ _ _ _ HT Hi) as H0. cbn in H0.
  destruct H0 as (Hlines & read & Hread & Halways & Hok). rewrite app_nil_r in Hread. subst read.
  apply (inv_move _ _ i _ (ResetFiles (lines ++ map (with_nodes ns) custom)) Hinv Hi); cbn; auto.
  - set_solver.
  - intros x _. apply task_mono; cbn; [done|by left|set_solver].
  - split; [|intros n Hn; by exists custom, ns].
    intros f Hf. exists custom, ns. split; [done|]. intros rule Hrule. by apply Hok.
  - by intros c ?%elem_of_nil.
  - intros custom' ns' [Hold|[= -> ->]%list_elem_of_singleton]%elem_of_app; [by left|right].
    split; [|done]. intros x Hx. apply elem_of_app. destruct Hx as [Hx|[Hne Hx]]; [right; by apply list_elem_of_fmap_2|left].
    destruct Hlines as [?| ->]; [done|by apply list_elem_of_fmap_2].
Qed.

Lemma inv_quiet s s' : quiet_step s s' → notes_inv s → notes_inv s'.
Proof.
  intros (i & Hstep & Hq) Hinv. destruct s as [fs ns l ts rn rf tl rr]. unfold advance, goto in Hstep. cbn [tasks] in *.
  destruct (ts !! i) as [t|] eqn:Hi; [|done].
  assert (task_ok (mkNotes fs ns l ts rn rf tl rr) t) as Ht.
  { destruct Hinv as (_ & _ & HT & _). by eapply Forall_lookup_1. }
  specialize (Hq t eq_refl). destruct t as [f|[|n new]|f|[|n new]|[|x todo] lines|[|rule todo] custom lines|lines|lines|[|x lines]|];
    try (destruct l; [done|]); try done; injection Hstep as <-;
    try (by eapply inv_goto).
  - eapply inv_record; eauto; [intros ? ?; by apply append_unique_old'|].
    intros g [?|<-%list_elem_of_singleton]%elem_of_app; [by left|right; apply elem_of_append_unique; by right].
  - eapply inv_record; eauto; [intros ? ?; by apply append_unique_old'|].
    intros m [?|<-%list_elem_of_singleton]%elem_of_app; [by left|right; apply elem_of_append_unique; by right].
  - eapply inv_goto; [done|done| |done]. destruct Ht as (read & Hr & _ & Hl). rewrite app_nil_r in Hr. subst read.
    split; [done|]. exists []. split_and!; [done|by intros x ?%elem_of_nil|]. by intros f rule _ ?%elem_of_nil.
  - eapply inv_goto; [done|done| |done]. destruct Ht as (read & Hr & Hlen & Hl). exists (read ++ [x]). split_and!.
    + by rewrite <- app_assoc.
    + rewrite !length_app. cbn. lia.
    + destruct Hl as [Hl| ->]; [by left|right]. by rewrite map_app.
  - by apply inv_tell.
  - eapply inv_goto; [done|done| |done]. destruct Ht as (Hl & read & Hr & Ha & Hok). split; [done|].
    destruct (add_rule_ok fs custom rule) as (Hk & Hone & Hd). exists (read ++ [rule]). split_and!.
    { by rewrite <- app_assoc. }
    { intros x [Hx|Hx%list_elem_of_singleton]%elem_of_app; [by apply Hk, Ha|by apply Hone]. }
    intros f r Hf [Hin|<-%list_elem_of_singleton]%elem_of_app Ht; [eapply Hk, Hok; eauto|by eapply Hd].
  - destruct Ht as [Hf Hn]. eapply inv_reset; eauto; set_solver.
  - eapply inv_reset; eauto; set_solver.
  - apply (inv_move _ _ i _ (Running lines) Hinv Hi); cbn; auto; set_solver.
Qed.

(** ** What the calls still have to record *)

Definition nodes_to_record (t : routine) : list str := match t with CallNodes ns | InNodes ns => ns | _ => [] end.
Definition files_to_record (t : routine) : list str := match t with CallFile f | InFile f => [f] | _ => [] end.

Definition node_due (s : notes) (n : str) : Prop := n ∈ recorded s ∨ ∃ t, t ∈ tasks s ∧ n ∈ nodes_to_record t.
Definition file_due (s : notes) (f : str) : Prop := f ∈ recordedFiles s ∨ ∃ t, t ∈ tasks s ∧ f ∈ files_to_record t.

Lemma some_task_moves (P : routine → Prop) (ts : list routine) (i : nat) t t' (R : Prop) :
  ts !! i = Some t → (P t → P t' ∨ R) → (∃ x, x ∈ ts ∧ P x) → R ∨ ∃ x, x ∈ <[i := t']> ts ∧ P x.
Proof.
  intros Hi Hp (x & Hx & HP). apply list_elem_of_lookup in Hx as [j Hj]. destruct (decide (i = j)) as [<-|Hij].
  - rewrite Hi in Hj. injection Hj as <-. destruct (Hp HP); [right|by left]. exists t'. split; [|done].
    apply list_elem_of_lookup. exists i. apply list_lookup_insert_eq. by eapply lookup_lt_Some.
  - right. exists x. split; [|done]. apply list_elem_of_lookup. exists j. by rewrite list_lookup_insert_ne.
Qed.

Lemma due_step s s' i n f :
  advance s i = Some s' → (node_due s n → node_due s' n) ∧ (file_due s f → file_due s' f).
Proof.
  intros Hstep. destruct s as [fs ns l ts rn rf tl rr]. unfold advance, goto in Hstep. cbn [tasks] in *.
  destruct (ts !! i) as [t|] eqn:Hi; [|done].
  assert (∃ t', tasks s' = <[i := t']> ts ∧ rn ⊆ recorded s' ∧ rf ⊆ recordedFiles s'
    ∧ (n ∈ nodes_to_record t → n ∈ nodes_to_record t' ∨ n ∈ recorded s')
    ∧ (f ∈ files_to_record t → f ∈ files_to_record t' ∨ f ∈ recordedFiles s')) as (t' & Ht & Hrn & Hrf & Hn & Hf).
  { destruct t as [g|[|m new]|g|[|m new]|[|x todo] lines|[|rule todo] custom lines|lines|lines|[|x lines]|];
      try (destruct l; [done|]); try done; injection Hstep as <-; eexists; (split; [reflexivity|]); cbn; set_solver. }
  unfold node_due, file_due. rewrite Ht. cbn [recorded recordedFiles tasks]. split; (intros [H|H]; [left; auto|]).
  - by eapply (some_task_moves (λ x, n ∈ nodes_to_record x)).
  - by eapply (some_task_moves (λ x, f ∈ files_to_record x)).
Qed.

Lemma due_steps s s' n f :
  steps quiet_step s s' → (node_due s n → node_due s' n) ∧ (file_due s f → file_due s' f).
Proof.
  induction 1 as [s|s s1 s2 (i & H & _) _ [IHn IHf]]; [done|]. destruct (due_step s s1 i n f H). auto.
Qed.

Lemma ended_nothing s (A : Type) (get : routine → list A) x :
  Forall (eq Ended) (tasks s) → get Ended = [] → ¬ ∃ t, t ∈ tasks s ∧ x ∈ get t.
Proof. rewrite Forall_forall. intros He Hg (t & <-%He & Hx). rewrite Hg in Hx. by apply elem_of_nil in Hx. Qed.

Lemma inv_init ts : Forall (fun t => initial t = true) ts → notes_inv (notes_init ts).
Proof.
  intros H. split_and!; cbn; [by intros ? ?%elem_of_nil..| |by intros ? ? ? ?%elem_of_nil|by intros ? ? ? ?%elem_of_nil].
  eapply Forall_impl; [exact H|]. intros [| | | |todo [|? ?]| | | | |] Hi; try done.
  cbn in Hi. bool_to_prop. subst todo. exists []. split_and!; [done|done|by left].
Qed.

(** ** A call that runs alone *)

Definition alone (i : nat) (s s' : notes) : Prop := advance s i = Some s'.

Lemma alone_scripts fs ns l ts rn rf tl rr i todo lines :
  ts !! i = Some (Scripts todo lines) →
  steps (alone i) (mkNotes fs ns l ts rn rf tl rr)
    (mkNotes fs ns l (<[i := Scripts [] (lines ++ map (with_nodes ns) todo)]> ts) rn rf tl rr).
Proof.
  revert ts lines. induction todo as [|x todo IH]; intros ts lines Hi.
  - cbn [map]. rewrite app_nil_r, list_insert_id by done. constructor.
  - eapply steps_one; [unfold alone, advance; cbn [tasks]; rewrite Hi; reflexivity|]. unfold goto. cbn [tasks].
    eassert (<[i := Scripts todo (lines ++ [with_nodes ns x])]> ts !! i = Some _) as Hi'
      by (apply list_lookup_insert_eq; by eapply lookup_lt_Some).
    specialize (IH _ _ Hi'). rewrite list_insert_insert_eq in IH. by rewrite <- app_assoc in IH.
Qed.

Lemma alone_rules fs ns l ts rn rf tl rr i todo custom lines :
  ts !! i = Some (Rules todo custom lines) →
  steps (alone i) (mkNotes fs ns l ts rn rf tl rr)
    (mkNotes fs ns l (<[i := Rules [] (fold_left (add_rule fs) todo custom) lines]> ts) rn rf tl rr).
Proof.
  revert ts custom. induction todo as [|x todo IH]; intros ts custom Hi.
  - cbn [fold_left]. rewrite list_insert_id by done. constructor.
  - eapply steps_one; [unfold alone, advance; cbn [tasks]; rewrite Hi; reflexivity|]. unfold goto. cbn [tasks].
    eassert (<[i := Rules todo (add_rule fs custom x) lines]> ts !! i = Some _) as Hi'
      by (apply list_lookup_insert_eq; by eapply lookup_lt_Some).
    specialize (IH _ _ Hi'). by rewrite list_insert_insert_eq in IH.
Qed.

(** ** Theorems *)

(** A call of [invokeCallbackScripts] that nobody interrupts builds the command
    lines of [callback_scripts] from the record it finds, and leaves the record
    that function leaves. *)
Theorem alone_is_callback_scripts (s : notes) (i : nat) (known : gmap str (list str)) :
  tasks s !! i = Some begin_scripts →
  let '(lines, u) := callback_scripts scripts rules (mkUpdated (updatedFiles s) (updatedNodes_ s) known) in
  ∃ s', steps (alone i) s s' ∧ tasks s' = <[i := Running lines]> (tasks s)
    ∧ u = mkUpdated (updatedFiles s') (updatedNodes_ s') known.
Proof.
  destruct s as [fs ns l ts rn rf tl rr]. cbn [tasks]. intros Hi.
  assert (i < length ts) as Hlt by by eapply lookup_lt_Some.
  unfold callback_scripts, GetCustomizeCallbacks. cbn [updatedFiles updatedNodes_ updatedSchemaFiles updatedNodes schemaToNodes].
  eexists. split.
  { eapply steps_trans; [by apply alone_scripts|].
    eapply steps_one; [unfold alone, advance; cbn [tasks]; rewrite list_lookup_insert_eq by done; reflexivity|].
    unfold goto. cbn [tasks]. rewrite list_insert_insert_eq.
    eapply steps_trans; [apply alone_rules; by apply list_lookup_insert_eq|]. rewrite list_insert_insert_eq.
    do 3 (eapply steps_one; [unfold alone, advance; cbn [tasks]; rewrite list_lookup_insert_eq by done; reflexivity|];
      unfold goto; cbn [tasks]; rewrite list_insert_insert_eq).
    apply steps_refl. }
  done.
Qed.

(** C5.  What an update records reaches the scripts: in every run in which nothing is
    recorded while a call of [invokeCallbackScripts] is between its first read of
    one of the two lists and its assignments to them, whatever else is interleaved,
    once all calls have returned every node given to [AddUpdatedNodes] is still in
    the record for the next call, or one call ran every script of
    [POST_UPDATE_SCRIPTS], the script of every rule without files and the scripts
    of the other rules it found due with the node among the arguments; and every
    file given to [AddUpdatedSchemafiles] is still there or some call ran the
    scripts of all rules that name it. *)
Theorem notes_reach_scripts (ts : list routine) (s : notes) :
  Forall (fun t => initial t = true) ts → steps quiet_step (notes_init ts) s → Forall (eq Ended) (tasks s) →
  (∀ new n, CallNodes new ∈ ts → n ∈ new →
     n ∈ updatedNodes_ s
     ∨ ∃ custom ns, (custom, ns) ∈ told s ∧ n ∈ ns ∧ ∀ x, x ∈ scripts ∨ [x] ∈ rules ∨ x ∈ custom → with_nodes ns x ∈ ran s)
  ∧ (∀ f, CallFile f ∈ ts →
     f ∈ updatedFiles s ∨ ∃ custom ns, (custom, ns) ∈ told s ∧ serves f custom ∧ ∀ x, x ∈ custom → with_nodes ns x ∈ ran s).
Proof.
  intros Hts Hs He. destruct (steps_inv _ _ _ _ inv_quiet Hs (inv_init ts Hts)) as (HN & HF & _ & HC & HA).
  assert (∀ custom ns x, (custom, ns) ∈ told s → to_run custom ns x → with_nodes ns x ∈ ran s) as Hran.
  { intros custom ns x Ht Hx. destruct (HC custom ns x Ht Hx) as [?|Hp]; [done|].
    by apply (ended_nothing s str pending) in Hp. }
  split.
  - intros new n Hin Hn. destruct (due_steps _ _ n [] Hs) as [Hd _].
    destruct Hd as [Hr|Hr]; [right; by exists (CallNodes new)| |by apply (ended_nothing s str nodes_to_record) in Hr].
    destruct (HN n Hr) as [?|(custom & ns & Ht & Hns)]; [by left|right]. exists custom, ns.
    split_and!; [done|done|]. intros x Hx. apply (Hran custom ns x Ht).
    destruct Hx as [Hx|[Hx|Hx]]; [right|left; by eapply HA|by left]. split; [|done]. by intros ->; apply elem_of_nil in Hns.
  - intros f Hin. destruct (due_steps _ _ [] f Hs) as [_ Hd].
    destruct Hd as [Hr|Hr]; [right; exists (CallFile f); cbn; set_solver| |by apply (ended_nothing s str files_to_record) in Hr].
    destruct (HF f Hr) as [?|(custom & ns & Ht & Hns)]; [by left|right]. exists custom, ns.
    split_and!; [done|done|]. intros x Hx. apply (Hran custom ns x Ht). by left.
Qed.
End notify.

(** ** Runs *)

(** The goroutines take their steps in the given order; who cannot is passed over. *)
Definition schedule_notes (scripts : list str) (rules : list (list str)) (s : notes) (order : list nat) : notes :=
  fold_left (fun s i => default s (advance rules s i)) order s.

(** Two nodes; the second is recorded after the arguments are made and before the
    record is emptied. *)
Example node_lost :
  let s := schedule_notes [] [[$"reload"]] (notes_init [begin_scripts []; CallNodes [$"db.a"]; CallNodes [$"db.b"]])
             [1; 1; 1; 0; 0; 0; 2; 2; 2; 0; 0; 0; 0] in
  forallb (fun t => match t with Ended => true | _ => false end) (tasks s) = true
  ∧ recorded s = [$"db.a"; $"db.b"] ∧ updatedNodes_ s = [] ∧ told s = [([$"reload"], [$"db.a"])] ∧ ran s = [$"reload db.a"].
Proof. vm_compute. by split_and!. Qed.

(** Without rules, a node recorded after the arguments of the main scripts are made:
    no command gets it. *)
Example main_scripts_miss :
  let s := schedule_notes [$"/bin/notify"] [] (notes_init [begin_scripts [$"/bin/notify"]; CallNodes [$"db.a"]])
             [0; 1; 1; 1; 0; 0; 0; 0; 0; 0; 0] in
  forallb (fun t => match t with Ended => true | _ => false end) (tasks s) = true
  ∧ recorded s = [$"db.a"] ∧ updatedNodes_ s = [] ∧ ran s = [$"/bin/notify "].
Proof. vm_compute. by split_and!. Qed.

(** A file that is recorded after its rule was read. *)
Example file_lost :
  let s := schedule_notes [] [[$"reload"; $"/c/a.schema.php"]] (notes_init [begin_scripts []; CallFile $"/c/a.schema.php"])
             [0; 0; 1; 1; 1; 0; 0; 0; 0] in
  forallb (fun t => match t with Ended => true | _ => false end) (tasks s) = true
  ∧ recordedFiles s = [$"/c/a.schema.php"] ∧ updatedFiles s = [] ∧ ran s = [].
Proof. vm_compute. by split_and!. Qed.

(** An update records its file when it compiles it and its node at the end; the
    call of an earlier update comes between. *)
Definition between_records : list routine :=
  [begin_scripts []; CallFile $"/c/a.schema.php"; CallNodes [$"db.a"]; begin_scripts []].
Example file_without_node :
  let s := schedule_notes [] [[$"reload"; $"/c/a.schema.php"]] (notes_init between_records)
             ([1; 1; 1] ++ [0; 0; 0; 0; 0; 0; 0] ++ [2; 2; 2] ++ [3; 3; 3; 3; 3; 3]) in
  forallb (fun t => match t with Ended => true | _ => false end) (tasks s) = true
  ∧ updatedNodes_ s = [] ∧ ran s = [$"reload "].
Proof. vm_compute. by split_and!. Qed.

(** The order is quiet. *)
Fixpoint quiet_order (rules : list (list str)) (s : notes) (order : list nat) : bool :=
  match order with
  | [] => true
  | i :: rest =>
      match tasks s !! i with
      | Some t => negb (records t) || forallb (fun x => negb (inside x)) (tasks s)
      | None => true
      end && quiet_order rules (default s (advance rules s i)) rest
  end.

Lemma quiet_schedule scripts rules s order :
  quiet_order rules s order = true → steps (quiet_step rules) s (schedule_notes scripts rules s order).
Proof.
  revert s. induction order as [|i order IH]; intros s H; [constructor|]. cbn [quiet_order] in H. bool_to_prop.
  change (steps (quiet_step rules) s (schedule_notes scripts rules (default s (advance rules s i)) order)).
  destruct (advance rules s i) as [s'|] eqn:E; [|by apply IH]. eapply steps_one; [|by apply IH].
  exists i. split; [done|]. intros t Ht Hr. rewrite Ht, Hr in H. cbn in H. rewrite forallb_forall in H.
  apply List.Forall_forall. intros x Hx%H. by apply negb_true_iff.
Qed.

Definition whole_order : list nat := [1; 1; 1; 2; 2; 2; 0; 0; 0; 0; 0; 0; 0; 0; 0].
Definition whole_tasks : list routine := [begin_scripts [$"/bin/notify"]; CallFile $"/c/a.schema.php"; CallNodes [$"db.a"]].

Lemma notes_reach_scripts_witness :
  let s := schedule_notes [$"/bin/notify"] [[$"reload"; $"/c/a.schema.php"]] (notes_init whole_tasks) whole_order in
  (∀ new n, CallNodes new ∈ whole_tasks → n ∈ new →
     n ∈ updatedNodes_ s
     ∨ ∃ custom ns, (custom, ns) ∈ told s ∧ n ∈ ns
         ∧ ∀ x, x ∈ [$"/bin/notify"] ∨ [x] ∈ [[$"reload"; $"/c/a.schema.php"]] ∨ x ∈ custom → with_nodes ns x ∈ ran s)
  ∧ (∀ f, CallFile f ∈ whole_tasks →
     f ∈ updatedFiles s ∨ ∃ custom ns, (custom, ns) ∈ told s ∧ serves [[$"reload"; $"/c/a.schema.php"]] f custom
       ∧ ∀ x, x ∈ custom → with_nodes ns x ∈ ran s).
Proof.
  apply notes_reach_scripts.
  - repeat constructor.
  - apply quiet_schedule. vm_compute. reflexivity.
  - vm_compute. repeat constructor.
Defined.

Lemma alone_is_callback_scripts_witness :
  let s := mkNotes [$"/c/a.schema.php"] [$"db.a"; $"db.b"] true [begin_scripts [$"/bin/n"]] [] [] [] [] in
  ∃ s', steps (alone [[$"reload"; $"/c/a.schema.php"]] 0) s s'
    ∧ tasks s' = [Running [$"/bin/n db.a,db.b"; $"reload db.a,db.b"]]
    ∧ mkUpdated [] [] ∅ = mkUpdated (updatedFiles s') (updatedNodes_ s') ∅.
Proof.
  pose proof (alone_is_callback_scripts [$"/bin/n"] [[$"reload"; $"/c/a.schema.php"]]
    (mkNotes [$"/c/a.schema.php"] [$"db.a"; $"db.b"] true [begin_scripts [$"/bin/n"]] [] [] [] []) 0 ∅ eq_refl) as H.
  exact H.
Defined.
