(* ===== verification/Propagate.v ===== *)
(** * From a changed value to the scripts

    One update of [System] to its end: what [updateProjectConfigByRootNode] of
    [Update] fetches and compiles on the running client, the record of updates of
    [Callbacks] and the goroutine of [PostUpdate] that runs the callbacks and the
    scripts, put together for an update that runs alone ([Notify] has the
    interleavings of the record).

    [change_reaches_scripts]: when the value of an item changed on the server, the
    scripts that the rules give for the files using it run with its name among
    their arguments. *)

From S2P Require Import Prelude GoLib GoFmt Md5Sum Util Regex Schema Json Encrypt Storage ProjConfig NewValue Callbacks Watcher Registry Compile Update Handler System PostUpdate.

(** ** Names and records *)

Lemma item_char_word c : is_item_char c = true → (Z_of_byte c < 128)%Z ∧ is_blank c = false.
Proof.
  intros H. assert (forallb (fun k => let a := ascii_of_nat k in
    negb (is_item_char a) || ((Z_of_byte a <? 128)%Z && negb (is_blank a))) (seq 0 256) = true) as Hall by (vm_compute; reflexivity).
  rewrite forallb_forall in Hall. assert (In (nat_of_ascii c) (seq 0 256)) as Hin.
  { apply in_seq. pose proof (nat_ascii_bounded c). lia. }
  apply Hall in Hin. cbv zeta in Hin. rewrite ascii_nat_embedding, H in Hin. cbn [negb orb] in Hin. bool_to_prop. by split.
Qed.

Lemma item_name_word n : item_name n = true → word n.
Proof.
  intros (Hf & (c & Hc & _) & _)%item_name_spec. split; [by intros ->|].
  eapply Forall_impl; [exact Hf|]. apply item_char_word.
Qed.

(** What [compile] does to the record of updates. *)
Lemma compile_recorded fs value run raw write u path r :
  compile fs value run raw write u path = Done r →
  updatedNodes r.2 = updatedNodes u
  ∧ (∀ q, q ∈ updatedSchemaFiles u → q ∈ updatedSchemaFiles r.2)
  ∧ (IsSchemaFile path = true → path ∈ updatedSchemaFiles r.2).
Proof.
  unfold compile, IsSchemaFile. fold SCHEMAFILE_SUFFIX TOML_SUFFIX.
  assert (updatedNodes (AddUpdatedSchemafiles u path) = updatedNodes u
    ∧ (∀ q, q ∈ updatedSchemaFiles u → q ∈ updatedSchemaFiles (AddUpdatedSchemafiles u path))
    ∧ path ∈ updatedSchemaFiles (AddUpdatedSchemafiles u path)) as (H1 & H2 & H3).
  { cbn. split_and!; [done|intros q Hq|]; rewrite elem_of_append_unique; auto. }
  destruct (HasSuffix path TOML_SUFFIX); [by intros [= <-]|].
  destruct (HasSuffix path SCHEMAFILE_SUFFIX); [|by intros [= <-]].
  destruct (compileSchemaFile _ _ _ _ _); [|done]. by intros [= <-].
Qed.

(** The built-in callbacks return. *)
Lemma invoke_all_returns {O} (run_callback : str → O → outcome (str * option error * O)) (text : str)
    (acc : gmap str str * O) (l : list str) :
  (∀ c o, ∃ r, run_callback c o = Done r) → ∃ r, invoke_all run_callback text acc l = Done r.
Proof.
  intros Hr. revert acc. induction l as [|c l IH]; intros [result o]; cbn [invoke_all]; [eauto|].
  unfold invoke_one. destruct (InArrayString _ c); [|apply IH].
  destruct (Hr c o) as [[[re err] o1] ->]. cbn [mbind outcome_bind]. apply IH.
Qed.

Section propagate.
Context (json_error base64_error : str → error) (print_json : json → str)
  (print_float : Z * Z → str) (print_ver : option json → str).
Context {D : Type} `{!LocalDisk D}.
Context (TomlValueToJson : str → result (option str)).
(** The world the callbacks and the scripts act on. *)
Context {O : Type} (run_callback : str → O → outcome (str * option error * O))
  (exec_command : str → list str → O → str * option str * O).

Abbreviation reads := (update_reads json_error base64_error print_json print_float print_ver TomlValueToJson).
Abbreviation compiling := (compile_now json_error base64_error print_json print_float print_ver TomlValueToJson).

(** The end of [updateProjectConfigByRootNode] after its writes: the nodes are
    recorded, and the goroutine runs. *)
Definition finish_update (granted : bool) (cfg : PostUpdate.settings) (force : bool) (eff : effects (M := host D)) (o : O)
    : outcome (host D * O) :=
  let h := world_ (last eff) in
  r ← after_root_update run_callback exec_command granted cfg (hasUpdateOverall (last eff)) force
        (AddUpdatedNodes (callbacks_state h) (updated_nodes eff)) o;
  Done (mkHost (proc_world h) (files h) r.1, r.2).

Lemma compile_now_records t vs path h r h' :
  compiling t vs path h = Done (r, h') →
  updatedNodes (callbacks_state h') = updatedNodes (callbacks_state h)
  ∧ (∀ q, q ∈ updatedSchemaFiles (callbacks_state h) → q ∈ updatedSchemaFiles (callbacks_state h'))
  ∧ (IsSchemaFile path = true → path ∈ updatedSchemaFiles (callbacks_state h')).
Proof.
  unfold compile_now. intros H.
  match type of H with (?X ≫= _) = _ => destruct X as [its|]; [|done] end. cbn [mbind outcome_bind] in H.
  match type of H with (?X ≫= _) = _ => destruct X as [w|]; [|done] end. cbn [mbind outcome_bind] in H.
  match type of H with (?X ≫= _) = _ => destruct X as [[[err out] u]|] eqn:Ec; [|done] end.
  cbn [mbind outcome_bind] in H. injection H as _ <-. exact (compile_recorded _ _ _ _ _ _ _ _ Ec).
Qed.

(** What an update leaves in the record of updates. *)
Lemma update_reads_records t registered root force h eff :
  reads t registered root force h = Done eff →
  updatedNodes (callbacks_state (world_ (last eff))) = updatedNodes (callbacks_state h)
  ∧ (∀ q, q ∈ compiledFiles (last eff) → q ∈ updatedSchemaFiles (callbacks_state (world_ (last eff))))
  ∧ ∀ n, n ∈ updated_nodes eff → word n ∧ hasUpdateOverall (last eff) = true.
Proof.
  intros H. unfold update_reads in H.
  assert (∀ (n path : str) (m : host D) v m',
    (r ← new_value_now json_error base64_error print_json print_float print_ver TomlValueToJson (env t) n (proc_world m);
     Done (r.1, mkHost r.2 (files m) (callbacks_state m))) = Done (v, m') → callbacks_state m' = callbacks_state m) as Hg.
  { intros n path m v m' E. match type of E with (?X ≫= _) = _ => destruct X as [r|]; [|done] end. by injection E as _ <-. }
  split; [|].
  - destruct (update_values_from _ _ _ _ (λ x, updatedNodes (callbacks_state x) = updatedNodes (callbacks_state h)) (λ _ _, True)
      ltac:(intros n path m v m' Hm E; cbv beta in *; split; [by rewrite (Hg n path m v m' E)|done])
      ltac:(intros vs path m r m' Hm E; cbv beta in *; by rewrite (proj1 (compile_now_records t vs path m r m' E)))
      _ _ _ _ _ _ _ _ eq_refl H) as [Hi _]. exact Hi.
  - destruct (update_noted _ _ _ _ word (λ x q, q ∈ updatedSchemaFiles (callbacks_state x))
      ltac:(intros path items n Hp Hn; apply item_name_word; pose proof (ParseItems_sound (site_fs t) path) as Hs;
            rewrite Hp in Hs; destruct (ReadFile _ _); [done|by apply Hs])
      ltac:(intros n path m v m' q E; cbv beta in *; by rewrite (Hg n path m v m' E))
      ltac:(intros vs path m r m' E; apply (compile_now_records t vs path m r m' E))
      _ _ _ _ _ _ _ _ H) as [[Hn Hc] Hu]. split; [exact Hc|]. intros n. rewrite Hu. apply Hn.
Qed.

(** ** Theorem *)

(** C4.  A changed value reaches the scripts: when an update that nothing else runs
    beside finds that the value of an item changed, no fetch of the item failed, and
    a readable schema file uses it, then the goroutine of the update runs every
    script that a rule gives for all files or for this file, with the item among the
    updated nodes in its argument, and leaves the record of updates empty; it does so
    whether or not [getLockOfExecCallback] [granted] the callbacks. *)
Theorem change_reaches_scripts (granted : bool) (cfg : PostUpdate.settings) (t : site) (registered : list str)
    (root : str) (force : bool) (h : host D) (eff : effects) (o : O)
    (f : SchemaFile) (items : list str) (n script : str) (of_files : list str) :
  DEVMODE (Handler.settings (env t)) = false →
  (∀ c o, ∃ r, run_callback c o = Done r) →
  Forall ascii_text (PostUpdate.scripts cfg ++ map rule_script (rules cfg)) →
  Forall word (updatedNodes (callbacks_state h)) →
  reads t registered root force h = Done eff →
  n ∈ updated_nodes eff →
  f ∈ LoadSchemaFiles (site_fs t) (site_dirs t) → ParseItems (site_fs t) (Path f) = inr items → n ∈ items →
  n ∉ failedConfigItems (last eff) →
  (script :: of_files) ∈ rules cfg → of_files = [] ∨ Path f ∈ of_files →
  ∃ h' o1 o' cmds nodes, finish_update granted cfg force eff o = Done (h', o')
    ∧ o' = fold_left (run_argv exec_command) cmds o1
    ∧ Fields script ++ [Join nodes $","] ∈ cmds ∧ n ∈ nodes
    ∧ updatedNodes (callbacks_state h') = [] ∧ updatedSchemaFiles (callbacks_state h') = [].
Proof.
  intros Hd Hcb Ha Hw H Hn Hf Hpi Hin Hfail Hrule Hof.
  destruct (update_reads_records _ _ _ _ _ _ H) as (Hnodes & Hfiles & Hup).
  assert (Path f ∈ updatedSchemaFiles (callbacks_state (world_ (last eff)))) as Hrec.
  { apply Hfiles. unfold update_reads in H. rewrite Hd in H.
    eapply update_compiled in H as [?|?]; done. }
  destruct (Hup n Hn) as [_ Hoverall]. unfold finish_update, after_root_update. rewrite Hoverall. cbn [orb].
  set (u := AddUpdatedNodes (callbacks_state (world_ (last eff))) (updated_nodes eff)).
  assert (∀ k, k ∈ updatedNodes u ↔ k ∈ updatedNodes (callbacks_state h) ∨ k ∈ updated_nodes eff) as Hu.
  { intros k. unfold u. by rewrite AddUpdatedNodes_elem, Hnodes. }
  assert (updatedSchemaFiles u = updatedSchemaFiles (callbacks_state (world_ (last eff)))) as Hus.
  { unfold u, AddUpdatedNodes. by destruct (updated_nodes eff). }
  unfold invoke. destruct (invoke_all_returns run_callback (valid_text cfg) (∅, o) (callbacks cfg) Hcb) as [[res o1] Hall].
  unfold invokeCallbacks. rewrite Hall. cbn [mbind outcome_bind fst snd].
  destruct (scripts_commands exec_command (PostUpdate.scripts cfg) (rules cfg) u o1) as [results ->].
  - intros Hnil. rewrite Hnil in Hu. by apply (not_elem_of_nil n), Hu; right.
  - apply Forall_forall. intros k [Hk|Hk]%Hu; [by eapply (proj1 (Forall_forall _ _) Hw)|by apply Hup].
  - apply Forall_app in Ha as [Ha1 Ha2]. apply Forall_app. split; [done|].
    rewrite Forall_forall in Ha2. apply Forall_forall. intros x Hx. rewrite first_occurrences_elem in Hx.
    apply Ha2. apply list_elem_of_In, in_map_iff in Hx as (r & <- & Hr%filter_In). apply list_elem_of_In, in_map. by destruct Hr.
  - cbn [mbind outcome_bind fst snd]. do 4 eexists. exists (updatedNodes u). split; [reflexivity|].
    split; [reflexivity|]. split; [|split; [by apply Hu; right|by cbn]].
    apply list_elem_of_In, in_map_iff. exists script. split; [done|]. apply in_or_app. right.
    apply list_elem_of_In, first_occurrences_elem, list_elem_of_In, in_map_iff. exists (script :: of_files). split; [done|].
    apply filter_In. split; [by apply list_elem_of_In|]. rewrite Hus. destruct of_files as [|g gs]; [done|].
    destruct Hof as [?|Hof]; [done|]. apply existsb_exists. exists (Path f). split; [by apply list_elem_of_In|by apply InArrayString_spec].
Qed.
End propagate.

(** ** A run *)

(** A schema file that uses the item [db.host], and the client of [System] after
    the value 2 was published. *)
Definition php_site : site :=
  mkSite (connected h2 20)
    (mkFS (fun p => if bool_decide (p = $"/c/a.schema.php") then inr ($"<?php return " ++ item_text db_host ++ $";") else inl $"not found")
          (fun _ => inr [($"a.schema.php", false)]))
    (fun _ _ => Ran None None (inr $"<?php return 2;")) (fun _ => None) [$"/c"].
Definition php_rules : PostUpdate.settings := mkSettings_ [] [$"/bin/notify -v"] [[$"reload"; $"/c/a.schema.php"]] [].
Definition php_host : host (gmap str str) := mkHost (mkWorld (Mem.mkMem ∅ ∅) ∅) ∅ (mkUpdated [] [] ∅).
Definition note_command (name : str) (args : list str) (o : list (list str)) : str * option str * list (list str) :=
  ([], None, o ++ [name :: args]).
Definition no_callback (c : str) (o : list (list str)) : outcome (str * option error * list (list str)) := Done ([], None, o).

Definition php_update : outcome (effects (M := host (gmap str str))) :=
  update_reads no_json_error no_json_error (fun _ => []) (fun _ => []) (fun _ => []) raw_json php_site [] $"db" false php_host.

(** Both commands run, with the item as their last argument. *)
Example commands_of_change :
  match php_update with
  | Done eff =>
      match finish_update no_callback note_command true php_rules false eff [] with
      | Done (_, o) => o = [[$"/bin/notify"; $"-v"; $"db.host"]; [$"reload"; $"db.host"]]
      | Panic _ => False
      end
  | Panic _ => False
  end.
Proof. vm_compute. reflexivity. Qed.

Lemma change_reaches_scripts_witness :
  match php_update with
  | Done eff =>
      ∃ h' o1 o' cmds nodes, finish_update no_callback note_command true php_rules false eff [] = Done (h', o')
        ∧ o' = fold_left (run_argv note_command) cmds o1
        ∧ Fields $"reload" ++ [Join nodes $","] ∈ cmds ∧ db_host ∈ nodes
        ∧ updatedNodes (callbacks_state h') = [] ∧ updatedSchemaFiles (callbacks_state h') = []
  | Panic _ => False
  end.
Proof.
  assert (match php_update with
          | Done eff => InArrayString (updated_nodes eff) db_host && negb (InArrayString (failedConfigItems (last eff)) db_host)
          | Panic _ => false end = true) as Hb by (vm_compute; reflexivity).
  destruct php_update as [eff|] eqn:E; [|discriminate Hb]. bool_to_prop.
  refine (change_reaches_scripts no_json_error no_json_error (fun _ => []) (fun _ => []) (fun _ => []) raw_json
    no_callback note_command true php_rules php_site [] $"db" false php_host eff []
    (mkSchemaFile (digest_hex ($"<?php return " ++ item_text db_host ++ $";")) $"/c/a.schema.php") [db_host] db_host $"reload"
    [$"/c/a.schema.php"] eq_refl _ _ _ E _ _ _ _ _ _ _).
  - intros c o. by eexists.
  - repeat constructor; vm_compute; reflexivity.
  - constructor.
  - by apply InArrayString_spec.
  - vm_compute. by left.
  - repeat constructor; vm_compute; reflexivity.
  - by left.
  - by apply InArrayString_false.
  - by left.
  - right. by left.
Defined.
