(* ===== verification/Monitor.v ===== *)
(** * Registration and reports (configwatcher/zk_watcher.go)

    [registerMonitor] writes who the client is under its monitor node on the
    configuration server, and [saveUpdateResults] adds the result of an update to
    what is there.  Leases and their renewal are results of the etcd client.

    [reports_kept]: after a registration and any number of reports the node says
    who the client is and what the last report was.  [null_node]: a node that holds
    the text [null] ends the process. *)

From S2P Require Import Prelude GoLib GoFmt Md5Sum Util Schema Json Marshal Storage Stats Watcher Registry.

Section monitor.
(** [config.GetZkConfig()["root"]], [os.Getpid()], [ClientVer], [CONFIG_DIR] (nil
    or a slice). *)
Context (root : str) (pid : Z) (ClientVer : str) (CONFIG_DIR : option (list str)).
(** What [json.Marshal] prints for the float64 of a literal; the format differs
    between releases of Go. *)
Context (number_text : str → str).
Context {W : Type} `{KV : !Zk.EtcdKV W}.

(** The cached name of the node, and the lease. *)
Record monitor := mkMonitor { monitorNodeRoot : str; monitorNodeLease : Z }.

(** The answers around one call: host name, own address, bytes of the program file,
    new lease, renewal. *)
Record answers := mkAnswers {
  hostname : result str;
  dial : result str;
  binary : result str;
  grant : result Z;
  keep_alive : option error }.

Definition cached_monitor_node (a : answers) (s : monitor) : result str * monitor :=
  let '(r, cache) := Zk.MyMonitorNode root (monitorNodeRoot s) (hostname a) (dial a) pid ClientVer in
  (r, mkMonitor cache (monitorNodeLease s)).

Definition strings_json (l : option (list str)) : json :=
  match l with None => JNull | Some l => JArr (map JStr l) end.

Definition registration (clientMd5 : str) : list (str * json) :=
  [($"client_md5", JStr (clientMd5 ++ nl ++ $"VER:" ++ ClientVer)); ($"config_dir", strings_json CONFIG_DIR)].

Definition node_exists (w : W) (path : str) : bool :=
  match Zk.Exists root w path with inr b => b | inl _ => false end.

Definition registerMonitor (a : answers) (s : monitor) (w : W) : option error * monitor * W :=
  let '(r, s) := cached_monitor_node a s in
  match r with
  | inl e => (Some ($"Failed to get monitor node: " ++ e), s, w)
  | inr monitorNode =>
      match Md5File (binary a) with
      | inl e => (Some ($"Failed to get client md5: " ++ e), s, w)
      | inr clientMd5 =>
          match grant a with
          | inl e => (Some e, s, w)
          | inr lease =>
              let s := mkMonitor (monitorNodeRoot s) lease in
              let '(err, w) := if node_exists w monitorNode then (None, w) else Zk.Create root w monitorNode [] in
              match err with
              | Some e => (Some e, s, w)
              | None =>
                  let '(err, w) := Zk.Set_ root w monitorNode (Marshal (JObj (registration clientMd5))) in
                  match err with
                  | Some e => (Some e, s, w)
                  | None => (keep_alive a, s, w)
                  end
              end
          end
      end
  end.

(** ** Reports *)

(** A decoded value encoded again: numbers are float64, objects are maps. *)
Definition sorted_object (l : list (str * json)) : json := JObj (sort_by (fun a b => str_leb a.1 b.1) l).
Fixpoint reencode (j : json) : json :=
  match j with
  | JNum lit => JNum (number_text lit)
  | JArr l => JArr (map reencode l)
  | JObj l => sorted_object (go_map (map (fun kv => (kv.1, reencode kv.2)) l))
  | _ => j
  end.

(** [map[string]string], nil or not. *)
Definition string_map (m : option (gmap str str)) : json :=
  match m with None => JNull | Some m => sorted_object (map_to_list (JStr <$> m)) end.

Record update_report := mkUpdateReport {
  now : Z;
  updateErr : option error;
  callbackResults : option (gmap str str);
  callbackScriptResults : option (gmap str str) }.

(** The assignments to the map. *)
Definition report_fields (r : update_report) : list (str * json) :=
  [($"app_path", JStr (Join (default [] CONFIG_DIR) $":"));
   ($"config_last_update_time", JNum (Itoa (now r)));
   ($"config_last_update_result", JStr (match updateErr r with Some _ => $"not-complete" | None => $"complete" end));
   ($"config_last_update_error_msg", JStr (default [] (updateErr r)));
   ($"callback_result", string_map (callbackResults r));
   ($"callback_script", string_map (callbackScriptResults r))].

Definition set_all (m : gmap str json) (l : list (str * json)) : gmap str json :=
  fold_left (fun m kv => <[kv.1 := kv.2]> m) l m.

(** [var result map[string]interface{}] after [json.Unmarshal] and the repair; a
    nil map cannot be assigned to. *)
Definition decode_info (infoB : str) : outcome (gmap str json) :=
  match Unmarshal infoB with
  | Some (JObj l) => Done (list_to_map (go_map l))
  | Some JNull => Panic $"assignment to entry in nil map"
  | _ => Done ∅
  end.

Definition saveUpdateResults (a : answers) (r : update_report) (s : monitor) (w : W) : outcome (option error * monitor * W) :=
  let '(node, s) := cached_monitor_node a s in
  match node with
  | inl e => Done (Some ($"Failed to get monitor node when save update results: " ++ e), s, w)
  | inr monitorNode =>
      let '(err, s, w) := if node_exists w monitorNode then (None, s, w) else registerMonitor a s w in
      match err with
      | Some e => Done (Some ($"Cannot get registeration node: " ++ e), s, w)
      | None =>
          match Zk.Get root w monitorNode with
          | inl e => Done (Some ($"Cannot get registeration info: " ++ e), s, w)
          | inr infoB =>
              result ← decode_info infoB;
              let infoB := Marshal (sorted_object (map_to_list (set_all (reencode <$> result) (report_fields r)))) in
              let '(err, w) := Zk.Set_ root w monitorNode infoB in
              Done (option_map (fun e => $"Failed to save update results: " ++ e) err, s, w)
          end
      end
  end.

(** Several reports in a row; the first error ends them. *)
Fixpoint save_all (l : list (answers * update_report)) (s : monitor) (w : W) : outcome (option error * monitor * W) :=
  match l with
  | [] => Done (None, s, w)
  | (a, r) :: rest =>
      x ← saveUpdateResults a r s w;
      match x with
      | (None, s, w) => save_all rest s w
      | _ => Done x
      end
  end.

End monitor.

(** ** Lemmas *)

(** What [registerMonitor] writes: strings and lists of strings. *)
Definition plain (v : json) : bool :=
  match v with
  | JNull => true
  | JStr s => valid_utf8 0 s
  | JArr l => forallb (fun x => match x with JStr s => valid_utf8 0 s | _ => false end) l
  | _ => false
  end.

Definition sound (v : json) : Prop := encodable v = true ∧ has_overflow v = false.

Lemma plain_sound v : plain v = true → sound v.
Proof.
  destruct v as [| |lit|s|l|l]; try done. intros H. unfold sound. cbn [plain encodable has_overflow] in *.
  induction l as [|[] l IH]; try done. cbn [forallb existsb encodable has_overflow] in *.
  apply andb_true_iff in H as [-> H]. by apply IH.
Qed.

Lemma plain_reencode nt v : plain v = true → reencode nt v = v.
Proof.
  destruct v as [| |lit|s|l|l]; try done. intros H. cbn [plain reencode] in *. f_equal.
  induction l as [|x l IH]; [done|]. cbn [forallb map] in *. apply andb_true_iff in H as [Hx H]. rewrite (IH H).
  by destruct x.
Qed.

(** A map as a sorted object. *)
Lemma sorted_map_spec (m : gmap str json) :
  let l := sort_by (fun a b => str_leb a.1 b.1) (map_to_list m) in
  l ≡ₚ map_to_list m ∧ NoDup (map fst l) ∧ list_to_map l = m.
Proof.
  intros l. assert (l ≡ₚ map_to_list m) as Hp by apply sort_by_perm.
  assert (NoDup (map fst l)) as Hn by (rewrite Hp; apply NoDup_fst_map_to_list).
  split_and!; [done|done|]. rewrite <- (list_to_map_to_list m). by apply list_to_map_proper.
Qed.

Lemma sorted_map_sound (m : gmap str json) :
  (∀ k v, m !! k = Some v → valid_utf8 0 k = true ∧ sound v) → sound (sorted_object (map_to_list m)).
Proof.
  intros H. unfold sorted_object, sound. cbn [encodable has_overflow].
  assert (∀ kv, kv ∈ sort_by (fun a b => str_leb a.1 b.1) (map_to_list m) → valid_utf8 0 kv.1 = true ∧ sound kv.2) as Hs.
  { intros [k v] Hin. rewrite sort_by_perm in Hin. by apply H, elem_of_map_to_list. }
  induction (sort_by _ _) as [|kv l IH]; [done|]. cbn [forallb existsb]. destruct kv as [k v].
  destruct IH as [-> ->]; [intros; apply Hs; by right|]. destruct (Hs (k, v)) as (Hk & He & Ho); [left|]. cbn in *.
  by rewrite Hk, He, Ho.
Qed.

Lemma string_map_sound (m : option (gmap str str)) :
  (∀ ss k v, m = Some ss → ss !! k = Some v → valid_utf8 0 k = true ∧ valid_utf8 0 v = true) → sound (string_map m).
Proof.
  intros H. destruct m as [ss|]; [|done]. apply sorted_map_sound. intros k v Hk. rewrite lookup_fmap in Hk.
  destruct (ss !! k) as [s|] eqn:E; [|done]. injection Hk as <-. destruct (H ss k s eq_refl E). done.
Qed.

Lemma set_all_lookup (l : list (str * json)) (m : gmap str json) (k : str) :
  NoDup (map fst l) → set_all m l !! k = match (list_to_map l : gmap str json) !! k with Some v => Some v | None => m !! k end.
Proof.
  revert m. induction l as [|[k0 v0] l IH]; intros m; [done|]. intros [Hk Hn]%NoDup_cons. cbn [set_all fold_left fst snd list_to_map].
  change (fold_left _ l (<[k0:=v0]> m)) with (set_all (<[k0:=v0]> m) l). rewrite IH by done.
  destruct (decide (k = k0)) as [->|Hne].
  - rewrite lookup_insert_eq. cbn. rewrite not_elem_of_list_to_map_1 by done. by rewrite !lookup_insert_eq.
  - cbn. by rewrite !lookup_insert_ne.
Qed.

Definition report_keys : list str :=
  [$"app_path"; $"config_last_update_time"; $"config_last_update_result"; $"config_last_update_error_msg";
   $"callback_result"; $"callback_script"].

Lemma report_fields_keys dirs r : map fst (report_fields dirs r) = report_keys.
Proof. done. Qed.

Lemma report_keys_nodup : NoDup report_keys.
Proof. apply (bool_decide_unpack _). vm_compute. done. Qed.

(** The members of a node that make sense to a report. *)
Definition good_info (m : gmap str json) : Prop :=
  ∀ k v, m !! k = Some v → valid_utf8 0 k = true ∧ (k ∈ report_keys ∨ plain v = true).

(** A report in UTF-8, at a time that float64 can hold. *)
Definition report_ok (CONFIG_DIR : option (list str)) (r : update_report) : Prop :=
  Forall (fun kv => sound kv.2) (report_fields CONFIG_DIR r).

Definition reported (CONFIG_DIR : option (list str)) (r : update_report) (m m' : gmap str json) : Prop :=
  (∀ kv, kv ∈ report_fields CONFIG_DIR r → m' !! kv.1 = Some kv.2) ∧ (∀ k, k ∉ report_keys → m' !! k = m !! k).

Lemma report_map (dirs : option (list str)) (nt : str → str) (r : update_report) (m : gmap str json) :
  good_info m → report_ok dirs r →
  let m' := set_all (reencode nt <$> m) (report_fields dirs r) in
  reported dirs r m m' ∧ good_info m' ∧ sound (sorted_object (map_to_list m')).
Proof.
  intros Hm Hr m'.
  assert (∀ k, m' !! k = match (list_to_map (report_fields dirs r) : gmap str json) !! k with Some v => Some v | None => (reencode nt <$> m) !! k end) as Hl.
  { intros k. apply set_all_lookup. rewrite report_fields_keys. apply report_keys_nodup. }
  assert (∀ k, k ∉ report_keys → m' !! k = m !! k) as Hold.
  { intros k Hk. rewrite Hl, not_elem_of_list_to_map_1 by (by rewrite report_fields_keys). rewrite lookup_fmap.
    destruct (m !! k) as [v|] eqn:E; [|done]. cbn. destruct (Hm k v E) as [_ [?|Hp]]; [done|]. by rewrite plain_reencode. }
  assert (∀ kv, kv ∈ report_fields dirs r → m' !! kv.1 = Some kv.2) as Hnew.
  { intros [k v] Hin. cbn [fst snd]. rewrite Hl.
    assert ((list_to_map (report_fields dirs r) : gmap str json) !! k = Some v) as ->; [|done].
    apply elem_of_list_to_map_1; [|done]. rewrite report_fields_keys. apply report_keys_nodup. }
  split; [by split|]. split.
  - intros k v Hk. destruct (decide (k ∈ report_keys)) as [Hin|Hin].
    + split; [|by left]. clear -Hin. unfold report_keys in Hin.
      repeat (apply elem_of_cons in Hin as [->|Hin]; [vm_compute; reflexivity|]). by apply not_elem_of_nil in Hin.
    + rewrite Hold in Hk by done. by apply Hm.
  - apply sorted_map_sound. intros k v Hk. destruct (decide (k ∈ report_keys)) as [Hin|Hin].
    + assert (k ∈ map fst (report_fields dirs r)) as Hin' by (by rewrite report_fields_keys).
      apply list_elem_of_In, in_map_iff in Hin' as ([k' v'] & <- & Hkv%list_elem_of_In).
      pose proof (Hnew _ Hkv) as Hv. cbn [fst snd] in Hv, Hk. rewrite Hv in Hk. injection Hk as <-.
      split; [|exact (proj1 (List.Forall_forall _ _) Hr _ (proj1 (list_elem_of_In _ _) Hkv))].
      clear -Hin. unfold report_keys in Hin. cbn [fst] in Hin.
      repeat (apply elem_of_cons in Hin as [->|Hin]; [vm_compute; reflexivity|]). by apply not_elem_of_nil in Hin.
    + rewrite Hold in Hk by done. destruct (Hm k v Hk) as [Hu [?|Hp]]; [done|]. split; [done|by apply plain_sound].
Qed.

Lemma member_map (l : list (str * json)) (k : str) :
  NoDup (map fst l) → member k l = (list_to_map l : gmap str json) !! k.
Proof.
  induction l as [|[k' v] l IH]; [done|]. intros [Hk Hn]%NoDup_cons. cbn [member list_to_map]. rewrite (IH Hn). cbn.
  destruct (decide (k' = k)) as [->|Hne].
  - rewrite lookup_insert_eq, bool_decide_eq_true_2 by done.
    assert ((list_to_map l : gmap str json) !! k = None) as -> by (by apply not_elem_of_list_to_map_1). done.
  - rewrite lookup_insert_ne, bool_decide_eq_false_2 by done. by destruct (_ !! k).
Qed.

Section node.
Context (root : str) (pid : Z) (ClientVer : str) (dirs : option (list str)) (nt : str → str).
Context {W : Type} `{KV : !Zk.EtcdKV W}.

(** The node exists and holds an object with these members. *)
Definition node_holds (w : W) (path : str) (m : gmap str json) : Prop :=
  node_exists root w path = true ∧ ∃ text l, Zk.Get root w path = inr text ∧ Unmarshal text = Some (JObj l)
    ∧ NoDup (map fst l) ∧ list_to_map l = m.

Lemma set_holds w w' path l :
  Zk.Set_ root w path (Marshal (JObj l)) = (None, w') → sound (JObj l) → NoDup (map fst l) →
  node_holds w' path (list_to_map l).
Proof.
  intros H [He Ho] Hn. unfold Zk.Set_ in H. apply Zk.kv_Get_Put in H. unfold node_holds, node_exists, Zk.Exists, Zk.Get.
  rewrite H. split; [done|]. eexists _, l. split; [done|]. split; [by apply Unmarshal_Marshal|done].
Qed.

Lemma MyMonitorNode_cached a (s : monitor) :
  monitorNodeRoot s ≠ [] → cached_monitor_node root pid ClientVer a s = (inr (monitorNodeRoot s), s).
Proof.
  intros H. unfold cached_monitor_node, Zk.MyMonitorNode. rewrite bool_decide_eq_false_2 by done. cbn. by destruct s.
Qed.

Lemma MyMonitorNode_ok a (s s' : monitor) path :
  cached_monitor_node root pid ClientVer a s = (inr path, s') → monitorNodeRoot s' = path ∧ path ≠ [].
Proof.
  unfold cached_monitor_node, Zk.MyMonitorNode. destruct (decide (monitorNodeRoot s = [])) as [E|E].
  - rewrite bool_decide_eq_true_2 by done. cbn. destruct (hostname a); [done|]. destruct (dial a); [done|].
    intros [= <- <-]. split; [done|]. unfold Zk.MonitorNodeRoot. by destruct root.
  - rewrite bool_decide_eq_false_2 by done. by intros [= <- <-].
Qed.

Lemma report_step a r (s s' : monitor) (w w' : W) m :
  monitorNodeRoot s ≠ [] → node_holds w (monitorNodeRoot s) m → good_info m → report_ok dirs r →
  saveUpdateResults root pid ClientVer dirs nt a r s w = Done (None, s', w') →
  s' = s ∧ ∃ m', node_holds w' (monitorNodeRoot s) m' ∧ good_info m' ∧ reported dirs r m m'.
Proof.
  intros Hc (He & text & l & Hg & Hu & Hn & <-) Hm Hr H. unfold saveUpdateResults in H.
  rewrite MyMonitorNode_cached, He, Hg in H by done. unfold decode_info in H. rewrite Hu, go_map_nodup in H by done.
  cbn [mbind outcome_bind] in H. destruct (report_map dirs nt r _ Hm Hr) as (Hrep & Hgood & Hsound).
  destruct (Zk.Set_ _ _ _ _) as [err w1] eqn:Es. destruct err; [done|]. cbn in H. injection H as <- <-.
  split; [done|]. destruct (sorted_map_spec (set_all (reencode nt <$> list_to_map l) (report_fields dirs r))) as (_ & Hnd & Hl).
  eexists. split; [|split; [exact Hgood|exact Hrep]]. rewrite <- Hl. by apply set_holds in Es.
Qed.

Lemma report_steps l (s s' : monitor) (w w' : W) m :
  monitorNodeRoot s ≠ [] → node_holds w (monitorNodeRoot s) m → good_info m →
  Forall (fun x => report_ok dirs x.2) l →
  save_all root pid ClientVer dirs nt l s w = Done (None, s', w') →
  s' = s ∧ ∃ m', node_holds w' (monitorNodeRoot s) m' ∧ good_info m' ∧ (∀ k, k ∉ report_keys → m' !! k = m !! k)
    ∧ ∀ x, list.last l = Some x → ∀ kv, kv ∈ report_fields dirs x.2 → m' !! kv.1 = Some kv.2.
Proof.
  intros Hc Hh Hm Hl. revert w m Hh Hm. induction Hl as [|[a r] l Hr Hl IH]; intros w m Hh Hm H; cbn [save_all] in H.
  - injection H as <- <-. split; [done|]. by exists m.
  - destruct (saveUpdateResults _ _ _ _ _ a r s w) as [[[[e|] s1] w1]|] eqn:E; [done| |done]. cbn [mbind outcome_bind] in H.
    destruct (report_step _ _ _ _ _ _ _ Hc Hh Hm Hr E) as (-> & m1 & Hh1 & Hm1 & [Hnew Hold]).
    destruct (IH w1 m1 Hh1 Hm1 H) as (-> & m' & Hh' & Hm' & Hk & Hlast). split; [done|].
    exists m'. split_and!; [done|done| |].
    + intros k Hk'. rewrite Hk by done. by apply Hold.
    + intros x Hx kv Hkv. destruct l as [|y l]; [|by apply (Hlast x)].
      injection Hx as <-. cbn [save_all] in H. injection H as <-.
      assert (m' = m1) as ->; [|by apply Hnew].
      destruct Hh' as (_ & t1 & l1 & G1 & U1 & _ & <-), Hh1 as (_ & t2 & l2 & G2 & U2 & _ & <-). congruence.
Qed.

(** The registration is text that the encoder keeps. *)
Lemma client_md5_valid r clientMd5 ver :
  Md5File r = inr clientMd5 → valid_utf8 0 ver = true → valid_utf8 0 (clientMd5 ++ nl ++ $"VER:" ++ ver) = true.
Proof.
  intros [_ Hh]%Md5File_shape Hv. rewrite valid_utf8_ascii by by apply is_hex_ascii.
  by rewrite (valid_utf8_ascii nl), (valid_utf8_ascii $"VER:").
Qed.

Lemma register_holds a (s s' : monitor) (w w' : W) clientMd5 :
  registerMonitor root pid ClientVer dirs a s w = (None, s', w') → Md5File (binary a) = inr clientMd5 →
  sound (JObj (registration ClientVer dirs clientMd5)) →
  monitorNodeRoot s' ≠ [] ∧ node_holds w' (monitorNodeRoot s') (list_to_map (registration ClientVer dirs clientMd5)).
Proof.
  intros H Hmd Hs. unfold registerMonitor in H.
  destruct (cached_monitor_node root pid ClientVer a s) as [[e|path] s1] eqn:E; [done|]. rewrite Hmd in H.
  destruct (MyMonitorNode_ok _ _ _ _ E) as [Hp Hne]. destruct (grant a) as [|lease]; [done|].
  destruct (if node_exists _ _ _ then _ else _) as [[|] w1]; [done|].
  destruct (Zk.Set_ _ _ _ _) as [[|] w2] eqn:Es; [done|]. injection H as _ <- <-. cbn [monitorNodeRoot]. rewrite Hp.
  split; [done|]. apply (set_holds _ _ _ _ Es); [done|]. apply (bool_decide_unpack _). vm_compute. done.
Qed.
End node.

(** C23.  What the configuration server knows of a client: after a registration and
    any number of reports that succeeded, the monitor node decodes to an object with
    the sum of the client's program and its version, its directories, and all
    fields of the last report. *)
Theorem reports_kept (root : str) (pid : Z) (ClientVer : str) (dirs : option (list str)) (nt : str → str)
    {W : Type} `{KV : !Zk.EtcdKV W} (a a' : answers) (r : update_report) (l : list (answers * update_report))
    (s s1 s2 : monitor) (w w1 w2 : W) (clientMd5 : str) :
  Md5File (binary a) = inr clientMd5 → valid_utf8 0 ClientVer = true → plain (strings_json dirs) = true →
  Forall (fun x => report_ok dirs x.2) (l ++ [(a', r)]) →
  registerMonitor root pid ClientVer dirs a s w = (None, s1, w1) →
  save_all root pid ClientVer dirs nt (l ++ [(a', r)]) s1 w1 = Done (None, s2, w2) →
  ∃ text info, Zk.Get root w2 (monitorNodeRoot s2) = inr text ∧ Unmarshal text = Some (JObj info)
    ∧ member $"client_md5" info = Some (JStr (clientMd5 ++ nl ++ $"VER:" ++ ClientVer))
    ∧ member $"config_dir" info = Some (strings_json dirs)
    ∧ ∀ kv, kv ∈ report_fields dirs r → member kv.1 info = Some kv.2.
Proof.
  intros Hmd Hver Hd Hl Hreg Hsave.
  pose proof (client_md5_valid _ _ _ Hmd Hver) as Hv.
  assert (sound (JObj (registration ClientVer dirs clientMd5))) as Hs.
  { destruct (plain_sound _ Hd) as [He Ho]. unfold sound, registration. cbn [encodable has_overflow forallb existsb snd].
    rewrite Hv, He, Ho. done. }
  destruct (register_holds _ _ _ _ _ _ _ _ _ _ Hreg Hmd Hs) as [Hc Hh].
  assert (good_info (list_to_map (registration ClientVer dirs clientMd5))) as Hm.
  { intros k v Hk. apply elem_of_list_to_map_2 in Hk. unfold registration in Hk.
    apply elem_of_cons in Hk as [[= -> ->]|[[= -> ->]|[]%not_elem_of_nil]%elem_of_cons];
      (split; [vm_compute; reflexivity|right]); [exact Hv|exact Hd]. }
  destruct (report_steps _ _ _ _ _ _ _ _ _ _ _ Hc Hh Hm Hl Hsave) as (-> & m' & (_ & text & info & Hg & Hu & Hn & <-) & _ & Hk & Hlast).
  exists text, info. rewrite !member_map by done. split_and!; [done|done|..].
  - rewrite Hk; [reflexivity|]. apply (bool_decide_unpack _). vm_compute. done.
  - rewrite Hk; [reflexivity|]. apply (bool_decide_unpack _). vm_compute. done.
  - intros kv Hkv. rewrite member_map by done. apply (Hlast (a', r)); [|done]. apply last_snoc.
Qed.

(** ** Runs *)

Definition example_answers : answers := mkAnswers (inr $"web1") (inr $"10.0.0.5:4242") (inr []) (inr 7%Z) None.
Definition example_report (t : Z) (e : option error) : update_report :=
  mkUpdateReport t e (Some (<[ $"ClearApc" := $"true" ]> ∅)) None.
Definition example_dirs : option (list str) := Some [$"/etc/app"; $"/srv/app"].
Definition example_nt (s : str) : str := s.

Definition registered : option error * monitor * gmap str str :=
  registerMonitor $"/dove" 42 $"1.2" example_dirs example_answers (mkMonitor [] 0) ∅.
Definition example_reports : list (answers * update_report) :=
  [(example_answers, example_report 1500000000 (Some $"timeout"))].
Definition example_saved : outcome (option error * monitor * gmap str str) :=
  save_all $"/dove" 42 $"1.2" example_dirs example_nt
    (example_reports ++ [(example_answers, example_report 1500000060 None)]) registered.1.2 registered.2.

Example registered_text :
  monitorNodeRoot registered.1.2 = $"/dove_monitor/web1:10.0.0.5@42:1.2"
  ∧ Zk.Get $"/dove" registered.2 $"/dove_monitor/web1:10.0.0.5@42:1.2"
    = inr (Replace $"{'client_md5':'d41d8cd98f00b204e9800998ecf8427e\nVER:1.2','config_dir':['/etc/app','/srv/app']}" $"'" [dquote] (-1)).
Proof. vm_compute. done. Qed.

(** A node that holds [null]. *)
Example null_node : decode_info $" null" = Panic $"assignment to entry in nil map".
Proof. vm_compute. reflexivity. Qed.

Lemma reports_kept_witness :
  match example_saved with
  | Done (None, s2, w2) => ∃ text info, Zk.Get $"/dove" w2 (monitorNodeRoot s2) = inr text ∧ Unmarshal text = Some (JObj info)
      ∧ member $"config_last_update_result" info = Some (JStr $"complete")
      ∧ member $"callback_script" info = Some JNull
  | _ => False
  end.
Proof.
  assert (match example_saved with Done (None, _, _) => true | _ => false end = true) as Hok by (vm_compute; reflexivity).
  assert (registered = (None, registered.1.2, registered.2)) as Hreg.
  { assert (registered.1.1 = None) as H by (vm_compute; reflexivity). destruct registered as [[e s1] w1]. cbn in H. rewrite H. reflexivity. }
  destruct example_saved as [[[[e|] s2] w2]|] eqn:E; [discriminate Hok|clear Hok|discriminate Hok].
  destruct (reports_kept $"/dove" 42 $"1.2" example_dirs example_nt example_answers example_answers (example_report 1500000060 None)
    example_reports (mkMonitor [] 0) registered.1.2 s2 ∅ registered.2 w2 (digest_hex [])) as (text & info & Hg & Hu & _ & _ & Hf).
  - reflexivity.
  - vm_compute. reflexivity.
  - vm_compute. reflexivity.
  - repeat (apply Forall_cons; split); try apply Forall_nil; repeat (apply Forall_cons; split); try apply Forall_nil; trivial;
      split; vm_compute; reflexivity.
  - exact Hreg.
  - exact E.
  - exists text, info. split_and!; [exact Hg|exact Hu|..].
    + apply (Hf ($"config_last_update_result", JStr $"complete")). do 2 right. left.
    + apply (Hf ($"callback_script", JNull)). do 5 right. left.
Defined.
