(* ===== verification/Logger.v ===== *)
(** * The log (logger/logger.go)

    The loggers by level, the file a line goes to and the line itself.  A file
    system is a map from paths to contents; the time is an argument.

    [log_lines]: a line printed at a valid level is appended to the file of the
    level and day and touches no other file.  [two_loggers]: two first calls at once make two of them. *)

From S2P Require Import Prelude GoLib Util Schema.

Definition validLevels : list str := [$"INFO"; $"ERROR"; $"WARN"; $"DEFAULT"].

(** A [CoSafeLogger] with its [DatetimeLogFileWriter]; its number tells it from
    others. *)
Record CoSafeLogger := mkLogger { logDir : str; level : str; flag_short : bool; number : nat }.

(** [loggers], [logAsSingleFile], and the number of loggers made. *)
Record log_state := mkLog { loggers : gmap str CoSafeLogger; logAsSingleFile : bool; made : nat }.

Definition SetSingleFile (s : log_state) : log_state := mkLog (loggers s) true (made s).

(** ** The loggers *)

Definition getLoggerByLevel (s : log_state) (l : str) : option CoSafeLogger := loggers s !! l.
Definition addToLoggers (s : log_state) (l : str) (x : CoSafeLogger) : log_state :=
  mkLog (<[l := x]> (loggers s)) (logAsSingleFile s) (made s).
Definition CreateLogger (LOG_DIR : str) (s : log_state) (l : str) : CoSafeLogger * log_state :=
  (mkLogger LOG_DIR l true (made s), mkLog (loggers s) (logAsSingleFile s) (S (made s))).

Definition level_panic {A} (l : str) : outcome A :=
  Panic ($"Invalid logger level(" ++ l ++ $"), please refer [" ++ Join validLevels $" " ++ $"]").

Definition GetLogger (LOG_DIR : str) (s : log_state) (l : str) : outcome (CoSafeLogger * log_state) :=
  if negb (InArrayString validLevels l) then level_panic l
  else match getLoggerByLevel s l with
       | Some x => Done (x, s)
       | None => let '(x, s) := CreateLogger LOG_DIR s l in Done (x, addToLoggers s l x)
       end.

(** ** A line *)

(** [date]: the day as [2006-01-02]. *)
Definition log_filename (single : bool) (date : str) (w : CoSafeLogger) : str :=
  if single then TrimRight (logDir w) $"/" ++ $"/" ++ $"all." ++ date ++ $".log"
  else TrimRight (logDir w) $"/" ++ $"/" ++ ToLower (level w) ++ $"." ++ date ++ $".log".

(** [DatetimeLogFileWriter.Write]; [open_error] is the error of opening a file,
    which the format has no verb for. *)
Definition Write (single : bool) (date : str) (open_error : str → option error) (w : CoSafeLogger) (p : str) (files : gmap str str)
    : Z * option error * gmap str str :=
  let p := if single then $"[" ++ level w ++ $"] " ++ p else p in
  let name := log_filename single date w in
  match open_error name with
  | None => (Z.of_nat (length p), None, <[name := default [] (files !! name) ++ p]> files)
  | Some err => (0%Z, Some ($"Failed to open log file: " ++ name ++ $" with error: %!(EXTRA *os.PathError=" ++ err ++ $")"), files)
  end.

(** What [InitDefaultLogger] gives the log package of other components: a writer
    of its own level in debug mode, else one that writes nothing. *)
Inductive default_out := FileOut (w : CoSafeLogger) | NullWriter.
Definition InitDefaultLogger (DebugEnabled : bool) (LOG_DIR : str) : default_out :=
  if DebugEnabled then FileOut (mkLogger LOG_DIR $"DEFAULT" false 0) else NullWriter.
Definition default_write (single : bool) (date : str) (open_error : str → option error) (out : default_out) (p : str) (files : gmap str str)
    : Z * option error * gmap str str :=
  match out with
  | FileOut w => Write single date open_error w p files
  | NullWriter => (0%Z, None, files)
  end.

(** [getFormatHeader]: the file and line of the caller, when the runtime knows
    them. *)
Definition getFormatHeader (cl : CoSafeLogger) (caller : option (str * Z)) : str :=
  if negb (flag_short cl) then []
  else let '(file, lineno) := default ($"???", 0%Z) caller in file ++ $":" ++ Itoa lineno ++ $":".

(** [log.Logger.Output]: the time and a line feed unless there is one. *)
Definition log_output (stamp s : str) : str :=
  stamp ++ $" " ++ s ++ (if HasSuffix s nl then [] else nl).

(** [Print] and [Println] with strings, and [Printf] with what [Sprintf] makes of
    the format. *)
Definition Print_text (cl : CoSafeLogger) caller (v : list str) : str := Join (getFormatHeader cl caller :: v) [].
Definition Println_text (cl : CoSafeLogger) caller (v : list str) : str := Join (getFormatHeader cl caller :: v) $" " ++ nl.
Definition Printf_text (Sprintf : str → str) (cl : CoSafeLogger) caller (format : str) : str :=
  Sprintf (getFormatHeader cl caller ++ format).

Definition print_line (single : bool) (date stamp : str) (open_error : str → option error) (cl : CoSafeLogger) (text : str) (files : gmap str str) : gmap str str :=
  (Write single date open_error cl (log_output stamp text) files).2.

(** ** Lemmas *)

Definition log_ok (s : log_state) : Prop := ∀ l x, loggers s !! l = Some x → level x = l ∧ flag_short x = true.

Lemma GetLogger_ok dir s l : log_ok s → l ∈ validLevels →
  ∃ x s', GetLogger dir s l = Done (x, s') ∧ level x = l ∧ flag_short x = true ∧ log_ok s' ∧ loggers s' !! l = Some x
    ∧ logAsSingleFile s' = logAsSingleFile s ∧ (∀ l' y, loggers s !! l' = Some y → loggers s' !! l' = Some y).
Proof.
  intros Hs Hl. unfold GetLogger. rewrite (proj2 (InArrayString_spec _ _)) by done. cbn [negb]. unfold getLoggerByLevel.
  destruct (loggers s !! l) as [x|] eqn:E.
  - exists x, s. destruct (Hs _ _ E). by split_and!.
  - eexists _, _. split; [reflexivity|]. unfold log_ok, addToLoggers. cbn [level flag_short loggers logAsSingleFile]. split_and!; [done|done| |by rewrite lookup_insert_eq|done|].
    + intros l' y. rewrite lookup_insert_Some. intros [[<- <-]|[_ H]]; [done|by apply (Hs l')].
    + intros l' y Hy. rewrite lookup_insert_ne; [done|]. congruence.
Qed.

(** Where a line goes: printing at a valid level succeeds and appends one
    line - the time, the place of the call, the text - to the file of the level and
    the day in the directory of the level's logger, or to the common file, and
    changes no other file; a level keeps the logger it was given; any other level
    ends the process. *)
Theorem log_lines (dir date stamp l text : str) (caller : option (str * Z)) (s : log_state) (files : gmap str str) (open_error : str → option error) :
  log_ok s →
  (l ∉ validLevels → GetLogger dir s l = level_panic l)
  ∧ (l ∈ validLevels → ∃ x s', GetLogger dir s l = Done (x, s') ∧ GetLogger dir s' l = Done (x, s') ∧ log_ok s'
      ∧ (let name := log_filename (logAsSingleFile s) date x in
         let files' := print_line (logAsSingleFile s) date stamp open_error x (Print_text x caller [text]) files in
         (open_error name = None →
            files' !! name = Some (default [] (files !! name) ++ (if logAsSingleFile s then $"[" ++ l ++ $"] " else [])
                                   ++ stamp ++ $" " ++ getFormatHeader x caller ++ text ++ (if HasSuffix (getFormatHeader x caller ++ text) nl then [] else nl)))
         ∧ ∀ other, other ≠ name → files' !! other = files !! other)).
Proof.
  intros Hs. split.
  - intros Hl. unfold GetLogger. by rewrite (proj2 (InArrayString_false _ _)).
  - intros Hl. destruct (GetLogger_ok dir s l Hs Hl) as (x & s' & Hg & Hx & _ & Hs' & Hl' & _).
    exists x, s'. split; [done|]. split.
    { unfold GetLogger, getLoggerByLevel. rewrite (proj2 (InArrayString_spec _ _)), Hl' by done. done. }
    split; [done|]. intros name. unfold print_line, Write. fold name. split.
    + intros ->. cbn [snd]. rewrite lookup_insert_eq. unfold Print_text, log_output. cbn [Join app].
      rewrite Hx. f_equal. f_equal. destruct (logAsSingleFile s); cbn [app]; by rewrite <- ?app_assoc.
    + intros other Hne. destruct (open_error name); [done|]. cbn [snd]. by rewrite lookup_insert_ne.
Qed.

(** Two calls that both look before either adds: the second logger replaces the
    first, and each has a lock of its own. *)
Example two_loggers :
  let s0 := mkLog ∅ false 0 in
  let '(x, s1) := CreateLogger $"/l" s0 $"INFO" in
  let '(y, s2) := CreateLogger $"/l" s1 $"INFO" in
  let s3 := addToLoggers (addToLoggers s2 $"INFO" x) $"INFO" y in
  number x ≠ number y ∧ loggers s3 !! $"INFO" = Some y.
Proof. cbn. done. Qed.

Lemma log_lines_witness :
  ∃ x s', GetLogger $"/var/log/dove/" (mkLog ∅ false 0) $"WARN" = Done (x, s')
    ∧ print_line false $"2018-01-02" $"2018/01/02 03:04:05" (fun _ => None) x (Print_text x (Some ($"a.go", 7%Z)) [$"hi"])
        (<[ $"/var/log/dove/warn.2018-01-02.log" := $"x" ++ nl ]> ∅) !! $"/var/log/dove/warn.2018-01-02.log"
      = Some ($"x" ++ nl ++ $"2018/01/02 03:04:05 a.go:7:hi" ++ nl).
Proof.
  destruct (log_lines $"/var/log/dove/" $"2018-01-02" $"2018/01/02 03:04:05" $"WARN" $"hi" (Some ($"a.go", 7%Z)) (mkLog ∅ false 0)
    (<[ $"/var/log/dove/warn.2018-01-02.log" := $"x" ++ nl ]> ∅) (fun _ => None)) as [_ H].
  { intros l x Hx. discriminate Hx. }
  destruct H as (x & s' & Hg & _ & _ & Hf & _); [do 2 right; left|].
  exists x, s'. split; [exact Hg|]. injection Hg as <- <-. exact (Hf eq_refl).
Defined.
